(** * rpi-fan-controller: frame reader, link supervisor, endpoint table and fan curve

    A shallow embedding of the parts of the repository that carry the wire
    protocol and the fan control:

    - the accumulate-and-extract frame reader of the temperature daemon
      ([serial_read_complete_command] of the modular daemon, and
      [read_complete_command] of the single-file daemon);
    - the supervisor loop of the daemon ([run_main_loop] / [run_daemon]);
    - the response encoder [temperature_format_response];
    - the Arduino side: [TemperatureSensor], [FanController] and the
      single-file sketch with its global arrays.

    Bytes are [ascii]; C [int] counters are [Z] with the wrap-around of
    their width written out; a C [float] is the rational it denotes, each
    operation on it gives the [float] nearest to the exact result, and
    [pow] gives the [float] nearest to the power of the reals. *)

From Stdlib Require Import ZArith Lia Ascii String Bool Arith QArith Qround Qabs
  DecimalString Reals Lra Qreals List.
From Stdlib Require DecimalPos DecimalN Lqa Qpower.
Import ListNotations.

Close Scope Q_scope.
Close Scope R_scope.
Close Scope Z_scope.
Open Scope nat_scope.

(** ** Bytes *)

Definition CR : ascii := "013"%char.
Definition LF : ascii := "010"%char.
Definition NUL : ascii := "000"%char.

Definition bytes (s : string) : list ascii := list_ascii_of_string s.

Definition is_eol (c : ascii) : bool := Ascii.eqb c LF || Ascii.eqb c CR.

(** ** C arrays as lists *)

(** [a[i] = c].  The C code would write out of bounds when [i] is not an
    index of the array; the model leaves the array alone there, and the
    invariant of the reader shows that this never happens. *)
Fixpoint store {A : Type} (i : nat) (c : A) (l : list A) {struct l} : list A :=
  match l with
  | [] => []
  | x :: t => match i with
              | O => c :: t
              | S i' => x :: store i' c t
              end
  end.

(** [memmove(a, a + k, n)]: the [n] bytes at offset [k] are copied to the
    front, the bytes from offset [n] on stay as they are. *)
Definition memmove_front (k n : nat) (l : list ascii) : list ascii :=
  firstn n (skipn k l) ++ skipn n l.

(** [strncpy(dst, src, n)], as the [n] bytes that end up in [dst]: the
    bytes of [src] up to its first NUL, then NUL padding. *)
Fixpoint strncpy (src : list ascii) (n : nat) {struct n} : list ascii :=
  match n with
  | O => []
  | S n' =>
      match src with
      | [] => repeat NUL n
      | c :: t => if Ascii.eqb c NUL then repeat NUL n else c :: strncpy t n'
      end
  end.

(** The C string held by a byte array: the bytes before the first NUL. *)
Fixpoint cstring (l : list ascii) : list ascii :=
  match l with
  | [] => []
  | c :: t => if Ascii.eqb c NUL then [] else c :: cstring t
  end.

(** [for (i = i0; i < i0 + n; i++) if (test i) break;] as the index at
    which the loop breaks, if it does. *)
Fixpoint scan (test : nat -> bool) (i n : nat) : option nat :=
  match n with
  | O => None
  | S n' => if test i then Some i else scan test (S i) n'
  end.

(** The last [n] elements of a list. *)
Definition lastn {A : Type} (n : nat) (l : list A) : list A :=
  skipn (length l - n) l.

(** ** The frame reader (serial.c, and the same code in the single-file daemon) *)

(** [static char g_read_buffer[512]; static int g_buffer_pos;]
    The cursor stays within [0, 511], so it is kept as a [nat]; where the C
    code computes [g_buffer_pos - 1] on an empty buffer and gets [-1], the
    truncated subtraction gives [0], and the loops bounded by it run zero
    times either way. *)
Record rdbuf : Type := mkbuf {
  g_read_buffer : list ascii;
  g_buffer_pos : nat
}.

Definition BUFSZ : nat := 512.

(** [serial_reset_read_buffer]: cursor to 0, buffer zeroed. *)
Definition serial_reset_read_buffer : rdbuf :=
  mkbuf (repeat NUL BUFSZ) 0.

(** One round of the loop that adds the bytes read to the buffer. *)
Definition push_char (st : rdbuf) (c : ascii) : rdbuf :=
  if g_buffer_pos st <? BUFSZ - 1 then
    mkbuf (store (g_buffer_pos st) c (g_read_buffer st)) (S (g_buffer_pos st))
  else
    mkbuf (store (BUFSZ - 2) c (memmove_front 1 (BUFSZ - 2) (g_read_buffer st)))
          (BUFSZ - 1).

(** The whole loop, followed by [g_read_buffer[g_buffer_pos] = '\0']. *)
Definition append_chars (st : rdbuf) (bs : list ascii) : rdbuf :=
  let st' := fold_left push_char bs st in
  mkbuf (store (g_buffer_pos st') NUL (g_read_buffer st')) (g_buffer_pos st').

Definition at_crlf (buf : list ascii) (i : nat) : bool :=
  Ascii.eqb (nth i buf NUL) CR && Ascii.eqb (nth (i + 1) buf NUL) LF.

Definition at_lf (buf : list ascii) (i : nat) : bool :=
  Ascii.eqb (nth i buf NUL) LF.

(** The search for the end of a command: CR LF first, over the whole
    buffer; a lone LF only when there is no CR LF. *)
Definition find_cmd_end (st : rdbuf) : option nat :=
  match scan (at_crlf (g_read_buffer st)) 0 (g_buffer_pos st - 1) with
  | Some i => Some i
  | None => scan (at_lf (g_read_buffer st)) 0 (g_buffer_pos st)
  end.

(** [while (cmd_start < cmd_end && (buf[cmd_start] == '\n' || buf[cmd_start] == '\r')) cmd_start++;]
    with [n] the distance left to [cmd_end]. *)
Fixpoint skip_eol (buf : list ascii) (cmd_start n : nat) : nat :=
  match n with
  | O => cmd_start
  | S n' => if is_eol (nth cmd_start buf NUL)
            then skip_eol buf (S cmd_start) n'
            else cmd_start
  end.

Definition find_cmd_start (st : rdbuf) (cmd_end : nat) : nat :=
  skip_eol (g_read_buffer st) 0 cmd_end.

(** [chars_to_remove]: the command end plus its line ending. *)
Definition chars_to_remove (st : rdbuf) (cmd_end : nat) : nat :=
  if (cmd_end <? g_buffer_pos st - 1) && at_crlf (g_read_buffer st) cmd_end
  then cmd_end + 2
  else if (cmd_end <? g_buffer_pos st) && at_lf (g_read_buffer st) cmd_end
  then cmd_end + 1
  else cmd_end.

(** The removal of the processed bytes from the front of the buffer. *)
Definition remove_front (st : rdbuf) (n : nat) : rdbuf :=
  if n <? g_buffer_pos st then
    let pos' := g_buffer_pos st - n in
    mkbuf (store pos' NUL (memmove_front n pos' (g_read_buffer st))) pos'
  else
    mkbuf (store 0 NUL (g_read_buffer st)) 0.

(** What [select] and [read] do in one call of the reader.  [read] is
    given the 64 bytes of [temp_buf] less one, so the bytes of an [IoData]
    are at most 63 on a real line; nothing below depends on it. *)
Inductive io_event : Type :=
| IoData (bs : list ascii)   (* select > 0, read returned the bytes bs *)
| IoReadFail                 (* select > 0, read returned a negative value *)
| IoTimeout                  (* select = 0 *)
| IoSelectError.             (* select < 0 *)

(** The value returned, with the bytes copied into the caller's buffer
    when a command is returned. *)
Inductive rc_result : Type :=
| RcCommand (out : list ascii)   (* returns cmd_len = length out > 0 *)
| RcNone                         (* returns 0 *)
| RcError.                       (* returns -1 *)

Definition ret_code (r : rc_result) : Z :=
  match r with
  | RcCommand out => Z.of_nat (length out)
  | RcNone => 0
  | RcError => -1
  end.

(** The part of the reader that runs once bytes were read: add them to the
    buffer, look for a command.  [inl] is a return, [inr] the state with
    which the function calls itself again. *)
Definition scan_buffer (size : nat) (st : rdbuf) (bs : list ascii)
  : (rc_result * rdbuf) + rdbuf :=
  let st1 := append_chars st bs in
  match find_cmd_end st1 with
  | None => inl (RcNone, st1)
  | Some cmd_end =>
      let cmd_start := find_cmd_start st1 cmd_end in
      let cmd_len := cmd_end - cmd_start in
      let st2 := remove_front st1 (chars_to_remove st1 cmd_end) in
      if (0 <? cmd_len) && (cmd_len <? size) then
        inl (RcCommand (strncpy (skipn cmd_start (g_read_buffer st1)) cmd_len), st2)
      else
        inr st2
  end.

(** [serial_read_complete_command(fd, buffer, size, timeout_sec)].
    [evs] is what the line does from now on, one event per [select]; once
    it is used up the line is silent and [select] times out.  The caller's
    [size] is far below [INT_MAX], so the cast [(int)size] is left out. *)
Fixpoint serial_read_complete_command (fd : Z) (size : nat) (st : rdbuf)
    (evs : list io_event) : rc_result * rdbuf * list io_event :=
  if (fd <? 0)%Z || (size =? 0) then (RcError, st, evs) else
  match evs with
  | [] => (RcNone, st, [])
  | IoTimeout :: evs' => (RcNone, st, evs')
  | IoSelectError :: evs' => (RcError, st, evs')
  | IoReadFail :: evs' => (RcError, st, evs')
  | IoData [] :: evs' => (RcError, st, evs')
  | IoData bs :: evs' =>
      match scan_buffer size st bs with
      | inl (r, st') => (r, st', evs')
      | inr st' => serial_read_complete_command fd size st' evs'
      end
  end.

(** [read_complete_command(fd, buffer, size)] of the single-file daemon:
    the same body on its own static buffer; a negative [fd] resets the
    buffer and returns 0. *)
Fixpoint read_complete_command (fd : Z) (size : nat) (st : rdbuf)
    (evs : list io_event) : rc_result * rdbuf * list io_event :=
  if (fd <? 0)%Z then (RcNone, serial_reset_read_buffer, evs) else
  match evs with
  | [] => (RcNone, st, [])
  | IoTimeout :: evs' => (RcNone, st, evs')
  | IoSelectError :: evs' => (RcError, st, evs')
  | IoReadFail :: evs' => (RcError, st, evs')
  | IoData [] :: evs' => (RcError, st, evs')
  | IoData bs :: evs' =>
      match scan_buffer size st bs with
      | inl (r, st') => (r, st', evs')
      | inr st' => read_complete_command fd size st' evs'
      end
  end.

(** One call of the reader per chunk of bytes, each chunk being all that
    arrives during its call; the commands returned, in order. *)
Fixpoint feed_calls (fd : Z) (size : nat) (st : rdbuf) (chunks : list (list ascii))
  : list (list ascii) * rdbuf :=
  match chunks with
  | [] => ([], st)
  | c :: rest =>
      let '(r, st', _) := serial_read_complete_command fd size st [IoData c] in
      let '(cmds, st'') := feed_calls fd size st' rest in
      (match r with RcCommand out => out :: cmds | _ => cmds end, st'')
  end.

Definition contents (st : rdbuf) : list ascii :=
  firstn (g_buffer_pos st) (g_read_buffer st).


(** ** C integers *)

(** [int] of the daemon (32 bits) and of the AVR controller (16 bits);
    [++] on the largest value is modelled as the usual wrap-around. *)
Definition wrap_int32 (z : Z) : Z := ((z + 2 ^ 31) mod 2 ^ 32 - 2 ^ 31)%Z.
Definition wrap_int16 (z : Z) : Z := ((z + 2 ^ 15) mod 2 ^ 16 - 2 ^ 15)%Z.
Definition incr32 (z : Z) : Z := wrap_int32 (z + 1).
Definition incr16 (z : Z) : Z := wrap_int16 (z + 1).

(** ** The response encoder (temperature.c) *)

(** Nearest integer, ties to even: the rounding [printf] applies to the
    exact value of its argument. *)
Definition round_half_even (q : Q) : Z :=
  let f := Qfloor q in
  match (q - inject_Z f ?= 1 # 2)%Q with
  | Lt => f
  | Gt => (f + 1)%Z
  | Eq => if Z.even f then f else (f + 1)%Z
  end.

(** The [float] nearest to a rational, ties to even: 24 bits of mantissa,
    subnormals below 2^-126; the values too large for a [float] are left
    as they are. *)
Definition float32 (q : Q) : Q :=
  if Qeq_bool q 0 then 0%Q else
  let a := Qabs q in
  let e0 := (Z.log2 (Qnum a) - Z.log2 (Zpos (Qden a)) - 23)%Z in
  let e1 := if Qle_bool (inject_Z (2 ^ 23)) (a * Qpower 2 (- e0)) then e0 else (e0 - 1)%Z in
  let e := Z.max e1 (-149) in
  let m := round_half_even (a * Qpower 2 (- e)) in
  Qred (inject_Z (if Qlt_le_dec q 0 then - m else m) * Qpower 2 e).

Definition digit (d : Z) : ascii := ascii_of_nat (48 + Z.to_nat d).

Definition decimal (n : Z) : string := NilZero.string_of_uint (N.to_uint (Z.to_N n)).

(** [printf("%.2f", q)] for a finite value [q]. *)
Definition fmt_2f (q : Q) : string :=
  let n := round_half_even (Qabs q * 100) in
  ((if Qlt_le_dec q 0 then "-" else "") ++
   decimal (n / 100) ++ "." ++
   String (digit ((n / 10) mod 10)) (String (digit (n mod 10)) ""))%string.

(** [snprintf(buffer, size, "%s", s)]: the value returned is the length of
    [s]; at most [size - 1] characters are stored. *)
Definition snprintf (size : nat) (s : string) : Z * string :=
  (Z.of_nat (String.length s), substring 0 (size - 1) s).

(** [temperature_format_response(buffer, size, cpu_temp, nvme_temp)]; the
    caller's buffer is never [NULL]. *)
Definition temperature_format_response (size : nat) (cpu_temp nvme_temp : Q)
  : Z * string :=
  if size =? 0 then ((-1)%Z, ""%string)
  else snprintf size
         ("CPU:" ++ fmt_2f cpu_temp ++ "|NVME:" ++ fmt_2f nvme_temp ++ String LF "")%string.

(** ** utils.c *)

Fixpoint dropwhile (p : ascii -> bool) (l : list ascii) : list ascii :=
  match l with
  | [] => []
  | c :: t => if p c then dropwhile p t else l
  end.

Definition is_blank (c : ascii) : bool :=
  Ascii.eqb c " "%char || Ascii.eqb c "009"%char.

Definition is_trailing (c : ascii) : bool :=
  Ascii.eqb c LF || Ascii.eqb c CR || is_blank c.

(** [utils_clean_buffer], on the C string in the buffer: the trailing loop
    stops at the first character ([end > buffer]), the leading loop skips
    blanks and tabs. *)
Definition utils_clean_buffer (s : list ascii) : list ascii :=
  match s with
  | [] => []
  | c :: t => dropwhile is_blank (c :: rev (dropwhile is_trailing (rev t)))
  end.

Definition bytes_eqb (a b : list ascii) : bool :=
  if list_eq_dec ascii_dec a b then true else false.

(** ** The supervisor loop of the daemon *)

Record supervisor : Type := mksup {
  consecutive_errors : Z;
  consecutive_timeouts : Z;
  successful_exchanges : Z;
  startup_sync_mode : Z;
  serial_fd : Z;
  read_state : rdbuf        (* the static buffer of the frame reader *)
}.

(** What the world outside the loop does during one iteration. *)
Record loop_env : Type := mkenv {
  health_ok : bool;          (* ioctl(fd, TIOCMGET) succeeds *)
  setup_fd : Z;              (* the descriptor serial_setup obtains, negative when it fails *)
  line : list io_event;      (* what select and read do during the read call *)
  cpu_reading : Q;           (* what the CPU temperature command yields *)
  nvme_reading : Q           (* what the NVME temperature command yields *)
}.

(** The calls of the loop that act on the link. *)
Inductive action : Type :=
| ActHealthCheck (ok : bool)       (* serial_check_health called, with its result *)
| ActFlush (fd : Z)                (* tcflush(fd, TCIOFLUSH) *)
| ActClose (fd : Z)                (* close(fd) *)
| ActSetup (fd : Z)                (* serial_setup called, with its result; it ends
                                      with the synchronization recovery when it succeeds *)
| ActSend (fd : Z) (data : string) (* write(fd, data) *)
| ActSleep (ms : Z).

Definition serial_check_health (fd : Z) (e : loop_env) : bool :=
  if (fd <? 0)%Z then false else health_ok e.

Definition serial_close (fd : Z) : list action :=
  if (fd >=? 0)%Z then [ActFlush fd; ActClose fd] else [].

(** [serial_setup]: [-1] on failure; on success the descriptor, after
    [serial_recover_synchronization], which resets the read buffer. *)
Definition serial_setup (e : loop_env) (rb : rdbuf) : Z * rdbuf :=
  if (setup_fd e <? 0)%Z then ((-1)%Z, rb) else (setup_fd e, serial_reset_read_buffer).

Definition initial_supervisor (fd : Z) : supervisor :=
  mksup 0 0 0 1 fd serial_reset_read_buffer.

Module Client.

(** rpi5_client/src/main.c, [run_main_loop]: the part of an iteration from
    the read call on. *)
Definition read_phase (s : supervisor) (e : loop_env) : supervisor * list action :=
  let '(r, rb, _) :=
    serial_read_complete_command (serial_fd s) 256 (read_state s) (line e) in
  let bytes_read := ret_code r in
  if (bytes_read >? 0)%Z then
    let buffer :=
      utils_clean_buffer (cstring (match r with RcCommand out => out | _ => [] end)) in
    if bytes_eqb buffer (bytes "POLL") then
      let '(formatted, temp_data) :=
        temperature_format_response 64 (cpu_reading e) (nvme_reading e) in
      if (formatted >? 0)%Z then
        let n := incr32 (successful_exchanges s) in
        (mksup 0 0 (if (n >? 10)%Z then 1%Z else n) 0 (serial_fd s) rb,
         [ActSend (serial_fd s) temp_data])
      else
        (mksup 0 0 (successful_exchanges s) 0 (serial_fd s) rb, [])
    else
      (mksup 0 0 (successful_exchanges s) (startup_sync_mode s) (serial_fd s) rb, [])
  else if (bytes_read <? 0)%Z then
    let errors := incr32 (consecutive_errors s) in
    if (errors >=? 5)%Z then
      let '(fd, rb') := serial_setup e rb in
      let acts := serial_close (serial_fd s) ++ [ActSetup fd] in
      if (fd <? 0)%Z then
        (mksup errors (consecutive_timeouts s) 0 (startup_sync_mode s) fd rb',
         acts ++ [ActSleep 5000])
      else
        (mksup 0 0 0 1 fd rb', acts ++ [ActSleep 500; ActSleep 100])
    else
      (mksup errors (consecutive_timeouts s) 0 (startup_sync_mode s) (serial_fd s) rb,
       [ActSleep 100])
  else
    (mksup (consecutive_errors s) (incr32 (consecutive_timeouts s))
           (successful_exchanges s) (startup_sync_mode s) (serial_fd s) rb, []).

(** One iteration of the [while (g_running)] loop. *)
Definition run_main_loop_iter (s : supervisor) (e : loop_env)
  : supervisor * list action :=
  if (consecutive_timeouts s >? 30)%Z && (successful_exchanges s =? 0)%Z then
    if negb (serial_check_health (serial_fd s) e) then
      let '(fd, rb) := serial_setup e (read_state s) in
      let acts := [ActHealthCheck false] ++ serial_close (serial_fd s) ++ [ActSetup fd] in
      if (fd <? 0)%Z then
        (mksup (consecutive_errors s) (consecutive_timeouts s) (successful_exchanges s)
               (startup_sync_mode s) fd rb,
         acts ++ [ActSleep 5000])
      else
        let '(s', acts') :=
          read_phase (mksup 0 0 (successful_exchanges s) 1 fd rb) e in
        (s', acts ++ [ActSleep 500] ++ acts')
    else
      let '(s', acts') := read_phase s e in
      (s', ActHealthCheck true :: acts')
  else read_phase s e.

End Client.

Module Daemon.

(** The single-file daemon, [run_daemon]: the part of an iteration from
    the read call on. *)
Definition read_phase (s : supervisor) (e : loop_env) : supervisor * list action :=
  let '(r, rb, _) :=
    read_complete_command (serial_fd s) 256 (read_state s) (line e) in
  let bytes_read := ret_code r in
  if (bytes_read >? 0)%Z then
    let buffer :=
      utils_clean_buffer (cstring (match r with RcCommand out => out | _ => [] end)) in
    if bytes_eqb buffer (bytes "POLL") then
      let '(_, temp_data) :=
        snprintf 64 ("CPU:" ++ fmt_2f (cpu_reading e) ++ "|NVME:" ++
                     fmt_2f (nvme_reading e) ++ String LF "")%string in
      let n := incr32 (successful_exchanges s) in
      (mksup 0 0 (if (n >? 10)%Z then 1%Z else n) 0 (serial_fd s) rb,
       [ActSend (serial_fd s) temp_data])
    else
      (mksup 0 0 (successful_exchanges s) (startup_sync_mode s) (serial_fd s) rb, [])
  else if (bytes_read <? 0)%Z then
    let errors := incr32 (consecutive_errors s) in
    if (errors >=? 5)%Z then
      let '(fd, rb') := serial_setup e serial_reset_read_buffer in
      let acts := [ActFlush (serial_fd s); ActClose (serial_fd s); ActSetup fd] in
      if (fd <? 0)%Z then
        (mksup errors (consecutive_timeouts s) 0 (startup_sync_mode s) fd rb',
         acts ++ [ActSleep 5000])
      else
        (mksup 0 0 0 1 fd rb', acts ++ [ActSleep 500; ActSleep 100])
    else
      (mksup errors (consecutive_timeouts s) 0 (startup_sync_mode s) (serial_fd s) rb,
       [ActSleep 100])
  else
    (mksup (consecutive_errors s) (incr32 (consecutive_timeouts s))
           (successful_exchanges s) (startup_sync_mode s) (serial_fd s) rb, []).

(** One iteration of the [while (running)] loop. *)
Definition run_daemon_iter (s : supervisor) (e : loop_env)
  : supervisor * list action :=
  if (consecutive_timeouts s >? 30)%Z && (successful_exchanges s =? 0)%Z then
    if negb (serial_check_health (serial_fd s) e) then
      let '(fd, rb) := serial_setup e serial_reset_read_buffer in
      let acts := [ActHealthCheck false; ActClose (serial_fd s); ActSetup fd] in
      if (fd <? 0)%Z then
        (mksup (consecutive_errors s) (consecutive_timeouts s) (successful_exchanges s)
               (startup_sync_mode s) fd rb,
         acts ++ [ActSleep 5000])
      else
        let '(s', acts') :=
          read_phase (mksup 0 0 (successful_exchanges s) 1 fd rb) e in
        (s', acts ++ [ActSleep 500] ++ acts')
    else
      let '(s', acts') := read_phase s e in
      (s', ActHealthCheck true :: acts')
  else read_phase s e.

End Daemon.

(** A run of the loop: one iteration per element of [es]. *)
Fixpoint run_loop (iter : supervisor -> loop_env -> supervisor * list action)
    (s : supervisor) (es : list loop_env) : supervisor * list action :=
  match es with
  | [] => (s, [])
  | e :: es' =>
      let '(s1, a1) := iter s e in
      let '(s2, a2) := run_loop iter s1 es' in
      (s2, a1 ++ a2)
  end.


(** ** Arduino [String] and C [float] helpers of the controller *)

Definition isspace (c : ascii) : bool :=
  let n := nat_of_ascii c in (n =? 32) || ((9 <=? n) && (n <=? 13)).

Definition is_digit (c : ascii) : bool :=
  let n := nat_of_ascii c in (48 <=? n) && (n <=? 57).

Definition digit_val (c : ascii) : Z := Z.of_nat (nat_of_ascii c - 48).

(** The digits at the front of [l], added to [acc]; how many there were;
    the rest of [l]. *)
Fixpoint read_digits (l : list ascii) (acc : Z) (n : nat) : Z * nat * list ascii :=
  match l with
  | c :: t => if is_digit c then read_digits t (acc * 10 + digit_val c)%Z (S n)
              else (acc, n, l)
  | [] => (acc, n, [])
  end.

Definition read_sign (l : list ascii) : bool * list ascii :=
  match l with
  | c :: t => if Ascii.eqb c "-"%char then (true, t)
              else if Ascii.eqb c "+"%char then (false, t)
              else (false, l)
  | [] => (false, [])
  end.

(** [atof]: leading white space, a sign, digits with an optional decimal
    point, an optional exponent; 0 when there is no number.  The result is
    the rational written; the spellings of infinity and NaN are outside
    the model. *)
Definition atof (l : list ascii) : Q :=
  let '(neg, l1) := read_sign (dropwhile isspace l) in
  let '(ip, ni, l2) := read_digits l1 0%Z 0 in
  let '(m, nf, l3) :=
    match l2 with
    | c :: t => if Ascii.eqb c "."%char then read_digits t ip 0 else (ip, 0, l2)
    | [] => (ip, 0, l2)
    end in
  if ni + nf =? 0 then 0%Q else
  let ex :=
    match l3 with
    | c :: t =>
        if Ascii.eqb c "e"%char || Ascii.eqb c "E"%char then
          let '(eneg, t') := read_sign t in
          let '(ev, ne, _) := read_digits t' 0%Z 0 in
          if ne =? 0 then 0%Z else if eneg then (- ev)%Z else ev
        else 0%Z
    | [] => 0%Z
    end in
  (inject_Z (if neg then - m else m) * Qpower 10 (ex - Z.of_nat nf))%Q.

(** [String::toFloat]: [float(atof(buffer))].  On the AVR [double] has the
    width of [float], so the text is converted once, to the nearest
    [float]. *)
Definition toFloat (s : string) : Q := float32 (atof (list_ascii_of_string s)).

(** [String::indexOf(pattern)]: the index of the first occurrence, or -1. *)
Definition indexOf (s pattern : string) : Z :=
  match String.index 0 pattern s with
  | Some i => Z.of_nat i
  | None => (-1)%Z
  end.

(** [String::substring(left, right)], on unsigned indices: the two are
    swapped when [left > right], and [right] is cut at the length. *)
Definition substring2 (s : string) (left right : Z) : string :=
  let (l, r) := if (left >? right)%Z then (right, left) else (left, right) in
  substring (Z.to_nat l) (Z.to_nat r - Z.to_nat l) s.

(** [String::substring(left)]. *)
Definition substring1 (s : string) (left : Z) : string :=
  substring (Z.to_nat left) (String.length s - Z.to_nat left) s.

(** [String::trim]. *)
Definition trim (s : string) : string :=
  string_of_list_ascii
    (rev (dropwhile isspace (rev (dropwhile isspace (list_ascii_of_string s))))).

Definition startsWith (s p : string) : bool := String.prefix p s.

(** ** [float] arithmetic *)

(** The four operations on [float]: the exact result, rounded. *)
Definition fadd (a b : Q) : Q := float32 (a + b).
Definition fsub (a b : Q) : Q := float32 (a - b).
Definition fmul (a b : Q) : Q := float32 (a * b).
Definition fdiv (a b : Q) : Q := float32 (a / b).

(** The binade of a positive rational: the [k] with 2^k <= a < 2^(k+1). *)
Definition binade (a : Q) : Z :=
  let k0 := (Z.log2 (Qnum a) - Z.log2 (Zpos (Qden a)))%Z in
  if Qle_bool (Qpower 2 k0) a then k0 else (k0 - 1)%Z.

(** Nearest integer to the square root of a rational, ties to even. *)
Definition round_sqrt (s : Q) : Z :=
  let f := Z.sqrt (Qfloor s) in
  match (s ?= (inject_Z f + (1 # 2)) * (inject_Z f + (1 # 2)))%Q with
  | Lt => f
  | Gt => (f + 1)%Z
  | Eq => if Z.even f then f else (f + 1)%Z
  end.

(** The [float] nearest to the square root of a rational, ties to even;
    the square root of [r] lies in the binade [binade r / 2]. *)
Definition sqrt32 (r : Q) : Q :=
  if Qle_bool r 0 then 0%Q else
  let e := Z.max (binade r / 2 - 23) (-149) in
  let m := round_sqrt (r * Qpower 2 (- (2 * e))) in
  Qred (inject_Z m * Qpower 2 e).

(** [pow(x, y)] of the C library for [x >= 0] and an exponent that is a
    whole number of halves, as FAN_CURVE_EXPONENT is: the [float] nearest
    to the power, which is the square root of x^(2y). *)
Definition pow (x y : Q) : Q := sqrt32 (Qpower x (Qfloor (y * 2))).

(** Conversion of a [float] to [int]: truncation toward zero. *)
Definition float_to_int (x : Q) : Z := Z.quot (Qnum x) (Zpos (Qden x)).

(** Array access by a C index. *)
Definition aget {A : Type} (l : list A) (i : Z) (d : A) : A := nth (Z.to_nat i) l d.
Definition aset {A : Type} (l : list A) (i : Z) (v : A) : list A := store (Z.to_nat i) v l.

(** ** The controller: config.h *)

Definition NUM_DEVICES : Z := 4.
Definition MAX_MISSED_POLLS : Z := 10.
Definition CPU_TEMP_MIN : Q := 40.
Definition CPU_TEMP_MAX : Q := 60.
Definition NVME_TEMP_MIN : Q := 40.
Definition NVME_TEMP_MAX : Q := 65.
Definition FAN_SPEED_MIN : Z := 30.
Definition FAN_SPEED_MAX : Z := 255.
Definition FAN_CURVE_EXPONENT : Q := 5 # 2.

(** The largest [float], FLT_MAX of float.h. *)
Definition FLT_MAX : Q := inject_Z ((2 ^ 24 - 1) * 2 ^ 104).

(** [float > float] and the like, as the tests of the code. *)
Definition fgt (a b : Q) : bool := if Qlt_le_dec b a then true else false.
Definition fle (a b : Q) : bool := Qle_bool a b.
Definition fge (a b : Q) : bool := fle b a.

(** The curve between the two thresholds, with [pw] for [pow]:
    [FAN_SPEED_MIN + pow(tempRatio, FAN_CURVE_EXPONENT) * (FAN_SPEED_MAX - FAN_SPEED_MIN)]
    converted to [int]; the two [int] operands are converted to [float]. *)
Definition curve_with (pw : Q -> Q -> Q) (temp minTemp maxTemp : Q) : Z :=
  let tempRatio := fdiv (fsub temp minTemp) (fsub maxTemp minTemp) in
  let curvedRatio := pw tempRatio FAN_CURVE_EXPONENT in
  float_to_int (fadd (inject_Z FAN_SPEED_MIN)
                     (fmul curvedRatio (inject_Z (FAN_SPEED_MAX - FAN_SPEED_MIN)))).

Definition curve : Q -> Q -> Q -> Z := curve_with pow.

(** What the curve needs of [pow] at its exponent: it keeps the order of
    the ratios, and a ratio between 0 and 1 gives a value between 0 and 1. *)
Definition pow_monotone_unit (pw : Q -> Q -> Q) : Prop :=
  (forall x : Q, (0 <= x <= 1)%Q -> (0 <= pw x FAN_CURVE_EXPONENT <= 1)%Q) /\
  (forall x y : Q, (0 <= x)%Q -> (x <= y)%Q -> (y <= 1)%Q ->
                   (pw x FAN_CURVE_EXPONENT <= pw y FAN_CURVE_EXPONENT)%Q).

(** [unsigned int] and [unsigned long] of the AVR controller: 16 and 32
    bits; [usub32 a b] is [a - b] on [unsigned long]. *)
Definition uint16 (z : Z) : Z := (z mod 2 ^ 16)%Z.
Definition uint32 (z : Z) : Z := (z mod 2 ^ 32)%Z.
Definition usub32 (a b : Z) : Z := uint32 (a - b).

Module Controller.

(** temperature_sensor.h *)
Record TemperatureData : Type := mkTD {
  cpuTemp : Q;
  nvmeTemp : Q;
  isValid : bool;
  lastUpdateTime : Z
}.

(** [class TemperatureSensor]; [fanController] tells whether the pointer
    of that name was set by [setFanController]. *)
Record TemperatureSensor : Type := mkTS {
  deviceTemps : list TemperatureData;
  deviceConnected : list bool;
  missedPolls : list Z;
  fanController : bool
}.

(** [class FanController], with the values given to [analogWrite] on the
    fan pin so far, oldest first. *)
Record FanController : Type := mkFC {
  currentPwmValue : Z;
  pwm_writes : list Z
}.

Definition noData : TemperatureData := mkTD 0 0 false 0.

(** The constructors, [setFanController] and [FanController::begin]. *)
Definition initial_sensor (linked : bool) : TemperatureSensor :=
  mkTS (repeat noData 4) (repeat false 4) (repeat 0%Z 4) linked.

Definition initial_fan : FanController := mkFC FAN_SPEED_MIN [FAN_SPEED_MIN].

(** [FanController::calculateFanSpeed]. *)
Definition calculateFanSpeed (temp minTemp maxTemp : Q) : Z :=
  if fle temp minTemp then FAN_SPEED_MIN
  else if fge temp maxTemp then FAN_SPEED_MAX
  else curve temp minTemp maxTemp.

(** [TemperatureSensor::getHighestTemperatures]: the body of its loop,
    on the pair [(highestCpu, highestNvme)], and the loop from (0.0, 0.0). *)
Definition highest_step (h : Q * Q) (d : TemperatureData) : Q * Q :=
  if isValid d then
    (if fgt (cpuTemp d) (fst h) then cpuTemp d else fst h,
     if fgt (nvmeTemp d) (snd h) then nvmeTemp d else snd h)
  else h.

Definition getHighestTemperatures (ts : TemperatureSensor) : Q * Q :=
  fold_left highest_step (deviceTemps ts) (0%Q, 0%Q).

(** [TemperatureSensor::hasTemperatureData]: the test of its loop, and the
    loop. *)
Definition has_data (d : TemperatureData) : bool :=
  isValid d && (fgt (cpuTemp d) 0 || fgt (nvmeTemp d) 0).

Definition hasTemperatureData (ts : TemperatureSensor) : bool :=
  existsb has_data (deviceTemps ts).

(** [FanController::updateFanSpeed]. *)
Definition updateFanSpeed (fc : FanController) (ts : TemperatureSensor)
  : FanController :=
  let '(highestCpuTemp, highestNvmeTemp) := getHighestTemperatures ts in
  if negb (hasTemperatureData ts) then
    mkFC FAN_SPEED_MIN (pwm_writes fc ++ [FAN_SPEED_MIN])
  else
    let cpuFanSpeed := calculateFanSpeed highestCpuTemp CPU_TEMP_MIN CPU_TEMP_MAX in
    let nvmeFanSpeed := calculateFanSpeed highestNvmeTemp NVME_TEMP_MIN NVME_TEMP_MAX in
    let newPwmValue := Z.max cpuFanSpeed nvmeFanSpeed in
    if negb (newPwmValue =? currentPwmValue fc)%Z then
      mkFC newPwmValue (pwm_writes fc ++ [newPwmValue])
    else fc.

(** [TemperatureSensor::parseTemperatureData]; [now] is [millis()]. *)
Definition parseTemperatureData (ts : TemperatureSensor) (fc : FanController)
    (deviceId : Z) (data : string) (now : Z)
  : bool * TemperatureSensor * FanController :=
  if (deviceId <? 0)%Z || (deviceId >=? NUM_DEVICES)%Z then (false, ts, fc) else
  let cpuPos := indexOf data "CPU:" in
  let nvmePos := indexOf data "|NVME:" in
  if negb (cpuPos =? -1)%Z && negb (nvmePos =? -1)%Z then
    let cpuTemp := toFloat (substring2 data (cpuPos + 4) nvmePos) in
    let nvmeTemp := toFloat (substring1 data (nvmePos + 6)) in
    let ts1 :=
      mkTS (aset (deviceTemps ts) deviceId (mkTD cpuTemp nvmeTemp true now))
           (aset (deviceConnected ts) deviceId true)
           (aset (missedPolls ts) deviceId 0%Z)
           (fanController ts) in
    (true, ts1, if fanController ts then updateFanSpeed fc ts1 else fc)
  else (false, ts, fc).

(** [TemperatureSensor::handleMissedPoll]. *)
Definition handleMissedPoll (ts : TemperatureSensor) (fc : FanController)
    (deviceId : Z) : TemperatureSensor * FanController :=
  if (deviceId >=? 0)%Z && (deviceId <? NUM_DEVICES)%Z then
    let missed := incr16 (aget (missedPolls ts) deviceId 0%Z) in
    let ts1 :=
      mkTS (deviceTemps ts) (deviceConnected ts) (aset (missedPolls ts) deviceId missed)
           (fanController ts) in
    if (missed >=? MAX_MISSED_POLLS)%Z && aget (deviceConnected ts) deviceId false then
      let ts2 :=
        mkTS (deviceTemps ts1) (aset (deviceConnected ts1) deviceId false)
             (missedPolls ts1) (fanController ts1) in
      (ts2, if fanController ts then updateFanSpeed fc ts2 else fc)
    else (ts1, fc)
  else (ts, fc).

(** [TemperatureSensor::resetMissedPolls]. *)
Definition resetMissedPolls (ts : TemperatureSensor) (deviceId : Z)
  : TemperatureSensor :=
  if (deviceId >=? 0)%Z && (deviceId <? NUM_DEVICES)%Z then
    mkTS (deviceTemps ts) (deviceConnected ts) (aset (missedPolls ts) deviceId 0%Z)
         (fanController ts)
  else ts.

(** [DeviceCommunication::processSerialResponse]. *)
Definition processSerialResponse (ts : TemperatureSensor) (fc : FanController)
    (deviceId : Z) (response : string) (now : Z)
  : TemperatureSensor * FanController :=
  let cleanResponse := trim response in
  if startsWith cleanResponse "CPU:" && negb (indexOf cleanResponse "|NVME:" =? -1)%Z then
    let '(ok, ts', fc') := parseTemperatureData ts fc deviceId cleanResponse now in
    (if ok then resetMissedPolls ts' deviceId else ts', fc')
  else (ts, fc).

(** The characters of one device as [pollDevices] and [checkIncomingData]
    take them: a line feed hands the line gathered so far to
    [processSerialResponse], a carriage return is dropped, anything else is
    added to [incomingData[deviceId]]. *)
Fixpoint receive (ts : TemperatureSensor) (fc : FanController) (deviceId : Z)
    (incomingData : string) (cs : list ascii) (now : Z)
  : TemperatureSensor * FanController * string :=
  match cs with
  | [] => (ts, fc, incomingData)
  | c :: t =>
      if Ascii.eqb c LF then
        let '(ts', fc') := processSerialResponse ts fc deviceId incomingData now in
        receive ts' fc' deviceId "" t now
      else if negb (Ascii.eqb c CR) then
        receive ts fc deviceId (incomingData ++ String c "")%string t now
      else receive ts fc deviceId incomingData t now
  end.

(** The missed polls of a run, one call of [handleMissedPoll] per element. *)
Definition missed_run (ts : TemperatureSensor) (fc : FanController) (ids : list Z)
  : TemperatureSensor * FanController :=
  fold_left (fun tf id => handleMissedPoll (fst tf) (snd tf) id) ids (ts, fc).

(** [constrain(amt, low, high)] and [map(x, in_min, in_max, out_min, out_max)]
    of the Arduino core; [map] computes in [long], and its division
    truncates.  For an [int] argument and the ranges used here nothing
    leaves the range of [long]. *)
Definition constrain (amt low high : Z) : Z :=
  if (amt <? low)%Z then low else if (amt >? high)%Z then high else amt.

Definition arduino_map (x in_min in_max out_min out_max : Z) : Z :=
  ((x - in_min) * (out_max - out_min) ÷ (in_max - in_min) + out_min)%Z.

(** [FanController::begin]. *)
Definition begin (fc : FanController) : FanController :=
  mkFC FAN_SPEED_MIN (pwm_writes fc ++ [FAN_SPEED_MIN]).

(** [FanController::setFanSpeed]. *)
Definition setFanSpeed (fc : FanController) (pwmValue : Z) : FanController :=
  let pwmValue := constrain pwmValue 0 255 in
  if negb (pwmValue =? currentPwmValue fc)%Z then
    mkFC pwmValue (pwm_writes fc ++ [pwmValue])
  else fc.

(** [FanController::getCurrentPwmValue] and [getCurrentSpeedPercent]. *)
Definition getCurrentPwmValue (fc : FanController) : Z := currentPwmValue fc.

Definition getCurrentSpeedPercent (fc : FanController) : Z :=
  arduino_map (currentPwmValue fc) 0 255 0 100.

(** [TemperatureSensor::getDeviceTemperature] and [isDeviceConnected]. *)
Definition getDeviceTemperature (ts : TemperatureSensor) (deviceId : Z)
  : TemperatureData :=
  if (deviceId >=? 0)%Z && (deviceId <? NUM_DEVICES)%Z
  then aget (deviceTemps ts) deviceId noData
  else noData.

Definition isDeviceConnected (ts : TemperatureSensor) (deviceId : Z) : bool :=
  if (deviceId >=? 0)%Z && (deviceId <? NUM_DEVICES)%Z
  then aget (deviceConnected ts) deviceId false
  else false.

(** device_communication.h: [class DeviceCommunication], without the four
    ports, which are the outside world here. *)
Record DeviceCommunication : Type := mkDC {
  incomingData : list string;
  deviceResponded : list bool;
  lastPollTime : Z;
  commandSentTime : Z;
  currentPollingDevice : Z
}.

Definition POLL_INTERVAL : Z := 1000.
Definition RESPONSE_TIMEOUT : Z := 200.

(** The constructor. *)
Definition initial_comm : DeviceCommunication :=
  mkDC (repeat ""%string 4) (repeat false 4) 0 0 (-1).

(** What one call of [pollDevices] meets outside: the value of [millis()]
    at its start, what [available()] and [read()] give for the port polled
    once the command is out ([None]: nothing available), and the value of
    [millis()] when a line is parsed. *)
Record poll_env : Type := mkpoll {
  currentMillis : Z;
  rx : option ascii;
  parse_millis : Z
}.

(** What a call does that can be seen from outside. *)
Inductive comm_event : Type :=
| EvStart                       (* "Starting device polling sequence" *)
| EvPoll (d : Z)                (* listen() on port d, println("POLL"), flush() *)
| EvLine (d : Z) (s : string)   (* processSerialResponse(d, s) *)
| EvMissed (d : Z)              (* handleMissedPoll(d) *)
| EvDone.                       (* "Completed polling all devices", the summary *)

(** The character taken from port [d]: a line feed hands the line to
    [processSerialResponse], a carriage return is dropped, anything else is
    added to [incomingData[d]].  The result says whether a line was
    completed. *)
Definition take_char (ts : TemperatureSensor) (fc : FanController)
    (data : list string) (d : Z) (c : ascii) (now : Z)
  : TemperatureSensor * FanController * list string * bool :=
  if Ascii.eqb c LF then
    let '(ts', fc') := processSerialResponse ts fc d (aget data d ""%string) now in
    (ts', fc', aset data d ""%string, true)
  else if negb (Ascii.eqb c CR) then
    (ts, fc, aset data d (aget data d ""%string ++ String c "")%string, false)
  else (ts, fc, data, false).

(** [DeviceCommunication::pollDevices]; [tempSensor] is the sensor whose
    address [begin] was given. *)
Definition pollDevices (dc : DeviceCommunication) (ts : TemperatureSensor)
    (fc : FanController) (e : poll_env)
  : DeviceCommunication * TemperatureSensor * FanController * list comm_event :=
  let starting :=
    (currentPollingDevice dc =? -1)%Z &&
    (usub32 (currentMillis e) (lastPollTime dc) >=? POLL_INTERVAL)%Z in
  let cur := if starting then 0%Z else currentPollingDevice dc in
  let last := if starting then currentMillis e else lastPollTime dc in
  let ev0 := if starting then [EvStart] else [] in
  if (cur >=? 0)%Z then
    let sending :=
      negb (aget (deviceResponded dc) cur false) && (commandSentTime dc =? 0)%Z in
    let sent := if sending then currentMillis e else commandSentTime dc in
    let ev1 := if sending then [EvPoll cur] else [] in
    let '(ts1, fc1, data1, responded1, ev2) :=
      match rx e with
      | Some c =>
          let '(ts', fc', data', line) :=
            take_char ts fc (incomingData dc) cur c (parse_millis e) in
          (ts', fc', data',
           if line then aset (deviceResponded dc) cur true else deviceResponded dc,
           if line then [EvLine cur (aget (incomingData dc) cur ""%string)] else [])
      | None => (ts, fc, incomingData dc, deviceResponded dc, [])
      end in
    if aget responded1 cur false ||
       ((sent >? 0)%Z && (usub32 (currentMillis e) sent >=? RESPONSE_TIMEOUT)%Z) then
      let '(ts2, fc2, ev3) :=
        if negb (aget responded1 cur false) then
          let '(ts', fc') := handleMissedPoll ts1 fc1 cur in (ts', fc', [EvMissed cur])
        else (ts1, fc1, []) in
      let responded2 := aset responded1 cur false in
      let next := incr16 cur in
      if (next >=? NUM_DEVICES)%Z then
        (mkDC data1 responded2 last 0 (-1), ts2, fc2, ev0 ++ ev1 ++ ev2 ++ ev3 ++ [EvDone])
      else
        (mkDC data1 responded2 last 0 next, ts2, fc2, ev0 ++ ev1 ++ ev2 ++ ev3)
    else
      (mkDC data1 responded1 last sent cur, ts1, fc1, ev0 ++ ev1 ++ ev2)
  else
    (mkDC (incomingData dc) (deviceResponded dc) last (commandSentTime dc) cur, ts, fc, ev0).

(** [DeviceCommunication::checkIncomingData]: one character at most from
    each port, [rxs] being what the four ports have. *)
Fixpoint check_ports (ts : TemperatureSensor) (fc : FanController)
    (data : list string) (i : Z) (rxs : list (option ascii)) (now : Z)
  : TemperatureSensor * FanController * list string :=
  match rxs with
  | [] => (ts, fc, data)
  | r :: rest =>
      match r with
      | Some c =>
          let '(ts', fc', data', _) := take_char ts fc data i c now in
          check_ports ts' fc' data' (i + 1)%Z rest now
      | None => check_ports ts fc data (i + 1)%Z rest now
      end
  end.

Definition checkIncomingData (dc : DeviceCommunication) (ts : TemperatureSensor)
    (fc : FanController) (rxs : list (option ascii)) (now : Z)
  : DeviceCommunication * TemperatureSensor * FanController :=
  let '(ts', fc', data') :=
    check_ports ts fc (incomingData dc) 0 (firstn 4 rxs) now in
  (mkDC data' (deviceResponded dc) (lastPollTime dc) (commandSentTime dc)
        (currentPollingDevice dc), ts', fc').

End Controller.

(** ** The single-file sketch: the same logic on global arrays *)

Module Sketch.

Record globals : Type := mkG {
  cpuTemps : list Q;
  nvmeTemps : list Q;
  deviceConnected : list bool;
  lastTempUpdateTime : list Z;
  missedPolls : list Z;
  currentPwmValue : Z;
  pwm_writes : list Z        (* the values given to analogWrite, oldest first *)
}.

Definition maxMissedPolls : Z := 10.

(** The initial values of the globals, and [setup]. *)
Definition initial_globals : globals :=
  mkG (repeat 0%Q 4) (repeat 0%Q 4) (repeat false 4) (repeat 0%Z 4) (repeat 0%Z 4)
      FAN_SPEED_MIN [FAN_SPEED_MIN].

(** The loop of [updateFanSpeed] over the devices: its body, on
    [(highestCpuTemp, highestNvmeTemp, anyTemperatureData)] and the pair
    [(cpuTemps[i], nvmeTemps[i])], and the loop. *)
Definition highest_step (h : Q * Q * bool) (cn : Q * Q) : Q * Q * bool :=
  let '(highestCpuTemp, highestNvmeTemp, any) := h in
  if fgt (fst cn) 0 || fgt (snd cn) 0 then
    (if fgt (fst cn) highestCpuTemp then fst cn else highestCpuTemp,
     if fgt (snd cn) highestNvmeTemp then snd cn else highestNvmeTemp,
     true)
  else h.

Definition highest (g : globals) : Q * Q * bool :=
  fold_left highest_step (combine (cpuTemps g) (nvmeTemps g)) (0%Q, 0%Q, false).

(** The two inlined curve computations of [updateFanSpeed]. *)
Definition fanSpeedFor (highestTemp minTemp maxTemp : Q) : Z :=
  if fle highestTemp minTemp then FAN_SPEED_MIN
  else if fge highestTemp maxTemp then FAN_SPEED_MAX
  else curve highestTemp minTemp maxTemp.

(** [updateFanSpeed]. *)
Definition updateFanSpeed (g : globals) : globals :=
  let '(highestCpuTemp, highestNvmeTemp, anyTemperatureData) := highest g in
  if negb anyTemperatureData then
    mkG (cpuTemps g) (nvmeTemps g) (deviceConnected g) (lastTempUpdateTime g)
        (missedPolls g) FAN_SPEED_MIN (pwm_writes g ++ [FAN_SPEED_MIN])
  else
    let cpuFanSpeed := fanSpeedFor highestCpuTemp CPU_TEMP_MIN CPU_TEMP_MAX in
    let nvmeFanSpeed := fanSpeedFor highestNvmeTemp NVME_TEMP_MIN NVME_TEMP_MAX in
    let newPwmValue := Z.max cpuFanSpeed nvmeFanSpeed in
    if negb (newPwmValue =? currentPwmValue g)%Z then
      mkG (cpuTemps g) (nvmeTemps g) (deviceConnected g) (lastTempUpdateTime g)
          (missedPolls g) newPwmValue (pwm_writes g ++ [newPwmValue])
    else g.

(** The block of [pollDevices] that runs when [currentPollingDevice] did
    not respond within [responseTimeout]. *)
Definition missedPoll (g : globals) (currentPollingDevice : Z) : globals :=
  let missed := incr16 (aget (missedPolls g) currentPollingDevice 0%Z) in
  let g1 :=
    mkG (cpuTemps g) (nvmeTemps g) (deviceConnected g) (lastTempUpdateTime g)
        (aset (missedPolls g) currentPollingDevice missed)
        (currentPwmValue g) (pwm_writes g) in
  if (missed >=? maxMissedPolls)%Z && aget (deviceConnected g) currentPollingDevice false then
    updateFanSpeed
      (mkG (cpuTemps g1) (nvmeTemps g1)
           (aset (deviceConnected g1) currentPollingDevice false)
           (lastTempUpdateTime g1) (missedPolls g1) (currentPwmValue g1) (pwm_writes g1))
  else g1.

Definition missed_run (g : globals) (ids : list Z) : globals :=
  fold_left missedPoll ids g.

(** [parseTemperatureData]; [now] is [millis()].  The sketch indexes its
    arrays with [deviceId] unchecked; its callers pass 0 to 3, and an index
    outside the arrays leaves them alone here. *)
Definition parseTemperatureData (g : globals) (deviceId : Z) (data : string) (now : Z)
  : globals :=
  let g1 :=
    mkG (cpuTemps g) (nvmeTemps g) (aset (deviceConnected g) deviceId true)
        (aset (lastTempUpdateTime g) deviceId now) (aset (missedPolls g) deviceId 0%Z)
        (currentPwmValue g) (pwm_writes g) in
  let cpuPos := indexOf data "CPU:" in
  let nvmePos := indexOf data "|NVME:" in
  if negb (cpuPos =? -1)%Z && negb (nvmePos =? -1)%Z then
    let cpu := toFloat (substring2 data (cpuPos + 4) nvmePos) in
    let nvme := toFloat (substring1 data (nvmePos + 6)) in
    updateFanSpeed
      (mkG (aset (cpuTemps g1) deviceId cpu) (aset (nvmeTemps g1) deviceId nvme)
           (deviceConnected g1) (lastTempUpdateTime g1) (missedPolls g1)
           (currentPwmValue g1) (pwm_writes g1))
  else g1.

(** [processSerialResponse]. *)
Definition processSerialResponse (g : globals) (deviceId : Z) (response : string)
    (now : Z) : globals :=
  let response := trim response in
  if startsWith response "CPU:" && negb (indexOf response "|NVME:" =? -1)%Z
  then parseTemperatureData g deviceId response now
  else g.

End Sketch.

(** ** Vocabulary of the statements about the supervisor *)

(** The read of this iteration fails: [select] fails, or [read] returns
    nothing or an error. *)
Definition read_fails (e : loop_env) : bool :=
  match line e with
  | IoSelectError :: _ | IoReadFail :: _ | IoData [] :: _ => true
  | _ => false
  end.

(** The read of this iteration times out. *)
Definition read_times_out (e : loop_env) : bool :=
  match line e with
  | [] | IoTimeout :: _ => true
  | _ => false
  end.

(** Closing the link, and opening it again. *)
Definition link_action (a : action) : bool :=
  match a with
  | ActClose _ | ActSetup _ => true
  | _ => false
  end.

(** The states the loop can be in at the top of an iteration: it is
    entered with the descriptor [serial_setup] returned, which is not
    negative. *)
Definition reachable (iter : supervisor -> loop_env -> supervisor * list action)
    (s : supervisor) : Prop :=
  exists fd es, (0 <= fd)%Z /\ s = fst (run_loop iter (initial_supervisor fd) es).

(** What holds of the counters at the top of every iteration: the count of
    successful exchanges stays within 0 and 10, and it is 0 while there is
    no open descriptor. *)
Definition counters_ok (s : supervisor) : Prop :=
  (0 <= successful_exchanges s <= 10)%Z /\
  (successful_exchanges s <> 0%Z -> (0 <= serial_fd s)%Z).

(** ** Vocabulary of the statements about the controller *)

(** How many times, along the run [ids] of missed polls from state [s],
    the flag goes from true to false. *)
Fixpoint down_transitions {S : Type} (step : S -> Z -> S) (flag : S -> bool)
    (s : S) (ids : list Z) : nat :=
  match ids with
  | [] => 0
  | id :: rest =>
      (if flag s && negb (flag (step s id)) then 1 else 0)
      + down_transitions step flag (step s id) rest
  end.

(** The value [updateFanSpeed] computes from the two highest readings,
    [max(cpuFanSpeed, nvmeFanSpeed)]. *)
Definition fan_output (highestCpuTemp highestNvmeTemp : Q) : Z :=
  Z.max (Controller.calculateFanSpeed highestCpuTemp CPU_TEMP_MIN CPU_TEMP_MAX)
        (Controller.calculateFanSpeed highestNvmeTemp NVME_TEMP_MIN NVME_TEMP_MAX).

(** ** Vocabulary of the statements about the buffers and the tables *)

(** The array has its 512 bytes, the cursor is at most 511, and the byte
    at the cursor is NUL. *)
Definition buffer_ok (st : rdbuf) : Prop :=
  length (g_read_buffer st) = BUFSZ /\
  g_buffer_pos st <= BUFSZ - 1 /\
  nth (g_buffer_pos st) (g_read_buffer st) NUL = NUL.

(** The same without the terminating NUL, as it holds inside the loop. *)
Definition buffer_sized (st : rdbuf) : Prop :=
  length (g_read_buffer st) = BUFSZ /\ g_buffer_pos st <= BUFSZ - 1.

(** Two buffers with the same bytes below the cursor. *)
Definition same_bytes (s1 s2 : rdbuf) : Prop :=
  buffer_sized s1 /\ buffer_sized s2 /\ contents s1 = contents s2.

(** One missed poll, on the sensor and the fan controller it points to. *)
Definition controller_step (tf : Controller.TemperatureSensor * Controller.FanController)
    (id : Z) := Controller.handleMissedPoll (fst tf) (snd tf) id.

(** The flag and counter arrays have their NUM_DEVICES entries. *)
Definition controller_sized (tf : Controller.TemperatureSensor * Controller.FanController)
  : Prop :=
  length (Controller.deviceConnected (fst tf)) = 4 /\
  length (Controller.missedPolls (fst tf)) = 4.

Definition sketch_sized (g : Sketch.globals) : Prop :=
  length (Sketch.deviceConnected g) = 4 /\ length (Sketch.missedPolls g) = 4.

(** ** tachometer.cpp *)

Module Tachometer.

(** [class Tachometer] with its two static counters. *)
Record Tachometer : Type := mkT {
  tachCount : Z;
  rpm : Z;
  lastRpmCalcTime : Z
}.

Definition RPM_CALC_INTERVAL : Z := 1000.

Definition initial : Tachometer := mkT 0 0 0.

(** [tachISR]: one falling edge on the tachometer pin. *)
Definition tachISR (t : Tachometer) : Tachometer :=
  mkT (uint16 (tachCount t + 1)) (rpm t) (lastRpmCalcTime t).

(** [calculateRPM]; [now] is the value of [millis()] at its end. *)
Definition calculateRPM (t : Tachometer) (now : Z) : Tachometer :=
  let count := tachCount t in
  mkT 0 (uint16 (count * 30)) now.

Definition getRPM (t : Tachometer) : Z := rpm t.

(** [shouldCalculateRPM]; [now] is the value of [millis()]. *)
Definition shouldCalculateRPM (t : Tachometer) (now : Z) : bool :=
  (usub32 now (lastRpmCalcTime t) >=? RPM_CALC_INTERVAL)%Z.

(** [n] falling edges in a row. *)
Definition pulses (n : nat) (t : Tachometer) : Tachometer :=
  Nat.iter n tachISR t.

End Tachometer.

(** ** main.cpp: [setup] and [loop] *)

Module Firmware.

(** The four global objects. *)
Record board : Type := mkB {
  tachometer : Tachometer.Tachometer;
  tempSensor : Controller.TemperatureSensor;
  fanController : Controller.FanController;
  deviceComm : Controller.DeviceCommunication
}.

(** What one pass of [loop] meets outside: the falling edges on the
    tachometer pin since the pass before, the values of [millis()] in
    [shouldCalculateRPM] and at the end of [calculateRPM], what
    [pollDevices] meets, and what the four ports have, and the value of
    [millis()], in [checkIncomingData]. *)
Record loop_env : Type := mkloop {
  edges : nat;
  rpm_millis : Z;
  calc_millis : Z;
  poll : Controller.poll_env;
  ports : list (option ascii);
  check_millis : Z
}.

(** [setup]: [linked] tells whether it calls [tempSensor.setFanController],
    as the later of the two versions of main.cpp does. *)
Definition setup (linked : bool) : board :=
  mkB Tachometer.initial (Controller.initial_sensor linked)
      (Controller.begin (Controller.mkFC FAN_SPEED_MIN []))
      Controller.initial_comm.

(** One pass of [loop], with what [pollDevices] did. *)
Definition loop (b : board) (e : loop_env) : board * list Controller.comm_event :=
  let t0 := Tachometer.pulses (edges e) (tachometer b) in
  let t1 := if Tachometer.shouldCalculateRPM t0 (rpm_millis e)
            then Tachometer.calculateRPM t0 (calc_millis e) else t0 in
  let '(dc1, ts1, fc1, evs) :=
    Controller.pollDevices (deviceComm b) (tempSensor b) (fanController b) (poll e) in
  let fc2 := Controller.updateFanSpeed fc1 ts1 in
  let '(dc2, ts2, fc3) :=
    Controller.checkIncomingData dc1 ts1 fc2 (ports e) (check_millis e) in
  (mkB t1 ts2 fc3 dc2, evs).

(** Passes of [loop] in sequence. *)
Fixpoint run (b : board) (es : list loop_env) : board * list Controller.comm_event :=
  match es with
  | [] => (b, [])
  | e :: rest =>
      let '(b1, ev1) := loop b e in
      let '(b2, ev2) := run b1 rest in
      (b2, ev1 ++ ev2)
  end.

End Firmware.

(** ** Vocabulary of the statements about whole lines *)

(** A command text as the controller sends it: no carriage return, line
    feed or NUL in it, not empty, short enough for the caller's buffer and,
    with its line ending, for the read buffer. *)
Definition plain_line (size : nat) (l : list ascii) : Prop :=
  l <> [] /\ length l < size /\ length l + 2 <= BUFSZ - 1 /\
  Forall (fun c => is_eol c = false /\ c <> NUL) l.

(** The two line endings the reader accepts. *)
Definition line_ending (crlf : bool) : list ascii :=
  if crlf then [CR; LF] else [LF].

(** A line on the wire: the text, then its line ending. *)
Definition frame (l : list ascii * bool) : list ascii :=
  fst l ++ line_ending (snd l).

(** ** Vocabulary of the statements about one iteration of the loop *)

(** The test at the top of the loop that guards the liveness probe. *)
Definition probe_gate (s : supervisor) : bool :=
  (consecutive_timeouts s >? 30)%Z && (successful_exchanges s =? 0)%Z.

(** The text written in answer to a poll in this iteration. *)
Definition response (e : loop_env) : string :=
  snd (temperature_format_response 64 (cpu_reading e) (nvme_reading e)).

(** The count of successful exchanges after one more: 1 to 10, then 1
    again. *)
Definition next_exchanges (n : Z) : Z :=
  if (incr32 n >? 10)%Z then 1%Z else incr32 n.

(** The loop is one of the two supervisor loops of the repository. *)
Definition supervisor_loop (iter : supervisor -> loop_env -> supervisor * list action)
  : Prop :=
  iter = Client.run_main_loop_iter \/ iter = Daemon.run_daemon_iter.

(** ** Vocabulary of the statements about the fan controller *)

(** The calls a user of [FanController] can make. *)
Inductive fan_call : Type :=
| CallBegin
| CallUpdate (ts : Controller.TemperatureSensor)
| CallSet (pwmValue : Z).

Definition fan_do (fc : Controller.FanController) (c : fan_call)
  : Controller.FanController :=
  match c with
  | CallBegin => Controller.begin fc
  | CallUpdate ts => Controller.updateFanSpeed fc ts
  | CallSet v => Controller.setFanSpeed fc v
  end.

Definition is_set (c : fan_call) : bool :=
  match c with CallSet _ => true | _ => false end.

(** The object as its constructor leaves it: the floor as value, nothing
    written to the pin yet. *)
Definition constructed_fan : Controller.FanController :=
  Controller.mkFC FAN_SPEED_MIN [].

(** ** Vocabulary of the statements about polling *)

(** What holds of [DeviceCommunication] between two calls: the two arrays
    have their four entries, no entry of [deviceResponded] is set, the
    device polled is one of the four or none (-1), and no command is out
    while none is polled. *)
Definition comm_ok (dc : Controller.DeviceCommunication) : Prop :=
  length (Controller.incomingData dc) = 4 /\
  length (Controller.deviceResponded dc) = 4 /\
  Forall (fun b => b = false) (Controller.deviceResponded dc) /\
  (-1 <= Controller.currentPollingDevice dc < 4)%Z /\
  (Controller.currentPollingDevice dc = (-1)%Z -> Controller.commandSentTime dc = 0%Z).

(** Where a round of polling stands. *)
Inductive turn : Type :=
| Idle                (* no round under way *)
| Due (d : Z)         (* device d is next, its command not yet sent *)
| Waiting (d : Z)     (* the command is out to device d *)
| Closing.            (* the last device is done, the round not yet closed *)

Definition after_device (d : Z) : turn :=
  if (d + 1 >=? NUM_DEVICES)%Z then Closing else Due (d + 1).

(** The order of events of a round: the start, then for each device in
    turn its command followed by its line or its missed poll, then the
    end. *)
Definition turn_step (t : turn) (ev : Controller.comm_event) : option turn :=
  match t, ev with
  | Idle, Controller.EvStart => Some (Due 0)
  | Due d, Controller.EvPoll d' => if (d =? d')%Z then Some (Waiting d) else None
  | Waiting d, Controller.EvLine d' _ => if (d =? d')%Z then Some (after_device d) else None
  | Waiting d, Controller.EvMissed d' => if (d =? d')%Z then Some (after_device d) else None
  | Closing, Controller.EvDone => Some Idle
  | _, _ => None
  end.

Fixpoint turn_run (t : turn) (evs : list Controller.comm_event) : option turn :=
  match evs with
  | [] => Some t
  | ev :: rest =>
      match turn_step t ev with
      | Some t' => turn_run t' rest
      | None => None
      end
  end.

(** Where the round stands according to the fields of the object. *)
Definition turn_of (dc : Controller.DeviceCommunication) : turn :=
  if (Controller.currentPollingDevice dc <? 0)%Z then Idle
  else if (Controller.commandSentTime dc =? 0)%Z
       then Due (Controller.currentPollingDevice dc)
       else Waiting (Controller.currentPollingDevice dc).

(** ** Vocabulary of the statements about the whole firmware *)

(** The fan object between two calls: its value is the last value written
    to the pin, and every value written is within [FAN_SPEED_MIN] and
    [FAN_SPEED_MAX]. *)
Definition fan_ok (fc : Controller.FanController) : Prop :=
  last (Controller.pwm_writes fc) FAN_SPEED_MIN = Controller.currentPwmValue fc /\
  Forall (fun v => (FAN_SPEED_MIN <= v <= FAN_SPEED_MAX)%Z) (Controller.pwm_writes fc).

(** ** Vocabulary of the statements about the two versions of the firmware *)

(** What happens to the table of devices: a line completed on the port of
    a device, or a poll of a device left unanswered; and the call
    [fanController.updateFanSpeed(tempSensor)] that [loop] of the modular
    firmware makes on every pass, which the sketch does not have. *)
Inductive device_event : Type :=
| GotLine (d : Z) (line : string) (now : Z)
| MissedPoll (d : Z)
| LoopPass.

Definition event_in_range (ev : device_event) : Prop :=
  match ev with
  | GotLine d _ _ => (0 <= d < 4)%Z
  | MissedPoll d => (0 <= d < 4)%Z
  | LoopPass => True
  end.

Definition is_pass (ev : device_event) : bool :=
  match ev with LoopPass => true | _ => false end.

(** The passes of [loop] among the events. *)
Definition passes (evs : list device_event) : nat := length (filter is_pass evs).

(** The event in the modular firmware, with the fan controller linked to
    the sensor, and in the single-file sketch. *)
Definition controller_on
    (tf : Controller.TemperatureSensor * Controller.FanController) (ev : device_event)
  : Controller.TemperatureSensor * Controller.FanController :=
  match ev with
  | GotLine d line now => Controller.processSerialResponse (fst tf) (snd tf) d line now
  | MissedPoll d => Controller.handleMissedPoll (fst tf) (snd tf) d
  | LoopPass => (fst tf, Controller.updateFanSpeed (snd tf) (fst tf))
  end.

Definition sketch_on (g : Sketch.globals) (ev : device_event) : Sketch.globals :=
  match ev with
  | GotLine d line now => Sketch.processSerialResponse g d line now
  | MissedPoll d => Sketch.missedPoll g d
  | LoopPass => g
  end.

(** [padded v n l l']: the list [l'] is [l] with [n] further copies of [v]
    put in. *)
Inductive padded (v : Z) : nat -> list Z -> list Z -> Prop :=
| padded_nil : padded v 0 [] []
| padded_same (n : nat) (x : Z) (l l' : list Z) :
    padded v n l l' -> padded v n (x :: l) (x :: l')
| padded_extra (n : nat) (l l' : list Z) :
    padded v n l l' -> padded v (S n) l (v :: l').

(** The tables of the two versions hold the same: entry by entry the same
    readings, times, flags and counters, and the same value on the fan. *)
Definition same_readings
    (tf : Controller.TemperatureSensor * Controller.FanController) (g : Sketch.globals)
  : Prop :=
  Sketch.cpuTemps g = map Controller.cpuTemp (Controller.deviceTemps (fst tf)) /\
  Sketch.nvmeTemps g = map Controller.nvmeTemp (Controller.deviceTemps (fst tf)) /\
  Sketch.lastTempUpdateTime g
    = map Controller.lastUpdateTime (Controller.deviceTemps (fst tf)) /\
  Sketch.deviceConnected g = Controller.deviceConnected (fst tf) /\
  Sketch.missedPolls g = Controller.missedPolls (fst tf) /\
  Sketch.currentPwmValue g = Controller.currentPwmValue (snd tf).

(** The fan holds the value of the readings: one more call of
    [updateFanSpeed] would leave the value as it is. *)
Definition fan_settled (tf : Controller.TemperatureSensor * Controller.FanController)
  : Prop :=
  Controller.currentPwmValue (Controller.updateFanSpeed (snd tf) (fst tf))
  = Controller.currentPwmValue (snd tf).

(** The same with the writes so far, as it holds while only lines and
    missed polls are handled; the fan controller is linked to the sensor,
    and the entries of the modular version that were never filled hold
    0. *)
Definition same_tables
    (tf : Controller.TemperatureSensor * Controller.FanController) (g : Sketch.globals)
  : Prop :=
  Sketch.cpuTemps g = map Controller.cpuTemp (Controller.deviceTemps (fst tf)) /\
  Sketch.nvmeTemps g = map Controller.nvmeTemp (Controller.deviceTemps (fst tf)) /\
  Sketch.lastTempUpdateTime g
    = map Controller.lastUpdateTime (Controller.deviceTemps (fst tf)) /\
  Sketch.deviceConnected g = Controller.deviceConnected (fst tf) /\
  Sketch.missedPolls g = Controller.missedPolls (fst tf) /\
  Sketch.currentPwmValue g = Controller.currentPwmValue (snd tf) /\
  Sketch.pwm_writes g = Controller.pwm_writes (snd tf) /\
  Controller.fanController (fst tf) = true /\
  Forall (fun d => Controller.isValid d = false ->
                   Controller.cpuTemp d = 0%Q /\ Controller.nvmeTemp d = 0%Q)
         (Controller.deviceTemps (fst tf)).

(** ** The characters of a printed temperature *)

(** A digit, the decimal point or the minus sign. *)
Definition wire_char (c : ascii) : bool :=
  is_digit c || Ascii.eqb c "." || Ascii.eqb c "-".

(** ** config.c: the configuration read from the environment *)

Module Config.

(** The [speed_t] values the program names. *)
Inductive speed_t : Type := B0 | B9600 | B19200 | B38400 | B57600 | B115200.

(** [atol]: [strtol(s, NULL, 10)] with a [long] of 64 bits: white space, a
    sign, digits; a value out of range is the nearest [long]. *)
Definition atol (s : string) : Z :=
  let '(neg, l1) := read_sign (dropwhile isspace (list_ascii_of_string s)) in
  let '(v, _, _) := read_digits l1 0%Z 0 in
  Z.max (- 2 ^ 63) (Z.min (2 ^ 63 - 1) (if neg then - v else v)).

(** [atoi]: the [long] of [strtol] converted to [int]. *)
Definition atoi (s : string) : Z := wrap_int32 (atol s).

Definition config_parse_baud_rate (baud_str : string) : speed_t :=
  let baud := atol baud_str in
  if (baud =? 9600)%Z then B9600
  else if (baud =? 19200)%Z then B19200
  else if (baud =? 38400)%Z then B38400
  else if (baud =? 57600)%Z then B57600
  else if (baud =? 115200)%Z then B115200
  else B0.

(** [config_t]; a [char *] is [None] when it is [NULL]. *)
Record config_t : Type := mkConfig {
  serial_port : option string;
  baud_rate : speed_t;
  read_timeout_sec : Z;
  log_to_syslog : Z;
  cpu_temp_cmd : option string;
  nvme_temp_cmd : option string;
  foreground : Z;
  verbose : Z
}.

(** [g_config = {0}]. *)
Definition g_config : config_t := mkConfig None B0 0 0 None None 0 0.

Definition ENV_SERIAL_PORT : string := "FAN_TEMP_SERIAL_PORT".
Definition ENV_BAUD_RATE : string := "FAN_TEMP_BAUD_RATE".
Definition ENV_READ_TIMEOUT : string := "FAN_TEMP_READ_TIMEOUT".
Definition ENV_LOG_TO_SYSLOG : string := "FAN_TEMP_LOG_TO_SYSLOG".
Definition ENV_CPU_TEMP_CMD : string := "FAN_TEMP_CPU_CMD".
Definition ENV_NVME_TEMP_CMD : string := "FAN_TEMP_NVME_CMD".
Definition ENV_FOREGROUND : string := "FAN_TEMP_FOREGROUND".
Definition ENV_VERBOSE : string := "FAN_TEMP_VERBOSE".

(** The environment: [getenv]. *)
Definition environ : Type := string -> option string.

Definition eol : string := String LF "".
Definition quoted (s : string) : string :=
  (String "034" s ++ String "034" "")%string.

(** What is written to [stderr] is a list of texts, one per [fprintf]. *)
Definition not_set (name : string) : string :=
  ("Error: " ++ name ++ " environment variable is not set" ++ eol)%string.

Definition report_missing (getenv : environ) (name : string) (st : Z * list string)
  : Z * list string :=
  match getenv name with
  | None => (1%Z, snd st ++ [not_set name])
  | Some _ => st
  end.

Definition check_required_env_vars (getenv : environ) : Z * list string :=
  let st := (0%Z, []) in
  let st := report_missing getenv ENV_SERIAL_PORT st in
  let st := report_missing getenv ENV_BAUD_RATE st in
  let st := report_missing getenv ENV_READ_TIMEOUT st in
  let st := report_missing getenv ENV_LOG_TO_SYSLOG st in
  let st := report_missing getenv ENV_CPU_TEMP_CMD st in
  let st := report_missing getenv ENV_NVME_TEMP_CMD st in
  let st := report_missing getenv ENV_FOREGROUND st in
  let st := report_missing getenv ENV_VERBOSE st in
  st.

Definition config_print_usage : list string :=
  [ (eol ++ "Please set all required environment variables before running the daemon." ++ eol);
    ("Example:" ++ eol);
    ("  export " ++ ENV_SERIAL_PORT ++ "=/dev/serial0" ++ eol);
    ("  export " ++ ENV_BAUD_RATE ++ "=115200" ++ eol);
    ("  export " ++ ENV_READ_TIMEOUT ++ "=1" ++ eol);
    ("  export " ++ ENV_LOG_TO_SYSLOG ++ "=1" ++ eol);
    ("  export " ++ ENV_CPU_TEMP_CMD ++ "=" ++ quoted "/usr/bin/vcgencmd measure_temp" ++ eol);
    ("  export " ++ ENV_NVME_TEMP_CMD ++ "="
       ++ quoted "smartctl -A /dev/nvme0 | grep Temperature" ++ eol);
    ("  export " ++ ENV_FOREGROUND ++ "=0" ++ eol);
    ("  export " ++ ENV_VERBOSE ++ "=0" ++ eol) ]%string.

Definition speed_eqb (a b : speed_t) : bool :=
  match a, b with
  | B0, B0 | B9600, B9600 | B19200, B19200 | B38400, B38400
  | B57600, B57600 | B115200, B115200 => true
  | _, _ => false
  end.

(** One block of [config_load_from_env]: the configuration after it, and
    the text written to [stderr] when the block returns -1. *)
Definition load_step : Type := environ -> config_t -> config_t * option string.

Definition load_serial_port : load_step := fun getenv g =>
  match getenv ENV_SERIAL_PORT with
  | Some env_val =>
      (mkConfig (Some env_val) (baud_rate g) (read_timeout_sec g) (log_to_syslog g)
                (cpu_temp_cmd g) (nvme_temp_cmd g) (foreground g) (verbose g), None)
  | None => (g, None)
  end.

Definition load_baud_rate : load_step := fun getenv g =>
  match getenv ENV_BAUD_RATE with
  | Some env_val =>
      let g' := mkConfig (serial_port g) (config_parse_baud_rate env_val)
                         (read_timeout_sec g) (log_to_syslog g) (cpu_temp_cmd g)
                         (nvme_temp_cmd g) (foreground g) (verbose g) in
      if speed_eqb (baud_rate g') B0
      then (g', Some ("Error: Invalid baud rate: " ++ env_val ++ eol)%string)
      else (g', None)
  | None => (g, None)
  end.

Definition load_read_timeout : load_step := fun getenv g =>
  match getenv ENV_READ_TIMEOUT with
  | Some env_val =>
      let g' := mkConfig (serial_port g) (baud_rate g) (atoi env_val) (log_to_syslog g)
                         (cpu_temp_cmd g) (nvme_temp_cmd g) (foreground g) (verbose g) in
      if (read_timeout_sec g' <=? 0)%Z
      then (g', Some ("Error: Invalid read timeout: " ++ env_val ++ eol)%string)
      else (g', None)
  | None => (g, None)
  end.

Definition load_log_to_syslog : load_step := fun getenv g =>
  match getenv ENV_LOG_TO_SYSLOG with
  | Some env_val =>
      (mkConfig (serial_port g) (baud_rate g) (read_timeout_sec g) (atoi env_val)
                (cpu_temp_cmd g) (nvme_temp_cmd g) (foreground g) (verbose g), None)
  | None => (g, None)
  end.

Definition load_cpu_temp_cmd : load_step := fun getenv g =>
  match getenv ENV_CPU_TEMP_CMD with
  | Some env_val =>
      (mkConfig (serial_port g) (baud_rate g) (read_timeout_sec g) (log_to_syslog g)
                (Some env_val) (nvme_temp_cmd g) (foreground g) (verbose g), None)
  | None => (g, None)
  end.

Definition load_nvme_temp_cmd : load_step := fun getenv g =>
  match getenv ENV_NVME_TEMP_CMD with
  | Some env_val =>
      (mkConfig (serial_port g) (baud_rate g) (read_timeout_sec g) (log_to_syslog g)
                (cpu_temp_cmd g) (Some env_val) (foreground g) (verbose g), None)
  | None => (g, None)
  end.

Definition load_foreground : load_step := fun getenv g =>
  match getenv ENV_FOREGROUND with
  | Some env_val =>
      (mkConfig (serial_port g) (baud_rate g) (read_timeout_sec g) (log_to_syslog g)
                (cpu_temp_cmd g) (nvme_temp_cmd g) (atoi env_val) (verbose g), None)
  | None => (g, None)
  end.

Definition load_verbose : load_step := fun getenv g =>
  match getenv ENV_VERBOSE with
  | Some env_val =>
      (mkConfig (serial_port g) (baud_rate g) (read_timeout_sec g) (log_to_syslog g)
                (cpu_temp_cmd g) (nvme_temp_cmd g) (foreground g) (atoi env_val), None)
  | None => (g, None)
  end.

(** The blocks in turn, up to the first that returns. *)
Fixpoint load_steps (steps : list load_step) (getenv : environ) (g : config_t)
  : config_t * option string :=
  match steps with
  | [] => (g, None)
  | step :: rest =>
      match step getenv g with
      | (g', Some msg) => (g', Some msg)
      | (g', None) => load_steps rest getenv g'
      end
  end.

(** [config_load_from_env] on the configuration [g]: the value returned, the
    configuration left behind and what was written to [stderr]; [strdup]
    is taken to succeed. *)
Definition config_load_from_env (getenv : environ) (g : config_t)
  : Z * config_t * list string :=
  let '(missing, err) := check_required_env_vars getenv in
  if negb (missing =? 0)%Z then ((-1)%Z, g, err ++ config_print_usage) else
  match load_steps [load_serial_port; load_baud_rate; load_read_timeout; load_log_to_syslog;
                    load_cpu_temp_cmd; load_nvme_temp_cmd; load_foreground; load_verbose]
                   getenv g with
  | (g', Some msg) => ((-1)%Z, g', err ++ [msg])
  | (g', None) => (0%Z, g', err)
  end.

(** [p == NULL || strlen(p) == 0]. *)
Definition unset (p : option string) : bool :=
  match p with
  | None => true
  | Some s => String.length s =? 0
  end.

Definition config_validate (g : config_t) : Z * list string :=
  if unset (serial_port g) then
    ((-1)%Z, [("Error: Serial port not configured" ++ eol)%string])
  else if speed_eqb (baud_rate g) B0 then
    ((-1)%Z, [("Error: Invalid baud rate" ++ eol)%string])
  else if (read_timeout_sec g <=? 0)%Z then
    ((-1)%Z, [("Error: Invalid read timeout" ++ eol)%string])
  else if unset (cpu_temp_cmd g) then
    ((-1)%Z, [("Error: CPU temperature command not configured" ++ eol)%string])
  else if unset (nvme_temp_cmd g) then
    ((-1)%Z, [("Error: NVME temperature command not configured" ++ eol)%string])
  else (0%Z, []).

(** The names [check_required_env_vars] asks for, in its order. *)
Definition required : list string :=
  [ENV_SERIAL_PORT; ENV_BAUD_RATE; ENV_READ_TIMEOUT; ENV_LOG_TO_SYSLOG;
   ENV_CPU_TEMP_CMD; ENV_NVME_TEMP_CMD; ENV_FOREGROUND; ENV_VERBOSE].

Definition is_missing (getenv : environ) (name : string) : bool :=
  match getenv name with None => true | Some _ => false end.

End Config.

(** ** The text of a buffer in a debug message *)

Definition BACKSLASH : ascii := "092"%char.

(** What one byte adds to the text: a line feed and a carriage return are
    spelled out, a byte that is not printable is a question mark. *)
Definition log_char (c : ascii) : list ascii :=
  if Ascii.eqb c LF then [BACKSLASH; "n"%char]
  else if Ascii.eqb c CR then [BACKSLASH; "r"%char]
  else if (32 <=? nat_of_ascii c) && (nat_of_ascii c <=? 126) then [c]
  else ["?"%char].

(** The loop that fills [clean_log], [clean_discard] or [clean_remaining]:
    [data] is what is left to read, [out] what was written so far, and the
    loop goes on while fewer than [limit] characters were written. *)
Fixpoint log_escape (limit : nat) (data out : list ascii) : list ascii :=
  match data with
  | [] => out
  | c :: t => if length out <? limit then log_escape limit t (out ++ log_char c) else out
  end.

Definition printable (c : ascii) : bool :=
  (32 <=? nat_of_ascii c) && (nat_of_ascii c <=? 126).

(** ** The command in the bytes of a segment *)

(** The bytes before a line feed without the carriage return that ends
    them, if there is one. *)
Definition without_cr (pre : list ascii) : list ascii :=
  match rev pre with
  | c :: r => if Ascii.eqb c CR then rev r else pre
  | [] => pre
  end.

(** The command in the bytes before a line ending: what is left after the
    leading CR and LF bytes. *)
Definition command_in (body : list ascii) : list ascii := dropwhile is_eol body.

(** * Proofs *)

(** ** Arrays *)

Lemma store_length {A : Type} (i : nat) (c : A) (l : list A) :
  length (store i c l) = length l.
Proof.
  revert i; induction l as [|x t IH]; intros [|i]; simpl; auto.
Qed.

Lemma nth_store_same {A : Type} (i : nat) (c d : A) (l : list A) :
  i < length l -> nth i (store i c l) d = c.
Proof.
  revert i; induction l as [|x t IH]; intros [|i] H; simpl in *; try lia; auto.
  apply IH; lia.
Qed.

Lemma nth_store_other {A : Type} (i j : nat) (c d : A) (l : list A) :
  i <> j -> nth j (store i c l) d = nth j l d.
Proof.
  revert i j; induction l as [|x t IH]; intros [|i] [|j] H; simpl; auto; try lia.
Qed.

Lemma firstn_store_before {A : Type} (n i : nat) (c : A) (l : list A) :
  n <= i -> firstn n (store i c l) = firstn n l.
Proof.
  revert n i; induction l as [|x t IH]; intros [|n] [|i] H; simpl; auto; try lia.
  f_equal; apply IH; lia.
Qed.

Lemma firstn_store_next {A : Type} (i : nat) (c : A) (l : list A) :
  i < length l -> firstn (S i) (store i c l) = firstn i l ++ [c].
Proof.
  revert i; induction l as [|x t IH]; intros [|i] H; simpl in *; try lia; auto.
  f_equal; apply IH; lia.
Qed.

Lemma nth_firstn_lt {A : Type} (n i : nat) (d : A) (l : list A) :
  i < n -> nth i (firstn n l) d = nth i l d.
Proof.
  revert n i; induction l as [|x t IH]; intros [|n] [|i] H; simpl; auto; try lia.
  apply IH; lia.
Qed.

(** ** The scanning loops *)

Lemma scan_some (test : nat -> bool) (i n k : nat) :
  scan test i n = Some k ->
  i <= k < i + n /\ test k = true /\ forall j, i <= j < k -> test j = false.
Proof.
  revert i; induction n as [|n IH]; intros i H; simpl in H; [discriminate|].
  destruct (test i) eqn:E.
  - inversion H; subst. repeat split; auto; try lia; intros; lia.
  - apply IH in H. destruct H as (H1 & H2 & H3). repeat split; auto; try lia.
    intros j Hj. destruct (Nat.eq_dec j i) as [->|]; auto. apply H3; lia.
Qed.

Lemma scan_none (test : nat -> bool) (i n : nat) :
  scan test i n = None -> forall j, i <= j < i + n -> test j = false.
Proof.
  revert i; induction n as [|n IH]; intros i H j Hj; simpl in H; [lia|].
  destruct (test i) eqn:E; [discriminate|].
  destruct (Nat.eq_dec j i) as [->|]; auto. apply (IH (S i)); auto; lia.
Qed.

Lemma scan_all_false (test : nat -> bool) (i n : nat) :
  (forall j, i <= j < i + n -> test j = false) -> scan test i n = None.
Proof.
  revert i; induction n as [|n IH]; intros i H; simpl; auto.
  rewrite (H i) by lia. apply IH. intros j Hj; apply H; lia.
Qed.

Lemma scan_first (test : nat -> bool) (i n k : nat) :
  i <= k < i + n -> test k = true -> (forall j, i <= j < k -> test j = false) ->
  scan test i n = Some k.
Proof.
  revert i; induction n as [|n IH]; intros i Hk Ht Hf; simpl; [lia|].
  destruct (Nat.eq_dec i k) as [->|Hne].
  - now rewrite Ht.
  - rewrite (Hf i) by lia. apply IH; auto; try lia. intros j Hj; apply Hf; lia.
Qed.

Lemma skip_eol_spec (buf : list ascii) (i n : nat) :
  let k := skip_eol buf i n in
  i <= k <= i + n /\
  (forall j, i <= j < k -> is_eol (nth j buf NUL) = true) /\
  (k < i + n -> is_eol (nth k buf NUL) = false).
Proof.
  revert i; induction n as [|n IH]; intros i; simpl.
  - repeat split; try lia; intros; lia.
  - destruct (is_eol (nth i buf NUL)) eqn:E.
    + specialize (IH (S i)). simpl in IH. destruct IH as (H1 & H2 & H3).
      repeat split; try lia.
      * intros j Hj. destruct (Nat.eq_dec j i) as [->|]; auto. apply H2; lia.
      * intros Hk; apply H3; lia.
    + repeat split; try lia; auto; intros; lia.
Qed.

(** ** The invariant of the read buffer *)

Lemma buffer_ok_sized st : buffer_ok st -> buffer_sized st.
Proof. unfold buffer_ok, buffer_sized; tauto. Qed.

Lemma reset_ok : buffer_ok serial_reset_read_buffer.
Proof. unfold buffer_ok; simpl; repeat split; auto. lia. Qed.

Lemma lastn_short {A : Type} (n : nat) (l : list A) :
  length l <= n -> lastn n l = l.
Proof.
  intros H. unfold lastn. replace (length l - n) with 0 by lia. reflexivity.
Qed.

Lemma lastn_length {A : Type} (n : nat) (l : list A) :
  length (lastn n l) = Nat.min n (length l).
Proof. unfold lastn. rewrite length_skipn. lia. Qed.

Lemma lastn_app_lastn {A : Type} (n : nat) (l1 l2 : list A) :
  lastn n (lastn n l1 ++ l2) = lastn n (l1 ++ l2).
Proof.
  unfold lastn. rewrite !length_app, length_skipn.
  destruct (Nat.le_gt_cases (length l1) n) as [H|H].
  - replace (length l1 - n) with 0 by lia. simpl. f_equal. lia.
  - replace (length l1 - (length l1 - n) + length l2 - n) with (length l2) by lia.
    rewrite !skipn_app.
    replace (length l2 - length (skipn (length l1 - n) l1)) with (length l2 - n)
      by (rewrite length_skipn; lia).
    replace (length l1 + length l2 - n - length l1) with (length l2 - n) by lia.
    rewrite skipn_skipn. f_equal. f_equal. lia.
Qed.

Lemma push_char_sized st c : buffer_sized st -> buffer_sized (push_char st c).
Proof.
  unfold buffer_sized, push_char, BUFSZ. intros [HL HP].
  destruct (Nat.ltb_spec (g_buffer_pos st) (512 - 1)); cbn [g_read_buffer g_buffer_pos].
  - rewrite store_length. lia.
  - rewrite store_length. unfold memmove_front.
    rewrite length_app, length_firstn, !length_skipn. lia.
Qed.

Lemma push_char_contents st c :
  buffer_sized st ->
  contents (push_char st c) = lastn (BUFSZ - 1) (contents st ++ [c]).
Proof.
  unfold buffer_sized, push_char, contents, BUFSZ. intros [HL HP].
  destruct (Nat.ltb_spec (g_buffer_pos st) (512 - 1)); cbn [g_read_buffer g_buffer_pos].
  - rewrite firstn_store_next by lia.
    rewrite lastn_short; auto.
    rewrite length_app, length_firstn; simpl; lia.
  - assert (g_buffer_pos st = 511) as Hp by lia.
    change (512 - 1) with (S 510). change (512 - 2) with 510.
    rewrite firstn_store_next.
    2:{ unfold memmove_front. rewrite length_app, length_firstn, !length_skipn. lia. }
    unfold memmove_front.
    rewrite firstn_app, firstn_firstn.
    rewrite length_firstn, length_skipn.
    replace (510 - Nat.min 510 (length (g_read_buffer st) - 1)) with 0 by lia.
    rewrite Nat.min_id. rewrite firstn_O, app_nil_r.
    unfold lastn. rewrite length_app, length_firstn, Hp.
    replace (Nat.min 511 (length (g_read_buffer st)) + length [c] - S 510) with 1
      by (simpl length; lia).
    rewrite skipn_app, length_firstn.
    replace (1 - Nat.min 511 (length (g_read_buffer st))) with 0 by lia.
    rewrite skipn_O. f_equal.
    rewrite skipn_firstn_comm. reflexivity.
Qed.

Lemma fold_push_sized bs st :
  buffer_sized st -> buffer_sized (fold_left push_char bs st).
Proof.
  revert st; induction bs as [|c t IH]; intros st H; simpl; auto.
  apply IH, push_char_sized, H.
Qed.

Lemma fold_push_contents bs st :
  buffer_sized st ->
  contents (fold_left push_char bs st) = lastn (BUFSZ - 1) (contents st ++ bs).
Proof.
  revert st; induction bs as [|c t IH]; intros st H; simpl.
  - rewrite app_nil_r, lastn_short; auto.
    unfold contents. rewrite length_firstn. destruct H; unfold BUFSZ in *; lia.
  - rewrite IH by (apply push_char_sized, H).
    rewrite push_char_contents by exact H.
    rewrite lastn_app_lastn, <- app_assoc. reflexivity.
Qed.

Lemma append_chars_ok st bs : buffer_sized st -> buffer_ok (append_chars st bs).
Proof.
  intros H. pose proof (fold_push_sized bs st H) as [HL HP].
  unfold append_chars, buffer_ok; simpl. rewrite store_length.
  repeat split; auto. apply nth_store_same. unfold BUFSZ in *. lia.
Qed.

Lemma append_chars_contents st bs :
  buffer_sized st ->
  contents (append_chars st bs) = lastn (BUFSZ - 1) (contents st ++ bs).
Proof.
  intros H. rewrite <- fold_push_contents by exact H.
  unfold append_chars, contents; simpl. apply firstn_store_before. lia.
Qed.

Lemma contents_length st :
  buffer_sized st -> length (contents st) = g_buffer_pos st.
Proof.
  unfold buffer_sized, contents, BUFSZ. intros [HL HP].
  rewrite length_firstn. lia.
Qed.

Lemma nth_contents st i :
  i < g_buffer_pos st -> nth i (g_read_buffer st) NUL = nth i (contents st) NUL.
Proof. intros H. unfold contents. now rewrite nth_firstn_lt. Qed.

Lemma memmove_front_length (k n : nat) (l : list ascii) :
  n + k <= length l -> length (memmove_front k n l) = length l.
Proof.
  intros H. unfold memmove_front.
  rewrite length_app, length_firstn, !length_skipn. lia.
Qed.

Lemma remove_front_ok st n : buffer_sized st -> buffer_ok (remove_front st n).
Proof.
  unfold buffer_sized, buffer_ok, remove_front, BUFSZ. intros [HL HP].
  destruct (Nat.ltb_spec n (g_buffer_pos st)); cbn [g_read_buffer g_buffer_pos].
  - rewrite store_length, memmove_front_length by lia.
    repeat split; try lia.
    apply nth_store_same. rewrite memmove_front_length; lia.
  - rewrite store_length. repeat split; try lia.
    apply nth_store_same. lia.
Qed.

Lemma remove_front_contents st n :
  buffer_sized st -> contents (remove_front st n) = skipn n (contents st).
Proof.
  unfold buffer_sized, remove_front, contents, BUFSZ. intros [HL HP].
  destruct (Nat.ltb_spec n (g_buffer_pos st)); cbn [g_read_buffer g_buffer_pos].
  - rewrite firstn_store_before by lia.
    unfold memmove_front. rewrite firstn_app, firstn_firstn, Nat.min_id.
    rewrite length_firstn, length_skipn.
    replace (g_buffer_pos st - n - Nat.min (g_buffer_pos st - n) (length (g_read_buffer st) - n))
      with 0 by lia.
    rewrite firstn_O, app_nil_r.
    now rewrite skipn_firstn_comm.
  - rewrite firstn_O. symmetry. apply skipn_all2. rewrite length_firstn. lia.
Qed.

(** ** The reader keeps the invariant *)

Lemma scan_buffer_ok size st bs :
  buffer_sized st ->
  match scan_buffer size st bs with
  | inl (_, st') => buffer_ok st'
  | inr st' => buffer_ok st'
  end.
Proof.
  intros H. unfold scan_buffer.
  pose proof (append_chars_ok st bs H) as Hok.
  destruct (find_cmd_end (append_chars st bs)) as [e|]; auto.
  destruct (_ && _); apply remove_front_ok, buffer_ok_sized, Hok.
Qed.

Lemma serial_read_complete_command_ok fd size evs st :
  buffer_ok st ->
  buffer_ok (snd (fst (serial_read_complete_command fd size st evs))).
Proof.
  revert st; induction evs as [|ev evs IH]; intros st H; simpl.
  - destruct (_ || _); auto.
  - destruct (_ || _); auto.
    destruct ev as [[|b bs]| | |]; auto.
    pose proof (scan_buffer_ok size st (b :: bs) (buffer_ok_sized _ H)) as Hs.
    destruct (scan_buffer size st (b :: bs)) as [[r st']|st']; auto.
Qed.

Lemma read_complete_command_ok fd size evs st :
  buffer_ok st ->
  buffer_ok (snd (fst (read_complete_command fd size st evs))).
Proof.
  revert st; induction evs as [|ev evs IH]; intros st H; simpl.
  - destruct (fd <? 0)%Z; auto using reset_ok.
  - destruct (fd <? 0)%Z; auto using reset_ok.
    destruct ev as [[|b bs]| | |]; auto.
    pose proof (scan_buffer_ok size st (b :: bs) (buffer_ok_sized _ H)) as Hs.
    destruct (scan_buffer size st (b :: bs)) as [[r st']|st']; auto.
Qed.

(** With an open descriptor and room in the caller's buffer the two
    readers are the same function. *)
Lemma read_complete_command_same fd size st evs :
  (0 <= fd)%Z -> 0 < size ->
  read_complete_command fd size st evs = serial_read_complete_command fd size st evs.
Proof.
  intros Hfd Hsz. revert st; induction evs as [|ev evs IH]; intros st; simpl;
    destruct (Z.ltb_spec fd 0); try lia;
    destruct (Nat.eqb_spec size 0); try lia; simpl; auto.
  destruct ev as [[|b bs]| | |]; auto.
  destruct (scan_buffer size st (b :: bs)) as [[r st']|st']; auto.
Qed.

(** ** Bytes without a line feed *)

Lemma lastn_incl {A : Type} (n : nat) (l : list A) (x : A) :
  In x (lastn n l) -> In x l.
Proof.
  unfold lastn. intros H.
  rewrite <- (firstn_skipn (length l - n) l). apply in_or_app; now right.
Qed.

Lemma find_cmd_end_none st :
  buffer_sized st -> ~ In LF (contents st) -> find_cmd_end st = None.
Proof.
  intros Hs Hno. pose proof (contents_length st Hs) as HL.
  assert (Hlf : forall j, j < g_buffer_pos st -> Ascii.eqb (nth j (g_read_buffer st) NUL) LF = false).
  { intros j Hj. apply Ascii.eqb_neq. intros E. apply Hno.
    rewrite nth_contents in E by exact Hj. rewrite <- E. apply nth_In. lia. }
  unfold find_cmd_end.
  rewrite scan_all_false.
  - apply scan_all_false. intros j Hj. apply Hlf. lia.
  - intros j Hj. unfold at_crlf. rewrite (Hlf (j + 1)) by lia. apply andb_false_r.
Qed.

Lemma scan_buffer_no_lf size st bs :
  buffer_sized st -> ~ In LF (contents st ++ bs) ->
  scan_buffer size st bs = inl (RcNone, append_chars st bs).
Proof.
  intros Hs Hno. unfold scan_buffer.
  rewrite find_cmd_end_none; auto.
  - apply buffer_ok_sized, append_chars_ok, Hs.
  - rewrite append_chars_contents by exact Hs. intros Hin. apply Hno.
    eapply lastn_incl, Hin.
Qed.

Lemma lastn_snoc {A : Type} (n : nat) (l : list A) (x : A) :
  lastn (S n) (l ++ [x]) = lastn n l ++ [x].
Proof.
  unfold lastn. rewrite length_app. simpl length.
  replace (length l + 1 - S n) with (length l - n) by lia.
  rewrite skipn_app. replace (length l - n - length l) with 0 by lia.
  reflexivity.
Qed.

Lemma lastn_suffix {A : Type} (n : nat) (l : list A) :
  exists pre, l = pre ++ lastn n l.
Proof.
  exists (firstn (length l - n) l). unfold lastn. now rewrite firstn_skipn.
Qed.

Lemma skipn_last_two {A : Type} (e : nat) (l : list A) (d : A) :
  e + 2 = length l -> skipn e l = [nth e l d; nth (e + 1) l d].
Proof.
  revert e; induction l as [|x t IH]; intros e H; simpl in H; [lia|].
  destruct e as [|e].
  - destruct t as [|y [|z t']]; simpl in *; try lia. reflexivity.
  - simpl. apply IH. lia.
Qed.

Lemma skipn_last_one {A : Type} (e : nat) (l : list A) (d : A) :
  e + 1 = length l -> skipn e l = [nth e l d].
Proof.
  revert e; induction l as [|x t IH]; intros e H; simpl in H; [lia|].
  destruct e as [|e].
  - destruct t; simpl in *; try lia. reflexivity.
  - simpl. apply IH. lia.
Qed.

(** A buffer whose only line feed is its last byte: the command ends
    there, at the line feed or at the carriage return before it, and the
    whole buffer is removed with it. *)
Lemma find_cmd_end_single_lf st w :
  buffer_sized st -> contents st = w ++ [LF] -> ~ In LF w ->
  exists e, find_cmd_end st = Some e /\
            chars_to_remove st e = g_buffer_pos st /\
            ((e = length w /\ skipn e (contents st) = [LF]) \/
             (e + 1 = length w /\ skipn e (contents st) = [CR; LF])).
Proof.
  intros Hs Hc Hno. pose proof (contents_length st Hs) as HL.
  assert (Hpos : g_buffer_pos st = length w + 1).
  { rewrite <- HL, Hc, length_app. reflexivity. }
  assert (Hlt : forall j, j < length w -> nth j (g_read_buffer st) NUL <> LF).
  { intros j Hj E. apply Hno. rewrite nth_contents, Hc, app_nth1 in E by lia.
    rewrite <- E. now apply nth_In. }
  assert (Hend : nth (length w) (g_read_buffer st) NUL = LF).
  { rewrite nth_contents, Hc, app_nth2 by lia. now rewrite Nat.sub_diag. }
  unfold find_cmd_end.
  destruct (scan (at_crlf (g_read_buffer st)) 0 (g_buffer_pos st - 1)) as [e|] eqn:E1.
  - apply scan_some in E1. destruct E1 as (Hr & Ht & _).
    unfold at_crlf in Ht. apply andb_prop in Ht. destruct Ht as [Ha Hb].
    apply Ascii.eqb_eq in Ha, Hb.
    assert (He : e + 1 = length w).
    { destruct (Nat.eq_dec (e + 1) (length w)); auto.
      exfalso. apply (Hlt (e + 1)); auto. lia. }
    exists e. split; auto. split.
    + unfold chars_to_remove, at_crlf. rewrite Ha, Hb.
      destruct (Nat.ltb_spec e (g_buffer_pos st - 1)); simpl; lia.
    + right. split; auto.
      rewrite (skipn_last_two e (contents st) NUL) by (rewrite HL; lia).
      now rewrite <- !nth_contents, Ha, Hb by lia.
  - destruct (scan (at_lf (g_read_buffer st)) 0 (g_buffer_pos st)) as [e|] eqn:E2.
    + apply scan_some in E2. destruct E2 as (Hr & Ht & _).
      unfold at_lf in Ht. apply Ascii.eqb_eq in Ht.
      assert (He : e = length w).
      { destruct (Nat.eq_dec e (length w)); auto.
        exfalso. apply (Hlt e); auto. lia. }
      exists e. split; auto. split.
      * unfold chars_to_remove, at_lf. rewrite Ht.
        destruct (Nat.ltb_spec e (g_buffer_pos st - 1)); simpl; try lia.
        destruct (Nat.ltb_spec e (g_buffer_pos st)); simpl; lia.
      * left. split; auto.
        rewrite (skipn_last_one e (contents st) NUL) by (rewrite HL; lia).
        now rewrite <- nth_contents, Ht by lia.
    + exfalso. pose proof (scan_none _ _ _ E2 (length w)) as Hn.
      unfold at_lf in Hn. rewrite Hend in Hn. simpl in Hn.
      assert (false = true -> False) by discriminate.
      apply H. symmetry. apply Hn. lia.
Qed.

Lemma strncpy_firstn (src : list ascii) (n : nat) :
  strncpy src n = strncpy (firstn n src) n.
Proof.
  revert src; induction n as [|n IH]; intros src; [reflexivity|].
  destruct src as [|c t]; [reflexivity|].
  cbn [firstn strncpy].
  destruct (Ascii.eqb c NUL); [reflexivity|]. f_equal. apply IH.
Qed.

Lemma strncpy_no_nul (src : list ascii) :
  ~ In NUL src -> strncpy src (length src) = src.
Proof.
  induction src as [|c t IH]; intros H; auto. simpl.
  destruct (Ascii.eqb_spec c NUL) as [->|Hne].
  - exfalso. apply H. now left.
  - f_equal. apply IH. intros Hin. apply H. now right.
Qed.

Lemma cstring_repeat_nul (n : nat) : cstring (repeat NUL n) = [].
Proof. destruct n; reflexivity. Qed.

(** As a C string, what [strncpy] left in the caller's buffer is the part
    of the segment before its first NUL. *)
Lemma cstring_strncpy (src : list ascii) :
  cstring (strncpy src (length src)) = cstring src.
Proof.
  induction src as [|c t IH]; [reflexivity|].
  cbn [length strncpy cstring].
  destruct (Ascii.eqb c NUL) eqn:E.
  - apply (cstring_repeat_nul (S (length t))).
  - cbn [cstring]. rewrite E. f_equal. exact IH.
Qed.

Lemma strncpy_length (src : list ascii) (n : nat) : length (strncpy src n) = n.
Proof.
  revert src; induction n as [|n IH]; intros src; auto.
  destruct src as [|c t]; simpl.
  - now rewrite repeat_length.
  - destruct (Ascii.eqb c NUL); simpl; [now rewrite repeat_length | now rewrite IH].
Qed.

Lemma segment_of_buffer st cs n :
  buffer_sized st -> cs + n <= g_buffer_pos st ->
  firstn n (skipn cs (g_read_buffer st)) = firstn n (skipn cs (contents st)).
Proof.
  intros Hs H. unfold contents.
  rewrite skipn_firstn_comm, firstn_firstn. f_equal. lia.
Qed.

(** The scan of a buffer into which the first line feed has just arrived,
    as the last byte read. *)
Lemma scan_buffer_single_lf size st d :
  buffer_sized st -> ~ In LF (contents st ++ d) ->
  match scan_buffer size st (d ++ [LF]) with
  | inl (RcCommand out, st') =>
      exists pre seg term,
        contents st ++ d ++ [LF] = pre ++ seg ++ term /\
        (term = [LF] \/ term = [CR; LF]) /\
        length (seg ++ term) <= BUFSZ - 1 /\
        0 < length seg < size /\
        out = strncpy seg (length seg) /\
        contents st' = []
  | inl (_, _) => False
  | inr st' => contents st' = []
  end.
Proof.
  intros Hs Hno. unfold scan_buffer.
  set (st1 := append_chars st (d ++ [LF])).
  pose proof (append_chars_ok st (d ++ [LF]) Hs) as Hok1. fold st1 in Hok1.
  pose proof (buffer_ok_sized _ Hok1) as Hs1.
  pose proof (append_chars_contents st (d ++ [LF]) Hs) as Hc1. fold st1 in Hc1.
  rewrite app_assoc in Hc1. change (BUFSZ - 1) with (S 510) in Hc1.
  rewrite lastn_snoc in Hc1.
  set (w := lastn 510 (contents st ++ d)) in Hc1.
  assert (Hw : ~ In LF w) by (intros Hin; apply Hno; eapply lastn_incl, Hin).
  destruct (find_cmd_end_single_lf st1 w Hs1 Hc1 Hw) as (e & He & Hrm & Hterm).
  rewrite He, Hrm.
  pose proof (contents_length st1 Hs1) as HL1.
  assert (Hrest : contents (remove_front st1 (g_buffer_pos st1)) = []).
  { rewrite remove_front_contents by exact Hs1. apply skipn_all2. lia. }
  destruct (_ && _) eqn:Hguard; auto.
  apply andb_prop in Hguard. destruct Hguard as [Hg1 Hg2].
  apply Nat.ltb_lt in Hg1, Hg2.
  set (cs := find_cmd_start st1 e) in *.
  assert (Hpos1 : g_buffer_pos st1 = length w + 1).
  { rewrite <- HL1, Hc1, length_app. reflexivity. }
  assert (He_le : e <= length w) by (destruct Hterm as [[? _]|[? _]]; lia).
  destruct (lastn_suffix (BUFSZ - 1) ((contents st ++ d) ++ [LF])) as [pre0 Hpre0].
  change (BUFSZ - 1) with (S 510) in Hpre0. rewrite lastn_snoc in Hpre0.
  fold w in Hpre0. rewrite <- Hc1 in Hpre0.
  exists (pre0 ++ firstn cs (contents st1)),
         (firstn (e - cs) (skipn cs (contents st1))),
         (skipn e (contents st1)).
  assert (Hseglen : length (firstn (e - cs) (skipn cs (contents st1))) = e - cs).
  { rewrite length_firstn, length_skipn. lia. }
  repeat split.
  - rewrite app_assoc, Hpre0, <- app_assoc. f_equal.
    rewrite <- (firstn_skipn cs (contents st1)) at 1. f_equal.
    rewrite <- (firstn_skipn (e - cs) (skipn cs (contents st1))) at 1. f_equal.
    rewrite skipn_skipn. f_equal. lia.
  - destruct Hterm as [[_ H]|[_ H]]; [now left | now right].
  - rewrite length_app, Hseglen, length_skipn, HL1.
    destruct Hs1. unfold BUFSZ in *. lia.
  - lia.
  - lia.
  - rewrite Hseglen, (strncpy_firstn (skipn cs (g_read_buffer st1))).
    now rewrite segment_of_buffer by (auto; lia).
  - exact Hrest.
Qed.

(** One call that reads bytes without a line feed into a buffer without
    one. *)
Lemma call_no_lf fd size st c :
  (0 <= fd)%Z -> 0 < size -> buffer_ok st -> ~ In LF (contents st ++ c) ->
  exists r st1,
    serial_read_complete_command fd size st [IoData c] = (r, st1, []) /\
    (forall out, r <> RcCommand out) /\
    buffer_ok st1 /\
    contents st1 = lastn (BUFSZ - 1) (contents st ++ c).
Proof.
  intros Hfd Hsz Hok Hno. pose proof (buffer_ok_sized _ Hok) as Hs.
  cbn [serial_read_complete_command].
  destruct (Z.ltb_spec fd 0); try lia.
  destruct (Nat.eqb_spec size 0); try lia. cbn [orb].
  destruct c as [|b bs].
  - exists RcError, st. rewrite app_nil_r. repeat split; auto; try discriminate; try apply Hok.
    rewrite lastn_short; auto. rewrite contents_length by exact Hs. apply Hs.
  - rewrite scan_buffer_no_lf by auto.
    exists RcNone, (append_chars st (b :: bs)).
    split; [reflexivity | split; [discriminate | split]].
    + apply append_chars_ok, Hs.
    + apply append_chars_contents, Hs.
Qed.

(** One call per chunk, no line feed anywhere: no command, and the buffer
    ends up with the most recent bytes. *)
Lemma feed_calls_no_lf fd size chunks st :
  (0 <= fd)%Z -> 0 < size -> buffer_ok st ->
  ~ In LF (contents st) -> Forall (fun c => ~ In LF c) chunks ->
  fst (feed_calls fd size st chunks) = [] /\
  buffer_ok (snd (feed_calls fd size st chunks)) /\
  contents (snd (feed_calls fd size st chunks))
    = lastn (BUFSZ - 1) (contents st ++ concat chunks).
Proof.
  intros Hfd Hsz. revert st.
  induction chunks as [|c rest IH]; intros st Hok Hno Hall.
  - cbn [feed_calls fst snd concat]. rewrite app_nil_r.
    split; [reflexivity | split; [exact Hok|]].
    rewrite lastn_short; auto.
    rewrite contents_length by now apply buffer_ok_sized. destruct Hok; tauto.
  - inversion Hall as [|? ? Hc Hrest]; subst.
    assert (Hno' : ~ In LF (contents st ++ c)).
    { intros Hin. apply in_app_or in Hin. tauto. }
    destruct (call_no_lf fd size st c Hfd Hsz Hok Hno') as (r & st1 & Heq & Hr & Hok1 & Hc1).
    cbn [feed_calls]. rewrite Heq.
    assert (Hno1 : ~ In LF (contents st1)).
    { rewrite Hc1. intros Hin. apply lastn_incl in Hin. tauto. }
    specialize (IH st1 Hok1 Hno1 Hrest). destruct IH as (I1 & I2 & I3).
    destruct (feed_calls fd size st1 rest) as [cmds st2].
    cbn [fst snd] in *. subst cmds.
    split; [|split; [exact I2|]].
    + destruct r; auto. exfalso. eapply Hr; reflexivity.
    + rewrite I3, Hc1, lastn_app_lastn.
      change (concat (c :: rest)) with (c ++ concat rest).
      now rewrite <- app_assoc.
Qed.

(** ** The scan depends on the bytes below the cursor only *)

Lemma scan_ext (t1 t2 : nat -> bool) (i n : nat) :
  (forall j, i <= j < i + n -> t1 j = t2 j) -> scan t1 i n = scan t2 i n.
Proof.
  revert i; induction n as [|n IH]; intros i H; simpl; auto.
  rewrite (H i) by lia. destruct (t2 i); auto. apply IH. intros j Hj; apply H; lia.
Qed.

Lemma skip_eol_ext (b1 b2 : list ascii) (i n : nat) :
  (forall j, i <= j < i + n -> nth j b1 NUL = nth j b2 NUL) ->
  skip_eol b1 i n = skip_eol b2 i n.
Proof.
  revert i; induction n as [|n IH]; intros i H; simpl; auto.
  rewrite (H i) by lia. destruct (is_eol (nth i b2 NUL)); auto.
  apply IH. intros j Hj; apply H; lia.
Qed.

Lemma same_bytes_pos s1 s2 : same_bytes s1 s2 -> g_buffer_pos s1 = g_buffer_pos s2.
Proof.
  intros (H1 & H2 & H). rewrite <- (contents_length s1), <- (contents_length s2); auto.
  now rewrite H.
Qed.

Lemma same_bytes_nth s1 s2 j :
  same_bytes s1 s2 -> j < g_buffer_pos s1 ->
  nth j (g_read_buffer s1) NUL = nth j (g_read_buffer s2) NUL.
Proof.
  intros H Hj. pose proof (same_bytes_pos _ _ H) as Hp. destruct H as (H1 & H2 & H).
  rewrite !nth_contents by lia. now rewrite H.
Qed.

Lemma find_cmd_end_same s1 s2 : same_bytes s1 s2 -> find_cmd_end s1 = find_cmd_end s2.
Proof.
  intros H. pose proof (same_bytes_pos _ _ H) as Hp. unfold find_cmd_end.
  rewrite <- Hp.
  rewrite (scan_ext (at_crlf (g_read_buffer s1)) (at_crlf (g_read_buffer s2))).
  2:{ intros j Hj. unfold at_crlf.
      now rewrite (same_bytes_nth s1 s2 j), (same_bytes_nth s1 s2 (j + 1)) by (auto; lia). }
  rewrite (scan_ext (at_lf (g_read_buffer s1)) (at_lf (g_read_buffer s2))); auto.
  intros j Hj. unfold at_lf. now rewrite (same_bytes_nth s1 s2 j) by (auto; lia).
Qed.

Lemma find_cmd_end_bound st e : find_cmd_end st = Some e -> e < g_buffer_pos st.
Proof.
  unfold find_cmd_end. intros H.
  destruct (scan (at_crlf (g_read_buffer st)) 0 (g_buffer_pos st - 1)) eqn:E.
  - inversion H; subst. apply scan_some in E. lia.
  - apply scan_some in H. lia.
Qed.

Lemma find_cmd_start_bound st e : find_cmd_start st e <= e.
Proof.
  unfold find_cmd_start. pose proof (skip_eol_spec (g_read_buffer st) 0 e). simpl in H. lia.
Qed.

Lemma scan_buffer_same size st1 bs1 st2 bs2 :
  buffer_sized st1 -> buffer_sized st2 ->
  contents (append_chars st1 bs1) = contents (append_chars st2 bs2) ->
  match scan_buffer size st1 bs1, scan_buffer size st2 bs2 with
  | inl (r1, s1), inl (r2, s2) => r1 = r2 /\ same_bytes s1 s2
  | inr s1, inr s2 => same_bytes s1 s2
  | _, _ => False
  end.
Proof.
  intros H1 H2 Hc. unfold scan_buffer.
  set (a1 := append_chars st1 bs1) in *. set (a2 := append_chars st2 bs2) in *.
  assert (Ha1 : buffer_sized a1) by apply buffer_ok_sized, append_chars_ok, H1.
  assert (Ha2 : buffer_sized a2) by apply buffer_ok_sized, append_chars_ok, H2.
  assert (Hsame : same_bytes a1 a2) by (repeat split; auto; apply Ha1 || apply Ha2).
  pose proof (same_bytes_pos _ _ Hsame) as Hp.
  rewrite (find_cmd_end_same a1 a2 Hsame).
  destruct (find_cmd_end a2) as [e|] eqn:He; [|split; auto].
  pose proof (find_cmd_end_bound _ _ He) as Hb.
  assert (Hcs : find_cmd_start a1 e = find_cmd_start a2 e).
  { unfold find_cmd_start. apply skip_eol_ext. intros j Hj.
    apply same_bytes_nth; auto. lia. }
  assert (Hrm : chars_to_remove a1 e = chars_to_remove a2 e).
  { unfold chars_to_remove, at_crlf, at_lf. rewrite Hp.
    rewrite (same_bytes_nth a1 a2 e) by (auto; lia).
    destruct (Nat.ltb_spec e (g_buffer_pos a2 - 1)); auto.
    now rewrite (same_bytes_nth a1 a2 (e + 1)) by (auto; lia). }
  assert (Hrest : same_bytes (remove_front a1 (chars_to_remove a1 e))
                             (remove_front a2 (chars_to_remove a2 e))).
  { repeat split; try apply (remove_front_ok _ _ Ha1); try apply (remove_front_ok _ _ Ha2).
    rewrite !remove_front_contents, Hrm, Hc by auto. reflexivity. }
  rewrite Hcs. destruct (_ && _); auto.
  split; auto. f_equal.
  pose proof (find_cmd_start_bound a2 e) as Hle.
  rewrite (strncpy_firstn (skipn _ (g_read_buffer a1))),
          (strncpy_firstn (skipn _ (g_read_buffer a2))).
  rewrite !segment_of_buffer by (auto; lia). now rewrite Hc.
Qed.

(** A command returned is never empty, and the calls that return one took
    the branch guarded by [cmd_len > 0]. *)
Lemma scan_buffer_command size st bs out st' :
  scan_buffer size st bs = inl (RcCommand out, st') -> 0 < length out < size.
Proof.
  unfold scan_buffer. destruct (find_cmd_end _) as [e|]; [|discriminate].
  destruct (_ && _) eqn:G; [|discriminate].
  intros H. inversion H; subst. rewrite strncpy_length.
  apply andb_prop in G. destruct G as [G1 G2].
  apply Nat.ltb_lt in G1, G2. lia.
Qed.

Lemma serial_read_command_nonempty fd size evs st out st' evs' :
  serial_read_complete_command fd size st evs = (RcCommand out, st', evs') ->
  0 < length out < size.
Proof.
  revert st; induction evs as [|ev evs IH]; intros st; simpl.
  - destruct (_ || _); discriminate.
  - destruct (_ || _); [discriminate|].
    destruct ev as [[|b bs]| | |]; try discriminate.
    destruct (scan_buffer size st (b :: bs)) as [[r s]|s] eqn:E.
    + intros H; inversion H; subst. eapply scan_buffer_command, E.
    + apply IH.
Qed.

(** The branch that skips a segment removes it with its line ending. *)
Lemma scan_buffer_skip size st bs st' :
  buffer_sized st -> scan_buffer size st bs = inr st' ->
  exists cmd_end,
    find_cmd_end (append_chars st bs) = Some cmd_end /\
    (let cmd_len := cmd_end - find_cmd_start (append_chars st bs) cmd_end in
     cmd_len = 0 \/ size <= cmd_len) /\
    cmd_end < chars_to_remove (append_chars st bs) cmd_end /\
    contents st' = skipn (chars_to_remove (append_chars st bs) cmd_end)
                         (contents (append_chars st bs)).
Proof.
  intros Hs. unfold scan_buffer.
  set (a := append_chars st bs).
  assert (Ha : buffer_sized a) by apply buffer_ok_sized, append_chars_ok, Hs.
  destruct (find_cmd_end a) as [e|] eqn:He; [|discriminate].
  destruct (_ && _) eqn:G; [discriminate|].
  intros H; inversion H; subst. exists e. split; auto. split; [|split].
  - apply andb_false_iff in G. destruct G as [G|G]; apply Nat.ltb_ge in G; lia.
  - unfold find_cmd_end in He. unfold chars_to_remove.
    destruct (scan (at_crlf (g_read_buffer a)) 0 (g_buffer_pos a - 1)) eqn:E.
    + inversion He; subst. apply scan_some in E. destruct E as (Hr & Ht & _).
      rewrite Ht. destruct (Nat.ltb_spec e (g_buffer_pos a - 1)); cbn [andb]; lia.
    + apply scan_some in He. destruct He as (Hr & Ht & _). rewrite Ht.
      destruct ((e <? g_buffer_pos a - 1) && at_crlf (g_read_buffer a) e); [lia|].
      destruct (Nat.ltb_spec e (g_buffer_pos a)); cbn [andb]; lia.
  - apply remove_front_contents, Ha.
Qed.

(** ** Calls of the reader in sequence *)

Lemma single_call fd size st bs :
  (0 <= fd)%Z -> 0 < size -> bs <> [] ->
  serial_read_complete_command fd size st [IoData bs]
  = match scan_buffer size st bs with
    | inl (r, s) => (r, s, [])
    | inr s => (RcNone, s, [])
    end.
Proof.
  intros Hfd Hsz Hne. cbn [serial_read_complete_command].
  destruct (Z.ltb_spec fd 0); try lia.
  destruct (Nat.eqb_spec size 0); try lia. cbn [orb].
  destruct bs as [|b bs]; [congruence|].
  destruct (scan_buffer size st (b :: bs)) as [[r s]|s]; reflexivity.
Qed.

Lemma feed_calls_app fd size l1 l2 st :
  feed_calls fd size st (l1 ++ l2)
  = (fst (feed_calls fd size st l1)
       ++ fst (feed_calls fd size (snd (feed_calls fd size st l1)) l2),
     snd (feed_calls fd size (snd (feed_calls fd size st l1)) l2)).
Proof.
  revert st; induction l1 as [|c l1 IH]; intros st.
  - simpl. now destruct (feed_calls fd size st l2).
  - cbn [feed_calls app].
    destruct (serial_read_complete_command fd size st [IoData c]) as [[r s] e].
    rewrite IH. destruct (feed_calls fd size s l1) as [c1 s1]. cbn [fst snd].
    destruct r; reflexivity.
Qed.

Lemma in_concat_part {A : Type} (x : A) (c : list A) (l : list (list A)) :
  In c l -> In x c -> In x (concat l).
Proof. intros Hc Hx. apply in_concat. now exists c. Qed.

(** C1, as stated, fails: a sequence with two commands, the first ended by
    a lone line feed and the second by CR LF.  In one call the search for
    CR LF comes first and one command, with the line feed inside it, is
    returned; cut between the two, the same bytes give two commands.  With
    both commands ended by a line feed, the single call returns the first
    and leaves the second in the buffer. *)
Lemma framing_split_changes_commands :
  fst (feed_calls 3 256 serial_reset_read_buffer
         [bytes "A" ++ [LF] ++ bytes "B" ++ [CR; LF]])
    = [bytes "A" ++ [LF] ++ bytes "B"] /\
  fst (feed_calls 3 256 serial_reset_read_buffer
         [bytes "A" ++ [LF]; bytes "B" ++ [CR; LF]])
    = [bytes "A"; bytes "B"] /\
  fst (feed_calls 3 256 serial_reset_read_buffer
         [bytes "A" ++ [LF] ++ bytes "B" ++ [CR; LF]])
    <> fst (feed_calls 3 256 serial_reset_read_buffer
         [bytes "A" ++ [LF]; bytes "B" ++ [CR; LF]]) /\
  (let '(cmds, st) := feed_calls 3 256 serial_reset_read_buffer
                        [bytes "A" ++ [LF] ++ bytes "B" ++ [LF]] in
   cmds = [bytes "A"] /\ contents st = bytes "B" ++ [LF]) /\
  fst (feed_calls 3 256 serial_reset_read_buffer [bytes "A" ++ [LF]; bytes "B" ++ [LF]])
    = [bytes "A"; bytes "B"].
Proof.
  assert (H1 : fst (feed_calls 3 256 serial_reset_read_buffer
                      [bytes "A" ++ [LF] ++ bytes "B" ++ [CR; LF]])
               = [bytes "A" ++ [LF] ++ bytes "B"]) by (vm_compute; reflexivity).
  assert (H2 : fst (feed_calls 3 256 serial_reset_read_buffer
                      [bytes "A" ++ [LF]; bytes "B" ++ [CR; LF]])
               = [bytes "A"; bytes "B"]) by (vm_compute; reflexivity).
  split; [exact H1 | split; [exact H2 | split; [|split]]].
  - rewrite H1, H2. discriminate.
  - vm_compute. split; reflexivity.
  - vm_compute. reflexivity.
Qed.

(** ** The supervisor loop *)

Ltac break_match :=
  repeat match goal with
         | |- context [match ?x with _ => _ end] =>
             match type of x with
             | sumbool _ _ => destruct x
             | _ => destruct x eqn:?
             end
         end.

Lemma incr32_small z : (-2 ^ 31 <= z < 2 ^ 31 - 1)%Z -> incr32 z = (z + 1)%Z.
Proof.
  intros H. unfold incr32, wrap_int32.
  rewrite Z.mod_small by lia. lia.
Qed.

Lemma serial_read_times_out fd size rb e :
  (0 <= fd)%Z -> 0 < size -> read_times_out e = true ->
  exists evs, serial_read_complete_command fd size rb (line e) = (RcNone, rb, evs).
Proof.
  intros Hfd Hsz H. unfold read_times_out in H.
  destruct (line e) as [|[bs| | |] evs]; try discriminate; simpl;
    destruct (Z.ltb_spec fd 0); try lia;
    destruct (Nat.eqb_spec size 0); try lia; simpl; eauto.
Qed.

Lemma read_complete_times_out fd size rb e :
  (0 <= fd)%Z -> read_times_out e = true ->
  exists evs, read_complete_command fd size rb (line e) = (RcNone, rb, evs).
Proof.
  intros Hfd H. unfold read_times_out in H.
  destruct (line e) as [|[bs| | |] evs]; try discriminate; simpl;
    destruct (Z.ltb_spec fd 0); try lia; simpl; eauto.
Qed.

Lemma serial_read_fails fd size rb e :
  read_fails e = true ->
  exists evs, serial_read_complete_command fd size rb (line e) = (RcError, rb, evs).
Proof.
  intros H. unfold read_fails in H.
  destruct (line e) as [|[[|b bs]| | |] evs]; try discriminate; simpl;
    destruct (_ || _); eauto.
Qed.

Lemma read_complete_fails fd size rb e :
  (0 <= fd)%Z -> read_fails e = true ->
  exists evs, read_complete_command fd size rb (line e) = (RcError, rb, evs).
Proof.
  intros Hfd H. unfold read_fails in H.
  destruct (line e) as [|[[|b bs]| | |] evs]; try discriminate; simpl;
    destruct (Z.ltb_spec fd 0); try lia; eauto.
Qed.

Lemma run_loop_app iter s es1 es2 :
  run_loop iter s (es1 ++ es2)
  = (fst (run_loop iter (fst (run_loop iter s es1)) es2),
     snd (run_loop iter s es1) ++ snd (run_loop iter (fst (run_loop iter s es1)) es2)).
Proof.
  revert s; induction es1 as [|e es1 IH]; intros s; simpl.
  - now destruct (run_loop iter s es2).
  - destruct (iter s e) as [s1 a1]. rewrite IH.
    destruct (run_loop iter s1 es1) as [s2 a2]. simpl. now rewrite app_assoc.
Qed.

Lemma serial_read_closed fd size st evs :
  (fd < 0)%Z -> serial_read_complete_command fd size st evs = (RcError, st, evs).
Proof.
  intros H. destruct evs; simpl; destruct (Z.ltb_spec fd 0); try lia; reflexivity.
Qed.

Lemma read_complete_closed fd size st evs :
  (fd < 0)%Z ->
  read_complete_command fd size st evs = (RcNone, serial_reset_read_buffer, evs).
Proof.
  intros H. destruct evs; simpl; destruct (Z.ltb_spec fd 0); try lia; reflexivity.
Qed.

Lemma client_read_phase_timeout s e :
  (0 <= serial_fd s)%Z -> read_times_out e = true ->
  Client.read_phase s e
  = (mksup (consecutive_errors s) (incr32 (consecutive_timeouts s))
           (successful_exchanges s) (startup_sync_mode s) (serial_fd s) (read_state s), []).
Proof.
  intros Hfd H. unfold Client.read_phase.
  destruct (serial_read_times_out (serial_fd s) 256 (read_state s) e Hfd ltac:(lia) H)
    as [evs ->].
  reflexivity.
Qed.

Lemma daemon_read_phase_timeout s e :
  (0 <= serial_fd s)%Z -> read_times_out e = true ->
  Daemon.read_phase s e
  = (mksup (consecutive_errors s) (incr32 (consecutive_timeouts s))
           (successful_exchanges s) (startup_sync_mode s) (serial_fd s) (read_state s), []).
Proof.
  intros Hfd H. unfold Daemon.read_phase.
  destruct (read_complete_times_out (serial_fd s) 256 (read_state s) e Hfd H) as [evs ->].
  reflexivity.
Qed.

Lemma client_read_phase_fail s e :
  read_fails e = true ->
  Client.read_phase s e
  = (let errors := incr32 (consecutive_errors s) in
     if (errors >=? 5)%Z then
       let '(fd, rb') := serial_setup e (read_state s) in
       let acts := serial_close (serial_fd s) ++ [ActSetup fd] in
       if (fd <? 0)%Z then
         (mksup errors (consecutive_timeouts s) 0 (startup_sync_mode s) fd rb',
          acts ++ [ActSleep 5000])
       else
         (mksup 0 0 0 1 fd rb', acts ++ [ActSleep 500; ActSleep 100])
     else
       (mksup errors (consecutive_timeouts s) 0 (startup_sync_mode s) (serial_fd s)
              (read_state s),
        [ActSleep 100])).
Proof.
  intros H. unfold Client.read_phase.
  destruct (serial_read_fails (serial_fd s) 256 (read_state s) e H) as [evs ->].
  reflexivity.
Qed.

Lemma daemon_read_phase_fail s e :
  (0 <= serial_fd s)%Z -> read_fails e = true ->
  Daemon.read_phase s e
  = (let errors := incr32 (consecutive_errors s) in
     if (errors >=? 5)%Z then
       let '(fd, rb') := serial_setup e serial_reset_read_buffer in
       let acts := [ActFlush (serial_fd s); ActClose (serial_fd s); ActSetup fd] in
       if (fd <? 0)%Z then
         (mksup errors (consecutive_timeouts s) 0 (startup_sync_mode s) fd rb',
          acts ++ [ActSleep 5000])
       else
         (mksup 0 0 0 1 fd rb', acts ++ [ActSleep 500; ActSleep 100])
     else
       (mksup errors (consecutive_timeouts s) 0 (startup_sync_mode s) (serial_fd s)
              (read_state s),
        [ActSleep 100])).
Proof.
  intros Hfd H. unfold Daemon.read_phase.
  destruct (read_complete_fails (serial_fd s) 256 (read_state s) e Hfd H) as [evs ->].
  reflexivity.
Qed.

Lemma serial_setup_fd e rb :
  (fst (serial_setup e rb) <? 0)%Z = false -> (0 <= fst (serial_setup e rb))%Z.
Proof. intros H. apply Z.ltb_ge in H. exact H. Qed.

Lemma exchanges_step (n : Z) :
  (0 <= n <= 10)%Z ->
  (1 <= (if (incr32 n >? 10)%Z then 1 else incr32 n) <= 10)%Z.
Proof.
  intros H. rewrite incr32_small by lia.
  destruct (Z.gtb_spec (n + 1) 10); lia.
Qed.

Lemma client_read_phase_counters s e :
  counters_ok s -> counters_ok (fst (Client.read_phase s e)).
Proof.
  intros [Hse Hfd]. unfold Client.read_phase.
  destruct (Z.ltb_spec (serial_fd s) 0) as [Hneg|Hpos].
  - rewrite serial_read_closed by exact Hneg. cbn [ret_code].
    change ((-1 >? 0)%Z) with false. change ((-1 <? 0)%Z) with true. cbv iota.
    unfold serial_setup, counters_ok.
    break_match; cbn [fst successful_exchanges serial_fd]; split; try lia;
      try (intros; congruence).
  - destruct (serial_read_complete_command _ _ _ _) as [[r rb] evs].
    pose proof (exchanges_step _ Hse) as Hstep.
    unfold serial_setup, counters_ok.
    break_match; cbn [fst successful_exchanges serial_fd]; split; try lia;
      try (intros; congruence); try (intros; lia).
Qed.

Lemma daemon_read_phase_counters s e :
  counters_ok s -> counters_ok (fst (Daemon.read_phase s e)).
Proof.
  intros [Hse Hfd]. unfold Daemon.read_phase.
  destruct (Z.ltb_spec (serial_fd s) 0) as [Hneg|Hpos].
  - rewrite read_complete_closed by exact Hneg. cbn [ret_code].
    change ((0 >? 0)%Z) with false. change ((0 <? 0)%Z) with false. cbv iota.
    unfold counters_ok. cbn [fst successful_exchanges serial_fd]. split; auto.
  - destruct (read_complete_command _ _ _ _) as [[r rb] evs].
    pose proof (exchanges_step _ Hse) as Hstep.
    unfold serial_setup, counters_ok.
    break_match; cbn [fst successful_exchanges serial_fd]; split; try lia;
      try (intros; congruence); try (intros; lia).
Qed.

Lemma client_iter_counters s e :
  counters_ok s -> counters_ok (fst (Client.run_main_loop_iter s e)).
Proof.
  intros H. unfold Client.run_main_loop_iter.
  destruct (_ && _) eqn:G.
  - apply andb_prop in G. destruct G as [_ G]. apply Z.eqb_eq in G.
    destruct (negb _).
    + unfold serial_setup. destruct (setup_fd e <? 0)%Z eqn:F.
      * change ((-1 <? 0)%Z) with true. cbv iota.
        unfold counters_ok. cbn [fst successful_exchanges serial_fd]. split; lia.
      * rewrite F.
        pose proof (client_read_phase_counters
                      (mksup 0 0 (successful_exchanges s) 1 (setup_fd e)
                             serial_reset_read_buffer) e) as Hr.
        destruct (Client.read_phase _ e) as [s' a']. cbn [fst] in *. apply Hr.
        unfold counters_ok. cbn [successful_exchanges serial_fd]. split; lia.
    + pose proof (client_read_phase_counters s e H) as Hr.
      destruct (Client.read_phase s e) as [s' a']. exact Hr.
  - now apply client_read_phase_counters.
Qed.

Lemma daemon_iter_counters s e :
  counters_ok s -> counters_ok (fst (Daemon.run_daemon_iter s e)).
Proof.
  intros H. unfold Daemon.run_daemon_iter.
  destruct (_ && _) eqn:G.
  - apply andb_prop in G. destruct G as [_ G]. apply Z.eqb_eq in G.
    destruct (negb _).
    + unfold serial_setup. destruct (setup_fd e <? 0)%Z eqn:F.
      * change ((-1 <? 0)%Z) with true. cbv iota.
        unfold counters_ok. cbn [fst successful_exchanges serial_fd]. split; lia.
      * rewrite F.
        pose proof (daemon_read_phase_counters
                      (mksup 0 0 (successful_exchanges s) 1 (setup_fd e)
                             serial_reset_read_buffer) e) as Hr.
        destruct (Daemon.read_phase _ e) as [s' a']. cbn [fst] in *. apply Hr.
        unfold counters_ok. cbn [successful_exchanges serial_fd]. split; lia.
    + pose proof (daemon_read_phase_counters s e H) as Hr.
      destruct (Daemon.read_phase s e) as [s' a']. exact Hr.
  - now apply daemon_read_phase_counters.
Qed.

Lemma run_loop_counters iter s es :
  (forall s e, counters_ok s -> counters_ok (fst (iter s e))) ->
  counters_ok s -> counters_ok (fst (run_loop iter s es)).
Proof.
  intros Hiter. revert s; induction es as [|e es IH]; intros s H; simpl; auto.
  specialize (Hiter s e H). destruct (iter s e) as [s1 a1].
  specialize (IH s1 Hiter). destruct (run_loop iter s1 es) as [s2 a2]. exact IH.
Qed.

Lemma reachable_counters iter s :
  iter = Client.run_main_loop_iter \/ iter = Daemon.run_daemon_iter ->
  reachable iter s -> counters_ok s.
Proof.
  intros Hiter (fd & es & Hfd & ->). apply run_loop_counters.
  - destruct Hiter as [-> | ->]; auto using client_iter_counters, daemon_iter_counters.
  - unfold counters_ok, initial_supervisor. simpl. split; lia.
Qed.

Lemma client_read_phase_trace s e a :
  In a (snd (Client.read_phase s e)) ->
  (forall ok, a <> ActHealthCheck ok) /\
  (link_action a = true -> (incr32 (consecutive_errors s) >= 5)%Z).
Proof.
  unfold Client.read_phase, serial_setup, serial_close.
  break_match; cbn [snd app In]; intros H;
    repeat (destruct H as [H|H]; [subst a; split; [discriminate| cbn [link_action]; intros; try discriminate; lia]|]);
    try contradiction.
Qed.

Lemma daemon_read_phase_trace s e a :
  In a (snd (Daemon.read_phase s e)) ->
  (forall ok, a <> ActHealthCheck ok) /\
  (link_action a = true -> (incr32 (consecutive_errors s) >= 5)%Z).
Proof.
  unfold Daemon.read_phase, serial_setup.
  break_match; cbn [snd app In]; intros H;
    repeat (destruct H as [H|H]; [subst a; split; [discriminate| cbn [link_action]; intros; try discriminate; lia]|]);
    try contradiction.
Qed.

Lemma probe_gate_true (s : supervisor) :
  ((consecutive_timeouts s >? 30)%Z && (successful_exchanges s =? 0)%Z) = true ->
  (consecutive_timeouts s > 30)%Z /\ successful_exchanges s = 0%Z.
Proof.
  intros G. apply andb_prop in G. destruct G as [G1 G2].
  apply Z.gtb_lt in G1. apply Z.eqb_eq in G2. split; [lia | exact G2].
Qed.

Lemma client_iter_trace s e a :
  In a (snd (Client.run_main_loop_iter s e)) ->
  ((exists ok, a = ActHealthCheck ok) ->
   (consecutive_timeouts s > 30)%Z /\ successful_exchanges s = 0%Z) /\
  (link_action a = true ->
   ((consecutive_timeouts s > 30)%Z /\ successful_exchanges s = 0%Z) \/
   (incr32 (consecutive_errors s) >= 5)%Z).
Proof.
  unfold Client.run_main_loop_iter.
  destruct (_ && _) eqn:G.
  - intros _. apply probe_gate_true in G. split; auto.
  - intros H. apply client_read_phase_trace in H. destruct H as [H1 H2]. split.
    + intros [ok ->]. exfalso. now apply (H1 ok).
    + intros L. right. auto.
Qed.

Lemma daemon_iter_trace s e a :
  In a (snd (Daemon.run_daemon_iter s e)) ->
  ((exists ok, a = ActHealthCheck ok) ->
   (consecutive_timeouts s > 30)%Z /\ successful_exchanges s = 0%Z) /\
  (link_action a = true ->
   ((consecutive_timeouts s > 30)%Z /\ successful_exchanges s = 0%Z) \/
   (incr32 (consecutive_errors s) >= 5)%Z).
Proof.
  unfold Daemon.run_daemon_iter.
  destruct (_ && _) eqn:G.
  - intros _. apply probe_gate_true in G. split; auto.
  - intros H. apply daemon_read_phase_trace in H. destruct H as [H1 H2]. split.
    + intros [ok ->]. exfalso. now apply (H1 ok).
    + intros L. right. auto.
Qed.

Lemma quiet_run_silent iter es s :
  iter = Client.run_main_loop_iter \/ iter = Daemon.run_daemon_iter ->
  successful_exchanges s <> 0%Z -> (0 <= serial_fd s)%Z ->
  forallb read_times_out es = true ->
  snd (run_loop iter s es) = [] /\
  successful_exchanges (fst (run_loop iter s es)) = successful_exchanges s /\
  serial_fd (fst (run_loop iter s es)) = serial_fd s.
Proof.
  intros Hiter. revert s; induction es as [|e es IH]; intros s Hse Hfd Hq.
  - simpl. auto.
  - cbn [forallb] in Hq. apply andb_prop in Hq. destruct Hq as [Hq1 Hq2].
    assert (Hstep : iter s e
                    = (mksup (consecutive_errors s) (incr32 (consecutive_timeouts s))
                             (successful_exchanges s) (startup_sync_mode s) (serial_fd s)
                             (read_state s), [])).
    { apply Z.eqb_neq in Hse.
      destruct Hiter as [-> | ->];
        [unfold Client.run_main_loop_iter | unfold Daemon.run_daemon_iter];
        rewrite Hse, andb_false_r;
        auto using client_read_phase_timeout, daemon_read_phase_timeout. }
    cbn [run_loop]. rewrite Hstep.
    set (s1 := mksup _ _ _ _ _ _) in *.
    specialize (IH s1 Hse Hfd Hq2).
    destruct (run_loop iter s1 es) as [s2 a2]. cbn [fst snd app] in *.
    exact IH.
Qed.

(** C5.  The liveness probe is gated.  In both daemons, for every state and
    every behaviour of the world during an iteration: [serial_check_health]
    is called only when the consecutive-timeout count is above 30 and the
    successful-exchange count is 0; the link is closed or set up again only
    under that same condition or when the error count reaches 5.  And from
    every reachable state in which the successful-exchange count is not 0,
    iterations whose read times out, however many, probe nothing, close
    nothing and reopen nothing (they act on the link in no way at all), and
    leave the successful-exchange count as it is. *)
Theorem probe_gating :
  forall iter : supervisor -> loop_env -> supervisor * list action,
    iter = Client.run_main_loop_iter \/ iter = Daemon.run_daemon_iter ->
    (forall s e ok,
        In (ActHealthCheck ok) (snd (iter s e)) ->
        (consecutive_timeouts s > 30)%Z /\ successful_exchanges s = 0%Z) /\
    (forall s e a,
        In a (snd (iter s e)) -> link_action a = true ->
        ((consecutive_timeouts s > 30)%Z /\ successful_exchanges s = 0%Z) \/
        (incr32 (consecutive_errors s) >= 5)%Z) /\
    (forall s es,
        reachable iter s -> successful_exchanges s <> 0%Z ->
        forallb read_times_out es = true ->
        snd (run_loop iter s es) = [] /\
        successful_exchanges (fst (run_loop iter s es)) = successful_exchanges s).
Proof.
  intros iter Hiter. split; [|split].
  - intros s e ok H.
    destruct Hiter as [-> | ->];
      [apply client_iter_trace in H | apply daemon_iter_trace in H];
      destruct H as [H _]; apply H; eauto.
  - intros s e a H L.
    destruct Hiter as [-> | ->];
      [apply client_iter_trace in H | apply daemon_iter_trace in H];
      destruct H as [_ H]; auto.
  - intros s es Hr Hse Hq.
    pose proof (reachable_counters iter s Hiter Hr) as [_ Hfd].
    destruct (quiet_run_silent iter es s Hiter Hse (Hfd Hse) Hq) as (H1 & H2 & _).
    auto.
Qed.

(** After one answered POLL, forty iterations in which nothing arrives and
    in which the probe would fail if it ran: nothing acts on the link.
    After thirty-one silent iterations from the start, with no exchange
    yet, the probe does run. *)
Lemma probe_gating_witness :
  let poll := mkenv true 4 [IoData (bytes "POLL" ++ [LF])] (85 # 2) (391 # 10) in
  let quiet := mkenv false 4 [IoTimeout] (85 # 2) (391 # 10) in
  let s1 := fst (run_loop Client.run_main_loop_iter (initial_supervisor 3) [poll]) in
  let s31 := fst (run_loop Client.run_main_loop_iter (initial_supervisor 3) (repeat quiet 31)) in
  (snd (run_loop Client.run_main_loop_iter s1 (repeat quiet 40)) = [] /\
   successful_exchanges (fst (run_loop Client.run_main_loop_iter s1 (repeat quiet 40)))
     = successful_exchanges s1) /\
  ((consecutive_timeouts s31 > 30)%Z /\ successful_exchanges s31 = 0%Z).
Proof.
  intros poll quiet s1 s31.
  destruct (probe_gating Client.run_main_loop_iter (or_introl eq_refl)) as (H1 & _ & H3).
  split.
  - apply H3.
    + exists 3%Z, [poll]. split; [lia | reflexivity].
    + vm_compute. discriminate.
    + vm_compute. reflexivity.
  - apply (H1 s31 quiet false). vm_compute. left. reflexivity.
Defined.

(** Failures and timeouts, with a probe that passes when it runs: the
    error count adds up the failures, and nothing closes or reopens the link
    while it stays below 5. *)
Lemma failures_below_threshold iter es s :
  iter = Client.run_main_loop_iter \/ iter = Daemon.run_daemon_iter ->
  (0 <= consecutive_errors s)%Z -> (0 <= serial_fd s)%Z ->
  forallb (fun e => (read_fails e || read_times_out e) && health_ok e) es = true ->
  (consecutive_errors s + Z.of_nat (length (filter read_fails es)) < 5)%Z ->
  forallb (fun a => negb (link_action a)) (snd (run_loop iter s es)) = true /\
  consecutive_errors (fst (run_loop iter s es))
    = (consecutive_errors s + Z.of_nat (length (filter read_fails es)))%Z /\
  serial_fd (fst (run_loop iter s es)) = serial_fd s.
Proof.
  intros Hiter. revert s; induction es as [|e es IH]; intros s Hce Hfd Hall Hcnt.
  - simpl. repeat split; lia.
  - cbn [forallb] in Hall. apply andb_prop in Hall. destruct Hall as [He Hall].
    apply andb_prop in He. destruct He as [Hkind Hhealth].
    cbn [filter] in Hcnt |- *.
    assert (Hstep : exists ce' ct' se' acts,
      iter s e = (mksup ce' ct' se' (startup_sync_mode s) (serial_fd s) (read_state s), acts) /\
      forallb (fun a => negb (link_action a)) acts = true /\
      ce' = (consecutive_errors s + (if read_fails e then 1 else 0))%Z).
    { assert (Hprobe : negb (serial_check_health (serial_fd s) e) = false).
      { unfold serial_check_health. destruct (Z.ltb_spec (serial_fd s) 0); try lia.
        now rewrite Hhealth. }
      destruct (read_fails e) eqn:Hf.
      - cbn [length] in Hcnt.
        assert (Hlt : (incr32 (consecutive_errors s) >=? 5)%Z = false).
        { rewrite incr32_small by lia. rewrite Z.geb_leb. apply Z.leb_gt. lia. }
        destruct Hiter as [-> | ->];
          [unfold Client.run_main_loop_iter; rewrite client_read_phase_fail by exact Hf
          |unfold Daemon.run_daemon_iter; rewrite daemon_read_phase_fail by auto];
          rewrite Hprobe; cbv zeta; rewrite Hlt;
          destruct (_ && _); do 4 eexists;
          (split; [reflexivity | split; [reflexivity | rewrite incr32_small by lia; reflexivity]]).
      - cbn [orb] in Hkind.
        destruct Hiter as [-> | ->];
          [unfold Client.run_main_loop_iter; rewrite client_read_phase_timeout by auto
          |unfold Daemon.run_daemon_iter; rewrite daemon_read_phase_timeout by auto];
          rewrite Hprobe;
          destruct (_ && _); do 4 eexists;
          (split; [reflexivity | split; [reflexivity | lia]]). }
    destruct Hstep as (ce' & ct' & se' & acts & Hstep & Hacts & Hce').
    cbn [run_loop]. rewrite Hstep.
    set (s1 := mksup _ _ _ _ _ _) in *.
    assert (Hlen : Z.of_nat (length (if read_fails e then e :: filter read_fails es
                                     else filter read_fails es))
                   = ((if read_fails e then 1 else 0)
                      + Z.of_nat (length (filter read_fails es)))%Z).
    { destruct (read_fails e); cbn [length]; lia. }
    specialize (IH s1). cbn [consecutive_errors serial_fd s1] in IH.
    destruct IH as (I1 & I2 & I3); auto; try lia.
    { subst ce'. destruct (read_fails e); lia. }
    destruct (run_loop iter s1 es) as [s2 a2]. cbn [fst snd] in *.
    rewrite forallb_app, Hacts, I1, I2, I3, Hlen. repeat split; try reflexivity; lia.
Qed.

(** C4, as amended.  In both daemons, counting from a state in which the
    error count is 0 and the link is open, with timeouts allowed between the
    failures (they do not reset the count) and a liveness probe that passes
    when it runs: the first four read failures close and reopen nothing;
    the fifth closes the link and calls [serial_setup], which reopens it and
    resynchronizes; when that call succeeds, the error count and the timeout
    count are 0 again, the startup-sync mode is on and the read buffer is
    reset. *)
Theorem reconnect_threshold :
  forall iter : supervisor -> loop_env -> supervisor * list action,
    iter = Client.run_main_loop_iter \/ iter = Daemon.run_daemon_iter ->
    forall (s : supervisor) (es : list loop_env) (e5 : loop_env),
      consecutive_errors s = 0%Z -> (0 <= serial_fd s)%Z ->
      forallb (fun e => (read_fails e || read_times_out e) && health_ok e) es = true ->
      length (filter read_fails es) = 4 ->
      read_fails e5 = true -> health_ok e5 = true ->
      let s4 := fst (run_loop iter s es) in
      let s5 := fst (iter s4 e5) in
      forallb (fun a => negb (link_action a)) (snd (run_loop iter s es)) = true /\
      consecutive_errors s4 = 4%Z /\
      In (ActClose (serial_fd s)) (snd (iter s4 e5)) /\
      In (ActSetup (fst (serial_setup e5 serial_reset_read_buffer))) (snd (iter s4 e5)) /\
      ((0 <= setup_fd e5)%Z ->
       consecutive_errors s5 = 0%Z /\ consecutive_timeouts s5 = 0%Z /\
       startup_sync_mode s5 = 1%Z /\ serial_fd s5 = setup_fd e5 /\
       read_state s5 = serial_reset_read_buffer).
Proof.
  intros iter Hiter s es e5 Hce Hfd Hall Hcnt Hf5 Hh5 s4 s5.
  destruct (failures_below_threshold iter es s Hiter) as (I1 & I2 & I3);
    auto; try lia.
  fold s4 in I2, I3. rewrite Hce, Hcnt in I2. simpl in I2.
  split; [exact I1 | split; [exact I2 |]].
  assert (Hprobe : negb (serial_check_health (serial_fd s4) e5) = false).
  { unfold serial_check_health. destruct (Z.ltb_spec (serial_fd s4) 0); try lia.
    now rewrite Hh5. }
  assert (Hge : (incr32 (consecutive_errors s4) >=? 5)%Z = true).
  { rewrite I2. reflexivity. }
  assert (Hclose : serial_close (serial_fd s4) = [ActFlush (serial_fd s); ActClose (serial_fd s)]).
  { unfold serial_close. rewrite I3. destruct (Z.geb_spec (serial_fd s) 0); auto; lia. }
  subst s5.
  destruct Hiter as [-> | ->];
    [unfold Client.run_main_loop_iter; rewrite client_read_phase_fail by exact Hf5
    |unfold Daemon.run_daemon_iter; rewrite daemon_read_phase_fail by (auto; lia)];
    rewrite Hprobe; cbv zeta; rewrite Hge, ?Hclose, ?I3;
    unfold serial_setup;
    destruct (Z.ltb_spec (setup_fd e5) 0) as [Hneg|Hpos];
    [change ((-1 <? 0)%Z) with true | destruct (Z.ltb_spec (setup_fd e5) 0); try lia
    |change ((-1 <? 0)%Z) with true | destruct (Z.ltb_spec (setup_fd e5) 0); try lia];
    cbv iota; destruct (_ && _); cbn [fst snd app In];
    (split; [tauto | split; [tauto |]]); intros Hok; try lia;
    cbn [consecutive_errors consecutive_timeouts startup_sync_mode serial_fd read_state];
    repeat split; reflexivity.
Qed.

(** Five select errors in a row on an open link, and a reopen that yields
    descriptor 4. *)
Lemma reconnect_threshold_witness :
  let err := mkenv true 4 [IoSelectError] (85 # 2) (391 # 10) in
  let s4 := fst (run_loop Client.run_main_loop_iter (initial_supervisor 3) (repeat err 4)) in
  let s5 := fst (Client.run_main_loop_iter s4 err) in
  forallb (fun a => negb (link_action a))
          (snd (run_loop Client.run_main_loop_iter (initial_supervisor 3) (repeat err 4))) = true /\
  consecutive_errors s4 = 4%Z /\
  In (ActClose 3) (snd (Client.run_main_loop_iter s4 err)) /\
  In (ActSetup 4) (snd (Client.run_main_loop_iter s4 err)) /\
  ((0 <= 4)%Z ->
   consecutive_errors s5 = 0%Z /\ consecutive_timeouts s5 = 0%Z /\
   startup_sync_mode s5 = 1%Z /\ serial_fd s5 = 4%Z /\
   read_state s5 = serial_reset_read_buffer).
Proof.
  intros err s4 s5.
  apply (reconnect_threshold Client.run_main_loop_iter (or_introl eq_refl)
           (initial_supervisor 3) (repeat err 4) err).
  - reflexivity.
  - simpl. lia.
  - reflexivity.
  - reflexivity.
  - reflexivity.
  - reflexivity.
Defined.

(** C4, as stated, fails: the error count is not reset by a timeout, so
    failures that are not consecutive add up.  Failure, timeout, failure,
    timeout, failure, timeout, failure, timeout: nothing is closed or
    reopened, and the error count is 4.  The next failure, a run of one,
    closes the link and reopens it - in both daemons.  And when five
    failures do come in a row but [serial_setup] fails at the fifth, the
    link is closed and not reopened, and the error count stays at 5. *)
Lemma reconnect_without_consecutive_failures :
  let err := mkenv true 4 [IoSelectError] (85 # 2) (391 # 10) in
  let quiet := mkenv true 4 [IoTimeout] (85 # 2) (391 # 10) in
  let err_no_port := mkenv true (-1) [IoSelectError] (85 # 2) (391 # 10) in
  let es := [err; quiet; err; quiet; err; quiet; err; quiet] in
  (let s := fst (run_loop Client.run_main_loop_iter (initial_supervisor 3) es) in
   snd (run_loop Client.run_main_loop_iter (initial_supervisor 3) es)
     = [ActSleep 100; ActSleep 100; ActSleep 100; ActSleep 100] /\
   consecutive_errors s = 4%Z /\
   snd (Client.run_main_loop_iter s err)
     = [ActFlush 3; ActClose 3; ActSetup 4; ActSleep 500; ActSleep 100] /\
   consecutive_errors (fst (Client.run_main_loop_iter s err)) = 0%Z) /\
  (let s := fst (run_loop Daemon.run_daemon_iter (initial_supervisor 3) es) in
   snd (run_loop Daemon.run_daemon_iter (initial_supervisor 3) es)
     = [ActSleep 100; ActSleep 100; ActSleep 100; ActSleep 100] /\
   consecutive_errors s = 4%Z /\
   snd (Daemon.run_daemon_iter s err)
     = [ActFlush 3; ActClose 3; ActSetup 4; ActSleep 500; ActSleep 100] /\
   consecutive_errors (fst (Daemon.run_daemon_iter s err)) = 0%Z) /\
  (let s := fst (run_loop Client.run_main_loop_iter (initial_supervisor 3)
                   [err; err; err; err]) in
   snd (Client.run_main_loop_iter s err_no_port)
     = [ActFlush 3; ActClose 3; ActSetup (-1); ActSleep 5000] /\
   consecutive_errors (fst (Client.run_main_loop_iter s err_no_port)) = 5%Z /\
   serial_fd (fst (Client.run_main_loop_iter s err_no_port)) = (-1)%Z).
Proof.
  vm_compute. repeat split; reflexivity.
Qed.

(** ** Arrays of the controller *)

Lemma aset_length {A : Type} (l : list A) (i : Z) (v : A) :
  length (aset l i v) = length l.
Proof. apply store_length. Qed.

Lemma aget_aset_same {A : Type} (l : list A) (i : Z) (v d : A) :
  (0 <= i < Z.of_nat (length l))%Z -> aget (aset l i v) i d = v.
Proof. intros H. unfold aget, aset. apply nth_store_same. lia. Qed.

Lemma aget_aset_other {A : Type} (l : list A) (i j : Z) (v d : A) :
  (0 <= i)%Z -> (0 <= j)%Z -> i <> j -> aget (aset l i v) j d = aget l j d.
Proof. intros Hi Hj H. unfold aget, aset. apply nth_store_other. lia. Qed.

Lemma incr16_small z : (-2 ^ 15 <= z < 2 ^ 15 - 1)%Z -> incr16 z = (z + 1)%Z.
Proof.
  intros H. unfold incr16, wrap_int16.
  rewrite Z.mod_small by lia. lia.
Qed.

(** ** Missed polls, for any table with a counter and a flag per device *)

Section MissedPolls.

Variable S : Type.
Variable step : S -> Z -> S.          (* one missed poll of a device *)
Variable flag : S -> bool.            (* deviceConnected[i] *)
Variable cnt : S -> Z.                (* missedPolls[i] *)
Variable wf : S -> Prop.              (* the arrays have their size *)
Variable ok_id : Z -> Prop.           (* the device numbers that occur *)
Variable i : Z.

Hypothesis step_wf : forall s id, wf s -> ok_id id -> wf (step s id).
Hypothesis step_other :
  forall s id, wf s -> ok_id id -> id <> i ->
               cnt (step s id) = cnt s /\ flag (step s id) = flag s.
Hypothesis step_self :
  forall s, wf s ->
            cnt (step s i) = incr16 (cnt s) /\
            flag (step s i) = flag s && negb (incr16 (cnt s) >=? 10)%Z.

Lemma disconnected_stays ids s :
  wf s -> Forall ok_id ids -> flag s = false ->
  flag (fold_left step ids s) = false /\ down_transitions step flag s ids = 0.
Proof.
  revert s; induction ids as [|id ids IH]; intros s Hwf Hids Hf; simpl; auto.
  inversion Hids as [|? ? Hid Hrest]; subst.
  assert (Hf1 : flag (step s id) = false).
  { destruct (Z.eq_dec id i) as [->|Hne].
    - destruct (step_self s Hwf) as [_ ->]. now rewrite Hf.
    - destruct (step_other s id Hwf Hid Hne) as [_ ->]. exact Hf. }
  destruct (IH (step s id)) as [I1 I2]; auto.
  rewrite Hf, I2. auto.
Qed.

Lemma missed_polls_run ids s m :
  wf s -> Forall ok_id ids -> flag s = true -> cnt s = m -> (0 <= m < 10)%Z ->
  let k := Z.of_nat (count_occ Z.eq_dec ids i) in
  flag (fold_left step ids s) = (m + k <? 10)%Z /\
  down_transitions step flag s ids = (if (m + k <? 10)%Z then 0 else 1).
Proof.
  revert s m; induction ids as [|id ids IH]; intros s m Hwf Hids Hf Hc Hm.
  - simpl. rewrite Z.add_0_r. destruct (Z.ltb_spec m 10); try lia. auto.
  - inversion Hids as [|? ? Hid Hrest]; subst.
    cbn [fold_left down_transitions count_occ].
    destruct (Z.eq_dec id i) as [->|Hne].
    + destruct (step_self s Hwf) as [Hc1 Hf1].
      rewrite incr16_small in Hc1, Hf1 by lia. rewrite Hf in Hf1. cbn [andb] in Hf1.
      destruct (Z.geb_spec (cnt s + 1) 10) as [Hge|Hlt]; cbn [negb] in Hf1.
      * destruct (disconnected_stays ids (step s i)) as [D1 D2]; auto.
        rewrite D1, D2, Hf, Hf1. cbn [andb negb].
        destruct (Z.ltb_spec (cnt s + Z.of_nat (Datatypes.S (count_occ Z.eq_dec ids i))) 10);
          try lia; auto.
      * destruct (IH (step s i) (cnt s + 1)%Z) as [I1 I2]; auto; try lia.
        rewrite I1, I2, Hf, Hf1. cbn [andb negb Nat.add].
        replace (cnt s + 1 + Z.of_nat (count_occ Z.eq_dec ids i))%Z
          with (cnt s + Z.of_nat (Datatypes.S (count_occ Z.eq_dec ids i)))%Z by lia.
        auto.
    + destruct (step_other s id Hwf Hid Hne) as [Hc1 Hf1].
      rewrite Hf in Hf1.
      destruct (IH (step s id) (cnt s)) as [I1 I2]; auto; try lia.
      rewrite I1, I2, Hf, Hf1. cbn [andb negb Nat.add]. auto.
Qed.

End MissedPolls.

(** ** Missed polls on the two tables *)

Lemma handleMissedPoll_temps ts fc id :
  Controller.deviceTemps (fst (Controller.handleMissedPoll ts fc id))
  = Controller.deviceTemps ts.
Proof. unfold Controller.handleMissedPoll. break_match; reflexivity. Qed.

Lemma controller_missed_run_temps ids ts fc :
  Controller.deviceTemps (fst (Controller.missed_run ts fc ids)) = Controller.deviceTemps ts.
Proof.
  unfold Controller.missed_run. revert ts fc.
  induction ids as [|id ids IH]; intros ts fc; simpl; auto.
  pose proof (handleMissedPoll_temps ts fc id) as H.
  destruct (Controller.handleMissedPoll ts fc id) as [ts1 fc1].
  rewrite IH. exact H.
Qed.

Lemma updateFanSpeed_sketch_frame g :
  Sketch.cpuTemps (Sketch.updateFanSpeed g) = Sketch.cpuTemps g /\
  Sketch.nvmeTemps (Sketch.updateFanSpeed g) = Sketch.nvmeTemps g /\
  Sketch.deviceConnected (Sketch.updateFanSpeed g) = Sketch.deviceConnected g /\
  Sketch.missedPolls (Sketch.updateFanSpeed g) = Sketch.missedPolls g.
Proof. unfold Sketch.updateFanSpeed. break_match; repeat split; reflexivity. Qed.

Lemma missedPoll_temps g id :
  Sketch.cpuTemps (Sketch.missedPoll g id) = Sketch.cpuTemps g /\
  Sketch.nvmeTemps (Sketch.missedPoll g id) = Sketch.nvmeTemps g.
Proof.
  unfold Sketch.missedPoll. break_match; try (split; reflexivity).
  destruct (updateFanSpeed_sketch_frame
              (Sketch.mkG (Sketch.cpuTemps g) (Sketch.nvmeTemps g)
                 (aset (Sketch.deviceConnected g) id false) (Sketch.lastTempUpdateTime g)
                 (aset (Sketch.missedPolls g) id
                       (incr16 (aget (Sketch.missedPolls g) id 0%Z)))
                 (Sketch.currentPwmValue g) (Sketch.pwm_writes g))) as (H1 & H2 & _).
  split; assumption.
Qed.

Lemma sketch_missed_run_temps ids g :
  Sketch.cpuTemps (Sketch.missed_run g ids) = Sketch.cpuTemps g /\
  Sketch.nvmeTemps (Sketch.missed_run g ids) = Sketch.nvmeTemps g.
Proof.
  unfold Sketch.missed_run. revert g.
  induction ids as [|id ids IH]; intros g; simpl; auto.
  destruct (IH (Sketch.missedPoll g id)) as [-> ->]. apply missedPoll_temps.
Qed.

Lemma controller_step_sized tf id : controller_sized tf -> controller_sized (controller_step tf id).
Proof.
  unfold controller_sized, controller_step, Controller.handleMissedPoll.
  intros [H1 H2]. break_match; cbn [fst Controller.deviceConnected Controller.missedPolls];
    rewrite ?aset_length; auto.
Qed.

Lemma controller_step_other i tf id :
  (0 <= i)%Z -> id <> i ->
  aget (Controller.missedPolls (fst (controller_step tf id))) i 0%Z
    = aget (Controller.missedPolls (fst tf)) i 0%Z /\
  aget (Controller.deviceConnected (fst (controller_step tf id))) i false
    = aget (Controller.deviceConnected (fst tf)) i false.
Proof.
  intros Hi Hne. unfold controller_step, Controller.handleMissedPoll.
  destruct (_ && _) eqn:G; [|auto].
  apply andb_prop in G. destruct G as [G _]. apply Z.geb_le in G.
  break_match; cbn [fst Controller.deviceConnected Controller.missedPolls];
    rewrite ?aget_aset_other by auto; auto.
Qed.

Lemma controller_step_self i tf :
  (0 <= i < NUM_DEVICES)%Z -> controller_sized tf ->
  aget (Controller.missedPolls (fst (controller_step tf i))) i 0%Z
    = incr16 (aget (Controller.missedPolls (fst tf)) i 0%Z) /\
  aget (Controller.deviceConnected (fst (controller_step tf i))) i false
    = aget (Controller.deviceConnected (fst tf)) i false
      && negb (incr16 (aget (Controller.missedPolls (fst tf)) i 0%Z) >=? 10)%Z.
Proof.
  unfold NUM_DEVICES. intros Hi [H1 H2].
  unfold controller_step, Controller.handleMissedPoll, MAX_MISSED_POLLS, NUM_DEVICES.
  destruct (Z.geb_spec i 0); try lia. destruct (Z.ltb_spec i 4); try lia. cbn [andb].
  destruct (incr16 _ >=? 10)%Z;
    destruct (aget (Controller.deviceConnected (fst tf)) i false) eqn:C;
    cbn [andb negb fst Controller.deviceConnected Controller.missedPolls];
    rewrite ?aget_aset_same by lia; auto.
Qed.

Lemma sketch_step_sized g id : sketch_sized g -> sketch_sized (Sketch.missedPoll g id).
Proof.
  unfold sketch_sized, Sketch.missedPoll. intros [H1 H2].
  destruct (_ && _).
  - match goal with |- context [Sketch.updateFanSpeed ?x] =>
      destruct (updateFanSpeed_sketch_frame x) as (_ & _ & -> & ->) end.
    cbn [Sketch.deviceConnected Sketch.missedPolls]. rewrite !aset_length. auto.
  - cbn [Sketch.deviceConnected Sketch.missedPolls]. rewrite !aset_length. auto.
Qed.

Lemma sketch_step_other i g id :
  (0 <= i)%Z -> (0 <= id)%Z -> id <> i ->
  aget (Sketch.missedPolls (Sketch.missedPoll g id)) i 0%Z = aget (Sketch.missedPolls g) i 0%Z /\
  aget (Sketch.deviceConnected (Sketch.missedPoll g id)) i false
    = aget (Sketch.deviceConnected g) i false.
Proof.
  intros Hi Hid Hne. unfold Sketch.missedPoll.
  destruct (_ && _).
  - match goal with |- context [Sketch.updateFanSpeed ?x] =>
      destruct (updateFanSpeed_sketch_frame x) as (_ & _ & -> & ->) end.
    cbn [Sketch.deviceConnected Sketch.missedPolls].
    rewrite !aget_aset_other by auto. auto.
  - cbn [Sketch.deviceConnected Sketch.missedPolls].
    rewrite !aget_aset_other by auto. auto.
Qed.

Lemma sketch_step_self i g :
  (0 <= i < NUM_DEVICES)%Z -> sketch_sized g ->
  aget (Sketch.missedPolls (Sketch.missedPoll g i)) i 0%Z
    = incr16 (aget (Sketch.missedPolls g) i 0%Z) /\
  aget (Sketch.deviceConnected (Sketch.missedPoll g i)) i false
    = aget (Sketch.deviceConnected g) i false
      && negb (incr16 (aget (Sketch.missedPolls g) i 0%Z) >=? 10)%Z.
Proof.
  unfold NUM_DEVICES. intros Hi [H1 H2].
  unfold Sketch.missedPoll, Sketch.maxMissedPolls.
  destruct (incr16 _ >=? 10)%Z;
    destruct (aget (Sketch.deviceConnected g) i false) eqn:C; cbn [andb negb].
  - match goal with |- context [Sketch.updateFanSpeed ?x] =>
      destruct (updateFanSpeed_sketch_frame x) as (_ & _ & -> & ->) end.
    cbn [Sketch.deviceConnected Sketch.missedPolls].
    rewrite !aget_aset_same by lia. auto.
  - cbn [Sketch.deviceConnected Sketch.missedPolls].
    rewrite !aget_aset_same by lia. auto.
  - cbn [Sketch.deviceConnected Sketch.missedPolls].
    rewrite !aget_aset_same by lia. auto.
  - cbn [Sketch.deviceConnected Sketch.missedPolls].
    rewrite !aget_aset_same by lia. auto.
Qed.

(** C2.  Disconnect detection.  A device [i] that is connected, with [m]
    polls missed since its last response ([m] is 0 right after a response,
    and below 10 whenever the device is connected), goes through a run of
    missed polls, its own and those of the other devices in any order.
    After the run it is still connected exactly when its own missed polls,
    old and new, are fewer than 10: the flag falls at the poll that brings
    the count to 10 (MAX_MISSED_POLLS).  Along the run the flag goes from
    true to false once if that count is reached and never otherwise.  The
    stored readings of every device are what they were.  This holds of
    [TemperatureSensor::handleMissedPoll] and of the same block of
    [pollDevices] in the single-file sketch. *)
Theorem disconnect_detection :
  forall (i m : Z) (ids : list Z),
    (0 <= i < NUM_DEVICES)%Z -> (0 <= m < MAX_MISSED_POLLS)%Z ->
    let k := Z.of_nat (count_occ Z.eq_dec ids i) in
    (forall ts fc,
        length (Controller.deviceConnected ts) = 4 ->
        length (Controller.missedPolls ts) = 4 ->
        aget (Controller.deviceConnected ts) i false = true ->
        aget (Controller.missedPolls ts) i 0%Z = m ->
        let ts' := fst (Controller.missed_run ts fc ids) in
        aget (Controller.deviceConnected ts') i false = (m + k <? MAX_MISSED_POLLS)%Z /\
        down_transitions controller_step
          (fun tf => aget (Controller.deviceConnected (fst tf)) i false) (ts, fc) ids
          = (if (m + k <? MAX_MISSED_POLLS)%Z then 0 else 1) /\
        Controller.deviceTemps ts' = Controller.deviceTemps ts) /\
    (forall g,
        length (Sketch.deviceConnected g) = 4 ->
        length (Sketch.missedPolls g) = 4 ->
        Forall (fun id => 0 <= id < NUM_DEVICES)%Z ids ->
        aget (Sketch.deviceConnected g) i false = true ->
        aget (Sketch.missedPolls g) i 0%Z = m ->
        let g' := Sketch.missed_run g ids in
        aget (Sketch.deviceConnected g') i false = (m + k <? Sketch.maxMissedPolls)%Z /\
        down_transitions Sketch.missedPoll
          (fun g => aget (Sketch.deviceConnected g) i false) g ids
          = (if (m + k <? Sketch.maxMissedPolls)%Z then 0 else 1) /\
        Sketch.cpuTemps g' = Sketch.cpuTemps g /\
        Sketch.nvmeTemps g' = Sketch.nvmeTemps g).
Proof.
  intros i m ids Hi Hm k. unfold MAX_MISSED_POLLS, Sketch.maxMissedPolls in *. split.
  - intros ts fc L1 L2 Hc Hmiss.
    destruct (missed_polls_run
                (Controller.TemperatureSensor * Controller.FanController)
                controller_step
                (fun tf => aget (Controller.deviceConnected (fst tf)) i false)
                (fun tf => aget (Controller.missedPolls (fst tf)) i 0%Z)
                controller_sized (fun _ => True) i) with (ids := ids) (s := (ts, fc)) (m := m)
      as [R1 R2]; auto.
    + intros s id Hs _. now apply controller_step_sized.
    + intros s id Hs _ Hne. apply controller_step_other; auto; lia.
    + intros s Hs. now apply controller_step_self.
    + split; assumption.
    + apply Forall_forall. auto.
    + split; [exact R1 | split; [exact R2 |]].
      apply controller_missed_run_temps.
  - intros g L1 L2 Hids Hc Hmiss.
    destruct (missed_polls_run Sketch.globals Sketch.missedPoll
                (fun g => aget (Sketch.deviceConnected g) i false)
                (fun g => aget (Sketch.missedPolls g) i 0%Z)
                sketch_sized (fun id => 0 <= id < NUM_DEVICES)%Z i)
      with (ids := ids) (s := g) (m := m) as [R1 R2]; auto.
    + intros s id Hs _. now apply sketch_step_sized.
    + intros s id Hs Hid Hne. apply sketch_step_other; auto; lia.
    + intros s Hs. now apply sketch_step_self.
    + split; assumption.
    + split; [exact R1 | split; [exact R2 |]].
      apply sketch_missed_run_temps.
Qed.

(** ** The worst-observed readings *)

Lemma fgt_true (a b : Q) : fgt a b = true -> (b < a)%Q.
Proof. unfold fgt. destruct (Qlt_le_dec b a); [auto | discriminate]. Qed.

Lemma fgt_le (a b : Q) : (a <= b)%Q -> fgt a b = false.
Proof.
  unfold fgt. intros H. destruct (Qlt_le_dec b a) as [L|L]; auto.
  exfalso. apply (Qlt_irrefl a). eapply Qle_lt_trans; eauto.
Qed.

Lemma highest_step_nonneg h d :
  (0 <= fst h)%Q /\ (0 <= snd h)%Q ->
  (0 <= fst (Controller.highest_step h d))%Q /\ (0 <= snd (Controller.highest_step h d))%Q.
Proof.
  intros [H1 H2]. unfold Controller.highest_step.
  destruct (Controller.isValid d); auto. cbn [fst snd]. split.
  - destruct (fgt _ (fst h)) eqn:E; auto. apply fgt_true in E.
    apply Qlt_le_weak. exact (Qle_lt_trans _ _ _ H1 E).
  - destruct (fgt _ (snd h)) eqn:E; auto. apply fgt_true in E.
    apply Qlt_le_weak. exact (Qle_lt_trans _ _ _ H2 E).
Qed.










(** ** Writes to the fan pin *)

(** The value applied after one call of [updateFanSpeed]. *)
Lemma controller_applied_value fc ts :
  Controller.currentPwmValue (Controller.updateFanSpeed fc ts)
  = (if Controller.hasTemperatureData ts
     then fan_output (fst (Controller.getHighestTemperatures ts))
                     (snd (Controller.getHighestTemperatures ts))
     else FAN_SPEED_MIN).
Proof.
  unfold Controller.updateFanSpeed, fan_output.
  destruct (Controller.getHighestTemperatures ts) as [hc hn]. cbn [fst snd].
  destruct (Controller.hasTemperatureData ts); cbn [negb]; [|reflexivity].
  destruct (Z.eqb_spec (Z.max (Controller.calculateFanSpeed hc CPU_TEMP_MIN CPU_TEMP_MAX)
                              (Controller.calculateFanSpeed hn NVME_TEMP_MIN NVME_TEMP_MAX))
                       (Controller.currentPwmValue fc)) as [E|E]; cbn [negb]; auto.
Qed.

Lemma sketch_applied_value g :
  Sketch.currentPwmValue (Sketch.updateFanSpeed g)
  = (if snd (Sketch.highest g)
     then fan_output (fst (fst (Sketch.highest g))) (snd (fst (Sketch.highest g)))
     else FAN_SPEED_MIN).
Proof.
  unfold Sketch.updateFanSpeed, fan_output.
  destruct (Sketch.highest g) as [[hc hn] any]. cbn [fst snd].
  destruct any; cbn [negb]; [|reflexivity].
  change (Sketch.fanSpeedFor hc CPU_TEMP_MIN CPU_TEMP_MAX)
    with (Controller.calculateFanSpeed hc CPU_TEMP_MIN CPU_TEMP_MAX).
  change (Sketch.fanSpeedFor hn NVME_TEMP_MIN NVME_TEMP_MAX)
    with (Controller.calculateFanSpeed hn NVME_TEMP_MIN NVME_TEMP_MAX).
  destruct (Z.eqb_spec (Z.max (Controller.calculateFanSpeed hc CPU_TEMP_MIN CPU_TEMP_MAX)
                              (Controller.calculateFanSpeed hn NVME_TEMP_MIN NVME_TEMP_MAX))
                       (Sketch.currentPwmValue g)) as [E|E]; cbn [negb]; auto.
Qed.

(** C6, as amended.  With temperature data present ([hasTemperatureData],
    or [anyTemperatureData] in the sketch), [updateFanSpeed] calls
    [analogWrite] exactly when the value it computes differs from the one
    applied, with that value, and leaves everything as it is when the two
    are equal.  With no temperature data it writes FAN_SPEED_MIN on every
    call, whether or not that is the value applied. *)
Theorem actuation_on_change :
  (forall fc ts,
      Controller.hasTemperatureData ts = true ->
      let v := fan_output (fst (Controller.getHighestTemperatures ts))
                          (snd (Controller.getHighestTemperatures ts)) in
      (v <> Controller.currentPwmValue fc ->
       Controller.updateFanSpeed fc ts = Controller.mkFC v (Controller.pwm_writes fc ++ [v])) /\
      (v = Controller.currentPwmValue fc -> Controller.updateFanSpeed fc ts = fc)) /\
  (forall fc ts,
      Controller.hasTemperatureData ts = false ->
      Controller.updateFanSpeed fc ts
        = Controller.mkFC FAN_SPEED_MIN (Controller.pwm_writes fc ++ [FAN_SPEED_MIN])) /\
  (forall g,
      snd (Sketch.highest g) = true ->
      let v := fan_output (fst (fst (Sketch.highest g))) (snd (fst (Sketch.highest g))) in
      (v <> Sketch.currentPwmValue g ->
       Sketch.pwm_writes (Sketch.updateFanSpeed g) = Sketch.pwm_writes g ++ [v] /\
       Sketch.currentPwmValue (Sketch.updateFanSpeed g) = v) /\
      (v = Sketch.currentPwmValue g -> Sketch.updateFanSpeed g = g)) /\
  (forall g,
      snd (Sketch.highest g) = false ->
      Sketch.pwm_writes (Sketch.updateFanSpeed g) = Sketch.pwm_writes g ++ [FAN_SPEED_MIN] /\
      Sketch.currentPwmValue (Sketch.updateFanSpeed g) = FAN_SPEED_MIN).
Proof.
  split; [|split; [|split]].
  - intros fc ts Hhas v. unfold Controller.updateFanSpeed. rewrite Hhas.
    subst v. unfold fan_output.
    destruct (Controller.getHighestTemperatures ts) as [hc hn]. cbn [fst snd negb].
    split; intros H.
    + apply Z.eqb_neq in H. now rewrite H.
    + apply Z.eqb_eq in H. now rewrite H.
  - intros fc ts Hhas. unfold Controller.updateFanSpeed. rewrite Hhas.
    now destruct (Controller.getHighestTemperatures ts).
  - intros g Hany v. unfold Sketch.updateFanSpeed. subst v. unfold fan_output.
    destruct (Sketch.highest g) as [[hc hn] any]. cbn [fst snd] in *. subst any.
    cbn [negb].
    change (Sketch.fanSpeedFor hc CPU_TEMP_MIN CPU_TEMP_MAX)
      with (Controller.calculateFanSpeed hc CPU_TEMP_MIN CPU_TEMP_MAX).
    change (Sketch.fanSpeedFor hn NVME_TEMP_MIN NVME_TEMP_MAX)
      with (Controller.calculateFanSpeed hn NVME_TEMP_MIN NVME_TEMP_MAX).
    split; intros H.
    + apply Z.eqb_neq in H. rewrite H. split; reflexivity.
    + apply Z.eqb_eq in H. now rewrite H.
  - intros g Hany. unfold Sketch.updateFanSpeed.
    destruct (Sketch.highest g) as [[hc hn] any]. cbn [fst snd] in *. subst any.
    split; reflexivity.
Qed.

(** C6, as stated, fails: right after start-up, with no reading received,
    the applied value is FAN_SPEED_MIN and a call of [updateFanSpeed]
    writes FAN_SPEED_MIN to the pin once more - in the controller with the
    two classes, whose [loop] makes that call on every pass, and in the
    single-file sketch. *)
Lemma redundant_write_without_data :
  Controller.currentPwmValue Controller.initial_fan = FAN_SPEED_MIN /\
  Controller.updateFanSpeed Controller.initial_fan (Controller.initial_sensor true)
    = Controller.mkFC FAN_SPEED_MIN [FAN_SPEED_MIN; FAN_SPEED_MIN] /\
  Sketch.currentPwmValue Sketch.initial_globals = FAN_SPEED_MIN /\
  Sketch.pwm_writes (Sketch.updateFanSpeed Sketch.initial_globals)
    = [FAN_SPEED_MIN; FAN_SPEED_MIN].
Proof. repeat split; reflexivity. Qed.

(** Some endpoint reports 70 degrees on the CPU: the first update writes
    255, the second, with the same table, writes nothing. *)
Lemma actuation_on_change_witness :
  let ts := Controller.mkTS
              [Controller.mkTD 70 (391 # 10) true 400; Controller.noData;
               Controller.noData; Controller.noData]
              [true; false; false; false] [0; 0; 0; 0]%Z true in
  Controller.updateFanSpeed Controller.initial_fan ts = Controller.mkFC 255 [30; 255]%Z /\
  Controller.updateFanSpeed (Controller.mkFC 255 [30; 255]%Z) ts
    = Controller.mkFC 255 [30; 255]%Z /\
  Controller.updateFanSpeed Controller.initial_fan (Controller.initial_sensor true)
    = Controller.mkFC FAN_SPEED_MIN ([FAN_SPEED_MIN] ++ [FAN_SPEED_MIN]).
Proof.
  intros ts. destruct actuation_on_change as (Hdata & Hnone & _ & _).
  split; [|split].
  - apply (Hdata Controller.initial_fan ts); [reflexivity | discriminate].
  - apply (Hdata (Controller.mkFC 255 [30; 255]%Z) ts); reflexivity.
  - apply (Hnone Controller.initial_fan (Controller.initial_sensor true)). reflexivity.
Defined.

(** ** Rounding to [float] *)

Lemma pow2_split (e : Z) : (Qpower 2 e * Qpower 2 (- e) == 1)%Q.
Proof.
  rewrite <- Qpower.Qpower_plus by (intros H; discriminate H).
  now rewrite Z.add_opp_diag_r.
Qed.

Lemma pow2_pos (e : Z) : (0 < Qpower 2 e)%Q.
Proof. now apply Qpower.Qpower_0_lt. Qed.

Lemma pow2_add (a b : Z) : (Qpower 2 (a + b) == Qpower 2 a * Qpower 2 b)%Q.
Proof. apply Qpower.Qpower_plus. intros H; discriminate H. Qed.

Lemma pow2_le (a b : Z) : (a <= b)%Z -> (Qpower 2 a <= Qpower 2 b)%Q.
Proof. intros H. apply Qpower.Qpower_le_compat_l; [exact H | discriminate]. Qed.

Lemma pow2_succ (a : Z) : (Qpower 2 (a + 1) == 2 * Qpower 2 a)%Q.
Proof. rewrite pow2_add. change (Qpower 2 1) with 2%Q. ring. Qed.

Lemma pow2_lt (a b : Z) : (a < b)%Z -> (Qpower 2 a < Qpower 2 b)%Q.
Proof.
  intros H. assert (L : (Qpower 2 (a + 1) <= Qpower 2 b)%Q) by (apply pow2_le; lia).
  rewrite pow2_succ in L. pose proof (pow2_pos a). Lqa.lra.
Qed.

Lemma pow2_Z (k : Z) : (0 <= k)%Z -> (inject_Z (2 ^ k) == Qpower 2 k)%Q.
Proof. intros H. now rewrite Qpower.Zpower_Qpower. Qed.

Lemma Q_as_quotient (a : Q) : (a * inject_Z (Zpos (Qden a)) == inject_Z (Qnum a))%Q.
Proof.
  destruct a as [n d]. unfold Qeq, Qmult, inject_Z. cbn. lia.
Qed.

(** The first guess of [binade] is off by less than one. *)
Lemma log2_bounds (a : Q) :
  (0 < a)%Q ->
  let k0 := (Z.log2 (Qnum a) - Z.log2 (Zpos (Qden a)))%Z in
  (Qpower 2 (k0 - 1) < a < Qpower 2 (k0 + 1))%Q.
Proof.
  intros Ha k0.
  assert (Hn : (0 < Qnum a)%Z) by (unfold Qlt in Ha; cbn in Ha; lia).
  destruct (Z.log2_spec (Qnum a) Hn) as [N1 N2].
  destruct (Z.log2_spec (Zpos (Qden a)) eq_refl) as [D1 D2].
  pose proof (Z.log2_nonneg (Qnum a)) as Ln.
  pose proof (Z.log2_nonneg (Zpos (Qden a))) as Ld.
  set (ln := Z.log2 (Qnum a)) in *. set (ld := Z.log2 (Zpos (Qden a))) in *.
  rewrite Zle_Qle in N1, D1. rewrite Zlt_Qlt in N2, D2.
  rewrite pow2_Z in N1, N2, D1, D2 by lia.
  replace (Z.succ ln) with (ln + 1)%Z in N2 by lia.
  replace (Z.succ ld) with (ld + 1)%Z in D2 by lia.
  pose proof (Q_as_quotient a) as E.
  set (N := inject_Z (Qnum a)) in *. set (D := inject_Z (Zpos (Qden a))) in *.
  assert (E1 : (Qpower 2 (ln + 1) == Qpower 2 (k0 + 1) * Qpower 2 ld)%Q).
  { rewrite <- pow2_add. replace (k0 + 1 + ld)%Z with (ln + 1)%Z by (unfold k0; lia). reflexivity. }
  assert (E2 : (Qpower 2 ln == Qpower 2 (k0 - 1) * Qpower 2 (ld + 1))%Q).
  { rewrite <- pow2_add. replace (k0 - 1 + (ld + 1))%Z with ln by (unfold k0; lia). reflexivity. }
  pose proof (pow2_pos ld). pose proof (pow2_pos (ld + 1)).
  pose proof (pow2_pos (k0 - 1)). pose proof (pow2_pos (k0 + 1)).
  set (P1 := Qpower 2 ld) in *. set (P2 := Qpower 2 (ld + 1)) in *.
  set (A := Qpower 2 (k0 + 1)) in *. set (B := Qpower 2 (k0 - 1)) in *.
  set (X := Qpower 2 (ln + 1)) in *. set (Y := Qpower 2 ln) in *.
  split.
  - destruct (Qlt_le_dec B a) as [|C]; [assumption|exfalso].
    assert ((a * D < B * P2)%Q) by Lqa.nra. Lqa.lra.
  - destruct (Qlt_le_dec a A) as [|C]; [assumption|exfalso].
    assert ((A * P1 <= a * D)%Q) by Lqa.nra. Lqa.lra.
Qed.

Lemma binade_spec (a : Q) :
  (0 < a)%Q -> (Qpower 2 (binade a) <= a < Qpower 2 (binade a + 1))%Q.
Proof.
  intros Ha. destruct (log2_bounds a Ha) as [L U]. unfold binade.
  set (k0 := (Z.log2 (Qnum a) - Z.log2 (Zpos (Qden a)))%Z) in *.
  destruct (Qle_bool (Qpower 2 k0) a) eqn:T.
  - apply Qle_bool_iff in T. split; assumption.
  - replace (k0 - 1 + 1)%Z with k0 by lia. split; [now apply Qlt_le_weak|].
    apply Qnot_le_lt. intros C. apply Qle_bool_iff in C. congruence.
Qed.

Lemma binade_unique (a : Q) (k : Z) :
  (Qpower 2 k <= a < Qpower 2 (k + 1))%Q -> binade a = k.
Proof.
  intros [L U].
  assert (Ha : (0 < a)%Q) by (pose proof (pow2_pos k); Lqa.lra).
  destruct (binade_spec a Ha) as [L' U'].
  destruct (Z_lt_le_dec (binade a) k) as [C|C].
  - assert ((Qpower 2 (binade a + 1) <= Qpower 2 k)%Q) by (apply pow2_le; lia). Lqa.lra.
  - destruct (Z_lt_le_dec k (binade a)) as [C'|C']; [|lia].
    assert ((Qpower 2 (k + 1) <= Qpower 2 (binade a))%Q) by (apply pow2_le; lia). Lqa.lra.
Qed.

Lemma binade_mono (a b : Q) : (0 < a)%Q -> (a <= b)%Q -> (binade a <= binade b)%Z.
Proof.
  intros Ha Hab.
  assert (Hb : (0 < b)%Q) by Lqa.lra.
  destruct (binade_spec a Ha) as [La Ua]. destruct (binade_spec b Hb) as [Lb Ub].
  destruct (Z_le_gt_dec (binade a) (binade b)) as [|C]; [assumption|exfalso].
  assert ((Qpower 2 (binade b + 1) <= Qpower 2 (binade a))%Q) by (apply pow2_le; lia).
  Lqa.lra.
Qed.

Lemma round_half_even_mono (x y : Q) :
  (x <= y)%Q -> (round_half_even x <= round_half_even y)%Z.
Proof.
  intros H. unfold round_half_even.
  pose proof (Qfloor_resp_le x y H) as F.
  pose proof (Qfloor_le x) as X1. pose proof (Qlt_floor x) as X2.
  pose proof (Qfloor_le y) as Y1. pose proof (Qlt_floor y) as Y2.
  rewrite inject_Z_plus in X2, Y2. change (inject_Z 1) with 1%Q in X2, Y2.
  destruct (Z.eq_dec (Qfloor x) (Qfloor y)) as [E|E].
  - rewrite <- E in *.
    destruct (Qcompare_spec (x - inject_Z (Qfloor x)) (1 # 2)) as [Cx|Cx|Cx];
      destruct (Qcompare_spec (y - inject_Z (Qfloor x)) (1 # 2)) as [Cy|Cy|Cy];
      try (destruct (Z.even (Qfloor x))); try lia; exfalso; Lqa.lra.
  - assert (Qfloor x + 1 <= Qfloor y)%Z by lia.
    destruct (x - inject_Z (Qfloor x) ?= 1 # 2)%Q;
      destruct (y - inject_Z (Qfloor y) ?= 1 # 2)%Q;
      try (destruct (Z.even (Qfloor x))); try (destruct (Z.even (Qfloor y))); lia.
Qed.

Lemma round_half_even_Z (n : Z) : round_half_even (inject_Z n) = n.
Proof.
  unfold round_half_even. rewrite Qfloor_Z.
  destruct (Qcompare_spec (inject_Z n - inject_Z n) (1 # 2)) as [C|C|C];
    [exfalso | reflexivity | exfalso]; Lqa.lra.
Qed.

Lemma Qabs_nonneg_eq (q : Q) : (0 <= q)%Q -> Qabs q = q.
Proof.
  destruct q as [n d]. unfold Qle, Qabs. cbn. intros H. f_equal. lia.
Qed.

(** [float32] on a positive rational: the mantissa at the exponent of its
    binade. *)
Lemma float32_pos (q : Q) :
  (0 < q)%Q ->
  let e := Z.max (binade q - 23) (-149) in
  (float32 q == inject_Z (round_half_even (q * Qpower 2 (- e))) * Qpower 2 e)%Q.
Proof.
  intros Hq e. unfold float32.
  destruct (Qeq_bool q 0) eqn:E0.
  { apply Qeq_bool_eq in E0. Lqa.lra. }
  rewrite (Qabs_nonneg_eq q) by Lqa.lra.
  destruct (log2_bounds q Hq) as [L U].
  set (k0 := (Z.log2 (Qnum q) - Z.log2 (Zpos (Qden q)))%Z) in *.
  replace (Z.log2 (Qnum q) - Z.log2 (Zpos (Qden q)) - 23)%Z with (k0 - 23)%Z by reflexivity.
  set (e1 := if Qle_bool _ _ then (k0 - 23)%Z else (k0 - 23 - 1)%Z).
  assert (He1 : e1 = (binade q - 23)%Z).
  { assert (P : (Qpower 2 (k0 - 23) * Qpower 2 (- (k0 - 23)) == 1)%Q) by apply pow2_split.
    assert (S : (Qpower 2 k0 == Qpower 2 (k0 - 23) * inject_Z (2 ^ 23))%Q).
    { rewrite pow2_Z by lia. rewrite <- pow2_add. now replace (k0 - 23 + 23)%Z with k0 by lia. }
    pose proof (pow2_pos (k0 - 23)). pose proof (pow2_pos (- (k0 - 23))).
    change (inject_Z (2 ^ 23)) with (8388608 # 1)%Q in *.
    subst e1. destruct (Qle_bool _ _) eqn:T.
    - apply Qle_bool_iff in T.
      rewrite (binade_unique q k0); [reflexivity|]. split; [|assumption].
      set (A := Qpower 2 (k0 - 23)) in *. set (B := Qpower 2 (- (k0 - 23))) in *.
      set (C := Qpower 2 k0) in *.
      assert ((C <= q * (A * B))%Q) by Lqa.nra. Lqa.nra.
    - rewrite (binade_unique q (k0 - 1)); [lia|].
      replace (k0 - 1 + 1)%Z with k0 by lia. split; [now apply Qlt_le_weak|].
      apply Qnot_le_lt. intros C0.
      assert (T' : Qle_bool (8388608 # 1) (q * Qpower 2 (- (k0 - 23))) = true).
      { apply Qle_bool_iff.
        set (A := Qpower 2 (k0 - 23)) in *. set (B := Qpower 2 (- (k0 - 23))) in *.
        set (C := Qpower 2 k0) in *. Lqa.nra. }
      congruence. }
  rewrite He1. fold e. rewrite Qred_correct.
  destruct (Qlt_le_dec q 0); [Lqa.lra | reflexivity].
Qed.

Lemma scale_lt (a : Q) (k e : Z) :
  (a < Qpower 2 k)%Q -> (a * Qpower 2 (- e) < Qpower 2 (k - e))%Q.
Proof.
  intros H. replace (k - e)%Z with (k + - e)%Z by lia. rewrite pow2_add.
  pose proof (pow2_pos (- e)). set (P := Qpower 2 (- e)) in *.
  set (K := Qpower 2 k) in *. Lqa.nra.
Qed.

Lemma scale_le (a : Q) (k e : Z) :
  (Qpower 2 k <= a)%Q -> (Qpower 2 (k - e) <= a * Qpower 2 (- e))%Q.
Proof.
  intros H. replace (k - e)%Z with (k + - e)%Z by lia. rewrite pow2_add.
  pose proof (pow2_pos (- e)). set (P := Qpower 2 (- e)) in *.
  set (K := Qpower 2 k) in *. Lqa.nra.
Qed.

Lemma scale_mono (a b : Q) (e : Z) :
  (a <= b)%Q -> (a * Qpower 2 e <= b * Qpower 2 e)%Q.
Proof. intros H. pose proof (pow2_pos e). set (P := Qpower 2 e) in *. Lqa.nra. Qed.

(** Two mantissas of at most 24 bits at their exponents: the one at the
    higher exponent, with its leading bit set, is the larger value. *)
Lemma scaled_le (m1 m2 e1 e2 : Z) :
  (e1 <= e2)%Z -> (m1 <= 2 ^ 24)%Z ->
  (e1 < e2 -> 2 ^ 23 <= m2)%Z -> (e1 = e2 -> m1 <= m2)%Z ->
  (inject_Z m1 * Qpower 2 e1 <= inject_Z m2 * Qpower 2 e2)%Q.
Proof.
  intros He H1 H2 H3.
  destruct (Z.eq_dec e1 e2) as [E|E].
  - subst e2. apply scale_mono. rewrite <- Zle_Qle. auto.
  - assert (L : (e1 < e2)%Z) by lia. specialize (H2 L).
    rewrite Zle_Qle in H1, H2.
    change (inject_Z (2 ^ 24)) with (16777216 # 1)%Q in H1.
    change (inject_Z (2 ^ 23)) with (8388608 # 1)%Q in H2.
    assert (P : (Qpower 2 (e1 + 1) <= Qpower 2 e2)%Q) by (apply pow2_le; lia).
    rewrite pow2_succ in P.
    pose proof (pow2_pos e1). pose proof (pow2_pos e2).
    set (A := Qpower 2 e1) in *. set (B := Qpower 2 e2) in *.
    set (x := inject_Z m1) in *. set (y := inject_Z m2) in *.
    assert ((x * A <= (16777216 # 1) * A)%Q) by Lqa.nra.
    assert (((8388608 # 1) * B <= y * B)%Q) by Lqa.nra.
    Lqa.lra.
Qed.

Lemma float32_zero (q : Q) : (q == 0)%Q -> float32 q = 0%Q.
Proof.
  intros H. unfold float32. apply Qeq_bool_iff in H. now rewrite H.
Qed.

Lemma float32_nonneg (q : Q) : (0 <= q)%Q -> (0 <= float32 q)%Q.
Proof.
  intros H. destruct (Qlt_le_dec 0 q) as [P|Z0].
  - rewrite (float32_pos q P).
    set (e := Z.max (binade q - 23) (-149)).
    assert (M : (0 <= round_half_even (q * Qpower 2 (- e)))%Z).
    { rewrite <- (round_half_even_Z 0). apply round_half_even_mono.
      pose proof (pow2_pos (- e)). set (p := Qpower 2 (- e)) in *.
      change (inject_Z 0) with 0%Q. Lqa.nra. }
    rewrite Zle_Qle in M. change (inject_Z 0) with 0%Q in M.
    pose proof (pow2_pos e). set (p := Qpower 2 e) in *.
    set (m := inject_Z _) in *. Lqa.nra.
  - rewrite float32_zero by Lqa.lra. Lqa.lra.
Qed.

(** Rounding to [float] keeps the order. *)
Lemma float32_mono (a b : Q) :
  (0 <= a)%Q -> (a <= b)%Q -> (float32 a <= float32 b)%Q.
Proof.
  intros Ha Hab.
  destruct (Qlt_le_dec 0 a) as [Pa|Za].
  2:{ rewrite (float32_zero a) by Lqa.lra. apply float32_nonneg. Lqa.lra. }
  assert (Pb : (0 < b)%Q) by Lqa.lra.
  rewrite (float32_pos a Pa), (float32_pos b Pb).
  pose proof (binade_mono a b Pa Hab) as Hk.
  destruct (binade_spec a Pa) as [La Ua]. destruct (binade_spec b Pb) as [Lb Ub].
  set (ea := Z.max (binade a - 23) (-149)). set (eb := Z.max (binade b - 23) (-149)).
  apply scaled_le.
  - lia.
  - rewrite <- (round_half_even_Z (2 ^ 24)). apply round_half_even_mono.
    rewrite pow2_Z by lia. apply Qlt_le_weak.
    eapply Qlt_le_trans; [apply scale_lt; exact Ua|]. apply pow2_le. lia.
  - intros L. rewrite <- (round_half_even_Z (2 ^ 23)). apply round_half_even_mono.
    rewrite pow2_Z by lia.
    eapply Qle_trans; [|apply scale_le; exact Lb]. apply pow2_le. lia.
  - intros E. rewrite <- E. apply round_half_even_mono. now apply scale_mono.
Qed.

Lemma float32_int (n : Z) :
  (0 < n <= 2 ^ 24)%Z -> (float32 (inject_Z n) == inject_Z n)%Q.
Proof.
  intros Hn.
  assert (P : (0 < inject_Z n)%Q) by (change 0%Q with (inject_Z 0); rewrite <- Zlt_Qlt; lia).
  rewrite (float32_pos _ P).
  destruct (binade_spec _ P) as [L U].
  set (k := binade (inject_Z n)) in *.
  assert (K0 : (0 <= k)%Z).
  { destruct (Z_le_gt_dec 0 k) as [|C]; [assumption|exfalso].
    assert ((Qpower 2 (k + 1) <= Qpower 2 0)%Q) by (apply pow2_le; lia).
    change (Qpower 2 0) with (inject_Z 1) in H.
    assert ((inject_Z n < inject_Z 1)%Q) by Lqa.lra. rewrite <- Zlt_Qlt in H0. lia. }
  assert (K1 : (k <= 24)%Z).
  { destruct (Z_le_gt_dec k 24) as [|C]; [assumption|exfalso].
    assert ((Qpower 2 25 <= Qpower 2 k)%Q) by (apply pow2_le; lia).
    rewrite <- pow2_Z in H by lia.
    assert ((inject_Z (2 ^ 25) <= inject_Z n)%Q) by Lqa.lra. rewrite <- Zle_Qle in H0. lia. }
  set (e := Z.max (k - 23) (-149)).
  assert (E : e = (k - 23)%Z) by lia.
  destruct (Z_le_gt_dec e 0) as [En|Ep].
  - assert (S : (inject_Z n * Qpower 2 (- e) == inject_Z (n * 2 ^ (- e)))%Q).
    { rewrite inject_Z_mult, pow2_Z by lia. reflexivity. }
    assert (R : round_half_even (inject_Z n * Qpower 2 (- e)) = (n * 2 ^ (- e))%Z).
    { rewrite <- (round_half_even_Z (n * 2 ^ (- e))).
      apply Z.le_antisymm; apply round_half_even_mono; rewrite S; apply Qle_refl. }
    rewrite R, inject_Z_mult, pow2_Z by lia.
    rewrite <- Qmult_assoc, (Qmult_comm (Qpower 2 (- e))), pow2_split. ring.
  - assert (e = 1)%Z by lia. assert (k = 24)%Z by lia.
    assert (N : n = (2 ^ 24)%Z).
    { rewrite H0 in L. rewrite <- pow2_Z in L by lia. rewrite <- Zle_Qle in L. lia. }
    rewrite H, N. now vm_compute.
Qed.

(** ** The square root and [pow] *)

Lemma round_sqrt_mono (s t : Q) :
  (s <= t)%Q -> (round_sqrt s <= round_sqrt t)%Z.
Proof.
  intros H. unfold round_sqrt.
  pose proof (Z.sqrt_le_mono _ _ (Qfloor_resp_le s t H)) as F.
  set (f := Z.sqrt (Qfloor s)) in *. set (g := Z.sqrt (Qfloor t)) in *.
  destruct (Z.eq_dec f g) as [E|E].
  - rewrite <- E.
    destruct (Qcompare_spec s ((inject_Z f + (1 # 2)) * (inject_Z f + (1 # 2)))) as [Cs|Cs|Cs];
      destruct (Qcompare_spec t ((inject_Z f + (1 # 2)) * (inject_Z f + (1 # 2)))) as [Ct|Ct|Ct];
      try (destruct (Z.even f)); try lia; exfalso; Lqa.lra.
  - destruct (s ?= _)%Q; destruct (t ?= _)%Q;
      try (destruct (Z.even f)); try (destruct (Z.even g)); lia.
Qed.

Lemma round_sqrt_nonneg (s : Q) : (0 <= round_sqrt s)%Z.
Proof.
  unfold round_sqrt. pose proof (Z.sqrt_nonneg (Qfloor s)).
  destruct (s ?= _)%Q; try (destruct (Z.even _)); lia.
Qed.

(** [round_sqrt s] is a nearest integer to the square root of [s]: the
    square root lies between [m - 1/2] and [m + 1/2]. *)
Lemma round_sqrt_nearest (s : Q) :
  (0 <= s)%Q ->
  let m := inject_Z (round_sqrt s) in
  (s <= (m + (1 # 2)) * (m + (1 # 2)))%Q /\
  ((1 # 2) <= m -> (m - (1 # 2)) * (m - (1 # 2)) <= s)%Q.
Proof.
  intros Hs. cbv zeta. unfold round_sqrt.
  assert (F0 : (0 <= Qfloor s)%Z).
  { rewrite <- (Qfloor_Z 0). now apply Qfloor_resp_le. }
  destruct (Z.sqrt_spec (Qfloor s) F0) as [S1 S2].
  pose proof (Z.sqrt_nonneg (Qfloor s)) as S0.
  set (f := Z.sqrt (Qfloor s)) in *.
  pose proof (Qfloor_le s) as X1. pose proof (Qlt_floor s) as X2.
  assert (L : (inject_Z f * inject_Z f <= s)%Q).
  { rewrite <- inject_Z_mult. eapply Qle_trans; [|exact X1]. now rewrite <- Zle_Qle. }
  assert (U : (s < (inject_Z f + 1) * (inject_Z f + 1))%Q).
  { eapply Qlt_le_trans; [exact X2|].
    change 1%Q with (inject_Z 1). rewrite <- !inject_Z_plus, <- inject_Z_mult, <- Zle_Qle.
    replace (Z.succ f) with (f + 1)%Z in S2 by lia. lia. }
  rewrite Zle_Qle in S0. change (inject_Z 0) with 0%Q in S0.
  set (x := inject_Z f) in *.
  destruct (Qcompare_spec s ((x + (1 # 2)) * (x + (1 # 2)))) as [C|C|C].
  - destruct (Z.even f); [|rewrite inject_Z_plus; change (inject_Z 1) with 1%Q]; fold x;
      split; intros; Lqa.nra.
  - fold x. split; intros; Lqa.nra.
  - rewrite inject_Z_plus; change (inject_Z 1) with 1%Q; fold x. split; intros; Lqa.nra.
Qed.

Lemma sqrt32_zero (r : Q) : (r <= 0)%Q -> sqrt32 r = 0%Q.
Proof. intros H. unfold sqrt32. apply Qle_bool_iff in H. now rewrite H. Qed.

Lemma sqrt32_pos (r : Q) :
  (0 < r)%Q ->
  let e := Z.max (binade r / 2 - 23) (-149) in
  (sqrt32 r == inject_Z (round_sqrt (r * Qpower 2 (- (2 * e)))) * Qpower 2 e)%Q.
Proof.
  intros H e. unfold sqrt32.
  destruct (Qle_bool r 0) eqn:T.
  - apply Qle_bool_iff in T. Lqa.lra.
  - fold e. apply Qred_correct.
Qed.

Lemma sqrt32_nonneg (r : Q) : (0 <= sqrt32 r)%Q.
Proof.
  destruct (Qlt_le_dec 0 r) as [P|Z0].
  - rewrite (sqrt32_pos r P).
    set (e := Z.max (binade r / 2 - 23) (-149)).
    pose proof (round_sqrt_nonneg (r * Qpower 2 (- (2 * e)))) as M.
    rewrite Zle_Qle in M. change (inject_Z 0) with 0%Q in M.
    pose proof (pow2_pos e). set (p := Qpower 2 e) in *.
    set (m := inject_Z _) in *. Lqa.nra.
  - rewrite sqrt32_zero by assumption. Lqa.lra.
Qed.

(** The square root rounded to [float] keeps the order. *)
Lemma sqrt32_mono (a b : Q) : (a <= b)%Q -> (sqrt32 a <= sqrt32 b)%Q.
Proof.
  intros Hab.
  destruct (Qlt_le_dec 0 a) as [Pa|Za].
  2:{ rewrite (sqrt32_zero a) by assumption. apply sqrt32_nonneg. }
  assert (Pb : (0 < b)%Q) by Lqa.lra.
  rewrite (sqrt32_pos a Pa), (sqrt32_pos b Pb).
  pose proof (binade_mono a b Pa Hab) as Hk.
  destruct (binade_spec a Pa) as [La Ua]. destruct (binade_spec b Pb) as [Lb Ub].
  set (ka := binade a) in *. set (kb := binade b) in *.
  pose proof (Z.div_le_mono ka kb 2 eq_refl Hk) as Hh.
  pose proof (Z.div_mod ka 2 ltac:(lia)) as Da. pose proof (Z.mod_pos_bound ka 2 eq_refl) as Ma.
  pose proof (Z.div_mod kb 2 ltac:(lia)) as Db. pose proof (Z.mod_pos_bound kb 2 eq_refl) as Mb.
  set (ea := Z.max (ka / 2 - 23) (-149)). set (eb := Z.max (kb / 2 - 23) (-149)).
  apply scaled_le.
  - lia.
  - change (2 ^ 24)%Z with (round_sqrt (inject_Z (2 ^ 48))). apply round_sqrt_mono.
    rewrite pow2_Z by lia. apply Qlt_le_weak.
    eapply Qlt_le_trans; [exact (scale_lt a (ka + 1) (2 * ea) Ua)|]. apply pow2_le. lia.
  - intros L. change (2 ^ 23)%Z with (round_sqrt (inject_Z (2 ^ 46))). apply round_sqrt_mono.
    rewrite pow2_Z by lia.
    eapply Qle_trans; [|exact (scale_le b kb (2 * eb) Lb)]. apply pow2_le. lia.
  - intros E. rewrite <- E. apply round_sqrt_mono. now apply scale_mono.
Qed.

Lemma exponent_halves : Qfloor (FAN_CURVE_EXPONENT * 2) = 5%Z /\
                        (inject_Z 5 == FAN_CURVE_EXPONENT * 2)%Q.
Proof. split; reflexivity. Qed.

Lemma fifth_power_mono (x y : Q) : (0 <= x)%Q -> (x <= y)%Q -> (Qpower x 5 <= Qpower y 5)%Q.
Proof.
  intros Hx Hxy.
  assert (E : forall z : Q, (Qpower z 5 == z * z * (z * z) * z)%Q).
  { intros z. change (Qpower z 5) with (Qpower_positive z 5). cbn. ring. }
  rewrite !E.
  assert (A : (x * x <= y * y)%Q) by Lqa.nra.
  assert (A0 : (0 <= x * x)%Q) by Lqa.nra.
  set (u := (x * x)%Q) in *. set (v := (y * y)%Q) in *.
  assert (B : (u * u <= v * v)%Q) by Lqa.nra.
  assert (B0 : (0 <= u * u)%Q) by Lqa.nra.
  set (p := (u * u)%Q) in *. set (q := (v * v)%Q) in *. Lqa.nra.
Qed.

(** [pow] at the exponent of the curve: monotone, 0 at 0 and 1 at 1. *)
Lemma pow_mono (x y : Q) :
  (0 <= x)%Q -> (x <= y)%Q ->
  (pow x FAN_CURVE_EXPONENT <= pow y FAN_CURVE_EXPONENT)%Q.
Proof.
  intros Hx Hxy. unfold pow. rewrite (proj1 exponent_halves).
  apply sqrt32_mono. now apply fifth_power_mono.
Qed.

Lemma pow_unit (x : Q) :
  (0 <= x <= 1)%Q -> (0 <= pow x FAN_CURVE_EXPONENT <= 1)%Q.
Proof.
  intros [H0 H1]. split.
  - unfold pow. apply sqrt32_nonneg.
  - assert (E : (pow 1 FAN_CURVE_EXPONENT == 1)%Q) by reflexivity.
    rewrite <- E. now apply pow_mono.
Qed.

(** ** [pow] against the power function of the reals *)

Lemma sqrt32_mantissa (r : Q) :
  (0 < r)%Q ->
  let e := Z.max (binade r / 2 - 23) (-149) in
  let m := round_sqrt (r * Qpower 2 (- (2 * e))) in
  (0 <= m <= 2 ^ 24)%Z /\ (-149 < e -> 2 ^ 23 <= m)%Z.
Proof.
  intros Pr e m.
  destruct (binade_spec r Pr) as [L U].
  set (k := binade r) in *.
  pose proof (Z.div_mod k 2 ltac:(lia)) as D. pose proof (Z.mod_pos_bound k 2 eq_refl) as M.
  split; [split|].
  - apply round_sqrt_nonneg.
  - change (2 ^ 24)%Z with (round_sqrt (inject_Z (2 ^ 48))). apply round_sqrt_mono.
    rewrite pow2_Z by lia. apply Qlt_le_weak.
    eapply Qlt_le_trans; [exact (scale_lt r (k + 1) (2 * e) U)|]. apply pow2_le. lia.
  - intros E. change (2 ^ 23)%Z with (round_sqrt (inject_Z (2 ^ 46))). apply round_sqrt_mono.
    rewrite pow2_Z by lia.
    eapply Qle_trans; [|exact (scale_le r k (2 * e) L)]. apply pow2_le. lia.
Qed.

Lemma Q2R_fifth (x : Q) : Q2R (Qpower x 5) = (Q2R x ^ 5)%R.
Proof.
  assert (E : (Qpower x 5 == x * (x * (x * (x * x))))%Q).
  { change (Qpower x 5) with (Qpower_positive x 5). cbn. ring. }
  rewrite (Qeq_eqR _ _ E), !Q2R_mult. ring.
Qed.

(** x^2.5 is the square root of x^5. *)
Lemma Rpower_exponent (x : R) :
  (0 < x)%R ->
  (Rpower x (Q2R FAN_CURVE_EXPONENT) * Rpower x (Q2R FAN_CURVE_EXPONENT) = x ^ 5)%R.
Proof.
  intros Hx. rewrite <- Rpower_plus.
  replace (Q2R FAN_CURVE_EXPONENT + Q2R FAN_CURVE_EXPONENT)%R with (INR 5).
  - now apply Rpower_pow.
  - unfold FAN_CURVE_EXPONENT, Q2R. cbn. lra.
Qed.

Lemma square_le (u v : R) : (0 <= v)%R -> (u * u <= v * v)%R -> (u <= v)%R.
Proof. intros Hv H. destruct (Rle_dec u v) as [|C]; [assumption | nra]. Qed.

(** [pow] at the exponent of the curve is correctly rounded: its value is a
    mantissa of at most 24 bits at an exponent of the [float] format, with
    its leading bit set unless the value is subnormal, and it is within
    half a unit of that exponent from the power of the reals. *)
Lemma pow_correctly_rounded (x : Q) :
  (0 < x)%Q ->
  exists m e : Z,
    (pow x FAN_CURVE_EXPONENT == inject_Z m * Qpower 2 e)%Q /\
    (0 <= m <= 2 ^ 24)%Z /\ (-149 <= e)%Z /\ (-149 < e -> 2 ^ 23 <= m)%Z /\
    (Rabs (Q2R (pow x FAN_CURVE_EXPONENT) - Rpower (Q2R x) (Q2R FAN_CURVE_EXPONENT))
     <= Q2R (Qpower 2 e) / 2)%R.
Proof.
  intros Hx. unfold pow. rewrite (proj1 exponent_halves).
  set (r := Qpower x 5).
  assert (Pr : (0 < r)%Q) by (now apply Qpower.Qpower_0_lt).
  pose proof (sqrt32_pos r Pr) as Hval. pose proof (sqrt32_mantissa r Pr) as Hm.
  cbv zeta in Hval, Hm.
  set (e := Z.max (binade r / 2 - 23) (-149)) in *.
  set (s := (r * Qpower 2 (- (2 * e)))%Q) in *.
  assert (Ps : (0 <= s)%Q).
  { subst s. pose proof (pow2_pos (- (2 * e))). set (p := Qpower 2 _) in *. Lqa.nra. }
  destruct (round_sqrt_nearest s Ps) as [N1 N2].
  set (m := round_sqrt s) in *.
  exists m, e. destruct Hm as [Hm1 Hm2].
  split; [exact Hval|]. split; [exact Hm1|]. split; [lia|]. split; [exact Hm2|].
  rewrite (Qeq_eqR _ _ Hval), Q2R_mult.
  assert (Hr : (r == s * (Qpower 2 e * Qpower 2 e))%Q).
  { subst s. rewrite <- pow2_add, <- Qmult_assoc, <- pow2_add.
    replace (- (2 * e) + (e + e))%Z with 0%Z by lia. change (Qpower 2 0) with 1%Q. ring. }
  apply Qeq_eqR in Hr. rewrite !Q2R_mult in Hr.
  pose proof (Qlt_Rlt _ _ (pow2_pos e)) as Pp. rewrite RMicromega.Q2R_0 in Pp.
  apply Qle_Rle in N1. rewrite Q2R_mult, Q2R_plus in N1.
  assert (Ps' : (0 <= Q2R s)%R) by (apply Qle_Rle in Ps; now rewrite RMicromega.Q2R_0 in Ps).
  assert (Hx' : (0 < Q2R x)%R) by (apply Qlt_Rlt in Hx; now rewrite RMicromega.Q2R_0 in Hx).
  pose proof (Rpower_exponent (Q2R x) Hx') as Hy.
  rewrite <- Q2R_fifth in Hy. fold r in Hy.
  assert (Py : (0 < Rpower (Q2R x) (Q2R FAN_CURVE_EXPONENT))%R) by (unfold Rpower; apply exp_pos).
  assert (Hhalf : Q2R (1 # 2) = (1 / 2)%R) by (unfold Q2R; cbn; lra).
  rewrite Hhalf in N1.
  assert (M0 : (0 <= Q2R (inject_Z m))%R).
  { replace 0%R with (Q2R (inject_Z 0)) by apply RMicromega.Q2R_0.
    apply Qle_Rle. rewrite <- Zle_Qle. lia. }
  set (y := Rpower (Q2R x) (Q2R FAN_CURVE_EXPONENT)) in *.
  set (p := Q2R (Qpower 2 e)) in *. set (M := Q2R (inject_Z m)) in *.
  set (S := Q2R s) in *. set (R0 := Q2R r) in *.
  assert (Up : (y <= (M + 1 / 2) * p)%R).
  { apply square_le; [nra|]. rewrite Hy, Hr. nra. }
  assert (Lo : ((M - 1 / 2) * p <= y)%R).
  { destruct (Z.eq_dec m 0) as [Z0|NZ].
    - assert (M = 0%R) by (unfold M; rewrite Z0; apply RMicromega.Q2R_0). nra.
    - assert (H1 : (1 <= M)%R).
      { replace 1%R with (Q2R (inject_Z 1)) by (unfold Q2R; cbn; lra).
        apply Qle_Rle. rewrite <- Zle_Qle. lia. }
      assert (N2' : ((M - 1 / 2) * (M - 1 / 2) <= S)%R).
      { assert (Q1 : ((1 # 2) <= inject_Z m)%Q).
        { assert ((inject_Z 1 <= inject_Z m)%Q) by (rewrite <- Zle_Qle; lia).
          change (inject_Z 1) with 1%Q in H. Lqa.lra. }
        specialize (N2 Q1). apply Qle_Rle in N2.
        rewrite Q2R_mult, Q2R_minus, Hhalf in N2. exact N2. }
      apply square_le; [lra|]. rewrite Hy, Hr. nra. }
  apply Rabs_le. split; lra.
Qed.

(** ** The curve *)

Lemma float_to_int_nonneg (x : Q) : (0 <= x)%Q -> float_to_int x = Qfloor x.
Proof.
  destruct x as [n d]. unfold Qle, float_to_int, Qfloor. cbn. intros H.
  apply Z.quot_div_nonneg; lia.
Qed.

Lemma quotient_unit (x d : Q) : (0 <= x)%Q -> (x <= d)%Q -> (0 <= x / d <= 1)%Q.
Proof.
  intros Hx Hd.
  destruct (Qlt_le_dec 0 d) as [P|Z0].
  - split.
    + apply Qle_shift_div_l; [exact P | Lqa.lra].
    + apply Qle_shift_div_r; [exact P | Lqa.lra].
  - assert (E : (x == 0)%Q) by Lqa.lra.
    unfold Qdiv. rewrite E. split; Lqa.lra.
Qed.

Lemma quotient_mono (x y d : Q) : (0 <= d)%Q -> (x <= y)%Q -> (x / d <= y / d)%Q.
Proof.
  intros Hd Hxy. unfold Qdiv.
  assert (I : (0 <= / d)%Q) by (now apply Qinv_le_0_compat).
  set (i := (/ d)%Q) in *. Lqa.nra.
Qed.

Lemma float32_below (x v : Q) :
  (float32 v == v)%Q -> (0 <= x)%Q -> (x <= v)%Q -> (float32 x <= v)%Q.
Proof. intros E H0 H. rewrite <- E. now apply float32_mono. Qed.

Lemma float32_above (x v : Q) :
  (float32 v == v)%Q -> (0 <= v)%Q -> (v <= x)%Q -> (v <= float32 x)%Q.
Proof. intros E H0 H. rewrite <- E. now apply float32_mono. Qed.

(** The ratio of the curve, between the thresholds. *)
Lemma ratio_unit (t lo hi : Q) :
  (lo < t)%Q -> (t < hi)%Q ->
  (0 <= fdiv (fsub t lo) (fsub hi lo) <= 1)%Q.
Proof.
  intros H1 H2. unfold fdiv, fsub.
  assert (X0 : (0 <= float32 (t - lo))%Q) by (apply float32_nonneg; Lqa.lra).
  assert (XD : (float32 (t - lo) <= float32 (hi - lo))%Q) by (apply float32_mono; Lqa.lra).
  destruct (quotient_unit _ _ X0 XD) as [Q0 Q1].
  split.
  - now apply float32_nonneg.
  - apply float32_below; [reflexivity | assumption | assumption].
Qed.

Lemma ratio_mono (a b lo hi : Q) :
  (lo < a)%Q -> (a <= b)%Q -> (b < hi)%Q ->
  (fdiv (fsub a lo) (fsub hi lo) <= fdiv (fsub b lo) (fsub hi lo))%Q.
Proof.
  intros H1 H2 H3. unfold fdiv, fsub.
  assert (X0 : (0 <= float32 (a - lo))%Q) by (apply float32_nonneg; Lqa.lra).
  assert (XY : (float32 (a - lo) <= float32 (b - lo))%Q) by (apply float32_mono; Lqa.lra).
  assert (XD : (float32 (a - lo) <= float32 (hi - lo))%Q) by (apply float32_mono; Lqa.lra).
  assert (D0 : (0 <= float32 (hi - lo))%Q) by Lqa.lra.
  apply float32_mono.
  - apply (quotient_unit _ _ X0 XD).
  - now apply quotient_mono.
Qed.

(** The [float] of the curve before its conversion to [int]. *)
Lemma curve_float_bounds (c : Q) :
  (0 <= c <= 1)%Q ->
  (30 <= fadd (inject_Z FAN_SPEED_MIN) (fmul c (inject_Z (FAN_SPEED_MAX - FAN_SPEED_MIN)))
   <= 255)%Q.
Proof.
  intros [C0 C1]. unfold fadd, fmul.
  change (inject_Z FAN_SPEED_MIN) with 30%Q.
  change (inject_Z (FAN_SPEED_MAX - FAN_SPEED_MIN)) with 225%Q.
  assert (M0 : (0 <= float32 (c * 225))%Q) by (apply float32_nonneg; Lqa.lra).
  assert (M1 : (float32 (c * 225) <= 225)%Q).
  { apply float32_below; [reflexivity | Lqa.lra | Lqa.lra]. }
  split.
  - apply float32_above; [reflexivity | Lqa.lra | Lqa.lra].
  - apply float32_below; [reflexivity | Lqa.lra | Lqa.lra].
Qed.

Lemma curve_float_mono (c c' : Q) :
  (0 <= c)%Q -> (c <= c')%Q ->
  (fadd (inject_Z FAN_SPEED_MIN) (fmul c (inject_Z (FAN_SPEED_MAX - FAN_SPEED_MIN)))
   <= fadd (inject_Z FAN_SPEED_MIN) (fmul c' (inject_Z (FAN_SPEED_MAX - FAN_SPEED_MIN))))%Q.
Proof.
  intros C0 C1. unfold fadd, fmul.
  change (inject_Z FAN_SPEED_MIN) with 30%Q.
  change (inject_Z (FAN_SPEED_MAX - FAN_SPEED_MIN)) with 225%Q.
  assert (M0 : (0 <= float32 (c * 225))%Q) by (apply float32_nonneg; Lqa.lra).
  assert (M1 : (float32 (c * 225) <= float32 (c' * 225))%Q) by (apply float32_mono; Lqa.lra).
  apply float32_mono; Lqa.lra.
Qed.

Lemma curve_with_bounds (pw : Q -> Q -> Q) (t lo hi : Q) :
  pow_monotone_unit pw -> (lo < t)%Q -> (t < hi)%Q ->
  (FAN_SPEED_MIN <= curve_with pw t lo hi <= FAN_SPEED_MAX)%Z.
Proof.
  intros [Hu _] H1 H2. unfold curve_with.
  pose proof (curve_float_bounds _ (Hu _ (ratio_unit t lo hi H1 H2))) as [B0 B1].
  rewrite float_to_int_nonneg by Lqa.lra.
  split.
  - change FAN_SPEED_MIN with (Qfloor 30). now apply Qfloor_resp_le.
  - change FAN_SPEED_MAX with (Qfloor 255). now apply Qfloor_resp_le.
Qed.

Lemma curve_with_mono (pw : Q -> Q -> Q) (a b lo hi : Q) :
  pow_monotone_unit pw -> (lo < a)%Q -> (a <= b)%Q -> (b < hi)%Q ->
  (curve_with pw a lo hi <= curve_with pw b lo hi)%Z.
Proof.
  intros [Hu Hm] H1 H2 H3. unfold curve_with.
  assert (A2 : (a < hi)%Q) by Lqa.lra. assert (B1 : (lo < b)%Q) by Lqa.lra.
  pose proof (ratio_unit a lo hi H1 A2) as Ra.
  pose proof (ratio_unit b lo hi B1 H3) as Rb.
  pose proof (ratio_mono a b lo hi H1 H2 H3) as Rab.
  pose proof (curve_float_bounds _ (Hu _ Ra)) as [Fa _].
  pose proof (curve_float_bounds _ (Hu _ Rb)) as [Fb _].
  rewrite !float_to_int_nonneg by Lqa.lra.
  apply Qfloor_resp_le, curve_float_mono.
  - apply (Hu _ Ra).
  - apply Hm; [apply Ra | exact Rab | apply Rb].
Qed.

Lemma pow_is_monotone_unit : pow_monotone_unit pow.
Proof.
  split.
  - apply pow_unit.
  - intros x y Hx Hxy _. now apply pow_mono.
Qed.

Lemma fle_spec (a b : Q) : fle a b = true <-> (a <= b)%Q.
Proof. unfold fle. apply Qle_bool_iff. Qed.

Lemma fle_false (a b : Q) : fle a b = false -> (b < a)%Q.
Proof.
  intros H. apply Qnot_le_lt. intros L. apply fle_spec in L. congruence.
Qed.

Lemma calculateFanSpeed_bounds (t lo hi : Q) :
  (FAN_SPEED_MIN <= Controller.calculateFanSpeed t lo hi <= FAN_SPEED_MAX)%Z.
Proof.
  unfold Controller.calculateFanSpeed.
  destruct (fle t lo) eqn:E1; [unfold FAN_SPEED_MIN, FAN_SPEED_MAX; lia|].
  unfold fge. destruct (fle hi t) eqn:E2; [unfold FAN_SPEED_MIN, FAN_SPEED_MAX; lia|].
  apply fle_false in E1, E2.
  apply curve_with_bounds; [apply pow_is_monotone_unit | exact E1 | exact E2].
Qed.

Lemma calculateFanSpeed_mono (a b lo hi : Q) :
  (lo < hi)%Q -> (a <= b)%Q ->
  (Controller.calculateFanSpeed a lo hi <= Controller.calculateFanSpeed b lo hi)%Z.
Proof.
  intros Hlh Hab.
  pose proof (calculateFanSpeed_bounds a lo hi) as Ba.
  pose proof (calculateFanSpeed_bounds b lo hi) as Bb.
  unfold Controller.calculateFanSpeed in *.
  unfold fge in *.
  destruct (fle a lo) eqn:A1; [lia|].
  apply fle_false in A1.
  destruct (fle b lo) eqn:B1.
  { apply fle_spec in B1. exfalso. apply (Qlt_irrefl lo).
    eapply Qlt_le_trans; [exact A1|]. eapply Qle_trans; eauto. }
  destruct (fle hi b) eqn:B2; [lia|].
  apply fle_false in B1, B2.
  destruct (fle hi a) eqn:A2.
  { apply fle_spec in A2. exfalso. apply (Qlt_irrefl hi).
    eapply Qle_lt_trans; [exact A2|]. eapply Qle_lt_trans; eauto. }
  apply curve_with_mono; [apply pow_is_monotone_unit | exact A1 | exact Hab | exact B2].
Qed.

(** The rounding shows in the output.  For the NVME readings 11476635,
    13769970 and 14987703 times 2^-18 the curve without rounding,
    30 + 225 x^2.5 at the exact ratio x, lies below 32, 70 and 118: the
    square of 225 x^2.5 is below the squares of 2, 40 and 88. *)
Lemma curve_exact_below :
  let x := fun t : Q => ((t - NVME_TEMP_MIN) / (NVME_TEMP_MAX - NVME_TEMP_MIN))%Q in
  (225 * 225 * Qpower (x (11476635 # 262144)) 5 < 2 * 2)%Q /\
  (225 * 225 * Qpower (x (13769970 # 262144)) 5 < 40 * 40)%Q /\
  (225 * 225 * Qpower (x (14987703 # 262144)) 5 < 88 * 88)%Q.
Proof. repeat split. Qed.

(** C3.  The curve is monotone and bounded, computed as the firmware
    computes it: every operation on [float] gives the [float] nearest to
    the exact result, [pow] gives the [float] nearest to the power of the
    reals, and the conversion to [int] truncates.  With [fan_output] the
    value [updateFanSpeed] computes from the two highest readings: for
    readings [a < b] of one metric, the other being the same, the output
    for [a] is at most the output for [b]; every output lies within
    FAN_SPEED_MIN = 30 and FAN_SPEED_MAX = 255; [calculateFanSpeed] itself
    is monotone and bounded for any thresholds [minTemp < maxTemp] whose
    difference is in the range of [float]; the value applied after
    [updateFanSpeed], in the controller with the two classes and in the
    sketch, is [fan_output] of the highest readings when there is data and
    the floor when there is none, so it lies within the bounds too.  The
    curve is monotone and bounded with any [pow] that keeps the order of
    the ratios and maps the ratios between 0 and 1 to values between 0 and
    1, and the correctly rounded [pow] is such a function.  Last, some
    readings and their outputs: at 50 degrees the CPU curve gives 69; the
    NVME readings 11476635, 13769970 and 14987703 times 2^-18 (43.78, 52.53
    and 57.17 degrees) give 32, 70 and 118, and the CPU readings 11278460
    and 13113128 times 2^-18 (43.02 and 50.02 degrees) give 32 and 70. *)
Theorem curve_monotone_bounded :
  (forall a b c : Q,
      (a < b)%Q ->
      (fan_output a c <= fan_output b c)%Z /\ (fan_output c a <= fan_output c b)%Z) /\
  (forall cpu nvme : Q,
      (FAN_SPEED_MIN <= fan_output cpu nvme <= FAN_SPEED_MAX)%Z) /\
  (forall a b minTemp maxTemp : Q,
      (minTemp < maxTemp)%Q -> (maxTemp - minTemp <= FLT_MAX)%Q -> (a < b)%Q ->
      (Controller.calculateFanSpeed a minTemp maxTemp
       <= Controller.calculateFanSpeed b minTemp maxTemp)%Z /\
      (FAN_SPEED_MIN <= Controller.calculateFanSpeed a minTemp maxTemp <= FAN_SPEED_MAX)%Z) /\
  (forall fc ts,
      Controller.currentPwmValue (Controller.updateFanSpeed fc ts)
      = (if Controller.hasTemperatureData ts
         then fan_output (fst (Controller.getHighestTemperatures ts))
                         (snd (Controller.getHighestTemperatures ts))
         else FAN_SPEED_MIN) /\
      (FAN_SPEED_MIN <= Controller.currentPwmValue (Controller.updateFanSpeed fc ts)
       <= FAN_SPEED_MAX)%Z) /\
  (forall g,
      Sketch.currentPwmValue (Sketch.updateFanSpeed g)
      = (if snd (Sketch.highest g)
         then fan_output (fst (fst (Sketch.highest g))) (snd (fst (Sketch.highest g)))
         else FAN_SPEED_MIN) /\
      (FAN_SPEED_MIN <= Sketch.currentPwmValue (Sketch.updateFanSpeed g)
       <= FAN_SPEED_MAX)%Z) /\
  (forall pw : Q -> Q -> Q,
      pow_monotone_unit pw ->
      forall a b minTemp maxTemp : Q,
        (minTemp < a)%Q -> (a <= b)%Q -> (b < maxTemp)%Q ->
        (curve_with pw a minTemp maxTemp <= curve_with pw b minTemp maxTemp)%Z /\
        (FAN_SPEED_MIN <= curve_with pw a minTemp maxTemp <= FAN_SPEED_MAX)%Z) /\
  pow_monotone_unit pow /\
  Controller.calculateFanSpeed 50 CPU_TEMP_MIN CPU_TEMP_MAX = 69%Z /\
  Controller.calculateFanSpeed (11476635 # 262144) NVME_TEMP_MIN NVME_TEMP_MAX = 32%Z /\
  Controller.calculateFanSpeed (13769970 # 262144) NVME_TEMP_MIN NVME_TEMP_MAX = 70%Z /\
  Controller.calculateFanSpeed (14987703 # 262144) NVME_TEMP_MIN NVME_TEMP_MAX = 118%Z /\
  Controller.calculateFanSpeed (11278460 # 262144) CPU_TEMP_MIN CPU_TEMP_MAX = 32%Z /\
  Controller.calculateFanSpeed (13113128 # 262144) CPU_TEMP_MIN CPU_TEMP_MAX = 70%Z.
Proof.
  assert (Hcpu : (CPU_TEMP_MIN < CPU_TEMP_MAX)%Q) by reflexivity.
  assert (Hnvme : (NVME_TEMP_MIN < NVME_TEMP_MAX)%Q) by reflexivity.
  assert (Hbound : forall cpu nvme, (FAN_SPEED_MIN <= fan_output cpu nvme <= FAN_SPEED_MAX)%Z).
  { intros cpu nvme. unfold fan_output.
    pose proof (calculateFanSpeed_bounds cpu CPU_TEMP_MIN CPU_TEMP_MAX).
    pose proof (calculateFanSpeed_bounds nvme NVME_TEMP_MIN NVME_TEMP_MAX). lia. }
  split; [|split; [|split; [|split; [|split; [|split; [|split]]]]]].
  - intros a b c Hab. apply Qlt_le_weak in Hab. unfold fan_output.
    pose proof (calculateFanSpeed_mono a b _ _ Hcpu Hab).
    pose proof (calculateFanSpeed_mono a b _ _ Hnvme Hab). lia.
  - exact Hbound.
  - intros a b lo hi Hlh _ Hab. split.
    + apply calculateFanSpeed_mono; auto. now apply Qlt_le_weak.
    + apply calculateFanSpeed_bounds.
  - intros fc ts. pose proof (controller_applied_value fc ts) as E.
    split; [exact E|]. rewrite E.
    destruct (Controller.hasTemperatureData ts); [apply Hbound|].
    unfold FAN_SPEED_MIN, FAN_SPEED_MAX. lia.
  - intros g. pose proof (sketch_applied_value g) as E.
    split; [exact E|]. rewrite E.
    destruct (snd (Sketch.highest g)); [apply Hbound|].
    unfold FAN_SPEED_MIN, FAN_SPEED_MAX. lia.
  - intros pw Hpw a b lo hi H1 H2 H3. split.
    + now apply curve_with_mono.
    + apply curve_with_bounds; [exact Hpw | exact H1 | eapply Qle_lt_trans; eauto].
  - apply pow_is_monotone_unit.
  - repeat split; vm_compute; reflexivity.
Qed.

(** CPU readings of 45 and 50 degrees with the NVME reading at 39.1. *)
Lemma curve_monotone_bounded_witness :
  (fan_output 45 (391 # 10) <= fan_output 50 (391 # 10))%Z /\
  (fan_output (391 # 10) 45 <= fan_output (391 # 10) 50)%Z /\
  (Controller.calculateFanSpeed 45 40 60 <= Controller.calculateFanSpeed 50 40 60)%Z /\
  (curve_with pow 45 40 60 <= curve_with pow 50 40 60)%Z.
Proof.
  destruct curve_monotone_bounded as (Hmono & _ & Hcalc & _ & _ & Hany & Hpow & _).
  destruct (Hmono 45 50 (391 # 10))%Q as [H1 H2]; [reflexivity|].
  destruct (Hcalc 45 50 40 60)%Q as [H3 _];
    [reflexivity | apply Qle_bool_iff; reflexivity | reflexivity |].
  destruct (Hany pow Hpow 45 50 40 60)%Q as [H4 _];
    [reflexivity | apply Qle_bool_iff; reflexivity | reflexivity |].
  split; [exact H1 | split; [exact H2 | split; [exact H3 | exact H4]]].
Defined.

(** ** The response on the wire *)

(** C9.  Round trip of the response.  The readings 42.50 and 39.10, as the
    [float] values nearest to them, are encoded by
    [temperature_format_response] (and by the same [snprintf] of the
    single-file daemon) as "CPU:42.50|NVME:39.10" followed by a line feed,
    21 characters.  The controller takes these characters one by one, hands
    the line without its line feed to [processSerialResponse], and
    [parseTemperatureData] stores for the device a valid record whose CPU
    reading is 42.5 and whose NVME reading is the [float] nearest to 39.10,
    5124915 / 131072: both within 0.01 of what was encoded. *)
Theorem wire_format_round_trip :
  temperature_format_response 64 (float32 (4250 # 100)) (float32 (3910 # 100))
    = (21%Z, ("CPU:42.50|NVME:39.10" ++ String LF "")%string) /\
  snprintf 64 ("CPU:" ++ fmt_2f (float32 (4250 # 100)) ++ "|NVME:" ++
               fmt_2f (float32 (3910 # 100)) ++ String LF "")%string
    = (21%Z, ("CPU:42.50|NVME:39.10" ++ String LF "")%string) /\
  (let r := Controller.receive (Controller.initial_sensor true) Controller.initial_fan 0 ""
              (list_ascii_of_string ("CPU:42.50|NVME:39.10" ++ String LF "")%string) 1000 in
   let d := aget (Controller.deviceTemps (fst (fst r))) 0 Controller.noData in
   snd r = ""%string /\
   d = Controller.mkTD (85 # 2) (5124915 # 131072) true 1000 /\
   aget (Controller.deviceConnected (fst (fst r))) 0 false = true /\
   (Qabs (Controller.cpuTemp d - (4250 # 100)) <= 1 # 100)%Q /\
   (Qabs (Controller.nvmeTemp d - (3910 # 100)) <= 1 # 100)%Q) /\
  (let r := Controller.parseTemperatureData (Controller.initial_sensor true)
              Controller.initial_fan 0 "CPU:42.50|NVME:39.10" 1000 in
   fst (fst r) = true /\
   aget (Controller.deviceTemps (snd (fst r))) 0 Controller.noData
     = Controller.mkTD (85 # 2) (5124915 # 131072) true 1000).
Proof.
  split; [vm_compute; reflexivity|].
  split; [vm_compute; reflexivity|].
  split.
  - cbv zeta.
    assert (E : aget (Controller.deviceTemps
                        (fst (fst (Controller.receive (Controller.initial_sensor true)
                                     Controller.initial_fan 0 ""
                                     (list_ascii_of_string
                                        ("CPU:42.50|NVME:39.10" ++ String LF "")%string) 1000))))
                     0 Controller.noData
                = Controller.mkTD (85 # 2) (5124915 # 131072) true 1000)
      by (vm_compute; reflexivity).
    rewrite E. cbn [Controller.cpuTemp Controller.nvmeTemp].
    split; [vm_compute; reflexivity|].
    split; [reflexivity|].
    split; [vm_compute; reflexivity|].
    split; apply Qle_bool_imp_le; vm_compute; reflexivity.
  - cbv zeta. split; vm_compute; reflexivity.
Qed.

(** Device 0 answered and then stays silent while the other three are
    polled as well: twelve rounds of missed polls. *)
Lemma disconnect_detection_witness :
  let ts := Controller.mkTS
              [Controller.mkTD (85 # 2) (391 # 10) true 400; Controller.noData;
               Controller.noData; Controller.noData]
              [true; false; false; false] [0; 3; 3; 3]%Z true in
  let g := Sketch.mkG [85 # 2; 0; 0; 0]%Q [391 # 10; 0; 0; 0]%Q [true; false; false; false]
             [400; 0; 0; 0]%Z [0; 3; 3; 3]%Z 30 [30]%Z in
  let ids := concat (repeat [0; 1; 2; 3]%Z 12) in
  (aget (Controller.deviceConnected (fst (Controller.missed_run ts Controller.initial_fan ids)))
        0 false = false /\
   down_transitions controller_step
     (fun tf => aget (Controller.deviceConnected (fst tf)) 0 false)
     (ts, Controller.initial_fan) ids = 1 /\
   Controller.deviceTemps (fst (Controller.missed_run ts Controller.initial_fan ids))
     = Controller.deviceTemps ts) /\
  (aget (Sketch.deviceConnected (Sketch.missed_run g ids)) 0 false = false /\
   down_transitions Sketch.missedPoll (fun g => aget (Sketch.deviceConnected g) 0 false) g ids
     = 1 /\
   Sketch.cpuTemps (Sketch.missed_run g ids) = Sketch.cpuTemps g /\
   Sketch.nvmeTemps (Sketch.missed_run g ids) = Sketch.nvmeTemps g).
Proof.
  intros ts g ids.
  destruct (disconnect_detection 0 0 ids) as [Hc Hs]; [unfold NUM_DEVICES; lia
                                                      | unfold MAX_MISSED_POLLS; lia |].
  split.
  - apply (Hc ts Controller.initial_fan); reflexivity.
  - apply (Hs g); try reflexivity.
    subst ids. apply Forall_forall. intros id Hin.
    apply in_concat in Hin. destruct Hin as (l & Hl & Hid).
    apply repeat_spec in Hl. subst l. unfold NUM_DEVICES.
    simpl in Hid. intuition lia.
Defined.

(** * Further properties of the code *)

(** ** utils.c: [utils_clean_buffer] *)

Lemma dropwhile_split (p : ascii -> bool) (l : list ascii) :
  exists pre, l = pre ++ dropwhile p l /\ Forall (fun c => p c = true) pre.
Proof.
  induction l as [|c t [pre [H1 H2]]]; simpl.
  - exists []. auto.
  - destruct (p c) eqn:E.
    + exists (c :: pre). split; [simpl; congruence | constructor; auto].
    + exists []. auto.
Qed.

Lemma dropwhile_head (p : ascii -> bool) (l : list ascii) x r :
  dropwhile p l = x :: r -> p x = false.
Proof.
  induction l as [|c t IH]; simpl; [discriminate|].
  destruct (p c) eqn:E; auto. intros H; inversion H; subst; auto.
Qed.

Lemma dropwhile_all (p : ascii -> bool) (l r : list ascii) :
  Forall (fun c => p c = true) l -> dropwhile p (l ++ r) = dropwhile p r.
Proof.
  induction 1 as [|c t Hc Ht IH]; simpl; auto. now rewrite Hc.
Qed.

(** The loop that removes the trailing characters, on the part of the
    string after its first character. *)
Lemma strip_trailing_split (t : list ascii) :
  exists post,
    t = rev (dropwhile is_trailing (rev t)) ++ post /\
    Forall (fun c => is_trailing c = true) post.
Proof.
  destruct (dropwhile_split is_trailing (rev t)) as [pre [H1 H2]].
  exists (rev pre). split.
  - rewrite <- rev_app_distr, <- H1. now rewrite rev_involutive.
  - apply Forall_rev, H2.
Qed.

Lemma strip_trailing_last (t u : list ascii) x :
  rev (dropwhile is_trailing (rev t)) = u ++ [x] -> is_trailing x = false.
Proof.
  intros H. apply (f_equal (@rev ascii)) in H.
  rewrite rev_involutive, rev_app_distr in H. simpl in H.
  eapply dropwhile_head, H.
Qed.

Lemma strip_trailing_keep (u post : list ascii) x :
  is_trailing x = false -> Forall (fun c => is_trailing c = true) post ->
  rev (dropwhile is_trailing (rev ((u ++ [x]) ++ post))) = u ++ [x].
Proof.
  intros Hx Hp. rewrite rev_app_distr, dropwhile_all by now apply Forall_rev.
  rewrite rev_app_distr. simpl. rewrite Hx. simpl.
  now rewrite rev_involutive.
Qed.

Lemma strip_trailing_all (post : list ascii) :
  Forall (fun c => is_trailing c = true) post ->
  rev (dropwhile is_trailing (rev post)) = [].
Proof.
  intros Hp. rewrite <- (app_nil_r (rev post)), dropwhile_all by now apply Forall_rev.
  reflexivity.
Qed.

Lemma list_snoc_cases {A : Type} (l : list A) :
  l = [] \/ exists u x, l = u ++ [x].
Proof.
  destruct l as [|a l]; [now left | right].
  destruct (exists_last (l := a :: l)) as (u & x & H); [discriminate|]. eauto.
Qed.

Lemma suffix_last {A : Type} (pre u v : list A) (x y c : A) :
  pre ++ c :: u ++ [x] = v ++ [y] -> x = y.
Proof.
  intros H. apply (f_equal (@rev A)) in H.
  rewrite !rev_app_distr in H. simpl in H. rewrite rev_app_distr in H.
  simpl in H. now inversion H.
Qed.

Lemma clean_twice (s : list ascii) :
  utils_clean_buffer (utils_clean_buffer s) = utils_clean_buffer s.
Proof.
  destruct s as [|c t]; [reflexivity|].
  cbn [utils_clean_buffer].
  set (t' := rev (dropwhile is_trailing (rev t))) in *.
  destruct (dropwhile_split is_blank (c :: t')) as [pre [Hpre Hblank]].
  set (r := dropwhile is_blank (c :: t')) in *.
  destruct r as [|c' u] eqn:Er; [reflexivity|].
  cbn [utils_clean_buffer].
  assert (Hc' : is_blank c' = false) by (eapply dropwhile_head; exact Er).
  destruct (list_snoc_cases u) as [->|(v & x & ->)].
  - simpl. now rewrite Hc'.
  - assert (Hx : is_trailing x = false).
    { destruct (list_snoc_cases t') as [E|(v' & y & E)].
      - rewrite E in Hpre. destruct pre as [|? [|? ?]]; simpl in Hpre; try discriminate;
          inversion Hpre; destruct v; discriminate.
      - assert (is_trailing y = false) by (eapply strip_trailing_last; exact E).
        rewrite E in Hpre. destruct pre as [|p pre].
        + simpl in Hpre. inversion Hpre as [[Hc Hu]].
          apply app_inj_tail in Hu. destruct Hu as [_ Hu]. congruence.
        + simpl in Hpre. inversion Hpre as [[Hc Hu]].
          symmetry in Hu. apply suffix_last in Hu. congruence. }
    rewrite <- (app_nil_r (v ++ [x])) at 1.
    rewrite strip_trailing_keep by auto.
    simpl. now rewrite Hc'.
Qed.

Lemma clean_pieces (s : list ascii) :
  exists pre post,
    s = pre ++ utils_clean_buffer s ++ post /\
    Forall (fun c => is_blank c = true) pre /\
    Forall (fun c => is_trailing c = true) post.
Proof.
  destruct s as [|c t].
  { exists [], []. auto. }
  cbn [utils_clean_buffer].
  destruct (strip_trailing_split t) as [post [Ht Hpost]].
  destruct (dropwhile_split is_blank (c :: rev (dropwhile is_trailing (rev t))))
    as [pre [Hpre Hblank]].
  exists pre, post. split; [|split; auto].
  rewrite app_assoc, <- Hpre. simpl. now rewrite <- Ht.
Qed.

Lemma clean_padded (pre w post : list ascii) :
  w <> [] ->
  is_blank (hd NUL w) = false ->
  is_trailing (last w NUL) = false ->
  Forall (fun c => is_blank c = true) pre ->
  Forall (fun c => is_trailing c = true) post ->
  utils_clean_buffer (pre ++ w ++ post) = w.
Proof.
  intros Hne Hhd Hlast Hpre Hpost.
  destruct (list_snoc_cases w) as [->|(u & x & ->)]; [congruence|].
  rewrite last_last in Hlast.
  destruct pre as [|b pre'].
  - destruct u as [|c u']; cbn [app utils_clean_buffer].
    + rewrite strip_trailing_all by auto. simpl in Hhd. simpl. now rewrite Hhd.
    + rewrite strip_trailing_keep by auto. simpl in Hhd. simpl. now rewrite Hhd.
  - cbn [app utils_clean_buffer].
    replace (pre' ++ (u ++ [x]) ++ post) with (((pre' ++ u) ++ [x]) ++ post)
      by now rewrite <- !app_assoc.
    rewrite strip_trailing_keep by auto.
    rewrite <- app_assoc.
    change (b :: pre' ++ u ++ [x]) with ((b :: pre') ++ (u ++ [x])).
    rewrite dropwhile_all by auto.
    destruct u as [|c u']; simpl in *; now rewrite Hhd.
Qed.

(** X1.  What is left of a string is a piece of it: blanks and tabs were taken
    from its front, and blanks, tabs, carriage returns and line feeds from
    its end; and cleaning twice changes nothing more. *)
Theorem utils_clean_buffer_trims (s : list ascii) :
  utils_clean_buffer (utils_clean_buffer s) = utils_clean_buffer s /\
  exists pre post,
    s = pre ++ utils_clean_buffer s ++ post /\
    Forall (fun c => is_blank c = true) pre /\
    Forall (fun c => is_trailing c = true) post.
Proof.
  split; [apply clean_twice | apply clean_pieces].
Qed.

(** X2.  For a text that neither starts with a blank or a tab nor ends with one
    of the four characters: a string is cleaned to this text exactly when
    it is the text with blanks and tabs before it and blanks, tabs,
    carriage returns and line feeds after it. *)
Theorem utils_clean_buffer_exact (s w : list ascii) :
  w <> [] ->
  is_blank (hd NUL w) = false ->
  is_trailing (last w NUL) = false ->
  (utils_clean_buffer s = w <->
   exists pre post,
     s = pre ++ w ++ post /\
     Forall (fun c => is_blank c = true) pre /\
     Forall (fun c => is_trailing c = true) post).
Proof.
  intros Hne Hhd Hlast. split.
  - intros <-. apply clean_pieces.
  - intros (pre & post & -> & Hpre & Hpost). now apply clean_padded.
Qed.

Lemma utils_clean_buffer_exact_witness :
  utils_clean_buffer (bytes " " ++ bytes "POLL" ++ [" "%char; CR; LF]) = bytes "POLL" <->
  exists pre post,
    bytes " " ++ bytes "POLL" ++ [" "%char; CR; LF] = pre ++ bytes "POLL" ++ post /\
    Forall (fun c => is_blank c = true) pre /\
    Forall (fun c => is_trailing c = true) post.
Proof.
  apply utils_clean_buffer_exact; vm_compute; congruence.
Defined.

(** ** serial.c: whole lines through the reader *)

Lemma is_eol_false (c : ascii) : is_eol c = false -> c <> CR /\ c <> LF.
Proof.
  unfold is_eol. intros H. apply orb_false_iff in H. destruct H as [H1 H2].
  split; intros ->; [now rewrite Ascii.eqb_refl in H2 | now rewrite Ascii.eqb_refl in H1].
Qed.

Lemma plain_nth (size : nat) (l : list ascii) (j : nat) :
  plain_line size l -> j < length l ->
  nth j l NUL <> CR /\ nth j l NUL <> LF /\ nth j l NUL <> NUL.
Proof.
  intros (_ & _ & _ & Hall) Hj.
  rewrite Forall_forall in Hall.
  destruct (Hall (nth j l NUL) (nth_In l NUL Hj)) as [He Hn].
  apply is_eol_false in He. tauto.
Qed.

Lemma plain_no_nul (size : nat) (l : list ascii) : plain_line size l -> ~ In NUL l.
Proof.
  intros (_ & _ & _ & Hall) Hin. rewrite Forall_forall in Hall.
  destruct (Hall NUL Hin) as [_ H]. congruence.
Qed.

(** One line arriving whole in an empty buffer is returned as it is, and
    the buffer is empty again. *)
Lemma scan_buffer_frame (size : nat) (st : rdbuf) (l : list ascii) (crlf : bool) :
  buffer_sized st -> contents st = [] -> plain_line size l ->
  exists st',
    scan_buffer size st (l ++ line_ending crlf) = inl (RcCommand l, st') /\
    buffer_ok st' /\ contents st' = [].
Proof.
  intros Hs Hc Hl. pose proof Hl as (Hne & Hlen & Hfit & Hall).
  unfold scan_buffer.
  set (st1 := append_chars st (l ++ line_ending crlf)).
  pose proof (append_chars_ok st (l ++ line_ending crlf) Hs) as Hok1. fold st1 in Hok1.
  pose proof (buffer_ok_sized _ Hok1) as Hs1.
  assert (Hel : length (line_ending crlf) <= 2) by (destruct crlf; simpl; lia).
  assert (Hc1 : contents st1 = l ++ line_ending crlf).
  { unfold st1. rewrite append_chars_contents, Hc by exact Hs. cbn [app].
    apply lastn_short. rewrite length_app. unfold BUFSZ in *. lia. }
  assert (Hpos : g_buffer_pos st1 = length l + length (line_ending crlf)).
  { rewrite <- contents_length, Hc1, length_app by exact Hs1. reflexivity. }
  assert (Hnth : forall j, j < g_buffer_pos st1 ->
                   nth j (g_read_buffer st1) NUL = nth j (l ++ line_ending crlf) NUL).
  { intros j Hj. now rewrite nth_contents, Hc1. }
  assert (Htext : forall j, j < length l ->
                    nth j (g_read_buffer st1) NUL = nth j l NUL).
  { intros j Hj. rewrite Hnth by lia. now rewrite app_nth1. }
  assert (Hlen0 : 0 < length l) by (destruct l; [congruence | simpl; lia]).
  assert (He : find_cmd_end st1 = Some (length l)).
  { unfold find_cmd_end. destruct crlf; cbn [line_ending length] in *.
    - rewrite (scan_first _ 0 _ (length l)); auto; try lia.
      + unfold at_crlf. rewrite !Hnth by lia.
        rewrite !app_nth2 by lia.
        replace (length l - length l) with 0 by lia.
        replace (length l + 1 - length l) with 1 by lia. reflexivity.
      + intros j Hj. unfold at_crlf. rewrite Htext by lia.
        destruct (plain_nth size l j Hl) as (H1 & _); [lia|].
        destruct (Ascii.eqb_spec (nth j l NUL) CR); [contradiction | reflexivity].
    - rewrite scan_all_false.
      + apply scan_first; try lia.
        * unfold at_lf. rewrite Hnth by lia. rewrite app_nth2 by lia.
          replace (length l - length l) with 0 by lia. reflexivity.
        * intros j Hj. unfold at_lf. rewrite Htext by lia.
          destruct (plain_nth size l j Hl) as (_ & H2 & _); [lia|].
          destruct (Ascii.eqb_spec (nth j l NUL) LF); [contradiction | reflexivity].
      + intros j Hj. unfold at_crlf. rewrite Htext by lia.
        destruct (plain_nth size l j Hl) as (H1 & _); [lia|].
        destruct (Ascii.eqb_spec (nth j l NUL) CR); [contradiction | reflexivity]. }
  rewrite He.
  assert (Hstart : find_cmd_start st1 (length l) = 0).
  { unfold find_cmd_start. destruct (length l) as [|n] eqn:E; [lia|].
    cbn [skip_eol]. rewrite Htext by lia.
    destruct (plain_nth size l 0 Hl) as (H1 & H2 & _); [lia|].
    unfold is_eol.
    destruct (Ascii.eqb_spec (nth 0 l NUL) LF); [contradiction|].
    destruct (Ascii.eqb_spec (nth 0 l NUL) CR); [contradiction | reflexivity]. }
  rewrite Hstart, Nat.sub_0_r.
  destruct (Nat.ltb_spec 0 (length l)); [|lia].
  destruct (Nat.ltb_spec (length l) size); [|lia]. cbn [andb].
  assert (Hrm : chars_to_remove st1 (length l) = g_buffer_pos st1).
  { unfold chars_to_remove, at_crlf, at_lf. rewrite Hpos.
    destruct crlf; cbn [line_ending length] in *.
    - destruct (Nat.ltb_spec (length l) (length l + 2 - 1)); [|lia].
      rewrite !Hnth by lia. rewrite !app_nth2 by lia.
      replace (length l - length l) with 0 by lia.
      replace (length l + 1 - length l) with 1 by lia. reflexivity.
    - destruct (Nat.ltb_spec (length l) (length l + 1 - 1)); [lia|]. cbn [andb].
      destruct (Nat.ltb_spec (length l) (length l + 1)); [|lia].
      rewrite Hnth by lia. rewrite app_nth2 by lia.
      replace (length l - length l) with 0 by lia. reflexivity. }
  rewrite Hrm.
  exists (remove_front st1 (g_buffer_pos st1)). split; [|split].
  - f_equal. f_equal. f_equal. cbn [skipn].
    rewrite strncpy_firstn.
    replace (firstn (length l) (g_read_buffer st1)) with l.
    + apply strncpy_no_nul. eapply plain_no_nul, Hl.
    + pose proof (segment_of_buffer st1 0 (length l) Hs1) as Hseg.
      cbn [skipn] in Hseg. rewrite Hseg by lia.
      rewrite Hc1, firstn_app, firstn_all, Nat.sub_diag. cbn [firstn].
      now rewrite app_nil_r.
  - apply remove_front_ok, Hs1.
  - rewrite remove_front_contents by exact Hs1. apply skipn_all2.
    rewrite contents_length by exact Hs1. lia.
Qed.

(** X3.  Lines arriving one per call, each with either line ending, come out in
    the order sent and unchanged, one per call, and nothing is left in the
    buffer. *)
Theorem framed_lines_in_order (fd : Z) (size : nat) (lines : list (list ascii * bool))
    (st : rdbuf) :
  (0 <= fd)%Z -> 0 < size -> buffer_ok st -> contents st = [] ->
  Forall (fun l => plain_line size (fst l)) lines ->
  fst (feed_calls fd size st (map frame lines)) = map fst lines /\
  contents (snd (feed_calls fd size st (map frame lines))) = [].
Proof.
  intros Hfd Hsz. revert st.
  induction lines as [|[l crlf] rest IH]; intros st Hok Hc Hall.
  - simpl. auto.
  - inversion Hall as [|? ? Hl Hrest]; subst. cbn [fst] in Hl.
    destruct (scan_buffer_frame size st l crlf (buffer_ok_sized _ Hok) Hc Hl)
      as (st' & Hscan & Hok' & Hc').
    specialize (IH st' Hok' Hc' Hrest).
    assert (E : feed_calls fd size st (map frame ((l, crlf) :: rest))
                = (l :: fst (feed_calls fd size st' (map frame rest)),
                   snd (feed_calls fd size st' (map frame rest)))).
    { cbn [map feed_calls]. change (frame (l, crlf)) with (l ++ line_ending crlf).
      rewrite single_call; auto.
      - rewrite Hscan. now destruct (feed_calls fd size st' (map frame rest)).
      - destruct Hl as (Hne & _). destruct l; [congruence | discriminate]. }
    rewrite E. cbn [fst snd map]. destruct IH as [IH1 IH2].
    split; [now rewrite IH1 | exact IH2].
Qed.

Lemma framed_lines_in_order_witness :
  fst (feed_calls 3 256 serial_reset_read_buffer
         (map frame [(bytes "POLL", true); (bytes "PING", false)]))
    = map fst [(bytes "POLL", true); (bytes "PING", false)] /\
  contents (snd (feed_calls 3 256 serial_reset_read_buffer
                   (map frame [(bytes "POLL", true); (bytes "PING", false)]))) = [].
Proof.
  apply framed_lines_in_order; try lia; try apply reset_ok; try reflexivity.
  repeat constructor; try (vm_compute; lia); try (vm_compute; congruence).
Defined.

(** ** serial.c: what a returned command looks like *)

Lemma strncpy_nth (src : list ascii) (n i : nat) :
  nth i (strncpy src n) NUL <> NUL ->
  i < n /\ nth i (strncpy src n) NUL = nth i src NUL.
Proof.
  revert src i; induction n as [|n IH]; intros src i H.
  - simpl in H. destruct i; congruence.
  - destruct src as [|c t].
    + exfalso. apply H. cbn [strncpy].
      destruct (Nat.lt_ge_cases i (S n)) as [Hi|Hi].
      * apply nth_repeat_lt. exact Hi.
      * apply nth_overflow. rewrite repeat_length. exact Hi.
    + cbn [strncpy] in *. destruct (Ascii.eqb c NUL) eqn:E.
      * exfalso. apply H.
        destruct (Nat.lt_ge_cases i (S n)) as [Hi|Hi].
        -- apply nth_repeat_lt. exact Hi.
        -- apply nth_overflow. rewrite repeat_length. exact Hi.
      * destruct i as [|i]; [split; [lia | reflexivity]|].
        cbn [nth] in *. destruct (IH t i H). split; [lia | assumption].
Qed.

Lemma strncpy_hd (src : list ascii) (n : nat) :
  hd NUL (strncpy src n) = NUL \/ (0 < n /\ hd NUL (strncpy src n) = nth 0 src NUL).
Proof.
  destruct n as [|n]; [now left|].
  destruct src as [|c t]; [now left|].
  cbn [strncpy]. destruct (Ascii.eqb c NUL); [now left | right]. split; [lia | reflexivity].
Qed.

Lemma find_cmd_end_no_crlf_before (st : rdbuf) (e j : nat) :
  find_cmd_end st = Some e -> j < e -> at_crlf (g_read_buffer st) j = false.
Proof.
  unfold find_cmd_end. intros H Hj.
  destruct (scan (at_crlf (g_read_buffer st)) 0 (g_buffer_pos st - 1)) as [k|] eqn:E.
  - inversion H; subst. apply scan_some in E. destruct E as (_ & _ & Hf). apply Hf. lia.
  - apply scan_some in H. destruct H as (Hr & _ & _).
    eapply scan_none; [exact E|]. lia.
Qed.

Lemma scan_buffer_command_shape (size : nat) (st : rdbuf) (bs out : list ascii)
    (st' : rdbuf) :
  scan_buffer size st bs = inl (RcCommand out, st') ->
  is_eol (hd NUL out) = false /\ forall i, at_crlf out i = false.
Proof.
  unfold scan_buffer.
  set (a := append_chars st bs).
  destruct (find_cmd_end a) as [e|] eqn:He; [|discriminate].
  set (cs := find_cmd_start a e).
  set (o := strncpy (skipn cs (g_read_buffer a)) (e - cs)).
  destruct (_ && _) eqn:G; [|discriminate].
  intros H. assert (Ho : out = o) by congruence. clear H. rewrite Ho. unfold o.
  apply andb_prop in G. destruct G as [G1 _]. apply Nat.ltb_lt in G1.
  split.
  - destruct (strncpy_hd (skipn cs (g_read_buffer a)) (e - cs)) as [->|[_ ->]];
      [reflexivity|].
    rewrite nth_skipn, Nat.add_0_r.
    pose proof (skip_eol_spec (g_read_buffer a) 0 e) as (_ & _ & Hstop).
    apply Hstop. fold (find_cmd_start a e). fold cs. lia.
  - intros i. unfold at_crlf.
    destruct (Ascii.eqb_spec (nth i (strncpy (skipn cs (g_read_buffer a)) (e - cs)) NUL) CR)
      as [H1|]; [|reflexivity].
    destruct (Ascii.eqb_spec (nth (i + 1) (strncpy (skipn cs (g_read_buffer a)) (e - cs)) NUL) LF)
      as [H2|]; [|reflexivity].
    exfalso.
    destruct (strncpy_nth (skipn cs (g_read_buffer a)) (e - cs) i) as [_ E1];
      [rewrite H1; discriminate|].
    destruct (strncpy_nth (skipn cs (g_read_buffer a)) (e - cs) (i + 1)) as [Hi E2];
      [rewrite H2; discriminate|].
    rewrite E1 in H1. rewrite E2 in H2. rewrite nth_skipn in H1, H2.
    pose proof (find_cmd_end_no_crlf_before a e (cs + i) He) as Hno.
    unfold at_crlf in Hno. rewrite H1 in Hno.
    replace (cs + i + 1) with (cs + (i + 1)) in Hno by lia. rewrite H2 in Hno.
    cbn in Hno. assert (cs + i < e) by lia. specialize (Hno H). discriminate.
Qed.

(** X4.  A command handed to the caller, by either reader and from any state of
    the buffer: it is not empty, it fits the caller's buffer with its
    terminating NUL, it does not start with a carriage return or a line
    feed, there is no CR LF inside it, and the descriptor was not
    negative. *)
Theorem returned_command_shape (fd : Z) (size : nat) (st : rdbuf)
    (evs : list io_event) (out : list ascii) (st' : rdbuf) (evs' : list io_event) :
  serial_read_complete_command fd size st evs = (RcCommand out, st', evs') \/
  read_complete_command fd size st evs = (RcCommand out, st', evs') ->
  0 < length out < size /\
  is_eol (hd NUL out) = false /\
  (forall i, at_crlf out i = false) /\
  (0 <= fd)%Z.
Proof.
  revert st. induction evs as [|ev evs IH]; intros st [H|H]; simpl in H.
  - destruct (_ || _); discriminate.
  - destruct (fd <? 0)%Z; discriminate.
  - destruct (Z.ltb_spec fd 0); cbn [orb] in H; [discriminate|].
    destruct (size =? 0); [discriminate|].
    destruct ev as [[|b bs]| | |]; try discriminate.
    destruct (scan_buffer size st (b :: bs)) as [[r s]|s] eqn:E.
    + inversion H; subst.
      pose proof (scan_buffer_command _ _ _ _ _ E).
      pose proof (scan_buffer_command_shape _ _ _ _ _ E). tauto.
    + apply (IH s). now left.
  - destruct (Z.ltb_spec fd 0); [discriminate|].
    destruct ev as [[|b bs]| | |]; try discriminate.
    destruct (scan_buffer size st (b :: bs)) as [[r s]|s] eqn:E.
    + inversion H; subst.
      pose proof (scan_buffer_command _ _ _ _ _ E).
      pose proof (scan_buffer_command_shape _ _ _ _ _ E). tauto.
    + apply (IH s). now right.
Qed.

Lemma returned_command_shape_witness :
  0 < length (bytes "POLL") < 256 /\
  is_eol (hd NUL (bytes "POLL")) = false /\
  (forall i, at_crlf (bytes "POLL") i = false) /\
  (0 <= 3)%Z.
Proof.
  apply (returned_command_shape 3 256 serial_reset_read_buffer
           [IoData [CR; LF]; IoData (bytes "POLL" ++ [CR; LF])] (bytes "POLL")
           (snd (fst (serial_read_complete_command 3 256 serial_reset_read_buffer
                        [IoData [CR; LF]; IoData (bytes "POLL" ++ [CR; LF])]))) []).
  left. vm_compute. reflexivity.
Defined.

(** ** main.c: the answer to a poll *)

Lemma cstring_no_nul (l : list ascii) : ~ In NUL l -> cstring l = l.
Proof.
  induction l as [|c t IH]; intros H; [reflexivity|]. cbn [cstring].
  destruct (Ascii.eqb_spec c NUL) as [->|_].
  - exfalso. apply H. now left.
  - f_equal. apply IH. intros Hin. apply H. now right.
Qed.

Lemma blank_plain (c : ascii) : is_blank c = true -> is_eol c = false /\ c <> NUL.
Proof.
  unfold is_blank. intros H. apply orb_prop in H.
  destruct H as [H|H]; apply Ascii.eqb_eq in H; subst; split; reflexivity || discriminate.
Qed.

Lemma blank_trailing (c : ascii) : is_blank c = true -> is_trailing c = true.
Proof. unfold is_trailing. intros ->. apply orb_true_r. Qed.

Lemma poll_line_plain (pre post : list ascii) :
  Forall (fun c => is_blank c = true) pre ->
  Forall (fun c => is_blank c = true) post ->
  length pre + length post <= 200 ->
  plain_line 256 (pre ++ bytes "POLL" ++ post).
Proof.
  intros Hpre Hpost Hlen. unfold plain_line.
  rewrite !length_app. change (length (bytes "POLL")) with 4. unfold BUFSZ.
  repeat split; try lia.
  - destruct pre; discriminate.
  - apply Forall_app. split; [|apply Forall_app; split].
    + eapply Forall_impl; [|exact Hpre]. apply blank_plain.
    + repeat constructor; discriminate.
    + eapply Forall_impl; [|exact Hpost]. apply blank_plain.
Qed.

Lemma call_with_data (fd : Z) (size : nat) (st : rdbuf) (bs : list ascii)
    (rest : list io_event) :
  (0 <= fd)%Z -> 0 < size -> bs <> [] ->
  serial_read_complete_command fd size st (IoData bs :: rest)
  = match scan_buffer size st bs with
    | inl (r, s) => (r, s, rest)
    | inr s => serial_read_complete_command fd size s rest
    end.
Proof.
  intros Hfd Hsz Hne. cbn [serial_read_complete_command].
  destruct (Z.ltb_spec fd 0); try lia.
  destruct (Nat.eqb_spec size 0); try lia. cbn [orb].
  destruct bs as [|b bs]; [congruence|]. reflexivity.
Qed.

(** The read call of an iteration in which one poll line arrives in an
    empty buffer. *)
Lemma poll_line_read (fd : Z) (st : rdbuf) (pre post : list ascii) (crlf : bool)
    (rest : list io_event) :
  (0 <= fd)%Z -> buffer_ok st -> contents st = [] ->
  Forall (fun c => is_blank c = true) pre ->
  Forall (fun c => is_blank c = true) post ->
  length pre + length post <= 200 ->
  exists st',
    serial_read_complete_command fd 256 st
      (IoData (pre ++ bytes "POLL" ++ post ++ line_ending crlf) :: rest)
    = (RcCommand (pre ++ bytes "POLL" ++ post), st', rest) /\
    buffer_ok st' /\ contents st' = [].
Proof.
  intros Hfd Hok Hc Hpre Hpost Hlen.
  pose proof (poll_line_plain pre post Hpre Hpost Hlen) as Hl.
  destruct (scan_buffer_frame 256 st _ crlf (buffer_ok_sized _ Hok) Hc Hl)
    as (st' & Hscan & Hok' & Hc').
  exists st'. split; [|auto].
  rewrite call_with_data; try lia.
  - replace (pre ++ bytes "POLL" ++ post ++ line_ending crlf)
      with ((pre ++ bytes "POLL" ++ post) ++ line_ending crlf)
      by now rewrite <- !app_assoc.
    now rewrite Hscan.
  - destruct pre; discriminate.
Qed.

Lemma poll_line_clean (pre post : list ascii) :
  Forall (fun c => is_blank c = true) pre ->
  Forall (fun c => is_blank c = true) post ->
  utils_clean_buffer (cstring (pre ++ bytes "POLL" ++ post)) = bytes "POLL".
Proof.
  intros Hpre Hpost. rewrite cstring_no_nul.
  - apply clean_padded; auto; try discriminate; try reflexivity.
    eapply Forall_impl; [|exact Hpost]. apply blank_trailing.
  - intros Hin. apply in_app_or in Hin. destruct Hin as [Hin|Hin].
    + rewrite Forall_forall in Hpre. specialize (Hpre _ Hin). discriminate.
    + apply in_app_or in Hin. destruct Hin as [Hin|Hin].
      * simpl in Hin. repeat (destruct Hin as [Hin|Hin]; [discriminate|]). exact Hin.
      * rewrite Forall_forall in Hpost. specialize (Hpost _ Hin). discriminate.
Qed.

Lemma response_length (e : loop_env) :
  (fst (temperature_format_response 64 (cpu_reading e) (nvme_reading e)) >? 0)%Z = true.
Proof.
  unfold temperature_format_response, snprintf. cbn [Nat.eqb fst].
  apply Z.gtb_lt. cbn [String.append String.length]. lia.
Qed.

Lemma client_read_phase_poll (s : supervisor) (e : loop_env) (out : list ascii)
    (rb : rdbuf) (evs : list io_event) :
  serial_read_complete_command (serial_fd s) 256 (read_state s) (line e)
    = (RcCommand out, rb, evs) ->
  out <> [] ->
  utils_clean_buffer (cstring out) = bytes "POLL" ->
  Client.read_phase s e
  = (mksup 0 0 (next_exchanges (successful_exchanges s)) 0 (serial_fd s) rb,
     [ActSend (serial_fd s) (response e)]).
Proof.
  intros Hread Hne Hclean. unfold Client.read_phase. rewrite Hread.
  cbn [ret_code]. rewrite Hclean.
  destruct (Z.gtb_spec (Z.of_nat (length out)) 0) as [_|Hlen].
  2:{ destruct out; [congruence | simpl in Hlen; lia]. }
  change (bytes_eqb (bytes "POLL") (bytes "POLL")) with true. cbv iota.
  pose proof (response_length e) as Hpos. unfold response.
  destruct (temperature_format_response 64 (cpu_reading e) (nvme_reading e))
    as [formatted temp_data].
  cbn [fst snd] in *. rewrite Hpos. reflexivity.
Qed.

Lemma daemon_read_phase_poll (s : supervisor) (e : loop_env) (out : list ascii)
    (rb : rdbuf) (evs : list io_event) :
  read_complete_command (serial_fd s) 256 (read_state s) (line e)
    = (RcCommand out, rb, evs) ->
  out <> [] ->
  utils_clean_buffer (cstring out) = bytes "POLL" ->
  Daemon.read_phase s e
  = (mksup 0 0 (next_exchanges (successful_exchanges s)) 0 (serial_fd s) rb,
     [ActSend (serial_fd s) (response e)]).
Proof.
  intros Hread Hne Hclean. unfold Daemon.read_phase. rewrite Hread.
  cbn [ret_code]. rewrite Hclean.
  destruct (Z.gtb_spec (Z.of_nat (length out)) 0) as [_|Hlen].
  2:{ destruct out; [congruence | simpl in Hlen; lia]. }
  change (bytes_eqb (bytes "POLL") (bytes "POLL")) with true. cbv iota.
  reflexivity.
Qed.

Lemma next_exchanges_value (n : Z) :
  (0 <= n <= 10)%Z ->
  next_exchanges n = if (n =? 10)%Z then 1%Z else (n + 1)%Z.
Proof.
  intros H. unfold next_exchanges. rewrite incr32_small by lia.
  destruct (Z.gtb_spec (n + 1) 10), (Z.eqb_spec n 10); lia.
Qed.

(** X5.  A poll line that arrives whole while the buffer is empty is answered
    in the same iteration, by either daemon: one write of the formatted
    readings on the open descriptor (after the liveness probe, when its
    guard holds and it passes), the error and timeout counts at 0, the
    start-up mode left, one more successful exchange counted, nothing left
    in the buffer.  Blanks and tabs around the word are tolerated. *)
Theorem poll_is_answered
    (iter : supervisor -> loop_env -> supervisor * list action)
    (s : supervisor) (e : loop_env) (pre post : list ascii) (crlf : bool)
    (rest : list io_event) :
  supervisor_loop iter ->
  (0 <= serial_fd s)%Z ->
  buffer_ok (read_state s) -> contents (read_state s) = [] ->
  (0 <= successful_exchanges s <= 10)%Z ->
  probe_gate s = false \/ health_ok e = true ->
  Forall (fun c => is_blank c = true) pre ->
  Forall (fun c => is_blank c = true) post ->
  length pre + length post <= 200 ->
  line e = IoData (pre ++ bytes "POLL" ++ post ++ line_ending crlf) :: rest ->
  snd (iter s e)
    = (if probe_gate s then [ActHealthCheck true] else [])
      ++ [ActSend (serial_fd s) (response e)] /\
  consecutive_errors (fst (iter s e)) = 0%Z /\
  consecutive_timeouts (fst (iter s e)) = 0%Z /\
  startup_sync_mode (fst (iter s e)) = 0%Z /\
  successful_exchanges (fst (iter s e))
    = (if (successful_exchanges s =? 10)%Z then 1 else successful_exchanges s + 1)%Z /\
  serial_fd (fst (iter s e)) = serial_fd s /\
  contents (read_state (fst (iter s e))) = [].
Proof.
  intros Hiter Hfd Hok Hc Hex Hgate Hpre Hpost Hlen Hline.
  destruct (poll_line_read (serial_fd s) (read_state s) pre post crlf rest
              Hfd Hok Hc Hpre Hpost Hlen) as (st' & Hread & Hok' & Hc').
  rewrite <- Hline in Hread.
  assert (Hne : pre ++ bytes "POLL" ++ post <> []) by (destruct pre; discriminate).
  pose proof (poll_line_clean pre post Hpre Hpost) as Hclean.
  assert (Hphase : forall phase,
            phase = Client.read_phase \/ phase = Daemon.read_phase ->
            phase s e
            = (mksup 0 0 (next_exchanges (successful_exchanges s)) 0 (serial_fd s) st',
               [ActSend (serial_fd s) (response e)])).
  { intros phase [-> | ->].
    - eapply client_read_phase_poll; eauto.
    - eapply daemon_read_phase_poll; eauto.
      rewrite read_complete_command_same by lia. exact Hread. }
  assert (Hstep : iter s e
                  = (mksup 0 0 (next_exchanges (successful_exchanges s)) 0 (serial_fd s) st',
                     (if probe_gate s then [ActHealthCheck true] else [])
                     ++ [ActSend (serial_fd s) (response e)])).
  { assert (Hh : probe_gate s = true -> negb (serial_check_health (serial_fd s) e) = false).
    { intros G. destruct Hgate as [Hg|Hh]; [congruence|].
      unfold serial_check_health. destruct (Z.ltb_spec (serial_fd s) 0); [lia|].
      now rewrite Hh. }
    destruct Hiter as [-> | ->];
      [unfold Client.run_main_loop_iter | unfold Daemon.run_daemon_iter];
      fold (probe_gate s); destruct (probe_gate s) eqn:G.
    - rewrite (Hh eq_refl), (Hphase Client.read_phase) by auto. reflexivity.
    - rewrite (Hphase Client.read_phase) by auto. reflexivity.
    - rewrite (Hh eq_refl), (Hphase Daemon.read_phase) by auto. reflexivity.
    - rewrite (Hphase Daemon.read_phase) by auto. reflexivity. }
  rewrite Hstep. cbn [fst snd consecutive_errors consecutive_timeouts startup_sync_mode
                     successful_exchanges serial_fd read_state].
  rewrite next_exchanges_value by exact Hex. auto 10.
Qed.

Lemma poll_is_answered_witness :
  let s := initial_supervisor 3 in
  let e := mkenv true 3 [IoData (bytes "POLL" ++ [CR; LF])] (85 # 2) (391 # 10) in
  snd (Client.run_main_loop_iter s e)
    = (if probe_gate s then [ActHealthCheck true] else [])
      ++ [ActSend (serial_fd s) (response e)] /\
  consecutive_errors (fst (Client.run_main_loop_iter s e)) = 0%Z /\
  consecutive_timeouts (fst (Client.run_main_loop_iter s e)) = 0%Z /\
  startup_sync_mode (fst (Client.run_main_loop_iter s e)) = 0%Z /\
  successful_exchanges (fst (Client.run_main_loop_iter s e))
    = (if (successful_exchanges s =? 10)%Z then 1 else successful_exchanges s + 1)%Z /\
  serial_fd (fst (Client.run_main_loop_iter s e)) = serial_fd s /\
  contents (read_state (fst (Client.run_main_loop_iter s e))) = [].
Proof.
  intros s e.
  apply (poll_is_answered Client.run_main_loop_iter s e [] [] true []).
  - now left.
  - vm_compute. discriminate.
  - apply reset_ok.
  - reflexivity.
  - vm_compute. split; discriminate.
  - now left.
  - constructor.
  - constructor.
  - simpl. lia.
  - reflexivity.
Defined.

(** ** main.c: when a response is written *)

Lemma reader_command_has_lf (fd : Z) (size : nat) (st : rdbuf) (evs : list io_event)
    (out : list ascii) (st' : rdbuf) (evs' : list io_event) :
  buffer_sized st ->
  serial_read_complete_command fd size st evs = (RcCommand out, st', evs') ->
  (0 <= fd)%Z /\
  (In LF (contents st) \/ exists bs, In (IoData bs) evs /\ In LF bs).
Proof.
  intros Hs H. destruct evs as [|ev evs]; simpl in H.
  - destruct (_ || _); discriminate.
  - destruct (Z.ltb_spec fd 0); cbn [orb] in H; [discriminate|].
    destruct (size =? 0); [discriminate|].
    split; [assumption|].
    destruct ev as [[|b bs]| | |]; try discriminate.
    destruct (in_dec ascii_dec LF (contents st ++ b :: bs)) as [Hin|Hno].
    + apply in_app_or in Hin. destruct Hin as [Hin|Hin]; [now left | right].
      exists (b :: bs). split; [now left | exact Hin].
    + rewrite (scan_buffer_no_lf size st (b :: bs) Hs Hno) in H. discriminate.
Qed.

Lemma no_send_in_close (fd fd' : Z) (data : string) :
  ~ In (ActSend fd data) (serial_close fd').
Proof.
  unfold serial_close. destruct (fd' >=? 0)%Z; simpl; intuition discriminate.
Qed.

Ltac no_send H :=
  repeat (apply in_app_or in H; destruct H as [H|H]);
  try (now apply no_send_in_close in H);
  simpl in H; intuition discriminate.

Lemma client_read_phase_send (s : supervisor) (e : loop_env) (fd : Z) (data : string) :
  buffer_sized (read_state s) ->
  In (ActSend fd data) (snd (Client.read_phase s e)) ->
  fd = serial_fd s /\ (0 <= fd)%Z /\ data = response e /\
  (In LF (contents (read_state s)) \/ exists bs, In (IoData bs) (line e) /\ In LF bs) /\
  consecutive_errors (fst (Client.read_phase s e)) = 0%Z /\
  consecutive_timeouts (fst (Client.read_phase s e)) = 0%Z /\
  startup_sync_mode (fst (Client.read_phase s e)) = 0%Z.
Proof.
  intros Hs. unfold Client.read_phase, response.
  destruct (serial_read_complete_command (serial_fd s) 256 (read_state s) (line e))
    as [[r rb] evs] eqn:Hread.
  destruct r as [out| |]; cbn [ret_code].
  - destruct (reader_command_has_lf _ _ _ _ _ _ _ Hs Hread) as [Hfd Hlf].
    destruct (temperature_format_response 64 (cpu_reading e) (nvme_reading e))
      as [formatted temp_data].
    destruct (Z.gtb_spec (Z.of_nat (length out)) 0) as [Hpos|Hpos].
    + break_match; cbn [fst snd In]; intros Hin;
        repeat (destruct Hin as [Hin|Hin]; [try discriminate|]); try contradiction.
      all: inversion Hin; subst; cbn; auto 10.
    + destruct (Z.ltb_spec (Z.of_nat (length out)) 0); [lia|].
      cbn [snd In]. contradiction.
  - change ((0 >? 0)%Z) with false. change ((0 <? 0)%Z) with false. cbv iota.
    cbn [snd In]. contradiction.
  - change ((-1 >? 0)%Z) with false. change ((-1 <? 0)%Z) with true. cbv iota.
    unfold serial_setup.
    break_match; cbn [snd]; intros H; no_send H.
Qed.

Lemma daemon_read_phase_send (s : supervisor) (e : loop_env) (fd : Z) (data : string) :
  buffer_sized (read_state s) ->
  In (ActSend fd data) (snd (Daemon.read_phase s e)) ->
  fd = serial_fd s /\ (0 <= fd)%Z /\ data = response e /\
  (In LF (contents (read_state s)) \/ exists bs, In (IoData bs) (line e) /\ In LF bs) /\
  consecutive_errors (fst (Daemon.read_phase s e)) = 0%Z /\
  consecutive_timeouts (fst (Daemon.read_phase s e)) = 0%Z /\
  startup_sync_mode (fst (Daemon.read_phase s e)) = 0%Z.
Proof.
  intros Hs. unfold Daemon.read_phase.
  destruct (Z.ltb_spec (serial_fd s) 0) as [Hneg|Hfd0].
  { rewrite read_complete_closed by exact Hneg. cbn. contradiction. }
  rewrite read_complete_command_same by lia.
  destruct (serial_read_complete_command (serial_fd s) 256 (read_state s) (line e))
    as [[r rb] evs] eqn:Hread.
  destruct r as [out| |]; cbn [ret_code].
  - destruct (reader_command_has_lf _ _ _ _ _ _ _ Hs Hread) as [Hfd Hlf].
    assert (Hresp : snd (snprintf 64 ("CPU:" ++ fmt_2f (cpu_reading e) ++ "|NVME:" ++
                                      fmt_2f (nvme_reading e) ++ String LF "")%string)
                    = response e) by reflexivity.
    destruct (snprintf 64 _) as [z temp_data]. cbn [snd] in Hresp.
    destruct (Z.gtb_spec (Z.of_nat (length out)) 0) as [Hpos|Hpos].
    + break_match; cbn [fst snd In]; intros Hin;
        repeat (destruct Hin as [Hin|Hin]; [try discriminate|]); try contradiction.
      all: inversion Hin; subst; cbn [fst snd consecutive_errors consecutive_timeouts
                                      startup_sync_mode]; auto 10.
    + destruct (Z.ltb_spec (Z.of_nat (length out)) 0); [lia|].
      cbn [snd In]. contradiction.
  - change ((0 >? 0)%Z) with false. change ((0 <? 0)%Z) with false. cbv iota.
    cbn [snd In]. contradiction.
  - change ((-1 >? 0)%Z) with false. change ((-1 <? 0)%Z) with true. cbv iota.
    unfold serial_setup.
    break_match; cbn [snd]; intros H; no_send H.
Qed.

Lemma reset_sized : buffer_sized serial_reset_read_buffer.
Proof. apply buffer_ok_sized, reset_ok. Qed.

(** X6.  A response is written only in an iteration whose read call returned a
    command, which takes a line feed in the buffer or among the bytes
    read; it is the formatted pair of readings of that iteration, it goes
    to the descriptor the loop holds afterwards, which is not negative, and
    the iteration ends with the error and timeout counts at 0 and the
    start-up mode left.  So no response is ever written on a closed link,
    on a timeout or after a failed read. *)
Theorem response_only_to_a_line
    (iter : supervisor -> loop_env -> supervisor * list action)
    (s : supervisor) (e : loop_env) (fd : Z) (data : string) :
  supervisor_loop iter ->
  buffer_sized (read_state s) ->
  In (ActSend fd data) (snd (iter s e)) ->
  (0 <= fd)%Z /\
  fd = serial_fd (fst (iter s e)) /\
  data = response e /\
  (In LF (contents (read_state s)) \/ exists bs, In (IoData bs) (line e) /\ In LF bs) /\
  consecutive_errors (fst (iter s e)) = 0%Z /\
  consecutive_timeouts (fst (iter s e)) = 0%Z /\
  startup_sync_mode (fst (iter s e)) = 0%Z.
Proof.
  intros Hiter Hs.
  assert (Hphase : forall phase s0,
            phase = Client.read_phase \/ phase = Daemon.read_phase ->
            buffer_sized (read_state s0) ->
            In (ActSend fd data) (snd (phase s0 e)) ->
            fd = serial_fd s0 /\ (0 <= fd)%Z /\ data = response e /\
            (In LF (contents (read_state s0)) \/
             exists bs, In (IoData bs) (line e) /\ In LF bs) /\
            consecutive_errors (fst (phase s0 e)) = 0%Z /\
            consecutive_timeouts (fst (phase s0 e)) = 0%Z /\
            startup_sync_mode (fst (phase s0 e)) = 0%Z /\
            serial_fd (fst (phase s0 e)) = serial_fd s0).
  { intros phase s0 Hp Hs0 Hin.
    assert (Hfd : serial_fd (fst (phase s0 e)) = serial_fd s0 \/
                  ~ In (ActSend fd data) (snd (phase s0 e))).
    { destruct Hp as [-> | ->];
        [unfold Client.read_phase | unfold Daemon.read_phase];
        unfold serial_setup; break_match; cbn [fst snd serial_fd]; auto;
        right; intros H; no_send H. }
    destruct Hfd as [Hfd|Hno]; [|contradiction].
    destruct Hp as [-> | ->];
      [destruct (client_read_phase_send s0 e fd data Hs0 Hin)
         as (H1 & H2 & H3 & H4 & H5 & H6 & H7)
      |destruct (daemon_read_phase_send s0 e fd data Hs0 Hin)
         as (H1 & H2 & H3 & H4 & H5 & H6 & H7)];
      auto 10. }
  assert (Hfinish : forall phase s0,
            phase = Client.read_phase \/ phase = Daemon.read_phase ->
            buffer_sized (read_state s0) ->
            (In LF (contents (read_state s0)) -> In LF (contents (read_state s))) ->
            forall pre,
              (forall a, In a pre -> a <> ActSend fd data) ->
              In (ActSend fd data) (pre ++ snd (phase s0 e)) ->
              (0 <= fd)%Z /\ fd = serial_fd (fst (phase s0 e)) /\ data = response e /\
              (In LF (contents (read_state s)) \/
               exists bs, In (IoData bs) (line e) /\ In LF bs) /\
              consecutive_errors (fst (phase s0 e)) = 0%Z /\
              consecutive_timeouts (fst (phase s0 e)) = 0%Z /\
              startup_sync_mode (fst (phase s0 e)) = 0%Z).
  { intros phase s0 Hp Hs0 Hlf pre Hpre Hin.
    apply in_app_or in Hin. destruct Hin as [Hin|Hin].
    { exfalso. now apply (Hpre _ Hin). }
    destruct (Hphase phase s0 Hp Hs0 Hin) as (H1 & H2 & H3 & H4 & H5 & H6 & H7 & H8).
    repeat split; auto; try congruence.
    destruct H4 as [H4|H4]; auto. }
  destruct Hiter as [-> | ->];
    [unfold Client.run_main_loop_iter | unfold Daemon.run_daemon_iter];
    fold (probe_gate s); destruct (probe_gate s).
  - destruct (negb (serial_check_health (serial_fd s) e)).
    + unfold serial_setup. destruct (setup_fd e <? 0)%Z eqn:F.
      * change ((-1 <? 0)%Z) with true. cbv iota. cbn [snd]. intros H. no_send H.
      * rewrite F.
        set (s0 := mksup 0 0 (successful_exchanges s) 1 (setup_fd e) serial_reset_read_buffer).
        pose proof (Hfinish Client.read_phase s0 (or_introl eq_refl) reset_sized) as Hf.
        destruct (Client.read_phase s0 e) as [s' a']. cbn [fst snd] in *.
        intros H. rewrite app_assoc in H. apply (Hf ltac:(cbn; contradiction) _) in H; auto.
        intros a Ha ->. no_send Ha.
    + pose proof (Hfinish Client.read_phase s (or_introl eq_refl) Hs (fun x => x)
                    [ActHealthCheck true]) as Hf.
      destruct (Client.read_phase s e) as [s' a']. cbn [fst snd app] in *.
      intros H. apply Hf in H; auto. intros a [<-|[]]. discriminate.
  - pose proof (Hfinish Client.read_phase s (or_introl eq_refl) Hs (fun x => x) []) as Hf.
    cbn [app] in Hf. apply Hf. intros a [].
  - destruct (negb (serial_check_health (serial_fd s) e)).
    + unfold serial_setup. destruct (setup_fd e <? 0)%Z eqn:F.
      * change ((-1 <? 0)%Z) with true. cbv iota. cbn [snd]. intros H. no_send H.
      * rewrite F.
        set (s0 := mksup 0 0 (successful_exchanges s) 1 (setup_fd e) serial_reset_read_buffer).
        pose proof (Hfinish Daemon.read_phase s0 (or_intror eq_refl) reset_sized) as Hf.
        destruct (Daemon.read_phase s0 e) as [s' a']. cbn [fst snd] in *.
        intros H. rewrite app_assoc in H. apply (Hf ltac:(cbn; contradiction) _) in H; auto.
        intros a Ha ->. no_send Ha.
    + pose proof (Hfinish Daemon.read_phase s (or_intror eq_refl) Hs (fun x => x)
                    [ActHealthCheck true]) as Hf.
      destruct (Daemon.read_phase s e) as [s' a']. cbn [fst snd app] in *.
      intros H. apply Hf in H; auto. intros a [<-|[]]. discriminate.
  - pose proof (Hfinish Daemon.read_phase s (or_intror eq_refl) Hs (fun x => x) []) as Hf.
    cbn [app] in Hf. apply Hf. intros a [].
Qed.

Lemma response_only_to_a_line_witness :
  let s := initial_supervisor 3 in
  let e := mkenv true 3 [IoData (bytes "POLL" ++ [CR; LF])] (85 # 2) (391 # 10) in
  (0 <= 3)%Z /\
  3%Z = serial_fd (fst (Client.run_main_loop_iter s e)) /\
  response e = response e /\
  (In LF (contents (read_state s)) \/ exists bs, In (IoData bs) (line e) /\ In LF bs) /\
  consecutive_errors (fst (Client.run_main_loop_iter s e)) = 0%Z /\
  consecutive_timeouts (fst (Client.run_main_loop_iter s e)) = 0%Z /\
  startup_sync_mode (fst (Client.run_main_loop_iter s e)) = 0%Z.
Proof.
  intros s e.
  apply (response_only_to_a_line Client.run_main_loop_iter s e 3 (response e)).
  - now left.
  - apply reset_sized.
  - vm_compute. left. reflexivity.
Defined.

(** ** main.c: a link that cannot be reopened *)

Lemma client_read_phase_keeps_fd (s : supervisor) (e : loop_env) :
  (incr32 (consecutive_errors s) < 5)%Z ->
  serial_fd (fst (Client.read_phase s e)) = serial_fd s.
Proof.
  intros H. unfold Client.read_phase, serial_setup.
  break_match; cbn [fst serial_fd]; try reflexivity;
    match goal with
    | E : (_ >=? 5)%Z = true |- _ => apply Z.geb_le in E; lia
    end.
Qed.

Lemma client_closed_step (s : supervisor) (e : loop_env) :
  (serial_fd s < 0)%Z ->
  probe_gate s = true \/ (4 <= consecutive_errors s < 2 ^ 31 - 1)%Z ->
  (setup_fd e < 0)%Z ->
  Client.run_main_loop_iter s e
  = (if probe_gate s
     then mksup (consecutive_errors s) (consecutive_timeouts s) (successful_exchanges s)
                (startup_sync_mode s) (-1) (read_state s)
     else mksup (consecutive_errors s + 1) (consecutive_timeouts s) 0
                (startup_sync_mode s) (-1) (read_state s),
     (if probe_gate s then [ActHealthCheck false] else [])
     ++ [ActSetup (-1); ActSleep 5000]).
Proof.
  intros Hfd Hinv Hsetup. unfold Client.run_main_loop_iter. fold (probe_gate s).
  assert (Hclose : serial_close (serial_fd s) = []).
  { unfold serial_close. destruct (Z.geb_spec (serial_fd s) 0); [lia | reflexivity]. }
  assert (Hset : forall rb, serial_setup e rb = ((-1)%Z, rb)).
  { intros rb. unfold serial_setup. destruct (Z.ltb_spec (setup_fd e) 0); [reflexivity | lia]. }
  destruct (probe_gate s) eqn:G.
  - unfold serial_check_health. destruct (Z.ltb_spec (serial_fd s) 0); [|lia].
    cbn [negb]. rewrite Hset, Hclose. reflexivity.
  - destruct Hinv as [Hinv|Hinv]; [discriminate|].
    unfold Client.read_phase. rewrite serial_read_closed by exact Hfd.
    cbn [ret_code]. change ((-1 >? 0)%Z) with false. change ((-1 <? 0)%Z) with true.
    cbv iota. rewrite incr32_small by lia.
    destruct (Z.geb_spec (consecutive_errors s + 1) 5); [|lia].
    rewrite Hset, Hclose. reflexivity.
Qed.

Lemma client_closed_run (es : list loop_env) (s : supervisor) :
  (serial_fd s < 0)%Z ->
  probe_gate s = true \/ (4 <= consecutive_errors s)%Z ->
  (consecutive_errors s + Z.of_nat (length es) < 2 ^ 31 - 1)%Z ->
  Forall (fun e => (setup_fd e < 0)%Z) es ->
  let r := run_loop Client.run_main_loop_iter s es in
  (serial_fd (fst r) < 0)%Z /\
  (probe_gate (fst r) = true \/ (4 <= consecutive_errors (fst r) < 2 ^ 31 - 1)%Z) /\
  filter link_action (snd r) = repeat (ActSetup (-1)) (length es) /\
  (forall a, In a (snd r) ->
     a = ActHealthCheck false \/ a = ActSetup (-1) \/ a = ActSleep 5000).
Proof.
  revert s. induction es as [|e es IH]; intros s Hfd Hinv Hbound Hall.
  - cbn [run_loop fst snd length repeat filter]. cbn [length] in Hbound.
    split; [exact Hfd|]. split; [destruct Hinv; [now left | right; lia]|].
    split; [reflexivity|]. intros a [].
  - inversion Hall as [|? ? He Hes]; subst.
    cbn [length] in Hbound.
    assert (Hinv' : probe_gate s = true \/ (4 <= consecutive_errors s < 2 ^ 31 - 1)%Z)
      by (destruct Hinv; [now left | right; lia]).
    cbn [run_loop]. rewrite (client_closed_step s e Hfd Hinv' He).
    set (s1 := if probe_gate s then _ else _).
    assert (H1 : (serial_fd s1 < 0)%Z) by (unfold s1; destruct (probe_gate s); cbn; lia).
    assert (H2 : probe_gate s1 = true \/ (4 <= consecutive_errors s1)%Z).
    { unfold s1. destruct (probe_gate s) eqn:G.
      - left. exact G.
      - right. destruct Hinv' as [|]; [discriminate | cbn; lia]. }
    assert (H3 : (consecutive_errors s1 + Z.of_nat (length es) < 2 ^ 31 - 1)%Z).
    { unfold s1. destruct (probe_gate s); cbn [consecutive_errors]; lia. }
    specialize (IH s1 H1 H2 H3 Hes). cbn zeta in IH.
    destruct (run_loop Client.run_main_loop_iter s1 es) as [s2 a2].
    cbn [fst snd] in *. destruct IH as (I1 & I2 & I3 & I4).
    split; [exact I1|]. split; [exact I2|]. split.
    + rewrite filter_app, I3. destruct (probe_gate s); reflexivity.
    + intros a Ha. apply in_app_or in Ha. destruct Ha as [Ha|Ha]; [|auto].
      destruct (probe_gate s); simpl in Ha; intuition.
Qed.

(** X7.  While the descriptor is negative after a reopen that failed, and
    [serial_setup] keeps failing, every iteration of [run_main_loop] calls
    it once more: the only calls on the link are these, one per iteration,
    with nothing to close, nothing read and nothing written, each followed
    by the wait of 5 s; and the first iteration in which it succeeds leaves
    the loop with the new descriptor. *)
Theorem closed_port_is_retried (s : supervisor) (es : list loop_env) (e : loop_env) :
  (serial_fd s < 0)%Z ->
  probe_gate s = true \/ (4 <= consecutive_errors s)%Z ->
  (consecutive_errors s + Z.of_nat (length es) < 2 ^ 31 - 1)%Z ->
  Forall (fun e => (setup_fd e < 0)%Z) es ->
  (0 <= setup_fd e)%Z ->
  let r := run_loop Client.run_main_loop_iter s es in
  (serial_fd (fst r) < 0)%Z /\
  filter link_action (snd r) = repeat (ActSetup (-1)) (length es) /\
  (forall a, In a (snd r) ->
     a = ActHealthCheck false \/ a = ActSetup (-1) \/ a = ActSleep 5000) /\
  serial_fd (fst (Client.run_main_loop_iter (fst r) e)) = setup_fd e /\
  In (ActSetup (setup_fd e)) (snd (Client.run_main_loop_iter (fst r) e)).
Proof.
  intros Hfd Hinv Hbound Hall He r.
  destruct (client_closed_run es s Hfd Hinv Hbound Hall) as (H1 & H2 & H3 & H4).
  fold r in H1, H2, H3, H4. repeat split; auto.
  - unfold Client.run_main_loop_iter. fold (probe_gate (fst r)).
    destruct (probe_gate (fst r)) eqn:G.
    + unfold serial_check_health. destruct (Z.ltb_spec (serial_fd (fst r)) 0); [|lia].
      cbn [negb]. unfold serial_setup.
      destruct (Z.ltb_spec (setup_fd e) 0); [lia|].
      destruct (Z.ltb_spec (setup_fd e) 0); [lia|].
      pose proof (client_read_phase_keeps_fd
                    (mksup 0 0 (successful_exchanges (fst r)) 1 (setup_fd e)
                           serial_reset_read_buffer) e) as Hk.
      destruct (Client.read_phase _ e) as [s' a']. cbn [fst] in *.
      rewrite Hk; [reflexivity | vm_compute; reflexivity].
    + destruct H2 as [|H2]; [discriminate|].
      unfold Client.read_phase. rewrite serial_read_closed by exact H1.
      cbn [ret_code]. change ((-1 >? 0)%Z) with false. change ((-1 <? 0)%Z) with true.
      cbv iota. rewrite incr32_small by lia.
      destruct (Z.geb_spec (consecutive_errors (fst r) + 1) 5); [|lia].
      unfold serial_setup. destruct (Z.ltb_spec (setup_fd e) 0); [lia|].
      destruct (Z.ltb_spec (setup_fd e) 0); [lia|]. reflexivity.
  - unfold Client.run_main_loop_iter. fold (probe_gate (fst r)).
    destruct (probe_gate (fst r)) eqn:G.
    + unfold serial_check_health. destruct (Z.ltb_spec (serial_fd (fst r)) 0); [|lia].
      cbn [negb]. unfold serial_setup.
      destruct (Z.ltb_spec (setup_fd e) 0); [lia|].
      destruct (Z.ltb_spec (setup_fd e) 0); [lia|].
      destruct (Client.read_phase _ e) as [s' a']. cbn [snd].
      apply in_or_app. left. apply in_or_app. right. apply in_or_app. right. now left.
    + destruct H2 as [|H2]; [discriminate|].
      unfold Client.read_phase. rewrite serial_read_closed by exact H1.
      cbn [ret_code]. change ((-1 >? 0)%Z) with false. change ((-1 <? 0)%Z) with true.
      cbv iota. rewrite incr32_small by lia.
      destruct (Z.geb_spec (consecutive_errors (fst r) + 1) 5); [|lia].
      unfold serial_setup. destruct (Z.ltb_spec (setup_fd e) 0); [lia|].
      destruct (Z.ltb_spec (setup_fd e) 0); [lia|]. cbn [snd].
      apply in_or_app. left. apply in_or_app. right. now left.
Qed.

Lemma closed_port_is_retried_witness :
  let s := mksup 5 0 0 1 (-1) serial_reset_read_buffer in
  let bad := mkenv false (-1) [] (85 # 2) (391 # 10) in
  let good := mkenv true 4 [] (85 # 2) (391 # 10) in
  let r := run_loop Client.run_main_loop_iter s [bad; bad] in
  (serial_fd (fst r) < 0)%Z /\
  filter link_action (snd r) = repeat (ActSetup (-1)) (length [bad; bad]) /\
  (forall a, In a (snd r) ->
     a = ActHealthCheck false \/ a = ActSetup (-1) \/ a = ActSleep 5000) /\
  serial_fd (fst (Client.run_main_loop_iter (fst r) good)) = setup_fd good /\
  In (ActSetup (setup_fd good)) (snd (Client.run_main_loop_iter (fst r) good)).
Proof.
  intros s bad good.
  apply (closed_port_is_retried s [bad; bad] good).
  - reflexivity.
  - right. cbn. lia.
  - cbn. lia.
  - repeat constructor.
  - cbn. lia.
Defined.

(** ** The single-file daemon: a link that cannot be reopened *)

Lemma daemon_closed_spin_step (s : supervisor) (e : loop_env) :
  (serial_fd s < 0)%Z -> (0 <= consecutive_timeouts s <= 30)%Z ->
  Daemon.run_daemon_iter s e
  = (mksup (consecutive_errors s) (consecutive_timeouts s + 1) (successful_exchanges s)
           (startup_sync_mode s) (serial_fd s) serial_reset_read_buffer, []).
Proof.
  intros Hfd Ht. unfold Daemon.run_daemon_iter.
  destruct (Z.gtb_spec (consecutive_timeouts s) 30); [lia|]. cbn [andb].
  unfold Daemon.read_phase. rewrite read_complete_closed by exact Hfd.
  cbn [ret_code]. change ((0 >? 0)%Z) with false. change ((0 <? 0)%Z) with false.
  cbv iota. rewrite incr32_small by lia. reflexivity.
Qed.

Lemma daemon_closed_spin_run (es : list loop_env) (s : supervisor) :
  (serial_fd s < 0)%Z -> (0 <= consecutive_timeouts s)%Z ->
  (consecutive_timeouts s + Z.of_nat (length es) <= 31)%Z ->
  snd (run_loop Daemon.run_daemon_iter s es) = [] /\
  serial_fd (fst (run_loop Daemon.run_daemon_iter s es)) = serial_fd s /\
  successful_exchanges (fst (run_loop Daemon.run_daemon_iter s es))
    = successful_exchanges s /\
  consecutive_timeouts (fst (run_loop Daemon.run_daemon_iter s es))
    = (consecutive_timeouts s + Z.of_nat (length es))%Z.
Proof.
  revert s. induction es as [|e es IH]; intros s Hfd H0 Hb.
  - cbn. repeat split; lia.
  - cbn [length] in Hb. cbn [run_loop].
    rewrite daemon_closed_spin_step by (auto; lia).
    set (s1 := mksup _ _ _ _ _ _).
    destruct (IH s1) as (I1 & I2 & I3 & I4);
      try (unfold s1; cbn [serial_fd consecutive_timeouts]; lia).
    destruct (run_loop Daemon.run_daemon_iter s1 es) as [s2 a2].
    cbn [fst snd app] in *. unfold s1 in *.
    cbn [serial_fd consecutive_timeouts successful_exchanges] in I2, I3, I4.
    repeat split; auto. cbn [length]. lia.
Qed.

(** X8.  In [run_daemon] of the single-file daemon a reopen that failed in the
    error path is not tried again at once.  The descriptor is negative and
    the exchange count 0; the read call on a negative descriptor resets the
    buffer and returns 0 without waiting, which the loop counts as a
    timeout; so the iterations do nothing on the link until the timeout
    count has passed 30, and the iteration after that fails the probe and
    calls the set-up again. *)
Theorem daemon_closed_port_waits (s : supervisor) (es : list loop_env) (e : loop_env) :
  (serial_fd s < 0)%Z ->
  successful_exchanges s = 0%Z ->
  (0 <= consecutive_timeouts s)%Z ->
  (consecutive_timeouts s + Z.of_nat (length es) = 31)%Z ->
  let r := run_loop Daemon.run_daemon_iter s es in
  snd r = [] /\
  serial_fd (fst r) = serial_fd s /\
  consecutive_timeouts (fst r) = 31%Z /\
  exists rest,
    snd (Daemon.run_daemon_iter (fst r) e)
    = [ActHealthCheck false; ActClose (serial_fd s);
       ActSetup (if (setup_fd e <? 0)%Z then -1 else setup_fd e)] ++ rest.
Proof.
  intros Hfd Hex H0 Hlen r.
  destruct (daemon_closed_spin_run es s Hfd H0 ltac:(lia)) as (R1 & R2 & R3 & R4).
  fold r in R1, R2, R3, R4. repeat split; auto; try lia.
  unfold Daemon.run_daemon_iter. rewrite R4, R3, Hex, Hlen, R2.
  change ((31 >? 30)%Z && (0 =? 0)%Z) with true. cbv iota.
  unfold serial_check_health. destruct (Z.ltb_spec (serial_fd s) 0); [|lia].
  cbn [negb]. unfold serial_setup.
  destruct (setup_fd e <? 0)%Z eqn:F.
  - change ((-1 <? 0)%Z) with true. cbv iota. cbn [snd]. eexists. reflexivity.
  - rewrite F. destruct (Daemon.read_phase _ e) as [s' a']. cbn [snd].
    eexists. cbn [app]. reflexivity.
Qed.

Lemma daemon_closed_port_waits_witness :
  let s := mksup 5 30 0 1 (-1) serial_reset_read_buffer in
  let e := mkenv true 4 [IoTimeout] (85 # 2) (391 # 10) in
  let r := run_loop Daemon.run_daemon_iter s [e] in
  snd r = [] /\
  serial_fd (fst r) = serial_fd s /\
  consecutive_timeouts (fst r) = 31%Z /\
  exists rest,
    snd (Daemon.run_daemon_iter (fst r) e)
    = [ActHealthCheck false; ActClose (serial_fd s);
       ActSetup (if (setup_fd e <? 0)%Z then -1 else setup_fd e)] ++ rest.
Proof.
  intros s e.
  apply (daemon_closed_port_waits s [e] e); cbn; lia.
Defined.

(** ** fan_controller.cpp: the value and the pin *)

Lemma constrain_range (x lo hi : Z) :
  (lo <= hi)%Z -> (lo <= Controller.constrain x lo hi <= hi)%Z.
Proof.
  intros H. unfold Controller.constrain.
  destruct (Z.ltb_spec x lo); [lia|]. destruct (Z.gtb_spec x hi); lia.
Qed.

Lemma fan_output_range (hc hn : Q) :
  (FAN_SPEED_MIN <= fan_output hc hn <= FAN_SPEED_MAX)%Z.
Proof.
  unfold fan_output.
  pose proof (calculateFanSpeed_bounds hc CPU_TEMP_MIN CPU_TEMP_MAX).
  pose proof (calculateFanSpeed_bounds hn NVME_TEMP_MIN NVME_TEMP_MAX). lia.
Qed.

Lemma updateFanSpeed_cases (fc : Controller.FanController)
    (ts : Controller.TemperatureSensor) :
  Controller.updateFanSpeed fc ts = fc \/
  exists v, (FAN_SPEED_MIN <= v <= FAN_SPEED_MAX)%Z /\
            Controller.updateFanSpeed fc ts
            = Controller.mkFC v (Controller.pwm_writes fc ++ [v]).
Proof.
  unfold Controller.updateFanSpeed.
  destruct (Controller.getHighestTemperatures ts) as [hc hn].
  destruct (negb (Controller.hasTemperatureData ts)).
  - right. exists FAN_SPEED_MIN. split; [unfold FAN_SPEED_MIN, FAN_SPEED_MAX; lia | reflexivity].
  - destruct (negb _); [right | now left].
    eexists. split; [|reflexivity]. apply (fan_output_range hc hn).
Qed.

Lemma fan_do_cases (fc : Controller.FanController) (c : fan_call) :
  fan_do fc c = fc \/
  exists v, (0 <= v <= 255)%Z /\
            (is_set c = false -> (FAN_SPEED_MIN <= v)%Z) /\
            fan_do fc c = Controller.mkFC v (Controller.pwm_writes fc ++ [v]).
Proof.
  destruct c as [|ts|x]; cbn [fan_do is_set].
  - right. exists FAN_SPEED_MIN. unfold Controller.begin, FAN_SPEED_MIN.
    repeat split; lia.
  - destruct (updateFanSpeed_cases fc ts) as [->|(v & Hv & ->)]; [now left | right].
    exists v. unfold FAN_SPEED_MIN, FAN_SPEED_MAX in *. repeat split; lia.
  - unfold Controller.setFanSpeed. destruct (negb _); [right | now left].
    eexists. split; [apply constrain_range; lia|]. split; [discriminate | reflexivity].
Qed.

Lemma fan_fold_invariant (I : Controller.FanController -> Prop) (ok : fan_call -> bool)
    (calls : list fan_call) (fc0 : Controller.FanController) :
  (forall fc c, ok c = true -> I fc -> I (fan_do fc c)) ->
  forallb ok calls = true -> I fc0 -> I (fold_left fan_do calls fc0).
Proof.
  intros Hstep. revert fc0. induction calls as [|c calls IH]; intros fc0 Hall H0; auto.
  cbn [forallb] in Hall. apply andb_prop in Hall. destruct Hall as [Hc Hall].
  cbn [fold_left]. apply IH; auto.
Qed.

Lemma forallb_true {A : Type} (l : list A) : forallb (fun _ => true) l = true.
Proof. induction l; auto. Qed.

(** X9.  Whatever calls are made on a [FanController], in any order: its value
    is the last value given to [analogWrite] (the constructor's floor while
    nothing was written), every value written is within 0..255, and without
    [setFanSpeed] among the calls every value written and the value held
    are at least [FAN_SPEED_MIN]. *)
Theorem fan_value_is_last_write (calls : list fan_call) :
  let fc := fold_left fan_do calls constructed_fan in
  last (Controller.pwm_writes fc) FAN_SPEED_MIN = Controller.currentPwmValue fc /\
  Forall (fun v => (0 <= v <= 255)%Z) (Controller.pwm_writes fc) /\
  (0 <= Controller.currentPwmValue fc <= 255)%Z /\
  (forallb (fun c => negb (is_set c)) calls = true ->
   Forall (fun v => (FAN_SPEED_MIN <= v)%Z) (Controller.pwm_writes fc) /\
   (FAN_SPEED_MIN <= Controller.currentPwmValue fc)%Z).
Proof.
  cbn zeta. split; [|split; [|split]].
  - apply (fan_fold_invariant
             (fun fc => last (Controller.pwm_writes fc) FAN_SPEED_MIN
                        = Controller.currentPwmValue fc) (fun _ => true));
      [|apply forallb_true|reflexivity].
    intros fc c _ H. destruct (fan_do_cases fc c) as [->|(v & _ & _ & ->)]; auto.
    cbn [Controller.pwm_writes Controller.currentPwmValue]. apply last_last.
  - apply (fan_fold_invariant
             (fun fc => Forall (fun v => (0 <= v <= 255)%Z) (Controller.pwm_writes fc))
             (fun _ => true));
      [|apply forallb_true|constructor].
    intros fc c _ H. destruct (fan_do_cases fc c) as [->|(v & Hv & _ & ->)]; auto.
    cbn [Controller.pwm_writes]. apply Forall_app. split; [exact H | repeat constructor; lia].
  - apply (fan_fold_invariant
             (fun fc => (0 <= Controller.currentPwmValue fc <= 255)%Z) (fun _ => true));
      [|apply forallb_true|cbn; unfold FAN_SPEED_MIN; lia].
    intros fc c _ H. destruct (fan_do_cases fc c) as [->|(v & Hv & _ & ->)]; auto.
  - intros Hall.
    apply (fan_fold_invariant
             (fun fc => Forall (fun v => (FAN_SPEED_MIN <= v)%Z) (Controller.pwm_writes fc) /\
                        (FAN_SPEED_MIN <= Controller.currentPwmValue fc)%Z)
             (fun c => negb (is_set c))); [|exact Hall|].
    + intros fc c Hc [H1 H2]. apply negb_true_iff in Hc.
      destruct (fan_do_cases fc c) as [->|(v & _ & Hmin & ->)]; auto.
      cbn [Controller.pwm_writes Controller.currentPwmValue]. split; auto.
      apply Forall_app. split; [exact H1 | repeat constructor; auto].
    + cbn. split; [constructor | lia].
Qed.

Lemma arduino_map_percent (x : Z) :
  (0 <= x)%Z -> Controller.arduino_map x 0 255 0 100 = (x * 100 / 255)%Z.
Proof.
  intros H. unfold Controller.arduino_map.
  rewrite Z.sub_0_r, Z.add_0_r. change (100 - 0)%Z with 100%Z. change (255 - 0)%Z with 255%Z.
  apply Z.quot_div_nonneg; lia.
Qed.

(** X10.  [getCurrentSpeedPercent] on the values the pin can hold: within 0..100,
    never decreasing with the PWM value, 100 at 255 only, 0 up to 2 only;
    the floor of 30 reads 11. *)
Theorem speed_percent_scale (p q : Z) :
  (0 <= p <= q)%Z -> (q <= 255)%Z ->
  let pct := fun x => Controller.getCurrentSpeedPercent (Controller.mkFC x []) in
  (0 <= pct p <= pct q)%Z /\ (pct q <= 100)%Z /\
  (pct q = 100%Z <-> q = 255%Z) /\
  (pct p = 0%Z <-> (p <= 2)%Z) /\
  pct FAN_SPEED_MIN = 11%Z.
Proof.
  intros Hp Hq. cbn zeta. unfold Controller.getCurrentSpeedPercent.
  cbn [Controller.currentPwmValue].
  rewrite !arduino_map_percent by (unfold FAN_SPEED_MIN; lia).
  assert (Hdp : (0 <= p * 100 / 255)%Z) by (apply Z.div_pos; lia).
  assert (Hmono : (p * 100 / 255 <= q * 100 / 255)%Z) by (apply Z.div_le_mono; lia).
  assert (Hup : (q * 100 / 255 <= 100)%Z).
  { apply Z.div_le_upper_bound; lia. }
  repeat split; auto; try lia.
  - intros H. destruct (Z.eq_dec q 255) as [|Hne]; auto.
    assert (q * 100 / 255 < 100)%Z by (apply Z.div_lt_upper_bound; lia). lia.
  - intros ->. reflexivity.
  - intros H. destruct (Z_le_gt_dec p 2); auto.
    assert (1 <= p * 100 / 255)%Z by (apply Z.div_le_lower_bound; lia). lia.
  - intros H. apply Z.div_small. lia.
Qed.

Lemma speed_percent_scale_witness :
  let pct := fun x => Controller.getCurrentSpeedPercent (Controller.mkFC x []) in
  (0 <= pct 30%Z <= pct 255%Z)%Z /\ (pct 255%Z <= 100)%Z /\
  (pct 255%Z = 100%Z <-> 255%Z = 255%Z) /\
  (pct 30%Z = 0%Z <-> (30 <= 2)%Z) /\
  pct FAN_SPEED_MIN = 11%Z.
Proof.
  apply (speed_percent_scale 30 255); lia.
Defined.

(** ** tachometer.cpp *)

Lemma usub32_elapsed (a d : Z) :
  (0 <= d < 2 ^ 32)%Z -> usub32 (uint32 (a + d)) a = d.
Proof.
  intros Hd. unfold usub32, uint32.
  rewrite Zminus_mod_idemp_l.
  replace (a + d - a)%Z with d by lia. apply Z.mod_small. exact Hd.
Qed.

Lemma pulses_count (n : nat) (t : Tachometer.Tachometer) :
  (0 <= Tachometer.tachCount t < 2 ^ 16)%Z ->
  Tachometer.tachCount (Tachometer.pulses n t)
  = uint16 (Tachometer.tachCount t + Z.of_nat n).
Proof.
  intros H0. induction n as [|n IH].
  - cbn. unfold uint16. rewrite Z.add_0_r. symmetry. now apply Z.mod_small.
  - change (Tachometer.pulses (S n) t) with (Tachometer.tachISR (Tachometer.pulses n t)).
    change (Tachometer.tachCount (Tachometer.tachISR (Tachometer.pulses n t)))
      with (uint16 (Tachometer.tachCount (Tachometer.pulses n t) + 1)).
    rewrite IH. unfold uint16. rewrite Zplus_mod_idemp_l. f_equal. lia.
Qed.

(** X11.  The tachometer counts falling edges modulo 2^16 and takes 30 times the
    count modulo 2^16 as the speed: after [n] edges since the count was 0,
    [calculateRPM] reports [30 n] modulo 65536, which is [30 n] exactly when
    [n] is at most 2184; and it starts the count again from 0. *)
Theorem tachometer_reports_edges (n : nat) (t : Tachometer.Tachometer) (now : Z) :
  Tachometer.tachCount t = 0%Z ->
  let t' := Tachometer.calculateRPM (Tachometer.pulses n t) now in
  Tachometer.getRPM t' = ((30 * Z.of_nat n) mod 2 ^ 16)%Z /\
  (Tachometer.getRPM t' = (30 * Z.of_nat n)%Z <-> n <= 2184) /\
  Tachometer.tachCount t' = 0%Z /\
  Tachometer.lastRpmCalcTime t' = now.
Proof.
  intros H0. cbn zeta.
  pose proof (pulses_count n t ltac:(rewrite H0; lia)) as Hc. rewrite H0 in Hc.
  assert (Hrpm : Tachometer.getRPM (Tachometer.calculateRPM (Tachometer.pulses n t) now)
                 = ((30 * Z.of_nat n) mod 2 ^ 16)%Z).
  { unfold Tachometer.getRPM, Tachometer.calculateRPM. cbn [Tachometer.rpm].
    rewrite Hc. unfold uint16. rewrite Z.add_0_l, Z.mul_mod_idemp_l by lia.
    f_equal. lia. }
  rewrite Hrpm. repeat split; auto.
  - intros H. destruct (le_gt_dec n 2184); auto.
    assert ((30 * Z.of_nat n) mod 2 ^ 16 < 2 ^ 16)%Z by (apply Z.mod_pos_bound; lia).
    lia.
  - intros H. apply Z.mod_small. lia.
Qed.

Lemma tachometer_reports_edges_witness :
  let t' := Tachometer.calculateRPM (Tachometer.pulses 40 Tachometer.initial) 1000 in
  Tachometer.getRPM t' = ((30 * Z.of_nat 40) mod 2 ^ 16)%Z /\
  (Tachometer.getRPM t' = (30 * Z.of_nat 40)%Z <-> 40 <= 2184) /\
  Tachometer.tachCount t' = 0%Z /\
  Tachometer.lastRpmCalcTime t' = 1000%Z.
Proof.
  apply (tachometer_reports_edges 40 Tachometer.initial 1000). reflexivity.
Defined.

(** X12.  The interval test of the tachometer measures time modulo 2^32:
    [d] milliseconds after the last calculation, whatever the clock showed
    then and also when it has wrapped since, the test holds exactly when
    [d] has reached [RPM_CALC_INTERVAL]. *)
Theorem tachometer_interval_wraps (t : Tachometer.Tachometer) (d : Z) :
  (0 <= d < 2 ^ 32)%Z ->
  Tachometer.shouldCalculateRPM t (uint32 (Tachometer.lastRpmCalcTime t + d))
  = (d >=? Tachometer.RPM_CALC_INTERVAL)%Z.
Proof.
  intros Hd. unfold Tachometer.shouldCalculateRPM. now rewrite usub32_elapsed.
Qed.

Lemma tachometer_interval_wraps_witness :
  Tachometer.shouldCalculateRPM (Tachometer.mkT 0 0 4294966796)
    (uint32 (Tachometer.lastRpmCalcTime (Tachometer.mkT 0 0 4294966796) + 1000))
  = (1000 >=? Tachometer.RPM_CALC_INTERVAL)%Z.
Proof.
  apply (tachometer_interval_wraps (Tachometer.mkT 0 0 4294966796) 1000). lia.
Defined.

(** ** device_communication.cpp: the round of polling *)

Lemma store_forall {A : Type} (P : A -> Prop) (i : nat) (v : A) (l : list A) :
  Forall P l -> P v -> Forall P (store i v l).
Proof.
  intros Hl Hv. revert i. induction Hl as [|x t Hx Ht IH]; intros [|i]; simpl;
    constructor; auto.
Qed.

Lemma store_twice {A : Type} (i : nat) (v w : A) (l : list A) :
  store i v (store i w l) = store i v l.
Proof.
  revert i. induction l as [|x t IH]; intros [|i]; simpl; auto. now rewrite IH.
Qed.

Lemma all_false_aget (l : list bool) (i : Z) :
  Forall (fun b => b = false) l -> aget l i false = false.
Proof.
  intros H. unfold aget. destruct (Nat.lt_ge_cases (Z.to_nat i) (length l)) as [Hi|Hi].
  - rewrite Forall_forall in H. apply H. now apply nth_In.
  - now apply nth_overflow.
Qed.

Lemma take_char_length (ts : Controller.TemperatureSensor) (fc : Controller.FanController)
    (data : list string) (d : Z) (c : ascii) (now : Z) :
  length (snd (fst (Controller.take_char ts fc data d c now))) = length data.
Proof.
  unfold Controller.take_char.
  destruct (Ascii.eqb c LF).
  - destruct (Controller.processSerialResponse _ _ _ _ _). cbn. apply aset_length.
  - destruct (negb _); cbn; [apply aset_length | reflexivity].
Qed.

Lemma turn_run_app (t : turn) (e1 e2 : list Controller.comm_event) :
  turn_run t (e1 ++ e2)
  = match turn_run t e1 with Some t' => turn_run t' e2 | None => None end.
Proof.
  revert t. induction e1 as [|ev e1 IH]; intros t; cbn; auto.
  destruct (turn_step t ev); auto.
Qed.

(** One call of [pollDevices]. *)
Lemma poll_step (dc : Controller.DeviceCommunication) (ts : Controller.TemperatureSensor)
    (fc : Controller.FanController) (e : Controller.poll_env) :
  comm_ok dc -> (0 < Controller.currentMillis e)%Z ->
  comm_ok (fst (fst (fst (Controller.pollDevices dc ts fc e)))) /\
  turn_run (turn_of dc) (snd (Controller.pollDevices dc ts fc e))
  = Some (turn_of (fst (fst (fst (Controller.pollDevices dc ts fc e))))).
Proof.
  intros (Hld & Hlr & Hresp & Hcur & Hidle) Hnow.
  unfold Controller.pollDevices.
  set (starting := ((Controller.currentPollingDevice dc =? -1)%Z &&
                    (usub32 (Controller.currentMillis e) (Controller.lastPollTime dc)
                     >=? Controller.POLL_INTERVAL)%Z)).
  set (cur := if starting then 0%Z else Controller.currentPollingDevice dc).
  set (lastp := if starting then Controller.currentMillis e else Controller.lastPollTime dc).
  set (ev0 := if starting then [Controller.EvStart] else []).
  assert (Hcur' : (-1 <= cur < 4)%Z) by (unfold cur; destruct starting; lia).
  assert (Hstart : starting = true ->
                   Controller.currentPollingDevice dc = (-1)%Z /\
                   Controller.commandSentTime dc = 0%Z).
  { unfold starting. intros H. apply andb_prop in H. destruct H as [H _].
    apply Z.eqb_eq in H. auto. }
  assert (Hev0 : turn_run (turn_of dc) ev0
                 = Some (if (cur <? 0)%Z then Idle
                         else if (Controller.commandSentTime dc =? 0)%Z then Due cur
                              else Waiting cur)).
  { unfold ev0, cur, turn_of. destruct starting eqn:S.
    - destruct (Hstart eq_refl) as [-> ->]. reflexivity.
    - reflexivity. }
  destruct (Z.geb_spec cur 0) as [Hge|Hlt].
  2:{ cbn [fst snd Controller.incomingData Controller.deviceResponded
             Controller.currentPollingDevice Controller.commandSentTime].
      split.
      - unfold comm_ok. cbn [Controller.incomingData Controller.deviceResponded
                               Controller.currentPollingDevice Controller.commandSentTime].
        repeat split; auto; try lia.
        intros _. apply Hidle. unfold cur in *. destruct starting; lia.
      - rewrite Hev0. unfold turn_of.
        cbn [Controller.currentPollingDevice Controller.commandSentTime].
        destruct (Z.ltb_spec cur 0); [reflexivity | lia]. }
  rewrite (all_false_aget _ cur Hresp). cbn [negb andb].
  set (sending := (Controller.commandSentTime dc =? 0)%Z).
  set (sent := if sending then Controller.currentMillis e else Controller.commandSentTime dc).
  set (ev1 := if sending then [Controller.EvPoll cur] else []).
  assert (Hsent : sent <> 0%Z).
  { unfold sent, sending. destruct (Z.eqb_spec (Controller.commandSentTime dc) 0); lia. }
  assert (Hev1 : turn_run (turn_of dc) (ev0 ++ ev1) = Some (Waiting cur)).
  { rewrite turn_run_app, Hev0. destruct (Z.ltb_spec cur 0); [lia|].
    unfold ev1. fold sending. destruct sending; cbn; [|reflexivity].
    now rewrite Z.eqb_refl. }
  set (R := match Controller.rx e with
            | Some c =>
                let '(ts', fc', data', line) :=
                  Controller.take_char ts fc (Controller.incomingData dc) cur c
                                       (Controller.parse_millis e) in
                (ts', fc', data',
                 if line then aset (Controller.deviceResponded dc) cur true
                 else Controller.deviceResponded dc,
                 if line
                 then [Controller.EvLine cur (aget (Controller.incomingData dc) cur ""%string)]
                 else [])
            | None => (ts, fc, Controller.incomingData dc, Controller.deviceResponded dc, [])
            end).
  assert (HR : exists ts1 fc1 data1 (line : bool),
            length data1 = 4 /\
            R = (ts1, fc1, data1,
                 if line then aset (Controller.deviceResponded dc) cur true
                 else Controller.deviceResponded dc,
                 if line
                 then [Controller.EvLine cur (aget (Controller.incomingData dc) cur ""%string)]
                 else [])).
  { unfold R. destruct (Controller.rx e) as [c|].
    - pose proof (take_char_length ts fc (Controller.incomingData dc) cur c
                    (Controller.parse_millis e)) as HL.
      destruct (Controller.take_char _ _ _ _ _ _) as [[[ts' fc'] data'] line].
      cbn [fst snd] in HL. exists ts', fc', data', line. split; [lia | reflexivity].
    - exists ts, fc, (Controller.incomingData dc), false. auto. }
  destruct HR as (ts1 & fc1 & data1 & line & HL1 & ->).
  assert (Hdone : Forall (fun b => b = false)
                     (aset (if line then aset (Controller.deviceResponded dc) cur true
                            else Controller.deviceResponded dc) cur false)).
  { destruct line; unfold aset.
    - rewrite store_twice. now apply store_forall.
    - now apply store_forall. }
  assert (Hdlen : length (aset (if line then aset (Controller.deviceResponded dc) cur true
                                else Controller.deviceResponded dc) cur false) = 4).
  { rewrite aset_length. destruct line; [rewrite aset_length|]; exact Hlr. }
  assert (Hnext : incr16 cur = (cur + 1)%Z) by (apply incr16_small; lia).
  assert (Hafter : after_device cur
                   = if (incr16 cur >=? NUM_DEVICES)%Z then Closing else Due (incr16 cur)).
  { unfold after_device. now rewrite Hnext. }
  destruct line.
  - (* a line was completed *)
    rewrite aget_aset_same by lia. cbn [orb negb].
    destruct (Z.geb_spec (incr16 cur) NUM_DEVICES) as [Hlast|Hmore];
      cbn [fst snd]; split.
    + unfold comm_ok. cbn [Controller.incomingData Controller.deviceResponded
                             Controller.currentPollingDevice Controller.commandSentTime].
      repeat split; auto; try lia.
    + rewrite (app_assoc ev0 ev1), turn_run_app, Hev1.
      cbn. rewrite Z.eqb_refl, Hafter.
      destruct (Z.geb_spec (incr16 cur) NUM_DEVICES); [reflexivity | lia].
    + unfold comm_ok. cbn [Controller.incomingData Controller.deviceResponded
                             Controller.currentPollingDevice Controller.commandSentTime].
      unfold NUM_DEVICES in *. repeat split; auto; try lia.
    + rewrite (app_assoc ev0 ev1), turn_run_app, Hev1.
      cbn. rewrite Z.eqb_refl, Hafter.
      destruct (Z.geb_spec (incr16 cur) NUM_DEVICES); [lia|].
      unfold turn_of. cbn [Controller.currentPollingDevice Controller.commandSentTime].
      destruct (Z.ltb_spec (incr16 cur) 0); [lia | reflexivity].
  - (* no line *)
    rewrite (all_false_aget _ cur Hresp). cbn [orb negb].
    destruct ((sent >? 0)%Z &&
              (usub32 (Controller.currentMillis e) sent >=? Controller.RESPONSE_TIMEOUT)%Z).
    + destruct (Controller.handleMissedPoll ts1 fc1 cur) as [ts2 fc2].
      destruct (Z.geb_spec (incr16 cur) NUM_DEVICES) as [Hlast|Hmore];
        cbn [fst snd]; split.
      * unfold comm_ok. cbn [Controller.incomingData Controller.deviceResponded
                               Controller.currentPollingDevice Controller.commandSentTime].
        repeat split; auto; try lia.
      * rewrite (app_assoc ev0 ev1), turn_run_app, Hev1.
        cbn. rewrite Z.eqb_refl, Hafter.
        destruct (Z.geb_spec (incr16 cur) NUM_DEVICES); [reflexivity | lia].
      * unfold comm_ok. cbn [Controller.incomingData Controller.deviceResponded
                               Controller.currentPollingDevice Controller.commandSentTime].
        unfold NUM_DEVICES in *. repeat split; auto; try lia.
      * rewrite (app_assoc ev0 ev1), turn_run_app, Hev1.
        cbn. rewrite Z.eqb_refl, Hafter.
        destruct (Z.geb_spec (incr16 cur) NUM_DEVICES); [lia|].
        unfold turn_of. cbn [Controller.currentPollingDevice Controller.commandSentTime].
        destruct (Z.ltb_spec (incr16 cur) 0); [lia | reflexivity].
    + cbn [fst snd]. split.
      * unfold comm_ok. cbn [Controller.incomingData Controller.deviceResponded
                               Controller.currentPollingDevice Controller.commandSentTime].
        repeat split; auto; lia.
      * rewrite app_nil_r, Hev1. unfold turn_of.
        cbn [Controller.currentPollingDevice Controller.commandSentTime].
        destruct (Z.ltb_spec cur 0); [lia|].
        destruct (Z.eqb_spec sent 0); [contradiction | reflexivity].
Qed.

Lemma check_ports_length (rxs : list (option ascii)) (ts : Controller.TemperatureSensor)
    (fc : Controller.FanController) (data : list string) (i now : Z) :
  length (snd (Controller.check_ports ts fc data i rxs now)) = length data.
Proof.
  revert ts fc data i. induction rxs as [|r rxs IH]; intros ts fc data i; [reflexivity|].
  cbn [Controller.check_ports]. destruct r as [c|]; [|apply IH].
  pose proof (take_char_length ts fc data i c now) as HL.
  destruct (Controller.take_char ts fc data i c now) as [[[ts' fc'] data'] line].
  cbn [fst snd] in HL. rewrite IH. exact HL.
Qed.

Lemma checkIncomingData_comm (dc : Controller.DeviceCommunication)
    (ts : Controller.TemperatureSensor) (fc : Controller.FanController)
    (rxs : list (option ascii)) (now : Z) :
  comm_ok dc ->
  comm_ok (fst (fst (Controller.checkIncomingData dc ts fc rxs now))) /\
  turn_of (fst (fst (Controller.checkIncomingData dc ts fc rxs now))) = turn_of dc.
Proof.
  intros (H1 & H2 & H3 & H4 & H5). unfold Controller.checkIncomingData.
  pose proof (check_ports_length (firstn 4 rxs) ts fc (Controller.incomingData dc) 0 now) as HL.
  destruct (Controller.check_ports _ _ _ _ _ _) as [[ts' fc'] data'].
  cbn [fst snd] in *. split; [|reflexivity].
  unfold comm_ok. cbn. repeat split; auto; lia.
Qed.

Lemma firmware_loop_comm (b : Firmware.board) (e : Firmware.loop_env) :
  comm_ok (Firmware.deviceComm b) ->
  (0 < Controller.currentMillis (Firmware.poll e))%Z ->
  comm_ok (Firmware.deviceComm (fst (Firmware.loop b e))) /\
  turn_run (turn_of (Firmware.deviceComm b)) (snd (Firmware.loop b e))
  = Some (turn_of (Firmware.deviceComm (fst (Firmware.loop b e)))).
Proof.
  intros Hok Hnow. unfold Firmware.loop.
  pose proof (poll_step (Firmware.deviceComm b) (Firmware.tempSensor b)
                (Firmware.fanController b) (Firmware.poll e) Hok Hnow) as [P1 P2].
  destruct (Controller.pollDevices _ _ _ _) as [[[dc1 ts1] fc1] evs].
  cbn [fst snd] in P1, P2.
  pose proof (checkIncomingData_comm dc1 ts1 (Controller.updateFanSpeed fc1 ts1)
                (Firmware.ports e) (Firmware.check_millis e) P1) as [C1 C2].
  destruct (Controller.checkIncomingData _ _ _ _ _) as [[dc2 ts2] fc3].
  cbn [fst snd Firmware.deviceComm] in *. split; [exact C1|]. now rewrite C2.
Qed.

(** X13.  Along any run of [loop] after [setup], provided [millis()] is not 0 at
    the start of a pass: the polling state stays within its bounds (the
    device polled is one of the four or none, so the arrays are indexed
    within bounds, and no response flag is left set between passes), and
    what [pollDevices] did follows the order of a round: the start, then
    for device 1 to 4 in turn one command answered by exactly one of a
    processed line and a missed poll, then the end. *)
Theorem polling_round_order (linked : bool) (es : list Firmware.loop_env) :
  Forall (fun e => (0 < Controller.currentMillis (Firmware.poll e))%Z) es ->
  let r := Firmware.run (Firmware.setup linked) es in
  comm_ok (Firmware.deviceComm (fst r)) /\
  turn_run Idle (snd r) = Some (turn_of (Firmware.deviceComm (fst r))).
Proof.
  intros Hall. cbn zeta.
  assert (Hgen : forall b,
            comm_ok (Firmware.deviceComm b) ->
            comm_ok (Firmware.deviceComm (fst (Firmware.run b es))) /\
            turn_run (turn_of (Firmware.deviceComm b)) (snd (Firmware.run b es))
            = Some (turn_of (Firmware.deviceComm (fst (Firmware.run b es))))).
  { induction Hall as [|e es He Hes IH]; intros b Hb.
    - cbn. auto.
    - cbn [Firmware.run].
      destruct (firmware_loop_comm b e Hb He) as [L1 L2].
      destruct (Firmware.loop b e) as [b1 ev1]. cbn [fst snd] in L1, L2.
      destruct (IH b1 L1) as [I1 I2].
      destruct (Firmware.run b1 es) as [b2 ev2]. cbn [fst snd] in *.
      split; [exact I1|]. now rewrite turn_run_app, L2. }
  apply (Hgen (Firmware.setup linked)).
  unfold comm_ok. cbn. repeat split; auto; try lia; repeat constructor.
Qed.

Lemma polling_round_order_witness :
  let e := Firmware.mkloop 0 1000 1001 (Controller.mkpoll 1000 None 1000) [] 1002 in
  let r := Firmware.run (Firmware.setup true) [e] in
  comm_ok (Firmware.deviceComm (fst r)) /\
  turn_run Idle (snd r) = Some (turn_of (Firmware.deviceComm (fst r))).
Proof.
  intros e.
  apply (polling_round_order true [e]). repeat constructor.
Defined.

(** ** main.cpp: the fan under the whole loop *)

Lemma updateFanSpeed_fan_ok (fc : Controller.FanController)
    (ts : Controller.TemperatureSensor) :
  fan_ok fc -> fan_ok (Controller.updateFanSpeed fc ts).
Proof.
  intros [H1 H2]. destruct (updateFanSpeed_cases fc ts) as [->|(v & Hv & ->)];
    [split; auto|].
  split; cbn [Controller.pwm_writes Controller.currentPwmValue].
  - apply last_last.
  - apply Forall_app. split; [exact H2 | repeat constructor; lia].
Qed.

Lemma parseTemperatureData_fan_ok (ts : Controller.TemperatureSensor)
    (fc : Controller.FanController) (d : Z) (data : string) (now : Z) :
  fan_ok fc -> fan_ok (snd (Controller.parseTemperatureData ts fc d data now)).
Proof.
  intros H. unfold Controller.parseTemperatureData.
  break_match; cbn [snd]; auto using updateFanSpeed_fan_ok.
Qed.

Lemma processSerialResponse_fan_ok (ts : Controller.TemperatureSensor)
    (fc : Controller.FanController) (d : Z) (r : string) (now : Z) :
  fan_ok fc -> fan_ok (snd (Controller.processSerialResponse ts fc d r now)).
Proof.
  intros H. unfold Controller.processSerialResponse.
  destruct (_ && _); [|exact H].
  pose proof (parseTemperatureData_fan_ok ts fc d (trim r) now H) as Hp.
  destruct (Controller.parseTemperatureData ts fc d (trim r) now) as [[ok ts'] fc'].
  exact Hp.
Qed.

Lemma handleMissedPoll_fan_ok (ts : Controller.TemperatureSensor)
    (fc : Controller.FanController) (d : Z) :
  fan_ok fc -> fan_ok (snd (Controller.handleMissedPoll ts fc d)).
Proof.
  intros H. unfold Controller.handleMissedPoll.
  break_match; cbn [snd]; auto using updateFanSpeed_fan_ok.
Qed.

Lemma take_char_fan_ok (ts : Controller.TemperatureSensor) (fc : Controller.FanController)
    (data : list string) (d : Z) (c : ascii) (now : Z) :
  fan_ok fc -> fan_ok (snd (fst (fst (Controller.take_char ts fc data d c now)))).
Proof.
  intros H. unfold Controller.take_char. destruct (Ascii.eqb c LF).
  - pose proof (processSerialResponse_fan_ok ts fc d (aget data d ""%string) now H) as Hp.
    destruct (Controller.processSerialResponse _ _ _ _ _) as [ts' fc']. exact Hp.
  - destruct (negb _); exact H.
Qed.

Lemma check_ports_fan_ok (rxs : list (option ascii)) (ts : Controller.TemperatureSensor)
    (fc : Controller.FanController) (data : list string) (i now : Z) :
  fan_ok fc -> fan_ok (snd (fst (Controller.check_ports ts fc data i rxs now))).
Proof.
  revert ts fc data i. induction rxs as [|r rxs IH]; intros ts fc data i H; [exact H|].
  cbn [Controller.check_ports]. destruct r as [c|]; [|now apply IH].
  pose proof (take_char_fan_ok ts fc data i c now H) as Ht.
  destruct (Controller.take_char ts fc data i c now) as [[[ts' fc'] data'] line].
  cbn [fst snd] in Ht. now apply IH.
Qed.

Lemma pollDevices_fan_ok (dc : Controller.DeviceCommunication)
    (ts : Controller.TemperatureSensor) (fc : Controller.FanController)
    (e : Controller.poll_env) :
  fan_ok fc -> fan_ok (snd (fst (Controller.pollDevices dc ts fc e))).
Proof.
  intros H. unfold Controller.pollDevices.
  set (cur := if (Controller.currentPollingDevice dc =? -1)%Z &&
                 (usub32 (Controller.currentMillis e) (Controller.lastPollTime dc)
                  >=? Controller.POLL_INTERVAL)%Z
              then 0%Z else Controller.currentPollingDevice dc).
  destruct (cur >=? 0)%Z; [|exact H].
  assert (HR : forall R,
            R = match Controller.rx e with
                | Some c =>
                    let '(ts', fc', data', line) :=
                      Controller.take_char ts fc (Controller.incomingData dc) cur c
                                           (Controller.parse_millis e) in
                    (ts', fc', data',
                     if line then aset (Controller.deviceResponded dc) cur true
                     else Controller.deviceResponded dc,
                     if line
                     then [Controller.EvLine cur
                             (aget (Controller.incomingData dc) cur ""%string)]
                     else [])
                | None => (ts, fc, Controller.incomingData dc,
                           Controller.deviceResponded dc, [])
                end ->
            fan_ok (snd (fst (fst (fst R))))).
  { intros R ->. destruct (Controller.rx e) as [c|]; [|exact H].
    pose proof (take_char_fan_ok ts fc (Controller.incomingData dc) cur c
                  (Controller.parse_millis e) H) as Ht.
    destruct (Controller.take_char _ _ _ _ _ _) as [[[ts' fc'] data'] line]. exact Ht. }
  specialize (HR _ eq_refl).
  destruct (match Controller.rx e with Some _ => _ | None => _ end)
    as [[[[ts1 fc1] data1] responded1] ev2].
  cbn [fst snd] in HR.
  destruct (_ || _); [|exact HR].
  destruct (negb _).
  - pose proof (handleMissedPoll_fan_ok ts1 fc1 cur HR) as Hm.
    destruct (Controller.handleMissedPoll ts1 fc1 cur) as [ts2 fc2].
    destruct (incr16 cur >=? NUM_DEVICES)%Z; exact Hm.
  - destruct (incr16 cur >=? NUM_DEVICES)%Z; exact HR.
Qed.

Lemma firmware_loop_fan_ok (b : Firmware.board) (e : Firmware.loop_env) :
  fan_ok (Firmware.fanController b) ->
  fan_ok (Firmware.fanController (fst (Firmware.loop b e))).
Proof.
  intros H. unfold Firmware.loop.
  pose proof (pollDevices_fan_ok (Firmware.deviceComm b) (Firmware.tempSensor b)
                (Firmware.fanController b) (Firmware.poll e) H) as Hp.
  destruct (Controller.pollDevices _ _ _ _) as [[[dc1 ts1] fc1] evs].
  cbn [fst snd] in Hp.
  pose proof (check_ports_fan_ok (firstn 4 (Firmware.ports e)) ts1
                (Controller.updateFanSpeed fc1 ts1) (Controller.incomingData dc1) 0
                (Firmware.check_millis e) (updateFanSpeed_fan_ok fc1 ts1 Hp)) as Hc.
  unfold Controller.checkIncomingData.
  destruct (Controller.check_ports _ _ _ _ _ _) as [[ts2 fc3] data2].
  exact Hc.
Qed.

Lemma last_forall {A : Type} (P : A -> Prop) (l : list A) (d : A) :
  Forall P l -> P d -> P (last l d).
Proof.
  intros Hl Hd. induction Hl as [|x t Hx Ht IH]; [exact Hd|].
  destruct t; [exact Hx | exact IH].
Qed.

(** X14.  Along any run of [loop] after [setup], whatever arrives on the ports
    and whenever: every value written to the fan pin is within
    [FAN_SPEED_MIN] and [FAN_SPEED_MAX], so the fan is never stopped and the
    8-bit range of the pin is never left, and the value the object holds is
    the last one written. *)
Theorem firmware_fan_within_range (linked : bool) (es : list Firmware.loop_env) :
  let b := fst (Firmware.run (Firmware.setup linked) es) in
  fan_ok (Firmware.fanController b) /\
  (FAN_SPEED_MIN <= Controller.currentPwmValue (Firmware.fanController b)
   <= FAN_SPEED_MAX)%Z.
Proof.
  cbn zeta.
  assert (Hgen : forall b,
            fan_ok (Firmware.fanController b) ->
            fan_ok (Firmware.fanController (fst (Firmware.run b es)))).
  { induction es as [|e es IH]; intros b Hb; [exact Hb|].
    cbn [Firmware.run].
    pose proof (firmware_loop_fan_ok b e Hb) as H1.
    destruct (Firmware.loop b e) as [b1 ev1]. cbn [fst] in H1.
    specialize (IH b1 H1).
    destruct (Firmware.run b1 es) as [b2 ev2]. exact IH. }
  assert (H0 : fan_ok (Firmware.fanController (Firmware.setup linked))).
  { split; cbn; [reflexivity|]. repeat constructor; unfold FAN_SPEED_MIN, FAN_SPEED_MAX; lia. }
  specialize (Hgen _ H0). split; [exact Hgen|].
  destruct Hgen as [<- Hall].
  apply (last_forall (fun v => (FAN_SPEED_MIN <= v <= FAN_SPEED_MAX)%Z)); auto.
  unfold FAN_SPEED_MIN, FAN_SPEED_MAX; lia.
Qed.


(** ** device_communication.cpp: the response timeout *)

(** X15.  While a command is out to a device and nothing arrives, a call of
    [pollDevices] [d] milliseconds after the command was sent, also when
    the clock has wrapped in between, does nothing if [d] is below
    [RESPONSE_TIMEOUT]; from [RESPONSE_TIMEOUT] on it counts one missed poll
    for the device, withdraws the command and moves to the next device, or
    ends the round after the fourth. *)
Theorem missed_poll_after_timeout (dc : Controller.DeviceCommunication)
    (ts : Controller.TemperatureSensor) (fc : Controller.FanController)
    (e : Controller.poll_env) (d : Z) :
  comm_ok dc ->
  (0 <= Controller.currentPollingDevice dc)%Z ->
  (0 < Controller.commandSentTime dc)%Z ->
  Controller.rx e = None ->
  (0 <= d < 2 ^ 32)%Z ->
  Controller.currentMillis e = uint32 (Controller.commandSentTime dc + d) ->
  let cur := Controller.currentPollingDevice dc in
  Controller.pollDevices dc ts fc e
  = if (d >=? Controller.RESPONSE_TIMEOUT)%Z then
      (Controller.mkDC (Controller.incomingData dc) (Controller.deviceResponded dc)
                       (Controller.lastPollTime dc) 0
                       (if (cur =? 3)%Z then -1 else cur + 1)%Z,
       fst (Controller.handleMissedPoll ts fc cur),
       snd (Controller.handleMissedPoll ts fc cur),
       Controller.EvMissed cur :: (if (cur =? 3)%Z then [Controller.EvDone] else []))
    else (dc, ts, fc, []).
Proof.
  intros (Hld & Hlr & Hresp & Hcur & Hidle) Hge Hsent Hrx Hd Hnow. cbn zeta.
  unfold Controller.pollDevices.
  destruct (Z.eqb_spec (Controller.currentPollingDevice dc) (-1)); [lia|].
  cbn [andb].
  destruct (Z.geb_spec (Controller.currentPollingDevice dc) 0); [|lia].
  rewrite (all_false_aget _ _ Hresp). cbn [negb andb].
  destruct (Z.eqb_spec (Controller.commandSentTime dc) 0); [lia|].
  rewrite Hrx. rewrite (all_false_aget _ _ Hresp). cbn [orb negb app].
  destruct (Z.gtb_spec (Controller.commandSentTime dc) 0); [|lia]. cbn [andb].
  rewrite Hnow, usub32_elapsed by exact Hd.
  destruct (d >=? Controller.RESPONSE_TIMEOUT)%Z.
  - destruct (Controller.handleMissedPoll ts fc (Controller.currentPollingDevice dc))
      as [ts2 fc2]. cbn [fst snd].
    rewrite incr16_small by lia.
    assert (Hsame : aset (Controller.deviceResponded dc)
                         (Controller.currentPollingDevice dc) false
                    = Controller.deviceResponded dc).
    { unfold aset. clear - Hresp.
      generalize (Z.to_nat (Controller.currentPollingDevice dc)).
      induction Hresp as [|x t Hx Ht IH]; intros [|i]; simpl; auto; congruence. }
    rewrite Hsame.
    destruct (Z.geb_spec (Controller.currentPollingDevice dc + 1) NUM_DEVICES) as [H3|H3];
      unfold NUM_DEVICES in H3;
      destruct (Z.eqb_spec (Controller.currentPollingDevice dc) 3); try lia; reflexivity.
  - destruct dc; reflexivity.
Qed.

Lemma missed_poll_after_timeout_witness :
  let dc := Controller.mkDC (repeat ""%string 4) (repeat false 4) 4294967000 4294967200 3 in
  let e := Controller.mkpoll 104 None 104 in
  let cur := Controller.currentPollingDevice dc in
  Controller.pollDevices dc (Controller.initial_sensor true) Controller.initial_fan e
  = if (200 >=? Controller.RESPONSE_TIMEOUT)%Z then
      (Controller.mkDC (Controller.incomingData dc) (Controller.deviceResponded dc)
                       (Controller.lastPollTime dc) 0
                       (if (cur =? 3)%Z then -1 else cur + 1)%Z,
       fst (Controller.handleMissedPoll (Controller.initial_sensor true)
              Controller.initial_fan cur),
       snd (Controller.handleMissedPoll (Controller.initial_sensor true)
              Controller.initial_fan cur),
       Controller.EvMissed cur :: (if (cur =? 3)%Z then [Controller.EvDone] else []))
    else (dc, Controller.initial_sensor true, Controller.initial_fan, []).
Proof.
  intros dc e.
  apply (missed_poll_after_timeout dc (Controller.initial_sensor true)
           Controller.initial_fan e 200).
  - unfold comm_ok. cbn. repeat split; auto; try lia; repeat constructor.
  - cbn. lia.
  - cbn. lia.
  - reflexivity.
  - lia.
  - reflexivity.
Defined.

(** ** The two versions of the firmware *)

Lemma map_store {A B : Type} (f : A -> B) (i : nat) (v : A) (l : list A) :
  map f (store i v l) = store i (f v) (map f l).
Proof.
  revert i. induction l as [|x t IH]; intros [|i]; simpl; auto. now rewrite IH.
Qed.

Lemma prefix_index (p s : string) : String.prefix p s = true -> indexOf s p = 0%Z.
Proof.
  intros H. unfold indexOf. destruct s as [|c s].
  - destruct p; [reflexivity | discriminate].
  - cbn [String.index]. now rewrite H.
Qed.

Lemma highest_agree (dts : list Controller.TemperatureData) :
  forall (hc hn : Q) (any : bool),
    Forall (fun d => Controller.isValid d = false ->
                     Controller.cpuTemp d = 0%Q /\ Controller.nvmeTemp d = 0%Q) dts ->
    (0 <= hc)%Q -> (0 <= hn)%Q ->
    fold_left Sketch.highest_step
              (combine (map Controller.cpuTemp dts) (map Controller.nvmeTemp dts))
              (hc, hn, any)
    = (fold_left Controller.highest_step dts (hc, hn),
       any || existsb Controller.has_data dts).
Proof.
  induction dts as [|d dts IH]; intros hc hn any Hall Hc Hn.
  - cbn. now rewrite orb_false_r.
  - inversion Hall as [|? ? Hd Hrest]; subst.
    cbn [map combine fold_left existsb].
    assert (Hstep : Sketch.highest_step (hc, hn, any)
                      (Controller.cpuTemp d, Controller.nvmeTemp d)
                    = (Controller.highest_step (hc, hn) d, any || Controller.has_data d)).
    { unfold Sketch.highest_step, Controller.highest_step, Controller.has_data.
      cbn [fst snd]. destruct (Controller.isValid d) eqn:V.
      - cbn [andb]. destruct (fgt (Controller.cpuTemp d) 0 || fgt (Controller.nvmeTemp d) 0)
          eqn:P.
        + now rewrite orb_true_r.
        + apply orb_false_iff in P. destruct P as [P1 P2].
          rewrite orb_false_r.
          assert (L1 : (Controller.cpuTemp d <= 0)%Q).
          { unfold fgt in P1. destruct (Qlt_le_dec 0 (Controller.cpuTemp d)); [discriminate | auto]. }
          assert (L2 : (Controller.nvmeTemp d <= 0)%Q).
          { unfold fgt in P2. destruct (Qlt_le_dec 0 (Controller.nvmeTemp d)); [discriminate | auto]. }
          rewrite !fgt_le by (eapply Qle_trans; eauto). reflexivity.
      - destruct (Hd eq_refl) as [-> ->]. cbn [andb].
        change (fgt 0 0) with false. cbn [orb]. now rewrite orb_false_r. }
    rewrite Hstep.
    pose proof (highest_step_nonneg (hc, hn) d (conj Hc Hn)) as [N1 N2].
    destruct (Controller.highest_step (hc, hn) d) as [hc' hn'] eqn:E.
    cbn [fst snd] in N1, N2.
    rewrite IH by auto. now rewrite orb_assoc.
Qed.

Lemma same_update (ts : Controller.TemperatureSensor) (fc : Controller.FanController)
    (g : Sketch.globals) :
  same_tables (ts, fc) g ->
  same_tables (ts, Controller.updateFanSpeed fc ts) (Sketch.updateFanSpeed g).
Proof.
  intros (R1 & R2 & R3 & R4 & R5 & R6 & R7 & R8 & R9). cbn [fst snd] in *.
  assert (Hh : Sketch.highest g
               = (Controller.getHighestTemperatures ts, Controller.hasTemperatureData ts)).
  { unfold Sketch.highest, Controller.getHighestTemperatures, Controller.hasTemperatureData.
    rewrite R1, R2. rewrite highest_agree; auto; apply Qle_refl. }
  unfold Sketch.updateFanSpeed, Controller.updateFanSpeed. rewrite Hh.
  destruct (Controller.getHighestTemperatures ts) as [hc hn].
  destruct (negb (Controller.hasTemperatureData ts)).
  - unfold same_tables. cbn. rewrite R7. auto 10.
  - change (Sketch.fanSpeedFor hc CPU_TEMP_MIN CPU_TEMP_MAX)
      with (Controller.calculateFanSpeed hc CPU_TEMP_MIN CPU_TEMP_MAX).
    change (Sketch.fanSpeedFor hn NVME_TEMP_MIN NVME_TEMP_MAX)
      with (Controller.calculateFanSpeed hn NVME_TEMP_MIN NVME_TEMP_MAX).
    rewrite R6. destruct (negb _).
    + unfold same_tables. cbn. rewrite R7. auto 10.
    + unfold same_tables. cbn [fst snd]. auto 10.
Qed.

Lemma same_line (ts : Controller.TemperatureSensor) (fc : Controller.FanController)
    (g : Sketch.globals) (d : Z) (line : string) (now : Z) :
  (0 <= d < 4)%Z ->
  same_tables (ts, fc) g ->
  same_tables (Controller.processSerialResponse ts fc d line now)
              (Sketch.processSerialResponse g d line now).
Proof.
  intros Hd R. pose proof R as (R1 & R2 & R3 & R4 & R5 & R6 & R7 & R8 & R9).
  cbn [fst snd] in *.
  unfold Controller.processSerialResponse, Sketch.processSerialResponse.
  destruct (startsWith (trim line) "CPU:") eqn:P; cbn [andb]; [|exact R].
  destruct (negb (indexOf (trim line) "|NVME:" =? -1)%Z) eqn:N; [|exact R].
  unfold Controller.parseTemperatureData, Sketch.parseTemperatureData.
  destruct (Z.ltb_spec d 0); [lia|].
  destruct (Z.geb_spec d NUM_DEVICES) as [Hbig|_]; [unfold NUM_DEVICES in Hbig; lia|].
  cbn [orb]. rewrite (prefix_index _ _ P), N. cbn [negb andb Z.eqb].
  rewrite R8.
  cbn [Sketch.cpuTemps Sketch.nvmeTemps Sketch.deviceConnected Sketch.lastTempUpdateTime
       Sketch.missedPolls Sketch.currentPwmValue Sketch.pwm_writes].
  set (cpu := toFloat _). set (nvme := toFloat _).
  set (ts1 := Controller.mkTS _ _ _ _).
  unfold Controller.resetMissedPolls.
  destruct (Z.geb_spec d 0); [|lia].
  destruct (Z.ltb_spec d NUM_DEVICES) as [_|Hbig]; [|unfold NUM_DEVICES in Hbig; lia].
  cbn [andb].
  set (ts2 := Controller.mkTS _ _ _ _).
  assert (Hsame : same_tables
                    (ts2, fc)
                    (Sketch.mkG (aset (Sketch.cpuTemps g) d cpu)
                                (aset (Sketch.nvmeTemps g) d nvme)
                                (aset (Sketch.deviceConnected g) d true)
                                (aset (Sketch.lastTempUpdateTime g) d now)
                                (aset (Sketch.missedPolls g) d 0%Z)
                                (Sketch.currentPwmValue g) (Sketch.pwm_writes g))).
  { unfold same_tables, ts2, ts1. cbn. unfold aset. rewrite !map_store. cbn.
    rewrite store_twice, R1, R2, R3, R4, R5. repeat split; auto.
    apply store_forall; auto. cbn. discriminate. }
  pose proof (same_update ts2 fc _ Hsame) as Hupd.
  unfold same_tables in *. cbn [fst snd] in *.
  replace (Controller.updateFanSpeed fc ts1) with (Controller.updateFanSpeed fc ts2);
    [exact Hupd|].
  unfold Controller.updateFanSpeed, Controller.getHighestTemperatures,
    Controller.hasTemperatureData. reflexivity.
Qed.

Lemma same_missed (ts : Controller.TemperatureSensor) (fc : Controller.FanController)
    (g : Sketch.globals) (d : Z) :
  (0 <= d < 4)%Z ->
  same_tables (ts, fc) g ->
  same_tables (Controller.handleMissedPoll ts fc d) (Sketch.missedPoll g d).
Proof.
  intros Hd R. pose proof R as (R1 & R2 & R3 & R4 & R5 & R6 & R7 & R8 & R9).
  cbn [fst snd] in *.
  unfold Controller.handleMissedPoll, Sketch.missedPoll.
  destruct (Z.geb_spec d 0); [|lia].
  destruct (Z.ltb_spec d NUM_DEVICES) as [_|Hbig]; [|unfold NUM_DEVICES in Hbig; lia].
  cbn [andb]. rewrite R4, R5, R8.
  change Sketch.maxMissedPolls with MAX_MISSED_POLLS.
  destruct (_ && _).
  - apply same_update. unfold same_tables. cbn. auto 10.
  - unfold same_tables. cbn. auto 10.
Qed.

(** *** The pass of [loop] in the modular firmware *)

Lemma padded_refl (v : Z) (l : list Z) : padded v 0 l l.
Proof. induction l; constructor; auto. Qed.

Lemma padded_app_same (v : Z) (n : nat) (l l' w : list Z) :
  padded v n l l' -> padded v n (l ++ w) (l' ++ w).
Proof.
  induction 1; cbn [app]; [apply padded_refl | now constructor | now constructor].
Qed.

Lemma padded_extra_end (v : Z) (n : nat) (l l' : list Z) :
  padded v n l l' -> padded v (S n) l (l' ++ [v]).
Proof.
  induction 1; cbn [app]; [repeat constructor | now constructor | now constructor].
Qed.

Lemma padded_zero (v : Z) (n : nat) (l l' : list Z) :
  padded v n l l' -> n = 0 -> l = l'.
Proof. induction 1; intros E; [reflexivity | f_equal; auto | discriminate]. Qed.

(** What [updateFanSpeed] writes, and the value it leaves, depend on the
    fan controller through the value it holds only. *)
Lemma updateFanSpeed_frame (fc1 fc2 : Controller.FanController)
    (ts : Controller.TemperatureSensor) :
  Controller.currentPwmValue fc1 = Controller.currentPwmValue fc2 ->
  exists w,
    Controller.pwm_writes (Controller.updateFanSpeed fc1 ts)
      = Controller.pwm_writes fc1 ++ w /\
    Controller.pwm_writes (Controller.updateFanSpeed fc2 ts)
      = Controller.pwm_writes fc2 ++ w /\
    Controller.currentPwmValue (Controller.updateFanSpeed fc1 ts)
      = Controller.currentPwmValue (Controller.updateFanSpeed fc2 ts).
Proof.
  intros E. unfold Controller.updateFanSpeed. rewrite E.
  destruct (Controller.getHighestTemperatures ts) as [hc hn].
  destruct (negb (Controller.hasTemperatureData ts)).
  - exists [FAN_SPEED_MIN]. repeat split; reflexivity.
  - destruct (negb _).
    + eexists. repeat split; reflexivity.
    + exists []. rewrite !app_nil_r. repeat split; auto.
Qed.

Lemma processSerialResponse_frame (fc1 fc2 : Controller.FanController)
    (ts : Controller.TemperatureSensor) (d : Z) (line : string) (now : Z) :
  Controller.currentPwmValue fc1 = Controller.currentPwmValue fc2 ->
  fst (Controller.processSerialResponse ts fc1 d line now)
    = fst (Controller.processSerialResponse ts fc2 d line now) /\
  exists w,
    Controller.pwm_writes (snd (Controller.processSerialResponse ts fc1 d line now))
      = Controller.pwm_writes fc1 ++ w /\
    Controller.pwm_writes (snd (Controller.processSerialResponse ts fc2 d line now))
      = Controller.pwm_writes fc2 ++ w /\
    Controller.currentPwmValue (snd (Controller.processSerialResponse ts fc1 d line now))
      = Controller.currentPwmValue (snd (Controller.processSerialResponse ts fc2 d line now)).
Proof.
  intros E.
  assert (Hnone : exists w : list Z,
             Controller.pwm_writes fc1 = Controller.pwm_writes fc1 ++ w /\
             Controller.pwm_writes fc2 = Controller.pwm_writes fc2 ++ w /\
             Controller.currentPwmValue fc1 = Controller.currentPwmValue fc2)
    by (exists []; rewrite !app_nil_r; auto).
  unfold Controller.processSerialResponse.
  destruct (_ && _); [|split; [reflexivity | exact Hnone]].
  unfold Controller.parseTemperatureData.
  destruct (_ || _); [split; [reflexivity | exact Hnone]|].
  destruct (_ && _); [|split; [reflexivity | exact Hnone]].
  cbn [fst snd]. split; [reflexivity|].
  destruct (Controller.fanController ts); [|exact Hnone].
  now apply updateFanSpeed_frame.
Qed.

Lemma handleMissedPoll_frame (fc1 fc2 : Controller.FanController)
    (ts : Controller.TemperatureSensor) (d : Z) :
  Controller.currentPwmValue fc1 = Controller.currentPwmValue fc2 ->
  fst (Controller.handleMissedPoll ts fc1 d) = fst (Controller.handleMissedPoll ts fc2 d) /\
  exists w,
    Controller.pwm_writes (snd (Controller.handleMissedPoll ts fc1 d))
      = Controller.pwm_writes fc1 ++ w /\
    Controller.pwm_writes (snd (Controller.handleMissedPoll ts fc2 d))
      = Controller.pwm_writes fc2 ++ w /\
    Controller.currentPwmValue (snd (Controller.handleMissedPoll ts fc1 d))
      = Controller.currentPwmValue (snd (Controller.handleMissedPoll ts fc2 d)).
Proof.
  intros E.
  assert (Hnone : exists w : list Z,
             Controller.pwm_writes fc1 = Controller.pwm_writes fc1 ++ w /\
             Controller.pwm_writes fc2 = Controller.pwm_writes fc2 ++ w /\
             Controller.currentPwmValue fc1 = Controller.currentPwmValue fc2)
    by (exists []; rewrite !app_nil_r; auto).
  unfold Controller.handleMissedPoll.
  destruct (_ && _); [|split; [reflexivity | exact Hnone]].
  destruct (_ && _); cbn [fst snd]; (split; [reflexivity|]); [|exact Hnone].
  destruct (Controller.fanController ts); [|exact Hnone].
  now apply updateFanSpeed_frame.
Qed.

(** The value [updateFanSpeed] leaves depends on the readings only. *)
Lemma applied_value_of_temps (fc fc' : Controller.FanController)
    (ts ts' : Controller.TemperatureSensor) :
  Controller.deviceTemps ts = Controller.deviceTemps ts' ->
  Controller.currentPwmValue (Controller.updateFanSpeed fc ts)
  = Controller.currentPwmValue (Controller.updateFanSpeed fc' ts').
Proof.
  intros E. rewrite !controller_applied_value.
  unfold Controller.hasTemperatureData, Controller.getHighestTemperatures.
  now rewrite E.
Qed.

Lemma settled_after_update (fc : Controller.FanController)
    (ts ts' : Controller.TemperatureSensor) :
  Controller.deviceTemps ts' = Controller.deviceTemps ts ->
  fan_settled (ts', Controller.updateFanSpeed fc ts).
Proof.
  intros E. unfold fan_settled. cbn [fst snd]. now apply applied_value_of_temps.
Qed.

Lemma settled_same_temps (fc : Controller.FanController)
    (ts ts' : Controller.TemperatureSensor) :
  Controller.deviceTemps ts' = Controller.deviceTemps ts ->
  fan_settled (ts, fc) -> fan_settled (ts', fc).
Proof.
  unfold fan_settled. cbn [fst snd]. intros E H. rewrite <- H.
  now apply applied_value_of_temps.
Qed.

Lemma settled_line (ts : Controller.TemperatureSensor) (fc : Controller.FanController)
    (d : Z) (line : string) (now : Z) :
  Controller.fanController ts = true ->
  fan_settled (ts, fc) ->
  fan_settled (Controller.processSerialResponse ts fc d line now) /\
  Controller.fanController (fst (Controller.processSerialResponse ts fc d line now)) = true.
Proof.
  intros Hlinked H. unfold Controller.processSerialResponse.
  destruct (_ && _); [|split; assumption].
  unfold Controller.parseTemperatureData.
  destruct (_ || _); [split; assumption|].
  destruct (_ && _); [|split; assumption].
  rewrite Hlinked. unfold Controller.resetMissedPolls.
  destruct (_ && _); cbn [fst snd Controller.fanController];
    (split; [apply settled_after_update; reflexivity | first [exact Hlinked | reflexivity]]).
Qed.

Lemma settled_missed (ts : Controller.TemperatureSensor) (fc : Controller.FanController)
    (d : Z) :
  Controller.fanController ts = true ->
  fan_settled (ts, fc) ->
  fan_settled (Controller.handleMissedPoll ts fc d) /\
  Controller.fanController (fst (Controller.handleMissedPoll ts fc d)) = true.
Proof.
  intros Hlinked H. unfold Controller.handleMissedPoll.
  destruct (_ && _); [|split; assumption].
  destruct (_ && _); cbn [fst snd Controller.fanController].
  - rewrite Hlinked. split; [apply settled_after_update; reflexivity | reflexivity].
  - split; [|exact Hlinked]. eapply settled_same_temps; [|exact H]. reflexivity.
Qed.

(** The call of [updateFanSpeed] in [loop], with the fan settled: it leaves
    the value, and writes the floor once more while no data is held. *)
Lemma settled_pass (ts : Controller.TemperatureSensor) (fc : Controller.FanController) :
  fan_settled (ts, fc) ->
  Controller.currentPwmValue (Controller.updateFanSpeed fc ts)
    = Controller.currentPwmValue fc /\
  Controller.pwm_writes (Controller.updateFanSpeed fc ts)
    = Controller.pwm_writes fc
      ++ (if Controller.hasTemperatureData ts then [] else [FAN_SPEED_MIN]).
Proof.
  unfold fan_settled. cbn [fst snd]. intros H. split; [exact H|].
  revert H. unfold Controller.updateFanSpeed.
  destruct (Controller.getHighestTemperatures ts) as [hc hn].
  destruct (Controller.hasTemperatureData ts); cbn [negb]; [|reflexivity].
  destruct (Z.eqb_spec (Z.max (Controller.calculateFanSpeed hc CPU_TEMP_MIN CPU_TEMP_MAX)
                              (Controller.calculateFanSpeed hn NVME_TEMP_MIN NVME_TEMP_MAX))
                       (Controller.currentPwmValue fc)) as [E|E]; cbn [negb].
  - intros _. now rewrite app_nil_r.
  - cbn [Controller.currentPwmValue]. intros H. congruence.
Qed.

Lemma sketch_ignores_passes (evs : list device_event) :
  forall g,
    fold_left sketch_on evs g
    = fold_left sketch_on (filter (fun ev => negb (is_pass ev)) evs) g.
Proof.
  induction evs as [|ev evs IH]; intros g; [reflexivity|].
  destruct ev; cbn [filter is_pass negb fold_left sketch_on]; apply IH.
Qed.

Lemma handlers_agree (evs : list device_event) :
  Forall event_in_range evs ->
  forall tf g,
    same_tables tf g ->
    same_tables (fold_left controller_on (filter (fun ev => negb (is_pass ev)) evs) tf)
                (fold_left sketch_on (filter (fun ev => negb (is_pass ev)) evs) g).
Proof.
  induction 1 as [|ev evs Hev Hevs IH]; intros tf g R; [exact R|].
  destruct tf as [ts fc].
  destruct ev as [d line now|d|]; cbn [filter is_pass negb fold_left event_in_range] in *.
  - apply IH. cbn [controller_on sketch_on fst snd]. now apply same_line.
  - apply IH. cbn [controller_on sketch_on fst snd]. now apply same_missed.
  - now apply IH.
Qed.

(** The modular firmware along the events, against itself without the
    passes of [loop]: the same table, the same value on the fan, and the
    same writes but for one more write of the floor for every pass made
    while no data was held. *)
Lemma passes_pad (evs : list device_event) :
  forall tf tf' n,
    fst tf = fst tf' ->
    Controller.currentPwmValue (snd tf) = Controller.currentPwmValue (snd tf') ->
    padded FAN_SPEED_MIN n (Controller.pwm_writes (snd tf')) (Controller.pwm_writes (snd tf)) ->
    Controller.fanController (fst tf) = true ->
    fan_settled tf ->
    let r := fold_left controller_on evs tf in
    let r' := fold_left controller_on (filter (fun ev => negb (is_pass ev)) evs) tf' in
    fst r = fst r' /\
    Controller.currentPwmValue (snd r) = Controller.currentPwmValue (snd r') /\
    (exists m, m <= n + passes evs /\
               padded FAN_SPEED_MIN m (Controller.pwm_writes (snd r'))
                      (Controller.pwm_writes (snd r))) /\
    fan_settled r.
Proof.
  induction evs as [|ev evs IH]; intros [ts fc] [ts' fc'] n Hts Hcur Hpad Hlinked Hset;
    cbn [fst snd] in *.
  - cbn [fold_left filter fst snd]. repeat split; auto. exists n. split; [lia | exact Hpad].
  - subst ts'.
    assert (Hshift : forall k : nat, passes (ev :: evs) = (if is_pass ev then 1 else 0) + passes evs)
      by (intros _; unfold passes; cbn [filter]; destruct (is_pass ev); reflexivity).
    destruct ev as [d line now|d|]; cbn [filter is_pass negb fold_left controller_on fst snd].
    + destruct (processSerialResponse_frame fc fc' ts d line now Hcur)
        as (E1 & w & W1 & W2 & E2).
      destruct (settled_line ts fc d line now Hlinked Hset) as [S1 S2].
      destruct (Controller.processSerialResponse ts fc d line now) as [t1 f1].
      destruct (Controller.processSerialResponse ts fc' d line now) as [t2 f2].
      cbn [fst snd] in *.
      destruct (IH (t1, f1) (t2, f2) n) as (A & B & (m & Hm & C) & D); auto.
      { cbn [fst snd]. rewrite W1, W2. now apply padded_app_same. }
      repeat split; auto. exists m. split; [|exact C].
      rewrite (Hshift 0). cbn [is_pass]. lia.
    + destruct (handleMissedPoll_frame fc fc' ts d Hcur) as (E1 & w & W1 & W2 & E2).
      destruct (settled_missed ts fc d Hlinked Hset) as [S1 S2].
      destruct (Controller.handleMissedPoll ts fc d) as [t1 f1].
      destruct (Controller.handleMissedPoll ts fc' d) as [t2 f2].
      cbn [fst snd] in *.
      destruct (IH (t1, f1) (t2, f2) n) as (A & B & (m & Hm & C) & D); auto.
      { cbn [fst snd]. rewrite W1, W2. now apply padded_app_same. }
      repeat split; auto. exists m. split; [|exact C].
      rewrite (Hshift 0). cbn [is_pass]. lia.
    + destruct (settled_pass ts fc Hset) as [P1 P2].
      destruct (IH (ts, Controller.updateFanSpeed fc ts) (ts, fc')
                   (if Controller.hasTemperatureData ts then n else S n))
        as (A & B & (m & Hm & C) & D); cbn [fst snd]; auto.
      { congruence. }
      { rewrite P2. destruct (Controller.hasTemperatureData ts).
        - now rewrite app_nil_r.
        - now apply padded_extra_end. }
      { apply settled_after_update. reflexivity. }
      repeat split; auto. exists m. split; [|exact C].
      rewrite (Hshift 0). cbn [is_pass]. destruct (Controller.hasTemperatureData ts); lia.
Qed.

(** X16.  The modular firmware, with the fan controller linked to the
    sensor, and the single-file sketch, along any sequence of completed
    lines and missed polls from their four devices and of passes of
    [loop]: after it the two tables hold the same readings, times, flags
    and counters, and the fan holds the same value.  The values written to
    the fan pin are the same, in the same order, but for the call of
    [updateFanSpeed] that [loop] of the modular firmware makes on every
    pass and the sketch does not have: that call never changes the value,
    and it writes the floor once more when, and only when, no reading is
    held.  So the writes of the modular firmware are those of the sketch
    with further writes of the floor among them, at most one per pass, and
    they are the same writes when there is no pass. *)
Theorem firmware_versions_agree (evs : list device_event) :
  Forall event_in_range evs ->
  let tf := fold_left controller_on evs
                      (Controller.initial_sensor true, Controller.initial_fan) in
  let g := fold_left sketch_on evs Sketch.initial_globals in
  same_readings tf g /\
  (exists n, n <= passes evs /\
             padded FAN_SPEED_MIN n (Sketch.pwm_writes g) (Controller.pwm_writes (snd tf))) /\
  (passes evs = 0 -> Sketch.pwm_writes g = Controller.pwm_writes (snd tf)) /\
  (let tf' := controller_on tf LoopPass in
   fst tf' = fst tf /\
   Controller.currentPwmValue (snd tf') = Controller.currentPwmValue (snd tf) /\
   Controller.pwm_writes (snd tf')
   = Controller.pwm_writes (snd tf)
     ++ (if Controller.hasTemperatureData (fst tf) then [] else [FAN_SPEED_MIN])).
Proof.
  intros Hall. cbn zeta.
  set (init := (Controller.initial_sensor true, Controller.initial_fan)).
  assert (H0 : same_tables init Sketch.initial_globals).
  { unfold same_tables, init. cbn. repeat split; auto. repeat constructor. }
  pose proof (handlers_agree evs Hall init Sketch.initial_globals H0) as Hh.
  rewrite <- sketch_ignores_passes in Hh.
  assert (Hset0 : fan_settled init) by reflexivity.
  destruct (passes_pad evs init init 0 eq_refl eq_refl (padded_refl _ _) eq_refl Hset0)
    as (A & B & (m & Hm & C) & D).
  cbv zeta in A, B, C, D.
  set (tf := fold_left controller_on evs init) in *.
  set (tf' := fold_left controller_on (filter (fun ev => negb (is_pass ev)) evs) init) in *.
  set (g := fold_left sketch_on evs Sketch.initial_globals) in *.
  destruct Hh as (R1 & R2 & R3 & R4 & R5 & R6 & R7 & R8 & R9).
  assert (Hpad : padded FAN_SPEED_MIN m (Sketch.pwm_writes g) (Controller.pwm_writes (snd tf)))
    by (rewrite R7; exact C).
  split; [|split; [|split]].
  - unfold same_readings. rewrite A, B. repeat split; assumption.
  - exists m. split; [lia | exact Hpad].
  - intros Hz. eapply padded_zero; [exact Hpad | lia].
  - destruct tf as [ts fc]. cbn [controller_on fst snd].
    destruct (settled_pass ts fc D) as [P1 P2]. auto.
Qed.

(** A pass before any reading, a line with readings, a pass, a missed
    poll. *)
Lemma firmware_versions_agree_witness :
  let evs := [LoopPass; GotLine 0 "CPU:42.50|NVME:39.10" 1000; LoopPass; MissedPoll 1] in
  let tf := fold_left controller_on evs
                      (Controller.initial_sensor true, Controller.initial_fan) in
  let g := fold_left sketch_on evs Sketch.initial_globals in
  same_readings tf g /\
  (exists n, n <= passes evs /\
             padded FAN_SPEED_MIN n (Sketch.pwm_writes g) (Controller.pwm_writes (snd tf))) /\
  (passes evs = 0 -> Sketch.pwm_writes g = Controller.pwm_writes (snd tf)) /\
  (let tf' := controller_on tf LoopPass in
   fst tf' = fst tf /\
   Controller.currentPwmValue (snd tf') = Controller.currentPwmValue (snd tf) /\
   Controller.pwm_writes (snd tf')
   = Controller.pwm_writes (snd tf)
     ++ (if Controller.hasTemperatureData (fst tf) then [] else [FAN_SPEED_MIN])).
Proof.
  intros evs.
  apply (firmware_versions_agree evs). repeat constructor; cbn; lia.
Defined.

(** ** Decimal digits: what [printf] writes, [atof] reads back *)

Lemma read_digits_stop (rest : list ascii) (acc : Z) (k : nat) :
  is_digit (hd NUL rest) = false ->
  read_digits rest acc k = (acc, k, rest).
Proof.
  destruct rest as [|c t]; [reflexivity|]. cbn [hd read_digits]. now intros ->.
Qed.

Lemma read_digits_acc (d : Decimal.uint) :
  forall (acc : positive) (k : nat) (rest : list ascii),
    is_digit (hd NUL rest) = false ->
    read_digits (list_ascii_of_string (NilEmpty.string_of_uint d) ++ rest) (Z.pos acc) k
    = (Z.pos (Pos.of_uint_acc d acc), k + Decimal.nb_digits d, rest).
Proof.
  induction d as [|d IH|d IH|d IH|d IH|d IH|d IH|d IH|d IH|d IH|d IH];
    intros acc k rest Hrest;
    cbn [NilEmpty.string_of_uint list_ascii_of_string app Decimal.nb_digits Pos.of_uint_acc];
    [rewrite Nat.add_0_r; now apply read_digits_stop|..];
    cbn [read_digits]; change (is_digit _) with true; cbv iota;
    match goal with
    | |- context [digit_val ?c] =>
        let v := eval vm_compute in (digit_val c) in change (digit_val c) with v
    end;
    match goal with
    | |- read_digits _ ?a _ = (Z.pos (Pos.of_uint_acc _ ?b), _, _) =>
        replace a with (Z.pos b) by lia
    end;
    rewrite IH by exact Hrest; f_equal; f_equal; lia.
Qed.

Lemma read_digits_zero (d : Decimal.uint) :
  forall (k : nat) (rest : list ascii),
    is_digit (hd NUL rest) = false ->
    read_digits (list_ascii_of_string (NilEmpty.string_of_uint d) ++ rest) 0%Z k
    = (Z.of_N (Pos.of_uint d), k + Decimal.nb_digits d, rest).
Proof.
  induction d as [|d IH|d IH|d IH|d IH|d IH|d IH|d IH|d IH|d IH|d IH];
    intros k rest Hrest;
    cbn [NilEmpty.string_of_uint list_ascii_of_string app Decimal.nb_digits Pos.of_uint];
    [rewrite Nat.add_0_r; now apply read_digits_stop
    |cbn [read_digits]; change (is_digit _) with true; cbv iota;
     change (0 * 10 + digit_val "0")%Z with 0%Z;
     rewrite IH by exact Hrest; f_equal; f_equal; lia
    |..];
    cbn [read_digits]; change (is_digit _) with true; cbv iota;
    match goal with
    | |- context [digit_val ?c] =>
        let v := eval vm_compute in (digit_val c) in change (digit_val c) with v
    end;
    match goal with
    | |- read_digits _ ?a _ = (Z.of_N (N.pos (Pos.of_uint_acc _ ?b)), _, _) =>
        change a with (Z.pos b)
    end;
    rewrite read_digits_acc by exact Hrest; f_equal; f_equal; lia.
Qed.

Lemma uint_digits (d : Decimal.uint) :
  Forall (fun c => is_digit c = true) (list_ascii_of_string (NilEmpty.string_of_uint d)).
Proof.
  induction d; cbn [NilEmpty.string_of_uint list_ascii_of_string];
    constructor; auto.
Qed.

Lemma decimal_nonnil (n : N) : N.to_uint n <> Decimal.Nil.
Proof.
  destruct n as [|p]; cbn; [discriminate | apply DecimalPos.Unsigned.to_uint_nonnil].
Qed.

Lemma decimal_unfold (n : Z) :
  decimal n = NilEmpty.string_of_uint (N.to_uint (Z.to_N n)).
Proof.
  unfold decimal, NilZero.string_of_uint.
  pose proof (decimal_nonnil (Z.to_N n)).
  destruct (N.to_uint (Z.to_N n)); congruence.
Qed.

(** The digits [printf] writes for a natural number are read back as that
    number. *)
Lemma read_digits_decimal (n : Z) (k : nat) (rest : list ascii) :
  (0 <= n)%Z -> is_digit (hd NUL rest) = false ->
  exists len,
    0 < len /\ len = String.length (decimal n) /\
    read_digits (list_ascii_of_string (decimal n) ++ rest) 0%Z k = (n, k + len, rest).
Proof.
  intros Hn Hrest. rewrite decimal_unfold.
  exists (Decimal.nb_digits (N.to_uint (Z.to_N n))). split; [|split].
  - pose proof (decimal_nonnil (Z.to_N n)).
    destruct (N.to_uint (Z.to_N n)); cbn; try lia. congruence.
  - generalize (N.to_uint (Z.to_N n)). intros d.
    induction d; cbn [NilEmpty.string_of_uint String.length Decimal.nb_digits]; congruence.
  - rewrite read_digits_zero by exact Hrest.
    change (Pos.of_uint (N.to_uint (Z.to_N n))) with (N.of_uint (N.to_uint (Z.to_N n))).
    rewrite DecimalN.Unsigned.of_to. now rewrite Z2N.id.
Qed.

Lemma decimal_digits (n : Z) :
  Forall (fun c => is_digit c = true) (list_ascii_of_string (decimal n)).
Proof. rewrite decimal_unfold. apply uint_digits. Qed.

(** ** The wire: from [temperature_format_response] to the table of the controller *)

Lemma round_half_even_error (x : Q) :
  (Qabs (inject_Z (round_half_even x) - x) <= 1 # 2)%Q.
Proof.
  unfold round_half_even.
  pose proof (Qfloor_le x) as Hlo. pose proof (Qlt_floor x) as Hhi.
  rewrite inject_Z_plus in Hhi. change (inject_Z 1) with 1%Q in Hhi.
  apply Qabs_Qle_condition.
  destruct (x - inject_Z (Qfloor x) ?= 1 # 2)%Q eqn:E.
  - apply Qeq_alt in E.
    destruct (Z.even (Qfloor x)); [|rewrite inject_Z_plus; change (inject_Z 1) with 1%Q];
      split; Lqa.lra.
  - apply Qlt_alt in E. split; Lqa.lra.
  - apply Qgt_alt in E. rewrite inject_Z_plus; change (inject_Z 1) with 1%Q. split; Lqa.lra.
Qed.

Lemma float32_error (q : Q) :
  (Qabs q < 256)%Q -> (Qabs (float32 q - q) <= 1 # 131072)%Q.
Proof.
  intros Hq. unfold float32.
  destruct (Qeq_bool q 0) eqn:E0.
  - apply Qeq_bool_eq in E0. rewrite E0. now vm_compute.
  - set (a := Qabs q) in *.
    set (e0 := (Z.log2 (Qnum a) - Z.log2 (Z.pos (Qden a)) - 23)%Z).
    set (e1 := if Qle_bool _ _ then e0 else (e0 - 1)%Z).
    set (e := Z.max e1 (-149)).
    assert (Ha : (0 <= a)%Q) by apply Qabs_nonneg.
    assert (He1 : (e1 <= -16)%Z).
    { subst e1. destruct (Qle_bool _ _) eqn:T.
      - apply Qle_bool_iff in T.
        destruct (Z_le_gt_dec e0 (-16)) as [|Hgt]; [assumption|exfalso].
        assert (Hp : (Qpower 2 (- e0) <= Qpower 2 15)%Q)
          by (apply Qpower.Qpower_le_compat_l; [lia | discriminate]).
        assert (Hp0 : (0 < Qpower 2 (- e0))%Q) by (now apply Qpower.Qpower_0_lt).
        change (inject_Z (2 ^ 23)) with (8388608 # 1)%Q in T.
        change (Qpower 2 15) with (32768 # 1)%Q in Hp.
        Lqa.nra.
      - assert (Hn : (Qnum a < 256 * Z.pos (Qden a))%Z).
        { unfold Qlt in Hq. cbn in Hq. lia. }
        assert (Z.log2 (Qnum a) <= Z.log2 (2 ^ 8 * Z.pos (Qden a)))%Z
          by (apply Z.log2_le_mono; lia).
        rewrite (Z.mul_comm (2 ^ 8)), Z.log2_mul_pow2 in H by lia. lia. }
    assert (He : (e <= -16)%Z) by lia.
    set (p := Qpower 2 e). set (p' := Qpower 2 (- e)).
    assert (Hpp : (p * p' == 1)%Q) by apply pow2_split.
    assert (Hp0 : (0 < p)%Q) by (now apply Qpower.Qpower_0_lt).
    assert (Hp16 : (p <= 1 # 65536)%Q).
    { change (1 # 65536)%Q with (Qpower 2 (-16)).
      apply Qpower.Qpower_le_compat_l; [lia | discriminate]. }
    pose proof (round_half_even_error (a * p')) as Hr.
    set (m := round_half_even (a * p')) in *.
    apply Qabs_Qle_condition in Hr. destruct Hr as [Hr1 Hr2].
    rewrite Qred_correct.
    apply Qabs_Qle_condition.
    assert (Ham : (a == a * p' * p)%Q) by (rewrite <- Qmult_assoc, (Qmult_comm p'), Hpp; ring).
    destruct (Qlt_le_dec q 0) as [Hneg|Hpos].
    + assert (Hqa : (q == - a)%Q).
      { subst a. rewrite Qabs_neg by Lqa.lra. ring. }
      rewrite inject_Z_opp. rewrite Hqa. split; Lqa.nra.
    + assert (Hqa : (q == a)%Q).
      { subst a. now rewrite Qabs_pos. }
      rewrite Hqa. split; Lqa.nra.
Qed.

Lemma wire_char_plain (c : ascii) :
  wire_char c = true ->
  c <> "|"%char /\ Ascii.eqb c LF = false /\ Ascii.eqb c CR = false /\ isspace c = false.
Proof.
  destruct c as [[] [] [] [] [] [] [] []]; vm_compute; intros H;
    try discriminate H; repeat split; discriminate.
Qed.

Lemma digit_wire (c : ascii) : is_digit c = true -> wire_char c = true.
Proof. unfold wire_char. now intros ->. Qed.

Lemma chars_app (s t : string) :
  list_ascii_of_string (s ++ t)%string = list_ascii_of_string s ++ list_ascii_of_string t.
Proof. induction s as [|c s IH]; cbn; [reflexivity | now rewrite IH]. Qed.

Lemma chars_length (s : string) : length (list_ascii_of_string s) = String.length s.
Proof. induction s as [|c s IH]; cbn; [reflexivity | now rewrite IH]. Qed.

Lemma append_length (s t : string) :
  String.length (s ++ t)%string = String.length s + String.length t.
Proof. induction s as [|c s IH]; cbn; [reflexivity | now rewrite IH]. Qed.

Lemma substring_front (s t : string) : substring 0 (String.length s) (s ++ t)%string = s.
Proof. induction s as [|c s IH]; cbn; [now destruct t | now rewrite IH]. Qed.

Lemma substring_all (s : string) : substring 0 (String.length s) s = s.
Proof. induction s as [|c s IH]; cbn; [reflexivity | now rewrite IH]. Qed.

Lemma substring_within (m : nat) (s : string) :
  String.length s <= m -> substring 0 m s = s.
Proof.
  revert m. induction s as [|c s IH]; intros [|m] H; cbn in *; try reflexivity; try lia.
  rewrite IH by lia. reflexivity.
Qed.

Lemma substring_skip (s t : string) (m : nat) :
  substring (String.length s) m (s ++ t)%string = substring 0 m t.
Proof. induction s as [|c s IH]; cbn; [reflexivity | exact IH]. Qed.

Lemma index_skip (p0 : ascii) (p' u s : string) :
  Forall (fun c => c <> p0) (list_ascii_of_string u) ->
  String.prefix (String p0 p') s = true ->
  String.index 0 (String p0 p') (u ++ s)%string = Some (String.length u).
Proof.
  intros Hu Hs. induction u as [|c u IH].
  - cbn [String.append String.length]. destruct s as [|b s']; [discriminate Hs|].
    cbn [String.index]. now rewrite Hs.
  - cbn [list_ascii_of_string] in Hu. inversion Hu as [|? ? Hc Hu']; subst.
    cbn [String.append String.length String.index].
    replace (String.prefix (String p0 p') (String c (u ++ s)%string)) with false.
    + now rewrite IH.
    + cbn [String.prefix]. destruct (ascii_dec p0 c); congruence.
Qed.

Lemma trim_plain (c : ascii) (u : list ascii) (x : ascii) (s : string) :
  list_ascii_of_string s = c :: u ++ [x] ->
  isspace c = false -> isspace x = false -> trim s = s.
Proof.
  intros Hs Hc Hx. unfold trim. rewrite Hs. cbn [dropwhile]. rewrite Hc.
  change (c :: u ++ [x]) with ((c :: u) ++ [x]).
  rewrite rev_app_distr. change (rev [x] ++ rev (c :: u)) with (x :: rev (c :: u)).
  cbn [dropwhile]. rewrite Hx.
  change (rev (x :: rev (c :: u))) with (rev (rev (c :: u)) ++ [x]).
  rewrite rev_involutive.
  change ((c :: u) ++ [x]) with (c :: u ++ [x]). rewrite <- Hs.
  apply string_of_list_ascii_of_string.
Qed.

Lemma prefix_app (p s : string) : String.prefix p (p ++ s)%string = true.
Proof.
  induction p as [|c p IH]; cbn [String.append String.prefix].
  - now destruct s.
  - destruct (ascii_dec c c); [exact IH | congruence].
Qed.

Lemma append_assoc (s t u : string) : ((s ++ t) ++ u = s ++ t ++ u)%string.
Proof. induction s as [|c s IH]; cbn; [reflexivity | now rewrite IH]. Qed.

Lemma receive_line (ts : Controller.TemperatureSensor) (fc : Controller.FanController)
    (d : Z) (now : Z) (s : string) :
  forall acc rest,
    Forall (fun c => Ascii.eqb c LF = false /\ Ascii.eqb c CR = false)
           (list_ascii_of_string s) ->
    Controller.receive ts fc d acc (list_ascii_of_string s ++ LF :: rest) now
    = let '(ts', fc') := Controller.processSerialResponse ts fc d (acc ++ s)%string now in
      Controller.receive ts' fc' d "" rest now.
Proof.
  induction s as [|c s IH]; intros acc rest Hs.
  - cbn [list_ascii_of_string app Controller.receive].
    change (Ascii.eqb LF LF) with true. cbv iota.
    replace (acc ++ "")%string with acc; [reflexivity|].
    clear. induction acc as [|a acc IH]; cbn; [reflexivity | now rewrite <- IH].
  - cbn [list_ascii_of_string] in Hs. inversion Hs as [|? ? [H1 H2] Hs']; subst.
    cbn [list_ascii_of_string app Controller.receive].
    rewrite H1, H2. cbn [negb]. rewrite IH by assumption.
    replace ((acc ++ String c "") ++ s)%string with (acc ++ String c s)%string; [reflexivity|].
    clear. induction acc as [|a acc IH]; cbn; [reflexivity | now rewrite IH].
Qed.

Lemma wire_line_parsed (ts : Controller.TemperatureSensor) (fc : Controller.FanController)
    (d now : Z) (a b : string) (u : list ascii) (x : ascii) :
  (0 <= d < NUM_DEVICES)%Z ->
  Forall (fun c => wire_char c = true) (list_ascii_of_string a) ->
  list_ascii_of_string b = u ++ [x] ->
  Forall (fun c => wire_char c = true) (u ++ [x]) ->
  Controller.receive ts fc d ""
    (list_ascii_of_string ("CPU:" ++ a ++ "|NVME:" ++ b ++ String LF "")%string) now
  = let ts1 :=
      Controller.mkTS
        (aset (Controller.deviceTemps ts) d
           (Controller.mkTD (toFloat a) (toFloat b) true now))
        (aset (Controller.deviceConnected ts) d true)
        (aset (Controller.missedPolls ts) d 0%Z)
        (Controller.fanController ts) in
    (Controller.resetMissedPolls ts1 d,
     if Controller.fanController ts then Controller.updateFanSpeed fc ts1 else fc,
     ""%string).
Proof.
  intros Hd Ha Hb Hbw.
  set (data := ("CPU:" ++ a ++ "|NVME:" ++ b)%string).
  assert (Hline : list_ascii_of_string ("CPU:" ++ a ++ "|NVME:" ++ b ++ String LF "")%string
                  = list_ascii_of_string data ++ [LF]).
  { subst data. rewrite !chars_app, <- !app_assoc. reflexivity. }
  rewrite Hline.
  assert (Hdata : list_ascii_of_string data
                  = "C"%char :: (list_ascii_of_string "PU:" ++ list_ascii_of_string a
                       ++ list_ascii_of_string "|NVME:" ++ u) ++ [x]).
  { subst data. rewrite !chars_app, Hb, <- !app_assoc. reflexivity. }
  rewrite receive_line.
  2:{ rewrite Hdata. constructor; [split; reflexivity|].
      rewrite <- !app_assoc. cbn [list_ascii_of_string app].
      repeat (constructor; [split; reflexivity|]).
      apply Forall_app. split.
      - eapply Forall_impl; [|exact Ha]. intros c Hc.
        now destruct (wire_char_plain c Hc) as (_ & ? & ? & _).
      - cbn [list_ascii_of_string app]. repeat (constructor; [split; reflexivity|]).
        eapply Forall_impl; [|exact Hbw]. intros c Hc.
        now destruct (wire_char_plain c Hc) as (_ & ? & ? & _). }
  change ("" ++ data)%string with data.
  assert (Hx : isspace x = false).
  { apply Forall_app in Hbw. destruct Hbw as [_ Hx]. inversion Hx; subst.
    now destruct (wire_char_plain x H1) as (_ & _ & _ & ?). }
  assert (Htrim : trim data = data) by (eapply trim_plain; [exact Hdata | reflexivity | exact Hx]).
  assert (Hstart : String.prefix "CPU:" data = true) by apply prefix_app.
  assert (Hcpu : indexOf data "CPU:" = 0%Z).
  { unfold indexOf. subst data. cbn [String.append String.index] in *. now rewrite Hstart. }
  assert (Hnvme : indexOf data "|NVME:" = (4 + Z.of_nat (String.length a))%Z).
  { unfold indexOf.
    subst data.
    replace ("CPU:" ++ a ++ "|NVME:" ++ b)%string with (("CPU:" ++ a) ++ ("|NVME:" ++ b))%string
      by reflexivity.
    rewrite index_skip.
    - cbn [String.append String.length]. f_equal. lia.
    - cbn [String.append list_ascii_of_string].
      repeat (constructor; [discriminate|]).
      eapply Forall_impl; [|exact Ha]. intros c Hc.
      now destruct (wire_char_plain c Hc) as (? & _).
    - apply prefix_app. }
  unfold Controller.processSerialResponse, startsWith. rewrite Htrim, Hstart, Hnvme.
  replace (4 + Z.of_nat (String.length a) =? -1)%Z with false by (symmetry; apply Z.eqb_neq; lia).
  cbn [andb negb].
  unfold Controller.parseTemperatureData. rewrite Hcpu, Hnvme.
  replace ((d <? 0)%Z || (d >=? NUM_DEVICES)%Z) with false
    by (symmetry; apply orb_false_iff; unfold NUM_DEVICES in *; split; lia).
  replace (4 + Z.of_nat (String.length a) =? -1)%Z with false by (symmetry; apply Z.eqb_neq; lia).
  cbn [andb negb Z.eqb].
  assert (Hsa : substring2 data (0 + 4) (4 + Z.of_nat (String.length a)) = a).
  { unfold substring2.
    replace (0 + 4 >? 4 + Z.of_nat (String.length a))%Z with false by (symmetry; lia).
    replace (Z.to_nat (4 + Z.of_nat (String.length a)) - Z.to_nat (0 + 4))
      with (String.length a) by lia.
    change (Z.to_nat (0 + 4)) with (String.length "CPU:").
    subst data. rewrite substring_skip. apply substring_front. }
  assert (Hsb : substring1 data (4 + Z.of_nat (String.length a) + 6) = b).
  { unfold substring1. subst data.
    replace ("CPU:" ++ a ++ "|NVME:" ++ b)%string with (("CPU:" ++ a ++ "|NVME:") ++ b)%string
      by (now rewrite !append_assoc).
    replace (Z.to_nat (4 + Z.of_nat (String.length a) + 6))
      with (String.length ("CPU:" ++ a ++ "|NVME:")%string)
      by (rewrite !append_length; cbn [String.length]; lia).
    rewrite substring_skip, append_length.
    replace (String.length ("CPU:" ++ a ++ "|NVME:") + String.length b
             - String.length ("CPU:" ++ a ++ "|NVME:")) with (String.length b) by lia.
    apply substring_all. }
  rewrite Hsa, Hsb. reflexivity.
Qed.

Lemma digit_plain (c : ascii) :
  is_digit c = true ->
  isspace c = false /\ Ascii.eqb c "-" = false /\ Ascii.eqb c "+" = false.
Proof.
  destruct c as [[] [] [] [] [] [] [] []]; vm_compute; intros H;
    try discriminate H; repeat split.
Qed.

Lemma digit_read (v : Z) :
  (0 <= v <= 9)%Z -> is_digit (digit v) = true /\ digit_val (digit v) = v.
Proof.
  intros H.
  assert (C : (v = 0 \/ v = 1 \/ v = 2 \/ v = 3 \/ v = 4 \/ v = 5 \/ v = 6 \/ v = 7
               \/ v = 8 \/ v = 9)%Z) by lia.
  repeat (destruct C as [-> | C]; [now vm_compute|]). subst v. now vm_compute.
Qed.

Lemma round_half_even_bounds (x : Q) (k : Z) :
  (0 <= x <= inject_Z k)%Q -> (0 <= round_half_even x <= k)%Z.
Proof.
  intros [H0 Hk]. pose proof (round_half_even_error x) as Hr.
  apply Qabs_Qle_condition in Hr. destruct Hr as [Hr1 Hr2].
  set (r := round_half_even x) in *. split.
  - destruct (Z_le_gt_dec 0 r) as [|Hgt]; [assumption|exfalso].
    assert (H : (inject_Z r <= inject_Z (-1))%Q) by (rewrite <- Zle_Qle; lia).
    change (inject_Z (-1)) with (-1 # 1)%Q in H. Lqa.lra.
  - destruct (Z_le_gt_dec r k) as [|Hgt]; [assumption|exfalso].
    assert (H : (inject_Z (k + 1) <= inject_Z r)%Q) by (rewrite <- Zle_Qle; lia).
    rewrite inject_Z_plus in H. change (inject_Z 1) with 1%Q in H. Lqa.lra.
Qed.

(** The characters [printf("%.2f")] writes: a sign for a negative value,
    the whole part, a point and two digits. *)
Lemma fmt_2f_chars (q : Q) :
  list_ascii_of_string (fmt_2f q)
  = (if Qlt_le_dec q 0 then ["-"%char] else [])
    ++ list_ascii_of_string (decimal (round_half_even (Qabs q * 100) / 100))
    ++ ["."%char; digit ((round_half_even (Qabs q * 100) / 10) mod 10);
        digit (round_half_even (Qabs q * 100) mod 10)].
Proof.
  unfold fmt_2f. rewrite !chars_app.
  destruct (Qlt_le_dec q 0); reflexivity.
Qed.

Lemma atof_fmt_2f (q : Q) :
  atof (list_ascii_of_string (fmt_2f q))
  = ((if Qlt_le_dec q 0 then - round_half_even (Qabs q * 100)
      else round_half_even (Qabs q * 100)) # 100)%Q.
Proof.
  rewrite fmt_2f_chars.
  set (n := round_half_even (Qabs q * 100)).
  assert (Hn : (0 <= n)%Z).
  { subst n. pose proof (round_half_even_error (Qabs q * 100)) as Hr.
    apply Qabs_Qle_condition in Hr. destruct Hr as [Hr1 Hr2].
    pose proof (Qabs_nonneg q) as Hq.
    destruct (Z_le_gt_dec 0 (round_half_even (Qabs q * 100))) as [|Hgt]; [assumption|exfalso].
    assert (H : (inject_Z (round_half_even (Qabs q * 100)) <= inject_Z (-1))%Q)
      by (rewrite <- Zle_Qle; lia).
    change (inject_Z (-1)) with (-1 # 1)%Q in H. Lqa.lra. }
  set (tail := ["."%char; digit ((n / 10) mod 10); digit (n mod 10)]).
  assert (Hip : (0 <= n / 100)%Z) by (apply Z.div_pos; lia).
  destruct (read_digits_decimal (n / 100) 0 tail Hip eq_refl) as (len & Hlen & _ & Hrd).
  destruct (digit_read ((n / 10) mod 10)) as [D1 V1]; [pose proof (Z.mod_pos_bound (n / 10) 10); lia|].
  destruct (digit_read (n mod 10)) as [D2 V2]; [pose proof (Z.mod_pos_bound n 10); lia|].
  assert (Hfrac : read_digits [digit ((n / 10) mod 10); digit (n mod 10)] (n / 100) 0
                  = (n, 2, [])).
  { cbn [read_digits]. rewrite D1, D2, V1, V2. repeat f_equal.
    pose proof (Z.div_mod n 10 ltac:(lia)). pose proof (Z.div_mod (n / 10) 10 ltac:(lia)).
    rewrite Z.div_div in H0 by lia. change (10 * 10)%Z with 100%Z in H0. lia. }
  assert (Hfirst : exists c t, list_ascii_of_string (decimal (n / 100)) = c :: t
                               /\ is_digit c = true).
  { pose proof (decimal_digits (n / 100)) as Hall.
    destruct (list_ascii_of_string (decimal (n / 100))) as [|c t] eqn:E.
    - exfalso. cbn [app] in Hrd. subst tail. cbn [read_digits] in Hrd.
      change (is_digit ".") with false in Hrd. inversion Hrd. lia.
    - inversion Hall; subst. eauto. }
  destruct Hfirst as (c & t & Hct & Hc).
  destruct (digit_plain c Hc) as (Hsp & Hminus & Hplus).
  assert (Hval : forall neg : bool,
             (let '(ip, ni, l2) :=
                read_digits (list_ascii_of_string (decimal (n / 100)) ++ tail) 0%Z 0 in
              let '(m, nf, l3) :=
                match l2 with
                | c :: t => if Ascii.eqb c "."%char then read_digits t ip 0 else (ip, 0, l2)
                | [] => (ip, 0, l2)
                end in
              if ni + nf =? 0 then 0%Q else
              let ex :=
                match l3 with
                | c :: t =>
                    if Ascii.eqb c "e"%char || Ascii.eqb c "E"%char then
                      let '(eneg, t') := read_sign t in
                      let '(ev, ne, _) := read_digits t' 0%Z 0 in
                      if ne =? 0 then 0%Z else if eneg then (- ev)%Z else ev
                    else 0%Z
                | [] => 0%Z
                end in
              (inject_Z (if neg then - m else m) * Qpower 10 (ex - Z.of_nat nf))%Q)
             = ((if neg then - n else n) # 100)%Q).
  { intros neg. rewrite Hrd. subst tail. cbv iota beta.
    change (Ascii.eqb "." ".") with true. cbv iota. rewrite Hfrac.
    replace (0 + len + 2 =? 0) with false by (symmetry; apply Nat.eqb_neq; lia).
    change (Qpower 10 (0 - Z.of_nat 2)) with (1 # 100)%Q.
    unfold Qmult, inject_Z. cbn [Qnum Qden]. rewrite Z.mul_1_r. reflexivity. }
  unfold atof.
  destruct (Qlt_le_dec q 0).
  - cbn [app dropwhile]. change (isspace "-") with false. cbv iota.
    cbn [read_sign]. change (Ascii.eqb "-" "-") with true. cbv iota.
    apply (Hval true).
  - cbn [app]. rewrite Hct in *. cbn [app dropwhile read_sign]. rewrite Hsp.
    cbn [read_sign]. rewrite Hminus, Hplus. apply (Hval false).
Qed.

Lemma decimal_short (n : Z) :
  (0 <= n < 1000)%Z -> String.length (decimal n) <= 3.
Proof.
  intros H.
  assert (A : forallb (fun k => String.length (decimal (Z.of_nat k)) <=? 3) (seq 0 1000) = true)
    by (vm_compute; reflexivity).
  rewrite forallb_forall in A. specialize (A (Z.to_nat n)).
  rewrite Z2Nat.id in A by lia. apply Nat.leb_le, A, in_seq. lia.
Qed.

Lemma hundredths (z : Z) : ((z # 100) == inject_Z z * (1 # 100))%Q.
Proof. unfold Qeq, Qmult, inject_Z. cbn [Qnum Qden]. lia. Qed.

(** A reading printed with two decimals and read back as a [float]. *)
Lemma toFloat_fmt_2f (q : Q) :
  (Qabs q <= 255)%Q ->
  (Qabs (toFloat (fmt_2f q) - q) <= (5 # 1000) + (1 # 131072))%Q.
Proof.
  intros Hq. unfold toFloat. rewrite atof_fmt_2f.
  pose proof (round_half_even_error (Qabs q * 100)) as Hr.
  assert (Hn : (0 <= round_half_even (Qabs q * 100) <= 25500)%Z).
  { apply round_half_even_bounds. pose proof (Qabs_nonneg q).
    change (inject_Z 25500) with (25500 # 1)%Q. split; Lqa.lra. }
  set (n := round_half_even (Qabs q * 100)) in *.
  apply Qabs_Qle_condition in Hr. destruct Hr as [Hr1 Hr2].
  assert (Hn' : (0 <= inject_Z n <= 25500)%Q).
  { change 0%Q with (inject_Z 0). change (25500 : Q) with (inject_Z 25500).
    rewrite <- !Zle_Qle. exact Hn. }
  set (s := if Qlt_le_dec q 0 then (- n)%Z else n).
  assert (Hs : ((s # 100) == (if Qlt_le_dec q 0 then - inject_Z n else inject_Z n) * (1 # 100))%Q).
  { rewrite hundredths. subst s. destruct (Qlt_le_dec q 0); [rewrite inject_Z_opp|]; reflexivity. }
  set (x := (s # 100)%Q) in *.
  assert (Hf : (Qabs (float32 x - x) <= 1 # 131072)%Q).
  { apply float32_error. apply Qabs_Qlt_condition.
    destruct (Qlt_le_dec q 0); split; Lqa.lra. }
  apply Qabs_Qle_condition in Hf. destruct Hf as [Hf1 Hf2].
  apply Qabs_Qle_condition.
  destruct (Qlt_le_dec q 0) as [Hneg|Hpos].
  - assert (Ha : (Qabs q == - q)%Q) by (apply Qabs_neg; Lqa.lra).
    rewrite Ha in Hr1, Hr2. split; Lqa.lra.
  - assert (Ha : (Qabs q == q)%Q) by (now apply Qabs_pos).
    rewrite Ha in Hr1, Hr2. split; Lqa.lra.
Qed.

Lemma fmt_2f_wire (q : Q) :
  (Qabs q <= 255)%Q ->
  String.length (fmt_2f q) <= 7 /\
  Forall (fun c => wire_char c = true) (list_ascii_of_string (fmt_2f q)) /\
  exists u x, list_ascii_of_string (fmt_2f q) = u ++ [x].
Proof.
  intros Hq.
  assert (Hn : (0 <= round_half_even (Qabs q * 100) <= 25500)%Z).
  { apply round_half_even_bounds. pose proof (Qabs_nonneg q).
    change (inject_Z 25500) with (25500 # 1)%Q. split; Lqa.lra. }
  rewrite <- chars_length, fmt_2f_chars.
  set (n := round_half_even (Qabs q * 100)) in *.
  destruct (digit_read ((n / 10) mod 10)) as [D1 _]; [pose proof (Z.mod_pos_bound (n / 10) 10); lia|].
  destruct (digit_read (n mod 10)) as [D2 _]; [pose proof (Z.mod_pos_bound n 10); lia|].
  assert (Hip : (0 <= n / 100 < 1000)%Z).
  { split; [apply Z.div_pos; lia|]. apply Z.div_lt_upper_bound; lia. }
  pose proof (decimal_short _ Hip) as Hlen. rewrite <- chars_length in Hlen.
  split; [|split].
  - rewrite !length_app. cbn [length]. destruct (Qlt_le_dec q 0); cbn [length]; lia.
  - apply Forall_app. split; [destruct (Qlt_le_dec q 0); repeat constructor|].
    apply Forall_app. split.
    + eapply Forall_impl; [|apply decimal_digits]. intros c. apply digit_wire.
    + repeat constructor; now apply digit_wire.
  - exists ((if Qlt_le_dec q 0 then ["-"%char] else [])
            ++ list_ascii_of_string (decimal (n / 100))
            ++ ["."%char; digit ((n / 10) mod 10)]), (digit (n mod 10)).
    rewrite <- !app_assoc. reflexivity.
Qed.

(** X17.  A reading survives the wire.  The line that
    [temperature_format_response] writes for two temperatures of at most
    255 degrees either way, taken character by character by the controller
    for a device 0..3, is consumed whole and stored as that device's entry:
    valid, stamped with the time of the call, each temperature less than a
    hundredth of a degree from the value the daemon had (the two decimals
    printed cost at most 0.005, the [float] it is stored in 2^-17).  The
    device is marked connected, its missed polls are cleared, and the fan
    is recomputed when a fan controller is attached. *)
Theorem reading_crosses_the_wire (ts : Controller.TemperatureSensor)
    (fc : Controller.FanController) (d now : Z) (cpu nvme : Q) :
  (0 <= d < NUM_DEVICES)%Z ->
  (Qabs cpu <= 255)%Q -> (Qabs nvme <= 255)%Q ->
  let line := snd (temperature_format_response 64 cpu nvme) in
  let '(ts', fc', pending) :=
    Controller.receive ts fc d "" (list_ascii_of_string line) now in
  exists got,
    Controller.deviceTemps ts' = aset (Controller.deviceTemps ts) d got /\
    Controller.isValid got = true /\
    Controller.lastUpdateTime got = now /\
    (Qabs (Controller.cpuTemp got - cpu) < 1 # 100)%Q /\
    (Qabs (Controller.nvmeTemp got - nvme) < 1 # 100)%Q /\
    Controller.deviceConnected ts' = aset (Controller.deviceConnected ts) d true /\
    Controller.missedPolls ts' = aset (Controller.missedPolls ts) d 0%Z /\
    fc' = (if Controller.fanController ts then Controller.updateFanSpeed fc ts' else fc) /\
    pending = ""%string.
Proof.
  intros Hd Hc Hn line.
  destruct (fmt_2f_wire cpu Hc) as (Hla & Hwa & _).
  destruct (fmt_2f_wire nvme Hn) as (Hlb & Hwb & u & x & Hb).
  assert (Hline : line = ("CPU:" ++ fmt_2f cpu ++ "|NVME:" ++ fmt_2f nvme ++ String LF "")%string).
  { subst line. unfold temperature_format_response, snprintf. cbn [Nat.eqb snd].
    apply substring_within. rewrite !append_length. cbn [String.length]. lia. }
  rewrite Hline.
  rewrite (wire_line_parsed ts fc d now _ _ u x Hd Hwa Hb) by (now rewrite <- Hb).
  cbv zeta.
  set (got := Controller.mkTD (toFloat (fmt_2f cpu)) (toFloat (fmt_2f nvme)) true now).
  set (ts1 := Controller.mkTS _ _ _ _).
  assert (Hreset : Controller.resetMissedPolls ts1 d = ts1).
  { unfold Controller.resetMissedPolls.
    replace ((d >=? 0)%Z && (d <? NUM_DEVICES)%Z) with true
      by (symmetry; apply andb_true_iff; split; lia).
    subst ts1. cbn [Controller.deviceTemps Controller.deviceConnected Controller.missedPolls
                    Controller.fanController].
    unfold aset. now rewrite store_twice. }
  rewrite Hreset. exists got.
  repeat split; try reflexivity; cbn [got Controller.cpuTemp Controller.nvmeTemp];
    (eapply Qle_lt_trans; [now apply toFloat_fmt_2f | reflexivity]).
Qed.

Lemma reading_crosses_the_wire_witness :
  let ts := Controller.initial_sensor true in
  let fc := Controller.initial_fan in
  let line := snd (temperature_format_response 64 (4250 # 100) (- (105 # 100))) in
  let '(ts', fc', pending) :=
    Controller.receive ts fc 2 "" (list_ascii_of_string line) 1000 in
  exists got,
    Controller.deviceTemps ts' = aset (Controller.deviceTemps ts) 2 got /\
    Controller.isValid got = true /\
    Controller.lastUpdateTime got = 1000%Z /\
    (Qabs (Controller.cpuTemp got - (4250 # 100)) < 1 # 100)%Q /\
    (Qabs (Controller.nvmeTemp got - - (105 # 100)) < 1 # 100)%Q /\
    Controller.deviceConnected ts' = aset (Controller.deviceConnected ts) 2 true /\
    Controller.missedPolls ts' = aset (Controller.missedPolls ts) 2 0%Z /\
    fc' = (if Controller.fanController ts then Controller.updateFanSpeed fc ts' else fc) /\
    pending = ""%string.
Proof.
  intros ts fc.
  apply (reading_crosses_the_wire ts fc 2 1000 (4250 # 100) (- (105 # 100))).
  - unfold NUM_DEVICES. lia.
  - now vm_compute.
  - now vm_compute.
Defined.

(** ** config.c *)

Lemma check_required_listing (getenv : Config.environ) :
  Config.check_required_env_vars getenv
  = ((if existsb (Config.is_missing getenv) Config.required then 1 else 0)%Z,
     map Config.not_set (filter (Config.is_missing getenv) Config.required)).
Proof.
  unfold Config.check_required_env_vars, Config.report_missing, Config.required,
    Config.is_missing.
  cbn [existsb filter].
  destruct (getenv Config.ENV_SERIAL_PORT), (getenv Config.ENV_BAUD_RATE),
    (getenv Config.ENV_READ_TIMEOUT), (getenv Config.ENV_LOG_TO_SYSLOG),
    (getenv Config.ENV_CPU_TEMP_CMD), (getenv Config.ENV_NVME_TEMP_CMD),
    (getenv Config.ENV_FOREGROUND), (getenv Config.ENV_VERBOSE); reflexivity.
Qed.

Lemma parse_baud_known (s : string) :
  Config.speed_eqb (Config.config_parse_baud_rate s) Config.B0 = false
  <-> In (Config.atol s) [9600; 19200; 38400; 57600; 115200]%Z.
Proof.
  unfold Config.config_parse_baud_rate. cbn [In].
  destruct (Z.eqb_spec (Config.atol s) 9600); [cbn; intuition|].
  destruct (Z.eqb_spec (Config.atol s) 19200); [cbn; intuition|].
  destruct (Z.eqb_spec (Config.atol s) 38400); [cbn; intuition|].
  destruct (Z.eqb_spec (Config.atol s) 57600); [cbn; intuition|].
  destruct (Z.eqb_spec (Config.atol s) 115200); [cbn; intuition|].
  cbn. split; [discriminate|]. intuition congruence.
Qed.

Lemma unset_empty (s : string) : Config.unset (Some s) = false <-> s <> ""%string.
Proof. destruct s; cbn; split; congruence. Qed.

(** X18.  The start-up checks of [main] pass for exactly these environments:
    all eight variables are set; the port and the two commands are not
    empty; the baud rate, read as [atol] reads it, is one of 9600, 19200,
    38400, 57600 and 115200; the read timeout, read as [atoi] reads it, is
    positive.  The configuration is then made of the values given,
    whatever it held before. *)
Theorem config_accepted (getenv : Config.environ) (g : Config.config_t) :
  let '(rc, g', _) := Config.config_load_from_env getenv g in
  (rc = 0%Z /\ fst (Config.config_validate g') = 0%Z) <->
  exists port baud timeout syslog cpu nvme fg vb,
    getenv Config.ENV_SERIAL_PORT = Some port /\
    getenv Config.ENV_BAUD_RATE = Some baud /\
    getenv Config.ENV_READ_TIMEOUT = Some timeout /\
    getenv Config.ENV_LOG_TO_SYSLOG = Some syslog /\
    getenv Config.ENV_CPU_TEMP_CMD = Some cpu /\
    getenv Config.ENV_NVME_TEMP_CMD = Some nvme /\
    getenv Config.ENV_FOREGROUND = Some fg /\
    getenv Config.ENV_VERBOSE = Some vb /\
    port <> ""%string /\ cpu <> ""%string /\ nvme <> ""%string /\
    In (Config.atol baud) [9600; 19200; 38400; 57600; 115200]%Z /\
    (0 < Config.atoi timeout)%Z /\
    g' = Config.mkConfig (Some port) (Config.config_parse_baud_rate baud)
           (Config.atoi timeout) (Config.atoi syslog) (Some cpu) (Some nvme)
           (Config.atoi fg) (Config.atoi vb).
Proof.
  unfold Config.config_load_from_env. rewrite check_required_listing.
  destruct (existsb (Config.is_missing getenv) Config.required) eqn:Em.
  - cbn [Z.eqb negb]. split; [intros [H _]; discriminate H|].
    intros (port & baud & timeout & syslog & cpu & nvme & fg & vb
            & E1 & E2 & E3 & E4 & E5 & E6 & E7 & E8 & _).
    unfold Config.required, Config.is_missing in Em. cbn [existsb] in Em.
    rewrite E1, E2, E3, E4, E5, E6, E7, E8 in Em. discriminate Em.
  - cbn [Z.eqb negb].
    unfold Config.required, Config.is_missing in Em. cbn [existsb] in Em.
    unfold Config.load_steps, Config.load_serial_port, Config.load_baud_rate,
      Config.load_read_timeout, Config.load_log_to_syslog, Config.load_cpu_temp_cmd,
      Config.load_nvme_temp_cmd, Config.load_foreground, Config.load_verbose.
    destruct (getenv Config.ENV_SERIAL_PORT) as [port|]; [|discriminate Em].
    destruct (getenv Config.ENV_BAUD_RATE) as [baud|]; [|discriminate Em].
    destruct (getenv Config.ENV_READ_TIMEOUT) as [timeout|]; [|discriminate Em].
    destruct (getenv Config.ENV_LOG_TO_SYSLOG) as [syslog|]; [|discriminate Em].
    destruct (getenv Config.ENV_CPU_TEMP_CMD) as [cpu|]; [|discriminate Em].
    destruct (getenv Config.ENV_NVME_TEMP_CMD) as [nvme|]; [|discriminate Em].
    destruct (getenv Config.ENV_FOREGROUND) as [fg|]; [|discriminate Em].
    destruct (getenv Config.ENV_VERBOSE) as [vb|]; [|discriminate Em].
    clear Em.
    cbn [Config.serial_port Config.baud_rate Config.read_timeout_sec Config.log_to_syslog
         Config.cpu_temp_cmd Config.nvme_temp_cmd Config.foreground Config.verbose].
    pose proof (parse_baud_known baud) as Hb.
    destruct (Config.speed_eqb (Config.config_parse_baud_rate baud) Config.B0) eqn:Eb.
    { split; [intros [H _]; discriminate H|].
      intros (? & baud' & ? & ? & ? & ? & ? & ? & _ & E2 & _ & _ & _ & _ & _ & _
              & _ & _ & _ & Hin & _).
      inversion E2; subst baud'. apply Hb in Hin. discriminate Hin. }
    destruct (Z.leb_spec (Config.atoi timeout) 0) as [Ht|Ht].
    { split; [intros [H _]; discriminate H|].
      intros (? & ? & timeout' & ? & ? & ? & ? & ? & _ & _ & E3 & _ & _ & _ & _ & _
              & _ & _ & _ & _ & Hpos & _).
      inversion E3; subst timeout'. lia. }
    unfold Config.config_validate.
    cbn [Config.serial_port Config.baud_rate Config.read_timeout_sec Config.log_to_syslog
         Config.cpu_temp_cmd Config.nvme_temp_cmd Config.foreground Config.verbose].
    rewrite Eb. destruct (Z.leb_spec (Config.atoi timeout) 0) as [Ht'|_]; [lia|].
    pose proof (unset_empty port) as Up. pose proof (unset_empty cpu) as Uc.
    pose proof (unset_empty nvme) as Un.
    split.
    + intros [_ Hv].
      destruct (Config.unset (Some port)); [discriminate Hv|].
      destruct (Config.unset (Some cpu)); [discriminate Hv|].
      destruct (Config.unset (Some nvme)); [discriminate Hv|].
      exists port, baud, timeout, syslog, cpu, nvme, fg, vb.
      repeat split; try reflexivity; try tauto; try lia.
    + intros (port' & baud' & timeout' & syslog' & cpu' & nvme' & fg' & vb'
              & E1 & E2 & E3 & E4 & E5 & E6 & E7 & E8 & Hp & Hc & Hn & _).
      inversion E1; inversion E5; inversion E6; subst.
      apply Up in Hp. apply Uc in Hc. apply Un in Hn. rewrite Hp, Hc, Hn.
      split; reflexivity.
Qed.

(** X19.  When a variable is missing, [config_load_from_env] returns -1 and
    leaves the configuration as it was; before the usage text it names
    every missing variable, each once, in the order of the checks, and no
    variable that is set. *)
Theorem config_missing_reported (getenv : Config.environ) (g : Config.config_t) :
  (exists name, In name Config.required /\ getenv name = None) ->
  Config.config_load_from_env getenv g
  = ((-1)%Z, g,
     map Config.not_set (filter (Config.is_missing getenv) Config.required)
     ++ Config.config_print_usage).
Proof.
  intros (name & Hin & Hnone).
  unfold Config.config_load_from_env. rewrite check_required_listing.
  replace (existsb (Config.is_missing getenv) Config.required) with true; [reflexivity|].
  symmetry. apply existsb_exists. exists name. split; [exact Hin|].
  unfold Config.is_missing. now rewrite Hnone.
Qed.

Lemma config_missing_reported_witness :
  let getenv := fun name : string =>
    if String.eqb name Config.ENV_BAUD_RATE then None
    else if String.eqb name Config.ENV_VERBOSE then None
    else Some "1"%string in
  Config.config_load_from_env getenv Config.g_config
  = ((-1)%Z, Config.g_config,
     map Config.not_set (filter (Config.is_missing getenv) Config.required)
     ++ Config.config_print_usage).
Proof.
  intros getenv.
  apply (config_missing_reported getenv Config.g_config).
  exists Config.ENV_VERBOSE. split; [|reflexivity].
  unfold Config.required. cbn [In]. tauto.
Defined.

(** ** The text of a buffer in a debug message *)

Lemma log_char_shape (c : ascii) :
  1 <= length (log_char c) <= 2 /\ Forall (fun x => printable x = true) (log_char c).
Proof.
  unfold log_char.
  destruct (Ascii.eqb c LF); [split; [cbn; lia | repeat constructor]|].
  destruct (Ascii.eqb c CR); [split; [cbn; lia | repeat constructor]|].
  destruct ((32 <=? nat_of_ascii c) && (nat_of_ascii c <=? 126)) eqn:E;
    (split; [cbn; lia | repeat constructor]). exact E.
Qed.

Lemma log_char_plain (c : ascii) : printable c = true -> log_char c = [c].
Proof.
  intros H. unfold log_char.
  replace (Ascii.eqb c LF) with false.
  2:{ symmetry. apply Ascii.eqb_neq. intros ->. discriminate H. }
  replace (Ascii.eqb c CR) with false.
  2:{ symmetry. apply Ascii.eqb_neq. intros ->. discriminate H. }
  unfold printable in H. now rewrite H.
Qed.

Lemma log_escape_invariant (limit : nat) (data : list ascii) :
  forall out,
    length out <= limit + 1 ->
    Forall (fun x => printable x = true) out ->
    length (log_escape limit data out) <= limit + 1 /\
    Forall (fun x => printable x = true) (log_escape limit data out).
Proof.
  induction data as [|c t IH]; intros out Hlen Hall; cbn [log_escape]; [auto|].
  destruct (Nat.ltb_spec (length out) limit) as [Hlt|Hge]; [|auto].
  destruct (log_char_shape c) as [Hc Hp].
  apply IH.
  - rewrite length_app. lia.
  - apply Forall_app. auto.
Qed.

Lemma log_escape_plain (limit : nat) (data : list ascii) :
  forall out,
    Forall (fun x => printable x = true) data ->
    length out + length data <= limit ->
    log_escape limit data out = out ++ data.
Proof.
  induction data as [|c t IH]; intros out Hall Hlen; cbn [log_escape].
  - now rewrite app_nil_r.
  - inversion Hall as [|? ? Hc Ht]; subst. cbn [length] in Hlen.
    destruct (Nat.ltb_spec (length out) limit) as [_|Hge]; [|lia].
    rewrite log_char_plain by exact Hc.
    rewrite IH by (try rewrite length_app; cbn [length]; auto; lia).
    now rewrite <- app_assoc.
Qed.

(** X20.  The text made of a buffer for a debug message never outgrows its
    array: with the limits 61, 120 and 60 of the code it has at most 62,
    121 and 61 characters, so that the terminator lands inside the 64, 128
    and 64 bytes declared.  It holds printable characters only, and a
    printable text no longer than the limit is shown as it is. *)
Theorem log_text_fits (limit : nat) (data : list ascii) :
  length (log_escape limit data []) <= limit + 1 /\
  Forall (fun x => printable x = true) (log_escape limit data []) /\
  (Forall (fun x => printable x = true) data -> length data <= limit ->
   log_escape limit data [] = data).
Proof.
  destruct (log_escape_invariant limit data []) as [H1 H2]; [cbn; lia | constructor|].
  split; [exact H1 | split; [exact H2|]].
  intros Hall Hlen. now rewrite log_escape_plain.
Qed.

(** * The frame reader, on the bytes of its buffer *)

(** ** The scan, on the bytes of the buffer *)

Lemma skipn_cons_nth {A : Type} (i : nat) (l : list A) (d : A) :
  i < length l -> skipn i l = nth i l d :: skipn (S i) l.
Proof.
  revert i; induction l as [|x t IH]; intros i H; simpl in H; [lia|].
  destruct i as [|i]; [reflexivity|]. simpl. apply IH. lia.
Qed.

Lemma skip_eol_dropwhile (buf : list ascii) (n : nat) :
  forall i, i + n <= length buf ->
    firstn (i + n - skip_eol buf i n) (skipn (skip_eol buf i n) buf)
    = dropwhile is_eol (firstn n (skipn i buf)).
Proof.
  induction n as [|n IH]; intros i H; cbn [skip_eol].
  - rewrite Nat.add_0_r, Nat.sub_diag. reflexivity.
  - rewrite (skipn_cons_nth i buf NUL) by lia. cbn [firstn dropwhile].
    destruct (is_eol (nth i buf NUL)) eqn:E.
    + replace (i + S n) with (S i + n) by lia. apply IH. lia.
    + rewrite (skipn_cons_nth i buf NUL) by lia.
      replace (i + S n - i) with (S n) by lia. reflexivity.
Qed.

(** The scan with the skip loop read as a function of the bytes: the
    command is what is left of the bytes before [cmd_end] after their
    leading CR and LF bytes. *)
Lemma scan_buffer_exact (size : nat) (st : rdbuf) (bs : list ascii) :
  buffer_sized st ->
  scan_buffer size st bs
  = let st1 := append_chars st bs in
    match find_cmd_end st1 with
    | None => inl (RcNone, st1)
    | Some cmd_end =>
        let cmd := command_in (firstn cmd_end (contents st1)) in
        let st2 := remove_front st1 (chars_to_remove st1 cmd_end) in
        if (0 <? length cmd) && (length cmd <? size)
        then inl (RcCommand (strncpy cmd (length cmd)), st2)
        else inr st2
    end.
Proof.
  intros Hs. unfold scan_buffer. cbv zeta.
  set (st1 := append_chars st bs).
  assert (Hs1 : buffer_sized st1) by apply buffer_ok_sized, append_chars_ok, Hs.
  destruct (find_cmd_end st1) as [e|] eqn:He; [|reflexivity].
  pose proof (find_cmd_end_bound _ _ He) as Hb.
  pose proof (find_cmd_start_bound st1 e) as Hcs.
  pose proof (contents_length st1 Hs1) as HL.
  assert (Hseg : firstn (e - find_cmd_start st1 e)
                   (skipn (find_cmd_start st1 e) (g_read_buffer st1))
                 = command_in (firstn e (contents st1))).
  { rewrite segment_of_buffer by (auto; lia).
    unfold find_cmd_start, command_in.
    rewrite (skip_eol_ext (g_read_buffer st1) (contents st1) 0 e)
      by (intros j Hj; apply nth_contents; lia).
    pose proof (skip_eol_dropwhile (contents st1) e 0 ltac:(lia)) as H.
    cbn [skipn Nat.add] in H. exact H. }
  assert (Hlen : length (command_in (firstn e (contents st1))) = e - find_cmd_start st1 e).
  { rewrite <- Hseg, length_firstn, length_skipn. destruct Hs1 as [HB HP]. lia. }
  rewrite Hlen.
  destruct (_ && _); [|reflexivity].
  rewrite (strncpy_firstn (skipn _ (g_read_buffer st1))), Hseg. reflexivity.
Qed.

Lemma list_end_cases {A : Type} (l : list A) :
  l = [] \/ exists u x, l = u ++ [x].
Proof.
  destruct l as [|a l]; [now left | right].
  destruct (exists_last (l := a :: l)) as (u & x & H); [discriminate|]. eauto.
Qed.

Lemma without_cr_snoc (u : list ascii) (x : ascii) :
  without_cr (u ++ [x]) = if Ascii.eqb x CR then u else u ++ [x].
Proof.
  unfold without_cr. rewrite rev_app_distr. cbn [rev app].
  destruct (Ascii.eqb x CR); [apply rev_involutive | reflexivity].
Qed.

(** A buffer with one line feed: the command ends at the line feed, or at
    the carriage return just before it, and what is removed ends with the
    line feed. *)
Lemma find_cmd_end_one_lf (st : rdbuf) (pre post : list ascii) :
  buffer_sized st -> contents st = pre ++ LF :: post ->
  ~ In LF pre -> ~ In LF post ->
  exists e, find_cmd_end st = Some e /\
            firstn e (contents st) = without_cr pre /\
            chars_to_remove st e = S (length pre).
Proof.
  intros Hs Hc Hpre Hpost. pose proof (contents_length st Hs) as HL.
  assert (Hpos : g_buffer_pos st = length pre + S (length post)).
  { rewrite <- HL, Hc, length_app. reflexivity. }
  assert (Hnth : forall j, j < g_buffer_pos st ->
                   nth j (g_read_buffer st) NUL = nth j (pre ++ LF :: post) NUL).
  { intros j Hj. rewrite nth_contents by exact Hj. now rewrite Hc. }
  assert (Hlf : forall j, j < g_buffer_pos st ->
                  nth j (g_read_buffer st) NUL = LF -> j = length pre).
  { intros j Hj E. rewrite Hnth in E by exact Hj.
    destruct (Nat.lt_trichotomy j (length pre)) as [Hlt|[Heq|Hgt]]; [|exact Heq|].
    - exfalso. apply Hpre. rewrite app_nth1 in E by exact Hlt.
      rewrite <- E. now apply nth_In.
    - exfalso. apply Hpost. rewrite app_nth2 in E by lia.
      destruct (j - length pre) as [|k] eqn:Ek; [lia|]. cbn [nth] in E.
      rewrite <- E. apply nth_In. lia. }
  assert (Hend : nth (length pre) (g_read_buffer st) NUL = LF).
  { rewrite Hnth by lia. rewrite app_nth2 by lia. now rewrite Nat.sub_diag. }
  assert (Hfirst : firstn (length pre) (contents st) = pre).
  { rewrite Hc, firstn_app, Nat.sub_diag, firstn_all. cbn [firstn]. apply app_nil_r. }
  unfold find_cmd_end.
  destruct (scan (at_crlf (g_read_buffer st)) 0 (g_buffer_pos st - 1)) as [e|] eqn:E1.
  - apply scan_some in E1. destruct E1 as (Hr & Ht & _).
    unfold at_crlf in Ht. apply andb_prop in Ht. destruct Ht as [Ha Hb].
    apply Ascii.eqb_eq in Ha, Hb.
    assert (He : e + 1 = length pre) by (apply Hlf; [lia | exact Hb]).
    exists e. split; [reflexivity | split].
    + destruct (list_end_cases pre) as [->|(u & x & ->)]; [cbn in He; lia|].
      rewrite length_app in He. cbn [length] in He.
      assert (e = length u) by lia. subst e.
      assert (x = CR).
      { rewrite Hnth in Ha by lia. rewrite <- app_assoc, app_nth2 in Ha by lia.
        rewrite Nat.sub_diag in Ha. exact Ha. }
      subst x. rewrite without_cr_snoc. change (Ascii.eqb CR CR) with true. cbv iota.
      rewrite Hc, <- app_assoc, firstn_app, Nat.sub_diag, firstn_all. cbn [firstn].
      apply app_nil_r.
    + unfold chars_to_remove, at_crlf. rewrite Ha, Hb.
      change (Ascii.eqb CR CR && Ascii.eqb LF LF) with true.
      destruct (Nat.ltb_spec e (g_buffer_pos st - 1)); cbn [andb]; lia.
  - pose proof (scan_none _ _ _ E1) as Hnone.
    assert (E2 : scan (at_lf (g_read_buffer st)) 0 (g_buffer_pos st) = Some (length pre)).
    { apply scan_first; [lia | unfold at_lf; rewrite Hend; reflexivity |].
      intros j Hj. unfold at_lf. apply Ascii.eqb_neq. intros E.
      apply Hlf in E; lia. }
    rewrite E2. exists (length pre). split; [reflexivity | split].
    + rewrite Hfirst.
      destruct (list_end_cases pre) as [->|(u & x & ->)]; [reflexivity|].
      rewrite without_cr_snoc.
      destruct (Ascii.eqb_spec x CR) as [->|Hne]; [exfalso | reflexivity].
      rewrite length_app in *. cbn [length] in *.
      specialize (Hnone (length u) ltac:(lia)). unfold at_crlf in Hnone.
      assert (N1 : nth (length u) ((u ++ [CR]) ++ LF :: post) NUL = CR).
      { rewrite <- app_assoc, app_nth2, Nat.sub_diag by lia. reflexivity. }
      assert (N2 : nth (length u + 1) ((u ++ [CR]) ++ LF :: post) NUL = LF).
      { rewrite app_nth2 by (rewrite length_app; cbn [length]; lia).
        rewrite length_app. cbn [length]. now rewrite Nat.sub_diag. }
      rewrite !Hnth, N1, N2 in Hnone by lia.
      discriminate Hnone.
    + unfold chars_to_remove.
      replace ((length pre <? g_buffer_pos st - 1) && at_crlf (g_read_buffer st) (length pre))
        with false.
      2:{ symmetry. apply andb_false_iff. right. unfold at_crlf. rewrite Hend. reflexivity. }
      unfold at_lf. rewrite Hend. change (Ascii.eqb LF LF) with true.
      destruct (Nat.ltb_spec (length pre) (g_buffer_pos st)); cbn [andb]; lia.
Qed.

(** The scan of a buffer that holds one line feed: the bytes before it,
    less a carriage return at their end and the CR bytes at their front,
    are the command, returned when it is not empty and fits the caller's
    buffer and dropped otherwise; the bytes after the line feed stay. *)
Lemma scan_buffer_one_lf (size : nat) (st : rdbuf) (bs pre post : list ascii) :
  buffer_sized st ->
  contents (append_chars st bs) = pre ++ LF :: post ->
  ~ In LF pre -> ~ In LF post ->
  exists st2,
    buffer_ok st2 /\ contents st2 = post /\
    scan_buffer size st bs
    = let cmd := command_in (without_cr pre) in
      if (0 <? length cmd) && (length cmd <? size)
      then inl (RcCommand (strncpy cmd (length cmd)), st2)
      else inr st2.
Proof.
  intros Hs Hc Hpre Hpost.
  set (st1 := append_chars st bs) in *.
  assert (Hs1 : buffer_sized st1) by apply buffer_ok_sized, append_chars_ok, Hs.
  destruct (find_cmd_end_one_lf st1 pre post Hs1 Hc Hpre Hpost) as (e & He & Hseg & Hrm).
  exists (remove_front st1 (chars_to_remove st1 e)). split; [|split].
  - apply remove_front_ok, Hs1.
  - rewrite remove_front_contents, Hrm, Hc by exact Hs1.
    rewrite skipn_app, skipn_all2 by lia.
    replace (S (length pre) - length pre) with 1 by lia. reflexivity.
  - rewrite scan_buffer_exact by exact Hs. cbv zeta. fold st1. rewrite He, Hseg.
    reflexivity.
Qed.

Lemma reader_step (fd : Z) (size : nat) (st : rdbuf) (bs : list ascii)
    (evs : list io_event) :
  (0 <= fd)%Z -> 0 < size -> bs <> [] ->
  serial_read_complete_command fd size st (IoData bs :: evs)
  = match scan_buffer size st bs with
    | inl (r, st') => (r, st', evs)
    | inr st' => serial_read_complete_command fd size st' evs
    end.
Proof.
  intros Hfd Hsz Hne. cbn [serial_read_complete_command].
  destruct (Z.ltb_spec fd 0); try lia.
  destruct (Nat.eqb_spec size 0); try lia. cbn [orb].
  destruct bs as [|b bs]; [congruence | reflexivity].
Qed.

(** ** Bytes with at most one line feed, in any chunks *)

Lemma count_one_split (bs : list ascii) :
  count_occ ascii_dec bs LF <= 1 ->
  ~ In LF bs \/ exists a b, bs = a ++ LF :: b /\ ~ In LF a /\ ~ In LF b.
Proof.
  induction bs as [|c t IH]; intros H; [left; intros []|].
  cbn [count_occ] in H. destruct (ascii_dec c LF) as [->|Hne].
  - right. exists [], t. split; [reflexivity | split; [intros []|]].
    apply (count_occ_not_In ascii_dec). lia.
  - destruct (IH H) as [Hno|(a & b & -> & Ha & Hb)].
    + left. intros [E|Hin]; [congruence | now apply Hno].
    + right. exists (c :: a), b. split; [reflexivity | split; [|exact Hb]].
      intros [E|Hin]; [congruence | now apply Ha].
Qed.

Lemma concat_split_at {A : Type} (x : A) (chunks : list (list A)) :
  forall a b,
    concat chunks = a ++ x :: b -> ~ In x a ->
    exists init a2 b1 rest,
      chunks = init ++ (a2 ++ x :: b1) :: rest /\
      a = concat init ++ a2 /\ b = b1 ++ concat rest.
Proof.
  induction chunks as [|c cs IH]; intros a b H Ha.
  - destruct a; discriminate H.
  - cbn [concat] in H. apply app_eq_app in H. destruct H as [l [[H1 H2]|[H1 H2]]].
    + destruct l as [|y l'].
      * rewrite app_nil_r in H1. subst c. cbn [app] in H2.
        destruct (IH [] b (eq_sym H2) (fun F : In x [] => F))
          as (init & a2 & b1 & rest & E1 & E2 & E3).
        exists (a :: init), a2, b1, rest. subst cs. split; [reflexivity | split; [|exact E3]].
        cbn [concat]. rewrite <- app_assoc, <- E2, app_nil_r. reflexivity.
      * cbn [app] in H2. inversion H2; subst.
        exists [], a, l', cs. repeat split; reflexivity.
    + subst a. assert (Hl : ~ In x l) by (intros F; apply Ha, in_or_app; now right).
      destruct (IH l b H2 Hl) as (init & a2 & b1 & rest & E1 & E2 & E3).
      exists (c :: init), a2, b1, rest. subst cs. split; [reflexivity | split; [|exact E3]].
      cbn [concat]. rewrite <- app_assoc, <- E2. reflexivity.
Qed.

(** One call that reads bytes with one line feed into a buffer without
    one, everything fitting the buffer. *)
Lemma call_one_lf (fd : Z) (size : nat) (st : rdbuf) (a b : list ascii) :
  (0 <= fd)%Z -> 0 < size -> buffer_ok st ->
  ~ In LF (contents st ++ a) -> ~ In LF b ->
  length (contents st) + length (a ++ LF :: b) <= BUFSZ - 1 ->
  exists st2,
    buffer_ok st2 /\ contents st2 = b /\
    feed_calls fd size st [a ++ LF :: b]
    = (let cmd := command_in (without_cr (contents st ++ a)) in
       if (0 <? length cmd) && (length cmd <? size)
       then [strncpy cmd (length cmd)] else [], st2).
Proof.
  intros Hfd Hsz Hok Hpre Hpost Hlen. pose proof (buffer_ok_sized _ Hok) as Hs.
  assert (Hc : contents (append_chars st (a ++ LF :: b)) = (contents st ++ a) ++ LF :: b).
  { rewrite append_chars_contents by exact Hs.
    rewrite lastn_short by (rewrite length_app; exact Hlen).
    now rewrite <- app_assoc. }
  destruct (scan_buffer_one_lf size st _ _ _ Hs Hc Hpre Hpost) as (st2 & Hok2 & Hc2 & Hscan).
  exists st2. split; [exact Hok2 | split; [exact Hc2|]].
  cbn [feed_calls]. rewrite single_call by (auto; destruct a; discriminate).
  rewrite Hscan. cbv zeta. destruct (_ && _); reflexivity.
Qed.

(** C1, as amended.  Bytes that hold at most one line feed, fed to a reader
    whose buffer holds none and has room for them: every split into
    consecutive chunks, one call per chunk, yields the same sequence of
    extracted commands (none or one) as the whole sequence in a single
    call, and leaves the same bytes in the buffer.  The line feed may be
    anywhere in the sequence, and the chunks may be cut anywhere, also
    between a carriage return and its line feed. *)
Theorem single_frame_split_independent :
  forall (fd : Z) (size : nat) (st : rdbuf) (bs : list ascii)
         (chunks : list (list ascii)),
    (0 <= fd)%Z -> 0 < size ->
    buffer_ok st -> ~ In LF (contents st) ->
    count_occ ascii_dec bs LF <= 1 ->
    length (contents st) + length bs <= BUFSZ - 1 ->
    concat chunks = bs ->
    fst (feed_calls fd size st chunks) = fst (feed_calls fd size st [bs]) /\
    contents (snd (feed_calls fd size st chunks))
    = contents (snd (feed_calls fd size st [bs])).
Proof.
  intros fd size st bs chunks Hfd Hsz Hok Hst Hcount Hlen Hcat.
  pose proof (buffer_ok_sized _ Hok) as Hs.
  pose proof (contents_length st Hs) as HL.
  destruct (count_one_split bs Hcount) as [Hno|(a & b & Hbs & Ha & Hb)].
  - assert (Hchunks : Forall (fun c => ~ In LF c) chunks).
    { apply Forall_forall. intros c Hc Hin. apply Hno. rewrite <- Hcat.
      eapply in_concat_part; eauto. }
    assert (Hone : Forall (fun c => ~ In LF c) [bs]) by (constructor; auto).
    destruct (feed_calls_no_lf fd size chunks st Hfd Hsz Hok Hst Hchunks) as (A1 & _ & A3).
    destruct (feed_calls_no_lf fd size [bs] st Hfd Hsz Hok Hst Hone) as (B1 & _ & B3).
    rewrite A1, B1, A3, B3, Hcat. cbn [concat]. rewrite app_nil_r. split; reflexivity.
  - rewrite Hbs in Hcat, Hlen |- *. clear Hbs Hcount.
    destruct (concat_split_at LF chunks a b Hcat Ha)
      as (init & a2 & b1 & rest & -> & Ea & Eb).
    rewrite length_app in Hlen. cbn [length] in Hlen.
    assert (Hinit : Forall (fun c => ~ In LF c) init).
    { apply Forall_forall. intros c Hc Hin. apply Ha. rewrite Ea.
      apply in_or_app. left. eapply in_concat_part; eauto. }
    assert (Hrest : Forall (fun c => ~ In LF c) rest).
    { apply Forall_forall. intros c Hc Hin. apply Hb. rewrite Eb.
      apply in_or_app. right. eapply in_concat_part; eauto. }
    assert (Hb1 : ~ In LF b1) by (intros F; apply Hb; rewrite Eb; apply in_or_app; now left).
    (* the whole sequence in one call *)
    destruct (call_one_lf fd size st a b Hfd Hsz Hok) as (s2 & Hok2 & Hc2 & Hwhole).
    { intros F. apply in_app_or in F. tauto. }
    { exact Hb. }
    { rewrite length_app. cbn [length]. lia. }
    (* the chunks before the line feed *)
    destruct (feed_calls_no_lf fd size init st Hfd Hsz Hok Hst Hinit) as (I1 & I2 & I3).
    set (st1 := snd (feed_calls fd size st init)) in *.
    assert (Hlen_a : length a = length (concat init) + length a2)
      by (rewrite Ea, length_app; reflexivity).
    assert (Hlen_b : length b = length b1 + length (concat rest))
      by (rewrite Eb, length_app; reflexivity).
    rewrite lastn_short in I3 by (rewrite length_app; lia).
    (* the chunk with the line feed *)
    destruct (call_one_lf fd size st1 a2 b1 Hfd Hsz I2) as (s3 & Hok3 & Hc3 & Hmid).
    { rewrite I3, <- app_assoc, <- Ea. intros F. apply in_app_or in F. tauto. }
    { exact Hb1. }
    { rewrite I3, !length_app. cbn [length]. lia. }
    (* the chunks after it *)
    destruct (feed_calls_no_lf fd size rest s3 Hfd Hsz Hok3) as (R1 & R2 & R3);
      [rewrite Hc3; exact Hb1 | exact Hrest |].
    rewrite Hc3, <- Eb in R3.
    rewrite lastn_short in R3 by lia.
    rewrite feed_calls_app. fold st1. rewrite I1. cbn [app fst snd].
    change ((a2 ++ LF :: b1) :: rest) with ([a2 ++ LF :: b1] ++ rest).
    rewrite feed_calls_app, Hmid, Hwhole. cbn [fst snd].
    rewrite R1, R3, Hc2, app_nil_r.
    rewrite I3, <- app_assoc, <- Ea. split; reflexivity.
Qed.

(** A poll, its line ending and the start of the next one, cut inside the
    word and after the line feed. *)
Lemma single_frame_split_independent_witness :
  fst (feed_calls 3 256 serial_reset_read_buffer
         [bytes "PO"; bytes "LL" ++ [CR]; [LF] ++ bytes "P"; bytes "O"])
  = fst (feed_calls 3 256 serial_reset_read_buffer [bytes "POLL" ++ [CR; LF] ++ bytes "PO"]) /\
  contents (snd (feed_calls 3 256 serial_reset_read_buffer
         [bytes "PO"; bytes "LL" ++ [CR]; [LF] ++ bytes "P"; bytes "O"]))
  = contents (snd (feed_calls 3 256 serial_reset_read_buffer
         [bytes "POLL" ++ [CR; LF] ++ bytes "PO"])).
Proof.
  apply (single_frame_split_independent 3 256 serial_reset_read_buffer
           (bytes "POLL" ++ [CR; LF] ++ bytes "PO")
           [bytes "PO"; bytes "LL" ++ [CR]; [LF] ++ bytes "P"; bytes "O"]).
  - lia.
  - lia.
  - exact reset_ok.
  - intros H. exact H.
  - vm_compute. lia.
  - vm_compute. lia.
  - reflexivity.
Defined.

(** ** What either reader does with the bytes of one read *)

Lemma reader_step_daemon (fd : Z) (size : nat) (st : rdbuf) (bs : list ascii)
    (evs : list io_event) :
  (0 <= fd)%Z -> bs <> [] ->
  read_complete_command fd size st (IoData bs :: evs)
  = match scan_buffer size st bs with
    | inl (r, st') => (r, st', evs)
    | inr st' => read_complete_command fd size st' evs
    end.
Proof.
  intros Hfd Hne. cbn [read_complete_command].
  destruct (Z.ltb_spec fd 0); try lia.
  destruct bs as [|b bs]; [congruence | reflexivity].
Qed.

Lemma command_in_piece (body : list ascii) :
  exists front,
    body = front ++ command_in body /\ Forall (fun c => is_eol c = true) front /\
    is_eol (hd NUL (command_in body)) = false.
Proof.
  unfold command_in. induction body as [|c t IH].
  - exists []. repeat split; auto.
  - cbn [dropwhile]. destruct (is_eol c) eqn:E.
    + destruct IH as (front & H1 & H2 & H3).
      exists (c :: front). split; [cbn; now rewrite <- H1 | split; auto].
    + exists []. repeat split; auto.
Qed.

Lemma without_cr_piece (pre : list ascii) :
  exists back, pre = without_cr pre ++ back /\ (back = [] \/ back = [CR]).
Proof.
  destruct (list_end_cases pre) as [->|(u & x & ->)].
  - exists []. split; [reflexivity | now left].
  - rewrite without_cr_snoc. destruct (Ascii.eqb_spec x CR) as [->|Hne].
    + exists [CR]. split; [reflexivity | now right].
    + exists []. split; [now rewrite app_nil_r | now left].
Qed.

(** C7.  The read buffer under overflow.  For a buffer that satisfies the
    invariant (512 bytes, cursor at most 511, NUL at the cursor):
    - every call of either reader, whatever the line does, leaves a buffer
      that satisfies it;
    - adding bytes keeps the most recent 511 bytes, and a byte added to a
      full buffer pushes out exactly the oldest one;
    - calls that read bytes without a line feed, however many, return no
      command and leave the most recent 511 bytes in the buffer;
    - when a read then brings a line feed, the only one among the most
      recent 511 bytes, both readers do the same: the bytes between the
      oldest byte kept and the line feed, less the CR bytes at their front
      and a CR at their end, are the command; it is returned, by [strncpy],
      when it is not empty and shorter than the caller's buffer, and it is
      dropped otherwise, the call then going on with the next read; either
      way the buffer is left with the bytes that came after the line feed.
      So what is returned is made of the newest bytes sent, and a segment
      that fills the buffer is never returned to a caller whose own buffer
      is not larger than 511 bytes. *)
Theorem frame_buffer_overflow_invariant :
  forall (fd : Z) (size : nat) (st : rdbuf),
    buffer_ok st ->
    (forall evs,
        buffer_ok (snd (fst (serial_read_complete_command fd size st evs))) /\
        buffer_ok (snd (fst (read_complete_command fd size st evs)))) /\
    (forall bs,
        buffer_ok (append_chars st bs) /\
        contents (append_chars st bs) = lastn (BUFSZ - 1) (contents st ++ bs)) /\
    (forall c,
        g_buffer_pos st = BUFSZ - 1 ->
        contents (append_chars st [c]) = tl (contents st) ++ [c]) /\
    ((0 <= fd)%Z -> 0 < size -> ~ In LF (contents st) ->
     forall chunks,
       Forall (fun c => ~ In LF c) chunks ->
       fst (feed_calls fd size st chunks) = [] /\
       buffer_ok (snd (feed_calls fd size st chunks)) /\
       contents (snd (feed_calls fd size st chunks))
         = lastn (BUFSZ - 1) (contents st ++ concat chunks)) /\
    ((0 <= fd)%Z -> 0 < size ->
     forall bs pre post evs,
       bs <> [] ->
       lastn (BUFSZ - 1) (contents st ++ bs) = pre ++ LF :: post ->
       ~ In LF pre -> ~ In LF post ->
       exists older front back st2,
         contents st ++ bs = older ++ pre ++ LF :: post /\
         pre = front ++ command_in (without_cr pre) ++ back /\
         Forall (fun c => is_eol c = true) front /\
         (back = [] \/ back = [CR]) /\
         buffer_ok st2 /\ contents st2 = post /\
         let cmd := command_in (without_cr pre) in
         let out := strncpy cmd (length cmd) in
         serial_read_complete_command fd size st (IoData bs :: evs)
         = (if (0 <? length cmd) && (length cmd <? size)
            then (RcCommand out, st2, evs)
            else serial_read_complete_command fd size st2 evs) /\
         read_complete_command fd size st (IoData bs :: evs)
         = (if (0 <? length cmd) && (length cmd <? size)
            then (RcCommand out, st2, evs)
            else read_complete_command fd size st2 evs) /\
         cstring out = cstring cmd /\
         (~ In NUL cmd -> out = cmd)).
Proof.
  intros fd size st Hok. pose proof (buffer_ok_sized _ Hok) as Hs.
  split; [|split; [|split; [|split]]].
  - intros evs. split.
    + now apply serial_read_complete_command_ok.
    + now apply read_complete_command_ok.
  - intros bs. split.
    + now apply append_chars_ok.
    + now apply append_chars_contents.
  - intros c Hfull. rewrite append_chars_contents by exact Hs.
    change (BUFSZ - 1) with (S 510). rewrite lastn_snoc. f_equal.
    unfold lastn. rewrite contents_length, Hfull by exact Hs. reflexivity.
  - intros Hfd Hsz Hno chunks Hall. now apply feed_calls_no_lf.
  - intros Hfd Hsz bs pre post evs Hne Hwin Hpre Hpost.
    assert (Hc : contents (append_chars st bs) = pre ++ LF :: post)
      by (rewrite append_chars_contents by exact Hs; exact Hwin).
    destruct (scan_buffer_one_lf size st bs pre post Hs Hc Hpre Hpost)
      as (st2 & Hok2 & Hc2 & Hscan).
    destruct (lastn_suffix (BUFSZ - 1) (contents st ++ bs)) as [older Holder].
    destruct (without_cr_piece pre) as (back & Hback & Hb).
    destruct (command_in_piece (without_cr pre)) as (front & Hfront & Hf & _).
    exists older, front, back, st2.
    split; [now rewrite Holder, Hwin|].
    split; [rewrite app_assoc, <- Hfront; exact Hback|].
    split; [exact Hf|]. split; [exact Hb|]. split; [exact Hok2|]. split; [exact Hc2|].
    cbv zeta. cbv zeta in Hscan.
    rewrite reader_step, reader_step_daemon, Hscan by auto.
    split; [destruct (_ && _); reflexivity|].
    split; [destruct (_ && _); reflexivity|].
    split; [apply cstring_strncpy | apply strncpy_no_nul].
Qed.

Lemma not_in_by_test (x : ascii) (l : list ascii) :
  forallb (fun c => negb (Ascii.eqb c x)) l = true -> ~ In x l.
Proof.
  intros H Hin. rewrite forallb_forall in H. specialize (H x Hin).
  now rewrite Ascii.eqb_refl in H.
Qed.

(** 540 bytes without a terminator arrive in nine reads of 60, and the
    buffer holds the last 511 of them.  When "POLL" and a line feed
    follow, a caller with a buffer of 600 bytes is handed the 506 newest
    bytes of the flood followed by "POLL"; the daemons, whose buffer has
    256 bytes, are handed nothing for this line, it is dropped with the
    flood, and the line after it comes back as "POLL". *)
Lemma frame_buffer_overflow_invariant_witness :
  let flooded :=
    snd (feed_calls 3 256 serial_reset_read_buffer (repeat (repeat "A"%char 60) 9)) in
  let poll := bytes "POLL" ++ [LF] in
  buffer_ok flooded /\
  contents flooded = repeat "A"%char 511 /\
  (exists st2,
     contents st2 = [] /\
     serial_read_complete_command 3 600 flooded [IoData poll]
     = (RcCommand (repeat "A"%char 506 ++ bytes "POLL"), st2, [])) /\
  (exists st2,
     contents st2 = [] /\
     serial_read_complete_command 3 256 flooded [IoData poll] = (RcNone, st2, []) /\
     read_complete_command 3 256 flooded [IoData poll] = (RcNone, st2, [])) /\
  (exists st3,
     contents st3 = [] /\
     serial_read_complete_command 3 256 flooded [IoData poll; IoData poll]
     = (RcCommand (bytes "POLL"), st3, [])).
Proof.
  intros flooded poll.
  assert (Hok : buffer_ok flooded) by (vm_compute; repeat split; lia).
  assert (Hc : contents flooded = repeat "A"%char 511) by (vm_compute; reflexivity).
  assert (Hwin : lastn (BUFSZ - 1) (contents flooded ++ poll)
                 = (repeat "A"%char 506 ++ bytes "POLL") ++ LF :: [])
    by (vm_compute; reflexivity).
  assert (Hpre : ~ In LF (repeat "A"%char 506 ++ bytes "POLL"))
    by (apply not_in_by_test; vm_compute; reflexivity).
  assert (Hne : poll <> []) by discriminate.
  split; [exact Hok | split; [exact Hc | split; [|split]]].
  - destruct (frame_buffer_overflow_invariant 3 600 flooded Hok) as (_ & _ & _ & _ & H).
    destruct (H ltac:(lia) ltac:(lia) poll _ [] [] Hne Hwin Hpre (fun F => F))
      as (older & front & back & st2 & _ & _ & _ & _ & _ & Hc2 & Hrd & _).
    exists st2. split; [exact Hc2 | exact Hrd].
  - destruct (frame_buffer_overflow_invariant 3 256 flooded Hok) as (_ & _ & _ & _ & H).
    destruct (H ltac:(lia) ltac:(lia) poll _ [] [] Hne Hwin Hpre (fun F => F))
      as (older & front & back & st2 & _ & _ & _ & _ & _ & Hc2 & Hrd & Hrd' & _).
    exists st2. split; [exact Hc2 | split; [exact Hrd | exact Hrd']].
  - destruct (frame_buffer_overflow_invariant 3 256 flooded Hok) as (_ & _ & _ & _ & H).
    destruct (H ltac:(lia) ltac:(lia) poll _ [] [IoData poll] Hne Hwin Hpre (fun F => F))
      as (older & front & back & st2 & _ & _ & _ & _ & Hok2 & Hc2 & Hrd & _).
    destruct (frame_buffer_overflow_invariant 3 256 st2 Hok2) as (_ & _ & _ & _ & H2).
    assert (Hwin2 : lastn (BUFSZ - 1) (contents st2 ++ poll) = bytes "POLL" ++ LF :: [])
      by (rewrite Hc2; vm_compute; reflexivity).
    assert (Hpre2 : ~ In LF (bytes "POLL")) by (apply not_in_by_test; reflexivity).
    destruct (H2 ltac:(lia) ltac:(lia) poll _ [] [] Hne Hwin2 Hpre2 (fun F => F))
      as (older' & front' & back' & st3 & _ & _ & _ & _ & _ & Hc3 & Hrd3 & _).
    exists st3. split; [exact Hc3|].
    etransitivity; [exact Hrd | exact Hrd3].
Defined.

(** ** Segments that are empty once the stray bytes are skipped *)

Lemma command_in_nil (body : list ascii) :
  command_in body = [] <-> Forall (fun c => is_eol c = true) body.
Proof.
  unfold command_in. induction body as [|c t IH]; cbn [dropwhile].
  - split; auto.
  - destruct (is_eol c) eqn:E.
    + rewrite IH. split; [intros H; constructor; auto | intros H; now inversion H].
    + split; [discriminate | intros H; inversion H; congruence].
Qed.

Lemma reader_command_head (fd : Z) (size : nat) (evs : list io_event) :
  forall st out st' evs',
    serial_read_complete_command fd size st evs = (RcCommand out, st', evs') \/
    read_complete_command fd size st evs = (RcCommand out, st', evs') ->
    0 < length out < size /\ is_eol (hd NUL out) = false.
Proof.
  induction evs as [|ev evs IH]; intros st out st' evs' [H|H]; simpl in H.
  - destruct (_ || _); discriminate.
  - destruct (fd <? 0)%Z; discriminate.
  - destruct (_ || _); [discriminate|].
    destruct ev as [[|b bs]| | |]; try discriminate.
    destruct (scan_buffer size st (b :: bs)) as [[r s]|s] eqn:E.
    + inversion H; subst.
      pose proof (scan_buffer_command _ _ _ _ _ E).
      pose proof (scan_buffer_command_shape _ _ _ _ _ E). tauto.
    + apply (IH s out st' evs'). now left.
  - destruct (fd <? 0)%Z; [discriminate|].
    destruct ev as [[|b bs]| | |]; try discriminate.
    destruct (scan_buffer size st (b :: bs)) as [[r s]|s] eqn:E.
    + inversion H; subst.
      pose proof (scan_buffer_command _ _ _ _ _ E).
      pose proof (scan_buffer_command_shape _ _ _ _ _ E). tauto.
    + apply (IH s out st' evs'). now right.
Qed.

Lemma find_cmd_end_removed (st : rdbuf) (e : nat) :
  find_cmd_end st = Some e ->
  chars_to_remove st e = e + 1 \/ chars_to_remove st e = e + 2.
Proof.
  unfold find_cmd_end, chars_to_remove. intros He.
  destruct (scan (at_crlf (g_read_buffer st)) 0 (g_buffer_pos st - 1)) eqn:E.
  - inversion He; subst. apply scan_some in E. destruct E as (Hr & Ht & _).
    rewrite Ht. destruct (Nat.ltb_spec e (g_buffer_pos st - 1)); cbn [andb]; [now right | lia].
  - apply scan_some in He. destruct He as (Hr & Ht & _). rewrite Ht.
    destruct ((e <? g_buffer_pos st - 1) && at_crlf (g_read_buffer st) e); [now right|].
    destruct (Nat.ltb_spec e (g_buffer_pos st)); cbn [andb]; [now left | lia].
Qed.

(** C8.  An empty segment is dropped.
    - CR LF and then "POLL" CR LF give exactly one command, "POLL": when
      the two arrive in two calls, and when the second arrives while the
      call that dropped the first is still waiting; so it is for the reader
      of the single-file daemon.
    - Stray bytes in front: CR CR LF, and LF CR LF, give no command and
      leave nothing in the buffer; CR CR "POLL" CR LF gives "POLL".
    - Whatever the buffer holds and whatever arrives, a command returned
      by either reader is not empty and does not start with a CR or an LF:
      a segment that is empty once its leading CR and LF bytes are skipped
      is never handed to the caller.
    - Whatever the buffer holds, when the bytes read complete a segment
      (the search finds its end), the segment is judged by what is left of
      it after its leading CR and LF bytes: when nothing is left, both
      readers return nothing for it and go on with the next read; when
      something is left that fits the caller's buffer, that is returned;
      either way the segment is removed from the buffer together with its
      line ending, one or two bytes. *)
Theorem empty_frame_suppression :
  fst (feed_calls 3 256 serial_reset_read_buffer [[CR; LF]; bytes "POLL" ++ [CR; LF]])
    = [bytes "POLL"] /\
  (let '(r, st', evs') :=
     serial_read_complete_command 3 256 serial_reset_read_buffer
       [IoData [CR; LF]; IoData (bytes "POLL" ++ [CR; LF])] in
   r = RcCommand (bytes "POLL") /\ contents st' = [] /\ evs' = []) /\
  (let '(r, st', evs') :=
     serial_read_complete_command 3 256 serial_reset_read_buffer [IoData [CR; LF]] in
   r = RcNone /\ contents st' = [] /\ evs' = []) /\
  (let '(r, st', evs') :=
     read_complete_command 3 256 serial_reset_read_buffer
       [IoData [CR; LF]; IoData (bytes "POLL" ++ [CR; LF])] in
   r = RcCommand (bytes "POLL") /\ contents st' = [] /\ evs' = []) /\
  (let '(r, st', evs') :=
     serial_read_complete_command 3 256 serial_reset_read_buffer [IoData [CR; CR; LF]] in
   r = RcNone /\ contents st' = [] /\ evs' = []) /\
  (let '(r, st', evs') :=
     serial_read_complete_command 3 256 serial_reset_read_buffer [IoData [LF; CR; LF]] in
   r = RcNone /\ contents st' = [] /\ evs' = []) /\
  (let '(r, st', evs') :=
     serial_read_complete_command 3 256 serial_reset_read_buffer
       [IoData ([CR; CR] ++ bytes "POLL" ++ [CR; LF])] in
   r = RcCommand (bytes "POLL") /\ contents st' = [] /\ evs' = []) /\
  (forall fd size st evs out st' evs',
      serial_read_complete_command fd size st evs = (RcCommand out, st', evs') \/
      read_complete_command fd size st evs = (RcCommand out, st', evs') ->
      0 < length out /\ is_eol (hd NUL out) = false) /\
  (forall fd size st bs evs cmd_end,
      (0 <= fd)%Z -> 0 < size -> buffer_ok st -> bs <> [] ->
      find_cmd_end (append_chars st bs) = Some cmd_end ->
      let st1 := append_chars st bs in
      let body := firstn cmd_end (contents st1) in
      let st2 := remove_front st1 (chars_to_remove st1 cmd_end) in
      (Forall (fun c => is_eol c = true) body ->
       serial_read_complete_command fd size st (IoData bs :: evs)
         = serial_read_complete_command fd size st2 evs /\
       read_complete_command fd size st (IoData bs :: evs)
         = read_complete_command fd size st2 evs) /\
      (~ Forall (fun c => is_eol c = true) body ->
       length (command_in body) < size ->
       serial_read_complete_command fd size st (IoData bs :: evs)
         = (RcCommand (strncpy (command_in body) (length (command_in body))), st2, evs) /\
       read_complete_command fd size st (IoData bs :: evs)
         = (RcCommand (strncpy (command_in body) (length (command_in body))), st2, evs)) /\
      contents st2 = skipn (chars_to_remove st1 cmd_end) (contents st1) /\
      (chars_to_remove st1 cmd_end = cmd_end + 1 \/
       chars_to_remove st1 cmd_end = cmd_end + 2)).
Proof.
  split; [vm_compute; reflexivity|].
  split; [vm_compute; auto|].
  split; [vm_compute; auto|].
  split; [vm_compute; auto|].
  split; [vm_compute; auto|].
  split; [vm_compute; auto|].
  split; [vm_compute; auto|].
  split.
  - intros fd size st evs out st' evs' H.
    apply reader_command_head in H. split; [lia | tauto].
  - intros fd size st bs evs e Hfd Hsz Hok Hne He. cbv zeta.
    pose proof (buffer_ok_sized _ Hok) as Hs.
    pose proof (scan_buffer_exact size st bs Hs) as Hscan. cbv zeta in Hscan.
    set (st1 := append_chars st bs) in *. rewrite He in Hscan.
    set (body := firstn e (contents st1)) in *.
    set (st2 := remove_front st1 (chars_to_remove st1 e)) in *.
    assert (Hs1 : buffer_sized st1) by apply buffer_ok_sized, append_chars_ok, Hs.
    split; [|split; [|split]].
    + intros Hall. apply command_in_nil in Hall.
      rewrite reader_step, reader_step_daemon, Hscan, Hall by auto.
      split; reflexivity.
    + intros Hnot Hfit.
      assert (Hpos : 0 < length (command_in body)).
      { destruct (command_in body) eqn:E; [|cbn; lia].
        exfalso. apply Hnot. now apply command_in_nil. }
      rewrite reader_step, reader_step_daemon, Hscan by auto.
      destruct (Nat.ltb_spec 0 (length (command_in body))); [|lia].
      destruct (Nat.ltb_spec (length (command_in body)) size); [|lia].
      split; reflexivity.
    + subst st2. apply remove_front_contents, Hs1.
    + apply find_cmd_end_removed, He.
Qed.

(** CR CR LF in front of a poll, all in the same wait: the segment that
    ends at the first line ending holds a stray CR only and is dropped,
    and the poll comes back from the same call. *)
Lemma empty_frame_suppression_witness :
  (0 < length (bytes "POLL") /\ is_eol (hd NUL (bytes "POLL")) = false) /\
  serial_read_complete_command 3 256 serial_reset_read_buffer
    [IoData [CR; CR; LF]; IoData (bytes "POLL" ++ [CR; LF])]
  = serial_read_complete_command 3 256
      (remove_front (append_chars serial_reset_read_buffer [CR; CR; LF])
         (chars_to_remove (append_chars serial_reset_read_buffer [CR; CR; LF]) 1))
      [IoData (bytes "POLL" ++ [CR; LF])] /\
  fst (fst (serial_read_complete_command 3 256 serial_reset_read_buffer
              [IoData [CR; CR; LF]; IoData (bytes "POLL" ++ [CR; LF])]))
  = RcCommand (bytes "POLL").
Proof.
  destruct empty_frame_suppression as (_ & _ & _ & _ & _ & _ & _ & Hhead & Hdrop).
  split; [|split].
  - apply (Hhead 3%Z 256 serial_reset_read_buffer [IoData (bytes "POLL" ++ [LF])]
             (bytes "POLL")
             (snd (fst (serial_read_complete_command 3 256 serial_reset_read_buffer
                          [IoData (bytes "POLL" ++ [LF])])))
             []).
    left. vm_compute. reflexivity.
  - assert (He : find_cmd_end (append_chars serial_reset_read_buffer [CR; CR; LF]) = Some 1)
      by (vm_compute; reflexivity).
    assert (Hne : [CR; CR; LF] <> []) by discriminate.
    destruct (Hdrop 3%Z 256 serial_reset_read_buffer [CR; CR; LF]
                [IoData (bytes "POLL" ++ [CR; LF])] 1
                ltac:(lia) ltac:(lia) reset_ok Hne He) as (Hall & _).
    apply Hall. vm_compute. repeat constructor.
  - vm_compute. reflexivity.
Defined.
